(* ===== verification/_CoqProject ===== *)
-Q . S2P
Prelude.v
Kube.v
Helpers.v
Types.v
Effects.v
Observability.v
Names.v
Options.v
Objects.v
BaseReconciler.v
Status.v
Controller.v
Traffic.v
Plan.v
Follows.v
Spans.v
Footprint.v
SameResource.v
Sample.v
Loop.v
Isolation.v
Outcome.v
LogLines.v
Progress.v
Readiness.v
CommandLine.v
Workload.v
StorageTrace.v
Convergence.v
Cluster.v
WellFormed.v
Otel.v
Logging.v
Setup.v
Startup.v
Catalog.v
DeepCopy.v
