(* ===== verification/Prelude.v ===== *)
(** * Limitador operator: a verification library

    The Limitador operator is a Kubernetes controller. For each [Limitador]
    custom resource it keeps a Service, a volume claim, a Deployment, a limits
    ConfigMap and a disruption budget, annotates the Deployment's pods when the
    limits change, and reports a status. This library models the operator's Go
    code and proves what a reconciliation guarantees against any API server.

    ** The program and its model

    A function that talks to the API server, the tracing SDK, the log or the
    clock is a program [prog A] (Effects.v): it returns, panics, or makes one [call] and
    continues with the reply. A reply is anything of the right type, so the
    theorems cover servers that fail at any call and other writers that change
    the cluster between calls. [runs p t o] says that [p] makes the calls of the
    log [t] and ends with [o]; [exec] runs a program against one server.
    [deferring] is Go's [defer], run on return and on panic. A pure Go function
    is a pure function, in [outcome] if it may panic and in [result] if it may
    return an error. Pointers that may be nil are options, maps are [gmap]s,
    and integers are [Z] with Go's conversions written out.

    Two parts have a model of their own. The process of [main.go] is a program
    [proc A] (Startup.v), which may also exit, and an exit runs no deferred
    function. The generated deep copies work on a heap (DeepCopy.v), where a
    value is made of cells that point to each other; everywhere else a struct
    is an immutable value, which is what those copies make sound.

    What the repository only calls is a parameter: the class [Platform]
    (Kube.v) for errors, quantities, owner references, times, loggers and
    spans, and one class per codec or library function ([ConditionCodec],
    [LimitsCodec], [LimitadorCodec], [ControllerUtil], [StatusConditions],
    [OtelSDK], which has the order of a loop over a map too, [LogSinks],
    [ControllerRuntime], [ExternalCopies]). Little is assumed of them, and only
    where it is needed: the documented effect of [meta.SetStatusCondition]
    ([StatusConditionLaws]) and what the JSON of conditions shows of them, times
    to the second and texts in UTF-8 ([ConditionCodecLaws]), in Readiness.v;
    rules of the API, on values the operator copies unread ([ApiRules]), that
    accept its defaults ([AcceptedDefaults]) in WellFormed.v; the key of the
    namespace attribute in StorageTrace.v; external deep copies that are deep
    ([ExternalLaws]) in DeepCopy.v, owner references that do not depend on the
    version of the owner ([ControllerUtilLaws]) and a cluster nobody else
    touches between two runs ([undisturbed]) in Convergence.v, owners that can
    be set on fresh objects ([buildable]) and a server that answers
    ([favourable]) in Progress.v, listings of what the selector selects
    ([lists_selected]) in Isolation.v, and the effect the API documents of each
    call on the state of the cluster ([ClusterLaws]) in Cluster.v.

    ** The files and the code they model

    - Prelude.v: results, machine integers, the functions of Go's standard
      library the operator uses, sorting by a key.
    - Kube.v: the structs of the Kubernetes API with the fields the operator
      touches, errors, the class [Platform].
    - Helpers.v: [pkg/helpers]. Types.v: [api/v1alpha1], with the CRD's
      validation rules and the scheme builder.
    - Effects.v: calls, programs, runs, monitors and their rules.
    - Observability.v: [pkg/observability/logger.go] and [tracer.go].
    - Names.v, Options.v, Objects.v: [pkg/limitador].
    - BaseReconciler.v: [pkg/reconcilers].
    - Status.v, Controller.v: [controllers/limitador_status.go] and
      [controllers/limitador_controller.go]. A Go function whose body runs
      under [defer span.End()] is split into the function and its [_body];
      [Reconcile] is further split where it has read the resource.
    - Otel.v, Logging.v: [pkg/observability/otel.go] and [pkg/log/log.go], with
      the process-wide variables they set as states.
    - Setup.v, Startup.v: [main.go] with [SetupWithManager], the struct of the
      base reconciler and [NewTracer]; [main] is split where the manager is made.
    - DeepCopy.v: [api/v1alpha1/zz_generated.deepcopy.go]. A [DeepCopyInto] is
      the content it leaves in its target as a function of the content of its source,
      put together from the pieces the generator emits.

    ** Specification and refinement

    Plan.v states what a reconciliation is without contexts, loggers or spans:
    a [step] relates calls and replies to the error returned, [in_order] runs
    steps until one fails, [reconcile_run] is the whole. Traffic.v is the logic
    that relates a program to the calls it makes outside tracing and logging
    ([does]), and Follows.v proves that each function of the controller follows its step, up
    to [Reconcile_does]. Footprint.v derives from the plan what each call of a
    run may be ([duty]), the order of calls ([rank], [ordered]) and the effect
    of a refused write ([fail_stop]). SameResource.v is the equivalence of
    resources that ask for the same objects. Spans.v proves the discipline of
    spans, and of the loggers of log lines, with a second monitor. WellFormed.v
    states, field by field, the rules of the Kubernetes API for what the operator
    fills in. Sample.v is a small concrete cluster for witnesses.

    ** The theorems

    - Loop.v, Outcome.v: whole runs of [Reconcile]. It refines the plan; writes
      stay in scope, in order, stop at the first failure and are reported;
      success means every object is reconciled; a claim is only created; runs
      are bounded; only an inadmissible verbosity panics; the requeue the pods
      ask for is lost; spans are bracketed, permissions suffice.
    - LogLines.v: each log line is written with the values of the innermost open
      span, one kind of line apart, and each write has its line just before it.
    - Progress.v: a run in a healthy cluster succeeds. Convergence.v: once it
      has, the next run in the same cluster only repeats what was accepted.
      Isolation.v: runs on different resources write different objects, however
      interleaved.
    - Cluster.v: the state of the cluster as a step relation, with runs and other
      actors interleaved call by call. A successful run repairs any state, and
      a cluster that is as a resource asks stays so.
    - WellFormed.v: every object sent passes those rules, for a resource whose
      own fields leave room for it; exactly which names and ports allow a
      Service.
    - Readiness.v: when Ready is true, what a status patch says, that a stored
      status settles, what equality of statuses sees of conditions that have
      been through JSON.
    - CommandLine.v, Workload.v: what is deployed is coherent: command line,
      ports, probes, volumes, strategy, secrets, selectors, pods.
      StorageTrace.v: whether the storage named on the span is the one deployed.
    - Catalog.v, Setup.v, Otel.v, Logging.v: claim content, single objects, map
      merge, bounds, cache visibility, tracing and logging set-up.
    - Startup.v: the stages of a start and its exits, the shutdown an exit
      skips, how the controller is wired, initialisation.
    - DeepCopy.v: generated copies are equal and share no cell.

    ** Bounds

    No definition uses fuel: every program is a finite tree for each sequence of
    replies, so [exec] is total, and [Reconcile_bounded] counts its API calls: 13,
    plus one for each pod listed.

    ** What is not modelled

    Manifests, the bundle, charts, build files and tests, which hold no logic of
    the operator. The text [cmp.Diff] makes for a log line, kept as the two values
    compared, and what a logger does with a line. The
    address arithmetic of Go's memory: a copy's cells are allocated when their
    content is known. The clock is read at every [SetStatusCondition], whether
    or not it needs the time. Text handled by [ToLower] is ASCII. *)

From stdpp Require Export base tactics list gmap strings pretty sorting.
From Stdlib Require Export ZArith Lia.
From Stdlib Require Import Ascii.

#[export] Set Default Goal Selector "!".

(** ** Scope and notations of the development *)

Declare Scope go_scope.
Delimit Scope go_scope with go.

(** ** Results of Go calls

    [result E A] is a Go pair [(A, error)] whose first component is
    meaningful only when the error is [nil]; [outcome A] is a call that
    returns normally or panics. *)

Inductive result (E A : Type) : Type :=
  | Ok (a : A)
  | Err (e : E).
Arguments Ok {E A} a.
Arguments Err {E A} e.

Definition is_Ok {E A} (r : result E A) : Prop :=
  match r with
  | Ok _ => True
  | Err _ => False
  end.

Inductive outcome (A : Type) : Type :=
  | Done (a : A)
  | Panicked (msg : string).
Arguments Done {A} a.
Arguments Panicked {A} msg.

#[export] Instance outcome_ret : MRet outcome := λ A a, Done a.

#[export] Instance outcome_bind : MBind outcome := λ A B f o,
  match o with
  | Done a => f a
  | Panicked msg => Panicked msg
  end.

#[export] Instance result_eq_dec {E A} `{EqDecision E, EqDecision A} : EqDecision (result E A).
Proof. solve_decision. Defined.

#[export] Instance outcome_eq_dec {A} `{EqDecision A} : EqDecision (outcome A).
Proof. solve_decision. Defined.

(** The value of a Go function of type [([]byte, error)] whose error the
    caller drops: the zero value when the call failed. *)
Definition value_or {E A} (zero : A) (r : result E A) : A :=
  match r with
  | Ok a => a
  | Err _ => zero
  end.

(** ** Machine integers

    Go's [int] is 64 bits wide on every platform the operator is built for;
    an [int] is a [Z] in [[min_int64, max_int64]], an [int32] a [Z] in
    [[min_int32, max_int32]]. *)

Definition MinInt32 : Z := -2147483648.
Definition MaxInt32 : Z := 2147483647.
Definition MinInt64 : Z := -9223372036854775808.
Definition MaxInt64 : Z := 9223372036854775807.

Definition is_int32 (z : Z) : Prop := (MinInt32 ≤ z ≤ MaxInt32)%Z.
Definition is_int64 (z : Z) : Prop := (MinInt64 ≤ z ≤ MaxInt64)%Z.

(** The conversion [int32(z)]: two's-complement truncation. *)
Definition int32 (z : Z) : Z := ((z + 2147483648) mod 4294967296 - 2147483648)%Z.

#[export] Instance is_int32_dec z : Decision (is_int32 z).
Proof. unfold is_int32. apply _. Defined.

#[export] Instance is_int64_dec z : Decision (is_int64 z).
Proof. unfold is_int64. apply _. Defined.

(** ** The part of Go's standard library the operator uses *)

(** [strconv.Itoa] *)
Definition Itoa (z : Z) : string := pretty z.

(** [s] concatenated [n] times. *)
Fixpoint string_repeat (s : string) (n : nat) : string :=
  match n with
  | O => ""
  | S n' => s +:+ string_repeat s n'
  end.

(** [strings.Repeat], which panics on a negative count. *)
Definition Repeat (s : string) (count : Z) : outcome string :=
  if (count <? 0)%Z then Panicked "strings: negative Repeat count"
  else Done (string_repeat s (Z.to_nat count)).

(** [s] split at every occurrence of the byte [sep]; [cur] is the field
    being read, reversed. *)
Fixpoint split_go (sep : ascii) (cur : string) (s : string) : list string :=
  match s with
  | EmptyString => [String.rev cur]
  | String c s' =>
      if Ascii.eqb c sep then String.rev cur :: split_go sep "" s'
      else split_go sep (String c cur) s'
  end.

(** [strings.Split(s, sep)] for a separator of one byte. *)
Definition Split (s : string) (sep : ascii) : list string := split_go sep "" s.

(** [s] cut at the first occurrence of the byte [sep]. *)
Fixpoint cut (s : string) (sep : ascii) : option (string * string) :=
  match s with
  | EmptyString => None
  | String c s' =>
      if Ascii.eqb c sep then Some ("", s')
      else match cut s' sep with
           | Some (a, b) => Some (String c a, b)
           | None => None
           end
  end.

(** [strings.SplitN(s, sep, 2)] for a separator of one byte. *)
Definition SplitN2 (s : string) (sep : ascii) : list string :=
  match cut s sep with
  | Some (a, b) => [a; b]
  | None => [s]
  end.

(** The text of some bytes. *)
Definition of_bytes (bs : list N) : string := foldr (λ b s, String (Ascii.ascii_of_N b) s) "" bs.

(** The white space of [unicode.IsSpace] in UTF-8: tab, newline, vertical tab,
    form feed, carriage return, space; U+0085, U+00A0, U+1680, U+2000 to
    U+200A, U+2028, U+2029, U+202F, U+205F, U+3000. *)
Definition white_space : list string :=
  of_bytes <$> (((λ b, [b]) <$> [9; 10; 11; 12; 13; 32]) ++ [[194; 133]; [194; 160]; [225; 154; 128]] ++
    ((λ b, [226; 128; b]) <$> [128; 129; 130; 131; 132; 133; 134; 135; 136; 137; 138; 168; 169; 175]) ++
    [[226; 129; 159]; [227; 128; 128]])%N.

(** [s] without the prefix [p], if it has it. *)
Fixpoint strip_prefix (p s : string) : option string :=
  match p, s with
  | EmptyString, _ => Some s
  | String a p', String b s' => if Ascii.eqb a b then strip_prefix p' s' else None
  | String _ _, EmptyString => None
  end.

(** The first of the prefixes that [s] has taken off, as long as there is one;
    each takes a byte at least. *)
Fixpoint trim_prefixes (ps : list string) (fuel : nat) (s : string) : string :=
  match fuel with
  | O => s
  | S fuel' =>
      match list_find (λ p, is_Some (strip_prefix p s)) ps with
      | Some (_, p) => trim_prefixes ps fuel' (default s (strip_prefix p s))
      | None => s
      end
  end.

(** [strings.TrimSpace] *)
Definition TrimSpace (s : string) : string :=
  let s := trim_prefixes white_space (String.length s) s in
  String.rev (trim_prefixes (String.rev <$> white_space) (String.length s) (String.rev s)).

(** [strings.ToLower] on text in ASCII. *)
Fixpoint ToLower (s : string) : string :=
  match s with
  | EmptyString => ""
  | String c s' =>
      let n := Ascii.N_of_ascii c in
      String (if ((65 <=? n) && (n <=? 90))%N then Ascii.ascii_of_N (n + 32) else c) (ToLower s')
  end.

(** [strconv.ParseBool]; [None] is its syntax error. *)
Definition ParseBool (s : string) : option bool :=
  if bool_decide (s ∈ ["1"; "t"; "T"; "TRUE"; "true"; "True"]) then Some true
  else if bool_decide (s ∈ ["0"; "f"; "F"; "FALSE"; "false"; "False"]) then Some false
  else None.

(** The components of a rooted path after [filepath.Clean]: empty and [.]
    components dropped, [..] removing the one before it ([acc] is reversed). *)
Fixpoint clean_components (acc : list string) (cs : list string) : list string :=
  match cs with
  | [] => reverse acc
  | c :: cs' =>
      if bool_decide (c = "" ∨ c = ".") then clean_components acc cs'
      else if bool_decide (c = "..") then clean_components (tail acc) cs'
      else clean_components (c :: acc) cs'
  end.

(** [filepath.Join(dir, name)] for a [dir] that starts with a slash. *)
Definition JoinRooted (dir name : string) : string :=
  "/" +:+ String.concat "/" (clean_components [] (Split (dir +:+ "/" +:+ name) "/"%char)).

(** The byte [c] does not occur in the text. *)
Fixpoint free_of (c : ascii) (s : string) : bool :=
  match s with
  | EmptyString => true
  | String d s' => negb (Ascii.eqb d c) && free_of c s'
  end.

(** [sort.Slice(xs, less)]. The standard library does not promise a stable
    order; insertion sort is one algorithm that meets its contract. *)
Fixpoint insert_by {A} (less : A → A → bool) (x : A) (xs : list A) : list A :=
  match xs with
  | [] => [x]
  | y :: ys => if less y x then y :: insert_by less x ys else x :: y :: ys
  end.

Fixpoint sort_Slice {A} (less : A → A → bool) (xs : list A) : list A :=
  match xs with
  | [] => []
  | x :: xs' => insert_by less x (sort_Slice less xs')
  end.

(** ** Lemmas the components share *)

Create HintDb operator discriminated.

Lemma is_int32_int32 z : is_int32 (int32 z).
Proof.
  unfold is_int32, int32, MinInt32, MaxInt32.
  pose proof (Z.mod_pos_bound (z + 2147483648) 4294967296 eq_refl). lia.
Qed.

Lemma int32_id z : is_int32 z → int32 z = z.
Proof.
  unfold is_int32, int32, MinInt32, MaxInt32. intros Hz.
  rewrite Z.mod_small; lia.
Qed.

#[export] Instance Itoa_inj : Inj (=) (=) Itoa.
Proof. unfold Itoa. apply _. Qed.

Lemma Repeat_nonneg s n : (0 ≤ n)%Z → Repeat s n = Done (string_repeat s (Z.to_nat n)).
Proof. intros Hn. unfold Repeat. by rewrite (proj2 (Z.ltb_ge n 0)). Qed.

Lemma string_length_app (a b : string) :
  String.length (a +:+ b) = String.length a + String.length b.
Proof. induction a as [|c a IH]; simpl; [done|]. by rewrite IH. Qed.

Lemma string_repeat_length s n :
  String.length (string_repeat s n) = n * String.length s.
Proof. induction n as [|n IH]; simpl; [done|]. rewrite string_length_app. lia. Qed.

(** A formatted name [prefix ++ name] determines [name]. *)
#[export] Instance string_app_inj_r (p : string) : Inj (=) (=) (λ s, p +:+ s).
Proof. intros a b. apply (inj (String.app p)). Qed.

(** *** Cutting and splitting *)

Lemma app_cons c (a b : string) : String c a +:+ b = String c (a +:+ b).
Proof. done. Qed.

Lemma string_app_assoc (a b c : string) : (a +:+ b) +:+ c = a +:+ (b +:+ c).
Proof. induction a as [|d a IH]; [done|]. rewrite !app_cons. by rewrite IH. Qed.

Lemma string_app_nil_r (a : string) : a +:+ "" = a.
Proof. induction a as [|d a IH]; [done|]. rewrite app_cons. by rewrite IH. Qed.

Lemma free_of_app c a b : free_of c (a +:+ b) = free_of c a && free_of c b.
Proof.
  induction a as [|d a IH]; [done|]. rewrite app_cons. cbn [free_of]. by rewrite IH, andb_assoc.
Qed.

Lemma cut_free a b c : free_of c a = true → cut (a +:+ String c b) c = Some (a, b).
Proof.
  induction a as [|d a IH].
  { intros _. change ("" +:+ String c b) with (String c b). cbn [cut]. by rewrite Ascii.eqb_refl. }
  rewrite app_cons. cbn [free_of cut].
  intros [Hd Ha]%andb_true_iff. rewrite IH by done. by destruct (Ascii.eqb d c).
Qed.

Lemma rev_app_rev (a b : string) : String.rev_app a b = String.rev a +:+ b.
Proof.
  unfold String.rev. revert b. induction a as [|c a IH]; intros b; [done|]. cbn [String.rev_app].
  rewrite IH, (IH (String c "")). by rewrite string_app_assoc.
Qed.

Lemma rev_cons c (a b : string) : String.rev (String c a) +:+ b = String.rev a +:+ String c b.
Proof.
  change (String.rev_app a (String c "") +:+ b = String.rev a +:+ String c b).
  by rewrite rev_app_rev, string_app_assoc.
Qed.

Lemma split_go_free c cur a : free_of c a = true → split_go c cur a = [String.rev cur +:+ a].
Proof.
  revert cur. induction a as [|d a IH]; intros cur; cbn [free_of split_go].
  { intros _. by rewrite string_app_nil_r. }
  intros [Hd Ha]%andb_true_iff. apply negb_true_iff in Hd. rewrite Hd, IH by done.
  by rewrite rev_cons.
Qed.

Lemma split_go_sep c cur a rest :
  free_of c a = true →
  split_go c cur (a +:+ String c rest) = (String.rev cur +:+ a) :: split_go c "" rest.
Proof.
  revert cur. induction a as [|d a IH]; intros cur.
  { intros _. change ("" +:+ String c rest) with (String c rest). cbn [split_go].
    by rewrite Ascii.eqb_refl, string_app_nil_r. }
  rewrite app_cons. cbn [free_of split_go].
  intros [Hd Ha]%andb_true_iff. apply negb_true_iff in Hd. rewrite Hd, IH by done.
  by rewrite rev_cons.
Qed.

(** Splitting what was joined. *)
Lemma Split_concat (ss : list string) :
  ss ≠ [] → Forall (λ s, free_of ","%char s = true) ss →
  Split (String.concat "," ss) ","%char = ss.
Proof.
  intros Hne H. unfold Split. induction H as [|s ss Hs H IH]; [done|].
  destruct ss as [|s' ss]; [by rewrite split_go_free|].
  change (String.concat "," (s :: s' :: ss)) with
    (s +:+ String ","%char (String.concat "," (s' :: ss))).
  rewrite split_go_sep by done. f_equal. by apply IH.
Qed.

(** *** White space *)

Example TrimSpace_spaces :
  TrimSpace (of_bytes [226; 128; 131; 32; 97; 32; 98; 194; 160; 9]%N) = "a b" ∧
  TrimSpace (of_bytes [195; 160; 194; 133]%N) = of_bytes [195; 160]%N.
Proof. by split; vm_compute. Qed.

(** *** Sorting *)

(** Sorting commutes with a map that keeps the order. *)
Lemma sort_Slice_fmap {A B} (f : A → B) (lt : A → A → bool) (lt' : B → B → bool) xs :
  (∀ x y, lt x y = lt' (f x) (f y)) → f <$> sort_Slice lt xs = sort_Slice lt' (f <$> xs).
Proof.
  intros Hlt. assert (Hins : ∀ x ys, f <$> insert_by lt x ys = insert_by lt' (f x) (f <$> ys)).
  { intros x ys. induction ys as [|y ys IH]; [done|]. simpl. rewrite <-Hlt.
    destruct (lt y x); [|done]. rewrite fmap_cons. by rewrite IH. }
  induction xs as [|x xs IH]; [done|]. simpl. by rewrite Hins, IH.
Qed.

(** *** Sorting by a string key *)

Lemma ltb_le (a b : string) : String.ltb a b = true → String.le a b.
Proof. unfold String.ltb, String.le, String.leb. by destruct (String.compare a b). Qed.

Lemma not_ltb_le (a b : string) : String.ltb a b = false → String.le b a.
Proof.
  unfold String.ltb, String.le, String.leb. rewrite (String.compare_antisym b a).
  by destruct (String.compare a b).
Qed.

Section sort_by_key.
Context {A : Type} (key : A → string).

Definition key_le (a b : A) : Prop := String.le (key a) (key b).

#[local] Instance key_le_trans : Transitive key_le.
Proof. intros a b c. unfold key_le. apply transitivity. Qed.

Abbreviation less := (λ a b, String.ltb (key a) (key b)).

Lemma insert_by_perm x xs : insert_by less x xs ≡ₚ x :: xs.
Proof.
  induction xs as [|y ys IH]; simpl; [done|].
  destruct (String.ltb _ _); [|done]. by rewrite IH, Permutation_swap.
Qed.

Lemma sort_Slice_perm xs : sort_Slice less xs ≡ₚ xs.
Proof. induction xs as [|x xs IH]; simpl; [done|]. by rewrite insert_by_perm, IH. Qed.

Lemma insert_by_sorted x xs :
  StronglySorted key_le xs → StronglySorted key_le (insert_by less x xs).
Proof.
  induction xs as [|y ys IH]; simpl; intros Hs; [by repeat constructor|].
  apply StronglySorted_cons in Hs as [Hy Hs].
  destruct (String.ltb (key y) (key x)) eqn:Hlt.
  - apply StronglySorted_cons. split; [|by apply IH].
    rewrite insert_by_perm. constructor; [by apply ltb_le|done].
  - apply not_ltb_le in Hlt. constructor; [by constructor|].
    constructor; [done|]. eapply Forall_impl; [exact Hy|].
    intros z Hz. by trans y.
Qed.

Lemma sort_Slice_sorted xs : StronglySorted key_le (sort_Slice less xs).
Proof. induction xs as [|x xs IH]; simpl; [constructor|]. by apply insert_by_sorted. Qed.

Lemma NoDup_key_inj (xs : list A) a b :
  NoDup (key <$> xs) → a ∈ xs → b ∈ xs → key a = key b → a = b.
Proof.
  induction xs as [|x xs IH]; [by intros _ ?%elem_of_nil|].
  rewrite fmap_cons, NoDup_cons. intros [Hx Hnd] [->|Ha]%elem_of_cons [->|Hb]%elem_of_cons Hab.
  - done.
  - destruct Hx. rewrite Hab. by apply list_elem_of_fmap_2.
  - destruct Hx. rewrite <-Hab. by apply list_elem_of_fmap_2.
  - by apply IH.
Qed.

(** Two sorted orders of the same elements agree when the keys are distinct. *)
Lemma sorted_unique xs ys :
  NoDup (key <$> xs) → xs ≡ₚ ys →
  StronglySorted key_le xs → StronglySorted key_le ys → xs = ys.
Proof.
  intros Hnd Hperm Hx Hy. apply (StronglySorted_unique_strong key_le); [|done..].
  intros a b Ha Hb Hab Hba. apply (NoDup_key_inj xs); [done|done| |].
  - by rewrite Hperm.
  - by apply (anti_symm String.le).
Qed.

Lemma sort_Slice_proper xs ys :
  NoDup (key <$> xs) → xs ≡ₚ ys → sort_Slice less xs = sort_Slice less ys.
Proof.
  intros Hnd Hperm. apply sorted_unique.
  - by rewrite sort_Slice_perm.
  - by rewrite !sort_Slice_perm.
  - apply sort_Slice_sorted.
  - apply sort_Slice_sorted.
Qed.
End sort_by_key.

#[export] Hint Resolve is_int32_int32 int32_id : operator.
