(* ===== verification/Kube.v ===== *)
(** * The Kubernetes vocabulary of the operator

    The structs of [k8s.io/api], [k8s.io/apimachinery] and the function
    values of the other packages the operator calls. Those packages are not
    part of this repository: their types appear with the fields the operator
    reads or writes (every other field keeps its Go zero value in an object
    the operator builds), and their functions are members of the class
    [Platform], over which the whole development is generic. *)

From S2P Require Import Prelude.

Record NamespacedName := { nn_Namespace : string; nn_Name : string }.

(** A value attached to a logger: a string or an object key. *)
Inductive log_value := LogString (s : string) | LogKey (k : NamespacedName).

(** ** What the operator calls and this repository does not define

    [ExtError] is an [error] made by the API machinery; [Err_IsNotFound] is
    [apierrors.IsNotFound] on it, [NoLogger] the error of [logr.FromContext]
    on a context without a logger. [noopSpan] is the span [SpanFromContext]
    gives for a context without one. [Quantity], [Affinity], [OwnerReference],
    [Time], [Logger] and [Span] are opaque to the operator, which only moves
    them around, through the functions listed. *)
Class Platform := {
  ExtError : Type;
  Err_Error : ExtError → string;
  Err_IsNotFound : ExtError → bool;
  NoLogger : ExtError;
  Quantity : Type;
  MustParse : string → Quantity;
  Affinity : Type;
  OwnerReference : Type;
  Time : Type;
  Time_zero : Time;
  Logger : Type;
  WithValues : Logger → list (string * log_value) → Logger;
  WithName : Logger → string → Logger;
  V1_Enabled : Logger → bool;
  Span : Type;
  noopSpan : Span;
  Span_IsRecording : Span → bool;
  SpanContext_IsValid : Span → bool;
  TraceID_String : Span → string;
  SpanID_String : Span → string;
  K8SNamespaceNameKey : string;
  env_GetString : string → string → string;
}.

Section kube.
Context {PF : Platform}.

(** ** Errors

    [errors.New], an error of the API machinery, and
    [fmt.Errorf(prefix ++ ": %w", err)]. *)
Inductive error : Type :=
  | ErrNew (msg : string)
  | ErrExt (e : ExtError)
  | ErrWrap (prefix : string) (e : error).

(** [err.Error()] *)
Fixpoint Error (e : error) : string :=
  match e with
  | ErrNew msg => msg
  | ErrExt e => Err_Error e
  | ErrWrap prefix e => prefix +:+ ": " +:+ Error e
  end.

(** [apierrors.IsNotFound(err)], which looks through wrapped errors and is
    false for an error without an API status. *)
Fixpoint IsNotFound (e : error) : bool :=
  match e with
  | ErrNew _ => false
  | ErrExt e => Err_IsNotFound e
  | ErrWrap _ e => IsNotFound e
  end.

(** [client.IgnoreNotFound(err)] *)
Definition IgnoreNotFound (e : error) : option error :=
  if IsNotFound e then None else Some e.

(** ** metav1 *)

Record TypeMeta := { tm_Kind : string; tm_APIVersion : string }.

(** [metav1.ListMeta], which the operator never reads. *)
Record ListMeta := { lm_ResourceVersion : string; lm_Continue : string }.

(** [Annotations] keeps the difference between a nil and an empty map. *)
Record ObjectMeta := {
  om_Name : string;
  om_Namespace : string;
  om_Labels : gmap string string;
  om_Annotations : option (gmap string string);
  om_OwnerReferences : list OwnerReference;
  om_Generation : Z;
  om_ResourceVersion : string;
  om_DeletionTimestamp : option Time
}.

(** The literal [metav1.ObjectMeta{Name: ..., Namespace: ..., Labels: ...}]. *)
Definition new_meta (name namespace : string) (labels : gmap string string) : ObjectMeta :=
  {| om_Name := name; om_Namespace := namespace; om_Labels := labels;
     om_Annotations := None; om_OwnerReferences := []; om_Generation := 0;
     om_ResourceVersion := ""; om_DeletionTimestamp := None |}.

Definition with_annotations (a : option (gmap string string)) (m : ObjectMeta) : ObjectMeta :=
  {| om_Name := om_Name m; om_Namespace := om_Namespace m; om_Labels := om_Labels m;
     om_Annotations := a; om_OwnerReferences := om_OwnerReferences m;
     om_Generation := om_Generation m; om_ResourceVersion := om_ResourceVersion m;
     om_DeletionTimestamp := om_DeletionTimestamp m |}.

Definition with_owners (o : list OwnerReference) (m : ObjectMeta) : ObjectMeta :=
  {| om_Name := om_Name m; om_Namespace := om_Namespace m; om_Labels := om_Labels m;
     om_Annotations := om_Annotations m; om_OwnerReferences := o;
     om_Generation := om_Generation m; om_ResourceVersion := om_ResourceVersion m;
     om_DeletionTimestamp := om_DeletionTimestamp m |}.

(** [client.ObjectKeyFromObject] *)
Definition key_of (m : ObjectMeta) : NamespacedName :=
  {| nn_Namespace := om_Namespace m; nn_Name := om_Name m |}.

Inductive ConditionStatus := ConditionTrue | ConditionFalse | ConditionUnknown.

Record Condition := {
  cond_Type : string;
  cond_Status : ConditionStatus;
  cond_ObservedGeneration : Z;
  cond_LastTransitionTime : Time;
  cond_Reason : string;
  cond_Message : string
}.

Inductive IntOrString := FromInt (z : Z) | FromString (s : string).

(** [metav1.LabelSelector] with its [MatchLabels]. *)
Record LabelSelector := { MatchLabels : gmap string string }.

(** ** corev1 *)

Inductive Protocol := ProtocolTCP | ProtocolUDP.

Record ServicePort := {
  sp_Name : string;
  sp_Protocol : Protocol;
  sp_Port : Z;
  sp_TargetPort : IntOrString
}.

Inductive ServiceType := ServiceTypeClusterIP | ServiceTypeNodePort | ServiceTypeLoadBalancer.

Definition ClusterIPNone : string := "None".

Record Service := {
  svc_TypeMeta : TypeMeta;
  svc_ObjectMeta : ObjectMeta;
  svc_Ports : list ServicePort;
  svc_Selector : gmap string string;
  svc_ClusterIP : string;
  svc_Type : ServiceType
}.

Record LocalObjectReference := { lor_Name : string }.

Record SecretKeySelector := { sks_Name : string; sks_Key : string }.

Record EnvVar := { ev_Name : string; ev_SecretKeyRef : option SecretKeySelector }.

Record ContainerPort := {
  cp_Name : string;
  cp_ContainerPort : Z;
  cp_Protocol : Protocol
}.

Inductive URIScheme := URISchemeHTTP | URISchemeHTTPS.

Record HTTPGetAction := { hg_Path : string; hg_Port : IntOrString; hg_Scheme : URIScheme }.

Record Probe := {
  pr_HTTPGet : option HTTPGetAction;
  pr_InitialDelaySeconds : Z;
  pr_TimeoutSeconds : Z;
  pr_PeriodSeconds : Z;
  pr_SuccessThreshold : Z;
  pr_FailureThreshold : Z
}.

Record ResourceRequirements := {
  rr_Requests : gmap string Quantity;
  rr_Limits : gmap string Quantity
}.

Record VolumeMount := { vm_ReadOnly : bool; vm_Name : string; vm_MountPath : string }.

Record PersistentVolumeClaimVolumeSource := { pvs_ClaimName : string; pvs_ReadOnly : bool }.

Record Volume := {
  vol_Name : string;
  vol_ConfigMap : option LocalObjectReference;
  vol_PersistentVolumeClaim : option PersistentVolumeClaimVolumeSource
}.

Inductive PullPolicy := PullAlways | PullNever | PullIfNotPresent.

Record Container := {
  c_Name : string;
  c_Image : string;
  c_Command : list string;
  c_Args : list string;
  c_Env : list EnvVar;
  c_Ports : list ContainerPort;
  c_LivenessProbe : option Probe;
  c_ReadinessProbe : option Probe;
  c_Resources : ResourceRequirements;
  c_VolumeMounts : list VolumeMount;
  c_ImagePullPolicy : PullPolicy
}.

Record PodSpec := {
  ps_Affinity : option Affinity;
  ps_ImagePullSecrets : list LocalObjectReference;
  ps_Containers : list Container;
  ps_Volumes : list Volume
}.

Record PodTemplateSpec := { pt_Labels : gmap string string; pt_Spec : PodSpec }.

Record Pod := { pod_TypeMeta : TypeMeta; pod_ObjectMeta : ObjectMeta }.

Record ConfigMap := {
  cm_TypeMeta : TypeMeta;
  cm_ObjectMeta : ObjectMeta;
  cm_Data : gmap string string
}.

(** A Secret's [Data]: key to bytes. *)
Record Secret := { sec_ObjectMeta : ObjectMeta; sec_Data : gmap string string }.

Inductive AccessMode := ReadWriteOnce | ReadOnlyMany | ReadWriteMany.

Record PersistentVolumeClaim := {
  pvc_TypeMeta : TypeMeta;
  pvc_ObjectMeta : ObjectMeta;
  pvc_AccessModes : list AccessMode;
  pvc_Requests : gmap string Quantity;
  pvc_StorageClassName : option string;
  pvc_VolumeName : string
}.

Definition ResourceCPU : string := "cpu".
Definition ResourceMemory : string := "memory".
Definition ResourceStorage : string := "storage".

(** ** policyv1 *)

Record PodDisruptionBudget := {
  pdb_TypeMeta : TypeMeta;
  pdb_ObjectMeta : ObjectMeta;
  pdb_Selector : option LabelSelector;
  pdb_MaxUnavailable : option IntOrString;
  pdb_MinAvailable : option IntOrString
}.

(** ** appsv1 *)

Inductive DeploymentStrategyType := RecreateDeploymentStrategyType | RollingUpdateDeploymentStrategyType.

Record RollingUpdateDeployment := {
  ru_MaxUnavailable : option IntOrString;
  ru_MaxSurge : option IntOrString
}.

(** A strategy whose [Type] is the empty string is the Go zero value: [None]. *)
Record DeploymentStrategy := {
  ds_Type : option DeploymentStrategyType;
  ds_RollingUpdate : option RollingUpdateDeployment
}.

Record DeploymentCondition := {
  dc_Type : string;
  dc_Status : ConditionStatus;
  dc_Message : string
}.

(** [appsv1.DeploymentAvailable] *)
Definition DeploymentAvailable : string := "Available".

Record DeploymentStatus := {
  dst_ObservedGeneration : Z;
  dst_Replicas : Z;
  dst_ReadyReplicas : Z;
  dst_UnavailableReplicas : Z;
  dst_Conditions : list DeploymentCondition
}.

Record DeploymentSpec := {
  dsp_Replicas : option Z;
  dsp_Strategy : DeploymentStrategy;
  dsp_Selector : option LabelSelector;
  dsp_Template : PodTemplateSpec
}.

Record Deployment := {
  dep_TypeMeta : TypeMeta;
  dep_ObjectMeta : ObjectMeta;
  dep_Spec : DeploymentSpec;
  dep_Status : DeploymentStatus
}.

(** The status of a Deployment literal that leaves [Status] out. *)
Definition DeploymentStatus_zero : DeploymentStatus :=
  {| dst_ObservedGeneration := 0; dst_Replicas := 0; dst_ReadyReplicas := 0;
     dst_UnavailableReplicas := 0; dst_Conditions := [] |}.

(** ** Lemmas *)

Lemma IgnoreNotFound_None e : IgnoreNotFound e = None ↔ IsNotFound e = true.
Proof. unfold IgnoreNotFound. destruct (IsNotFound e); split; congruence. Qed.

Lemma IgnoreNotFound_Some e e' :
  IgnoreNotFound e = Some e' ↔ e' = e ∧ IsNotFound e = false.
Proof. unfold IgnoreNotFound. destruct (IsNotFound e); split; intuition congruence. Qed.

(** A selector selects a set of labels when every pair it lists is there. *)
Definition selects (sel labels : gmap string string) : Prop := sel ⊆ labels.

#[global] Instance selects_dec sel labels : Decision (selects sel labels).
Proof. unfold selects. apply _. Defined.

End kube.

#[export] Instance ConditionStatus_eq_dec : EqDecision ConditionStatus.
Proof. solve_decision. Defined.

#[export] Instance IntOrString_eq_dec : EqDecision IntOrString.
Proof. solve_decision. Defined.

#[export] Instance NamespacedName_eq_dec : EqDecision NamespacedName.
Proof. solve_decision. Defined.

#[export] Instance DeploymentStrategyType_eq_dec : EqDecision DeploymentStrategyType.
Proof. solve_decision. Defined.
