(* ===== verification/Helpers.v ===== *)
(** * [pkg/helpers]

    The delete tag an object carries from the code that builds it to the
    code that reconciles it, the merge of label maps, and the functions on
    status conditions. *)

From S2P Require Import Prelude Kube.

(** [json.Marshal] of a slice of conditions. The slice is [nil] when the
    list is empty: the only caller builds it by appending to a nil slice. *)
Class ConditionCodec {PF : Platform} := {
  json_Marshal_Conditions : list Condition → result error string
}.

(** ** helpers.go *)

Definition DeleteTagAnnotation : string := "limitador.kuadrant.io/delete".
Definition LabelKeyApp : string := "app".
Definition LabelKeyLimitadorResource : string := "limitador-resource".
Definition LimitadorAppName : string := "limitador".

Section helpers.
Context {PF : Platform}.

Definition ObjectInfo (t : TypeMeta) (m : ObjectMeta) : string :=
  tm_Kind t +:+ "/" +:+ om_Name m.

Definition TagObjectToDelete (m : ObjectMeta) : ObjectMeta :=
  let annotations := default ∅ (om_Annotations m) in
  with_annotations (Some (<[DeleteTagAnnotation := "true"]> annotations)) m.

Definition IsObjectTaggedToDelete (m : ObjectMeta) : bool :=
  match om_Annotations m with
  | None => false
  | Some annotations =>
      match annotations !! DeleteTagAnnotation with
      | Some annotation => bool_decide (annotation = "true")
      | None => false
      end
  end.

End helpers.

(** The loop of [MergeMapStringString], over the entries of [desired] in the
    order the Go runtime happens to pick. *)
Fixpoint merge_entries (entries : list (string * string)) (existing : gmap string string)
    (modified : bool) : gmap string string * bool :=
  match entries with
  | [] => (existing, modified)
  | (desiredKey, desiredValue) :: entries' =>
      match existing !! desiredKey with
      | Some existingValue =>
          if bool_decide (existingValue = desiredValue)
          then merge_entries entries' existing modified
          else merge_entries entries' (<[desiredKey := desiredValue]> existing) true
      | None => merge_entries entries' (<[desiredKey := desiredValue]> existing) true
      end
  end.

(** [existing] is a pointer to a map that may itself be nil; the result is
    the map the pointer leads to afterwards, and the boolean returned. *)
Definition MergeMapStringString (existing : option (option (gmap string string)))
    (desired : gmap string string) : option (option (gmap string string)) * bool :=
  match existing with
  | None => (None, false)
  | Some m =>
      let '(m', modified) := merge_entries (map_to_list desired) (default ∅ m) false in
      (Some (Some m'), modified)
  end.

(** ** k8s_utils.go *)

Fixpoint FindDeploymentStatusCondition (conditions : list DeploymentCondition)
    (conditionType : string) : option DeploymentCondition :=
  match conditions with
  | [] => None
  | c :: cs =>
      if bool_decide (dc_Type c = conditionType) then Some c
      else FindDeploymentStatusCondition cs conditionType
  end.

(** ** apimachinery_status_conditions.go *)

Section conditions.
Context {PF : Platform}.

(** The loop that appends a deep copy of each condition; a condition holds
    no reference, so its copy is the condition. *)
Definition DeepCopyConditions (conditions : list Condition) : list Condition :=
  foldl (λ newConditions c, newConditions ++ [c]) [] conditions.

Definition condition_less (a b : Condition) : bool := String.ltb (cond_Type a) (cond_Type b).

Definition ConditionMarshal {CC : ConditionCodec} (conditions : list Condition)
    : result error string :=
  json_Marshal_Conditions (sort_Slice condition_less conditions).

End conditions.

(** ** Theorems *)

Section helpers_theorems.
Context {PF : Platform}.

Lemma TagObjectToDelete_tags m : IsObjectTaggedToDelete (TagObjectToDelete m) = true.
Proof.
  unfold IsObjectTaggedToDelete, TagObjectToDelete; simpl.
  by rewrite lookup_insert_eq, bool_decide_eq_true_2.
Qed.

Lemma TagObjectToDelete_keeps m k :
  k ≠ DeleteTagAnnotation →
  om_Annotations (TagObjectToDelete m) ≫= (.!! k) = om_Annotations m ≫= (.!! k).
Proof.
  intros Hk. unfold TagObjectToDelete; simpl.
  rewrite lookup_insert_ne by congruence. by destruct (om_Annotations m).
Qed.

Lemma IsObjectTaggedToDelete_true m :
  IsObjectTaggedToDelete m = true ↔
  om_Annotations m ≫= (.!! DeleteTagAnnotation) = Some "true".
Proof.
  unfold IsObjectTaggedToDelete. destruct (om_Annotations m) as [a|]; simpl; [|done].
  destruct (a !! _); [|done]. rewrite bool_decide_eq_true. split; congruence.
Qed.

Lemma new_meta_not_tagged n ns l : IsObjectTaggedToDelete (new_meta n ns l) = false.
Proof. done. Qed.

Lemma with_owners_tagged o m :
  IsObjectTaggedToDelete (with_owners o m) = IsObjectTaggedToDelete m.
Proof. done. Qed.

Lemma DeepCopyConditions_id conditions : DeepCopyConditions conditions = conditions.
Proof.
  unfold DeepCopyConditions.
  cut (∀ acc, foldl (λ n (c : Condition), n ++ [c]) acc conditions = acc ++ conditions);
    [by intros ->|].
  induction conditions as [|c cs IH]; intros acc; simpl; [by rewrite app_nil_r|].
  by rewrite IH, <-(assoc_L (++)).
Qed.

Lemma ConditionMarshal_perm {CC : ConditionCodec} cs cs' :
  NoDup (cond_Type <$> cs) → cs ≡ₚ cs' → ConditionMarshal cs = ConditionMarshal cs'.
Proof.
  intros Hnd Hp. unfold ConditionMarshal. f_equal.
  by apply (sort_Slice_proper cond_Type).
Qed.

End helpers_theorems.

(** Some desired entry is missing from the existing map or differs there. *)
Definition merge_changes (entries : list (string * string)) (existing : gmap string string) : Prop :=
  Exists (λ e, existing !! e.1 ≠ Some e.2) entries.

#[export] Instance merge_changes_dec entries existing : Decision (merge_changes entries existing).
Proof. unfold merge_changes. apply _. Defined.

Lemma merge_changes_cons k v es m :
  merge_changes ((k, v) :: es) m ↔ m !! k ≠ Some v ∨ merge_changes es m.
Proof. unfold merge_changes. by rewrite Exists_cons. Qed.

Lemma merge_entries_spec entries existing modified :
  NoDup entries.*1 →
  merge_entries entries existing modified =
    (list_to_map entries ∪ existing,
     modified || bool_decide (merge_changes entries existing)).
Proof.
  revert existing modified.
  induction entries as [|[k v] es IH]; intros m b Hnd.
  { rewrite bool_decide_eq_false_2 by by intros ?%Exists_nil.
    rewrite orb_false_r. cbn. by rewrite map_empty_union. }
  apply NoDup_cons in Hnd as [Hk Hnd]. simpl in Hk.
  assert (Hnone : (list_to_map es : gmap string string) !! k = None)
    by by apply not_elem_of_list_to_map_1.
  assert (Hins : m !! k ≠ Some v → merge_entries es (<[k:=v]> m) true =
    (list_to_map ((k, v) :: es) ∪ m, b || bool_decide (merge_changes ((k, v) :: es) m))).
  { intros Hm. rewrite IH, (bool_decide_eq_true_2 (merge_changes _ m)), orb_true_r by
      (done || by apply merge_changes_cons; left). f_equal.
    cbn [list_to_map foldr fst snd]. by rewrite <-insert_union_r, insert_union_l by done. }
  cbn [merge_entries].
  destruct (m !! k) as [v'|] eqn:Hm; [|by apply Hins].
  destruct (decide (v' = v)) as [->|Hv].
  2: { rewrite (bool_decide_eq_false_2 (v' = v)) by done. apply Hins. congruence. }
  rewrite (bool_decide_eq_true_2 (v = v)), IH by done. f_equal.
  - cbn [list_to_map foldr fst snd].
    by rewrite <-insert_union_l, insert_union_r, insert_id by done.
  - f_equal. apply bool_decide_ext. rewrite merge_changes_cons. naive_solver.
Qed.
