(* ===== verification/Types.v ===== *)
(** * [api/v1alpha1]: the Limitador custom resource

    The Go types of [limitador_types.go] with their defaulting accessors, the
    validation rules the CRD carries in its kubebuilder markers, and the
    comparison of status values. A pointer field is an [option]. *)

From S2P Require Import Prelude Kube Helpers.

(** ** Constants *)

Definition DefaultServiceHTTPPort : Z := 8080.
Definition DefaultServiceGRPCPort : Z := 8081.
Definition DefaultReplicas : Z := 1.
Definition PodAnnotationConfigMapResourceVersion : string := "limits-cm-resource-version".
Definition StatusConditionReady : string := "Ready".

(** The values of the string types the CRD restricts to a few. *)
Definition RateLimitHeadersTypeNONE : string := "NONE".
Definition RateLimitHeadersTypeDraft03 : string := "DRAFT_VERSION_03".
Definition TelemetryBasic : string := "basic".
Definition TelemetryExhaustive : string := "exhaustive".
Definition DiskOptimizeTypeThroughput : string := "throughput".
Definition DiskOptimizeTypeDisk : string := "disk".

(** [schema.GroupVersion] and its [String()], the value of
    [groupversion_info.go], and the builder of a scheme: the Go types
    registered for a group and version. *)
Record GroupVersionT := { gv_Group : string; gv_Version : string }.

Definition GroupVersion : GroupVersionT :=
  {| gv_Group := "limitador.kuadrant.io"; gv_Version := "v1alpha1" |}.

Definition GroupVersion_String : string := gv_Group GroupVersion +:+ "/" +:+ gv_Version GroupVersion.

Record SchemeBuilderT := { sb_GroupVersion : GroupVersionT; sb_Registered : list string }.

Definition SchemeBuilder_zero : SchemeBuilderT :=
  {| sb_GroupVersion := GroupVersion; sb_Registered := [] |}.

(** [SchemeBuilder.Register(objects...)] *)
Definition Register (b : SchemeBuilderT) (objects : list string) : SchemeBuilderT :=
  {| sb_GroupVersion := sb_GroupVersion b; sb_Registered := sb_Registered b ++ objects |}.

(** The builder after the package's [init]. *)
Definition SchemeBuilder : SchemeBuilderT :=
  Register SchemeBuilder_zero ["Limitador"; "LimitadorList"].

(** ** Data *)

Section types.
Context {PF : Platform}.

Record TransportProtocol := { tp_Port : option Z }.

Record Listener := { ln_HTTP : option TransportProtocol; ln_GRPC : option TransportProtocol }.

Record Redis := { redis_ConfigSecretRef : option LocalObjectReference }.

Record RedisCachedOptions := {
  rco_FlushPeriod : option Z;
  rco_MaxCached : option Z;
  rco_ResponseTimeout : option Z;
  rco_BatchSize : option Z
}.

Record RedisCached := {
  rc_ConfigSecretRef : option LocalObjectReference;
  rc_Options : option RedisCachedOptions
}.

Record PersistentVolumeClaimResources := { pcr_Requests : Quantity }.

Record PVCGenericSpec := {
  pg_StorageClassName : option string;
  pg_Resources : option PersistentVolumeClaimResources;
  pg_VolumeName : option string
}.

Record DiskSpec := { disk_PVC : option PVCGenericSpec; disk_Optimize : option string }.

Record Storage := {
  st_Redis : option Redis;
  st_RedisCached : option RedisCached;
  st_Disk : option DiskSpec
}.

Record RateLimit := {
  rl_Conditions : option (list string);
  rl_MaxValue : Z;
  rl_Namespace : string;
  rl_Seconds : Z;
  rl_Variables : option (list string);
  rl_Name : string
}.

Record Tracing := { tr_Endpoint : string }.

Record PodDisruptionBudgetType := {
  pbt_MaxUnavailable : option IntOrString;
  pbt_MinAvailable : option IntOrString
}.

Record LimitadorSpec := {
  spec_Affinity : option Affinity;
  spec_Replicas : option Z;
  spec_Version : option string;
  spec_Listener : option Listener;
  spec_Storage : option Storage;
  spec_RateLimitHeaders : option string;
  spec_Telemetry : option string;
  spec_Tracing : option Tracing;
  spec_Limits : option (list RateLimit);
  spec_PodDisruptionBudget : option PodDisruptionBudgetType;
  spec_ResourceRequirements : option ResourceRequirements;
  spec_Verbosity : option Z;
  spec_Image : option string;
  spec_ImagePullSecrets : list LocalObjectReference;
  spec_MetricLabelsDefault : option string
}.

Record Ports := { ports_HTTP : Z; ports_GRPC : Z }.

Record LimitadorService := { ls_Host : string; ls_Ports : Ports }.

Record LimitadorStatus := {
  status_ObservedGeneration : Z;
  status_Conditions : list Condition;
  status_Service : option LimitadorService
}.

Record Limitador := {
  lim_TypeMeta : TypeMeta;
  lim_ObjectMeta : ObjectMeta;
  lim_Spec : LimitadorSpec;
  lim_Status : LimitadorStatus
}.

Record LimitadorList := {
  ll_TypeMeta : TypeMeta;
  ll_ListMeta : ListMeta;
  ll_Items : list Limitador
}.

(** The zero values [LimitadorSpec{}] and [LimitadorStatus{}]. *)
Definition LimitadorSpec_zero : LimitadorSpec :=
  {| spec_Affinity := None; spec_Replicas := None; spec_Version := None;
     spec_Listener := None; spec_Storage := None; spec_RateLimitHeaders := None;
     spec_Telemetry := None; spec_Tracing := None; spec_Limits := None;
     spec_PodDisruptionBudget := None; spec_ResourceRequirements := None;
     spec_Verbosity := None; spec_Image := None; spec_ImagePullSecrets := [];
     spec_MetricLabelsDefault := None |}.

Definition LimitadorStatus_zero : LimitadorStatus :=
  {| status_ObservedGeneration := 0; status_Conditions := []; status_Service := None |}.

Definition lim_Name (l : Limitador) : string := om_Name (lim_ObjectMeta l).
Definition lim_Namespace (l : Limitador) : string := om_Namespace (lim_ObjectMeta l).
Definition lim_Generation (l : Limitador) : Z := om_Generation (lim_ObjectMeta l).

(** ** Accessors with defaults *)

Definition defaultResourceRequirements : ResourceRequirements :=
  {| rr_Requests := {[ ResourceCPU := MustParse "250m"; ResourceMemory := MustParse "32Mi" ]};
     rr_Limits := {[ ResourceCPU := MustParse "500m"; ResourceMemory := MustParse "64Mi" ]} |}.

Definition GRPCPort (l : Limitador) : Z :=
  match spec_Listener (lim_Spec l) with
  | None => DefaultServiceGRPCPort
  | Some listener =>
      match ln_GRPC listener with
      | None => DefaultServiceGRPCPort
      | Some grpc => match tp_Port grpc with
                     | None => DefaultServiceGRPCPort
                     | Some port => port
                     end
      end
  end.

Definition HTTPPort (l : Limitador) : Z :=
  match spec_Listener (lim_Spec l) with
  | None => DefaultServiceHTTPPort
  | Some listener =>
      match ln_HTTP listener with
      | None => DefaultServiceHTTPPort
      | Some http => match tp_Port http with
                     | None => DefaultServiceHTTPPort
                     | Some port => port
                     end
      end
  end.

Definition Limits (l : Limitador) : list RateLimit :=
  match spec_Limits (lim_Spec l) with
  | None => []
  | Some limits => limits
  end.

Definition GetResourceRequirements (l : Limitador) : ResourceRequirements :=
  match spec_ResourceRequirements (lim_Spec l) with
  | None => defaultResourceRequirements
  | Some r => r
  end.

Definition GetReplicas (l : Limitador) : Z :=
  match spec_Replicas (lim_Spec l) with
  | None => DefaultReplicas
  | Some replicas =>
      if (replicas >? MaxInt32)%Z then MaxInt32
      else if (replicas <? MinInt32)%Z then MinInt32
      else int32 replicas
  end.

(** ** The admission rules of the CRD *)

(** [!has(storage) || !has(storage.disk) || !has(replicas) || replicas < 2] *)
Definition rule_disk_replicas (s : LimitadorSpec) : bool :=
  match spec_Storage s with
  | None => true
  | Some st =>
      match st_Disk st, spec_Replicas s with
      | None, _ | _, None => true
      | Some _, Some replicas => (replicas <? 2)%Z
      end
  end.

(** [!(has(maxUnavailable) && has(minAvailable))] *)
Definition rule_pdb_exclusive (s : LimitadorSpec) : bool :=
  match spec_PodDisruptionBudget s with
  | Some {| pbt_MaxUnavailable := Some _; pbt_MinAvailable := Some _ |} => false
  | _ => true
  end.

(** [Minimum=1] and [Maximum=4] on [VerbosityLevel]. *)
Definition rule_verbosity (s : LimitadorSpec) : bool :=
  match spec_Verbosity s with
  | None => true
  | Some v => ((1 <=? v) && (v <=? 4))%Z
  end.

(** The enumerations of [RateLimitHeadersType], [Telemetry] and
    [DiskOptimizeType]: a field that is set has one of the listed values. *)
Definition one_of (values : list string) (o : option string) : bool :=
  match o with
  | None => true
  | Some v => bool_decide (v ∈ values)
  end.

Definition rule_headers (s : LimitadorSpec) : bool :=
  one_of [RateLimitHeadersTypeNONE; RateLimitHeadersTypeDraft03] (spec_RateLimitHeaders s).

Definition rule_telemetry (s : LimitadorSpec) : bool :=
  one_of [TelemetryBasic; TelemetryExhaustive] (spec_Telemetry s).

Definition rule_optimize (s : LimitadorSpec) : bool :=
  match spec_Storage s with
  | Some {| st_Disk := Some d |} =>
      one_of [DiskOptimizeTypeThroughput; DiskOptimizeTypeDisk] (disk_Optimize d)
  | _ => true
  end.

Definition admissible (s : LimitadorSpec) : bool :=
  rule_disk_replicas s && rule_pdb_exclusive s && rule_verbosity s &&
  rule_headers s && rule_telemetry s && rule_optimize s.

Lemma admissible_rules s :
  admissible s = true →
  rule_disk_replicas s = true ∧ rule_pdb_exclusive s = true ∧ rule_verbosity s = true ∧
  rule_headers s = true ∧ rule_telemetry s = true ∧ rule_optimize s = true.
Proof. unfold admissible. rewrite !andb_true_iff. tauto. Qed.

(** The integers of a spec that was decoded into the Go types. *)
Definition decoded (s : LimitadorSpec) : Prop :=
  (∀ n, spec_Replicas s = Some n → is_int64 n) ∧
  (∀ n, spec_Verbosity s = Some n → is_int64 n) ∧
  (∀ ln tp n, spec_Listener s = Some ln →
     ln_HTTP ln = Some tp ∨ ln_GRPC ln = Some tp → tp_Port tp = Some n → is_int32 n).

(** ** Comparison of status values *)

#[export] Instance Ports_eq_dec : EqDecision Ports.
Proof. solve_decision. Defined.

#[export] Instance LimitadorService_eq_dec : EqDecision LimitadorService.
Proof. solve_decision. Defined.

(** What [Equals] finds different first, with the values it compares. *)
Inductive status_difference :=
  | DiffGeneration (current other : Z)
  | DiffConditions (current other : string)
  | DiffService (current other : option LimitadorService).

(** The marshalling errors are dropped by the code; the bytes are then nil. *)
Definition Equals_difference {CC : ConditionCodec} (s other : LimitadorStatus)
    : option status_difference :=
  if bool_decide (status_ObservedGeneration s ≠ status_ObservedGeneration other)
  then Some (DiffGeneration (status_ObservedGeneration s) (status_ObservedGeneration other))
  else
    let currentMarshaledJSON := value_or "" (ConditionMarshal (status_Conditions s)) in
    let otherMarshaledJSON := value_or "" (ConditionMarshal (status_Conditions other)) in
    if bool_decide (currentMarshaledJSON ≠ otherMarshaledJSON)
    then Some (DiffConditions currentMarshaledJSON otherMarshaledJSON)
    else if bool_decide (status_Service s ≠ status_Service other)
    then Some (DiffService (status_Service s) (status_Service other))
    else None.

(** The result of [Equals]; what it logs is in Status.v. *)
Definition LimitadorStatus_Equals {CC : ConditionCodec} (s other : LimitadorStatus) : bool :=
  match Equals_difference s other with
  | Some _ => false
  | None => true
  end.

(** ** Theorems *)

(** What [Equals] compares: the generation, the marshalled conditions in the
    order of their types, and the service. *)
Definition status_view {CC : ConditionCodec} (s : LimitadorStatus) :=
  (status_ObservedGeneration s, value_or "" (ConditionMarshal (status_Conditions s)),
   status_Service s).

Lemma Equals_true {CC : ConditionCodec} s other :
  LimitadorStatus_Equals s other = true ↔ status_view s = status_view other.
Proof.
  unfold LimitadorStatus_Equals, Equals_difference, status_view.
  repeat case_bool_decide; split; intros; congruence.
Qed.

Lemma Equals_generation {CC : ConditionCodec} s other :
  LimitadorStatus_Equals s other = true →
  status_ObservedGeneration s = status_ObservedGeneration other.
Proof. rewrite Equals_true. unfold status_view. by intros [= ? ? ?]. Qed.

(** [GetReplicas] saturates: it is the spec's value clamped to an [int32]. *)
Lemma GetReplicas_clamps l n :
  spec_Replicas (lim_Spec l) = Some n →
  GetReplicas l = Z.max MinInt32 (Z.min MaxInt32 n).
Proof.
  unfold GetReplicas. intros ->.
  destruct (Z.gtb_spec n MaxInt32); [unfold MinInt32, MaxInt32 in *; lia|].
  destruct (Z.ltb_spec n MinInt32); [unfold MinInt32, MaxInt32 in *; lia|].
  rewrite int32_id; unfold is_int32, MinInt32, MaxInt32 in *; lia.
Qed.

Lemma GetReplicas_int32 l : is_int32 (GetReplicas l).
Proof.
  destruct (spec_Replicas (lim_Spec l)) as [n|] eqn:Hn.
  - rewrite (GetReplicas_clamps l n Hn). unfold is_int32, MinInt32, MaxInt32. lia.
  - unfold GetReplicas. rewrite Hn. done.
Qed.

Lemma HTTPPort_int32 l : decoded (lim_Spec l) → is_int32 (HTTPPort l).
Proof.
  intros (_ & _ & Hp). unfold HTTPPort.
  destruct (spec_Listener _) as [ln|] eqn:Hl; [|done].
  destruct (ln_HTTP ln) as [tp|] eqn:Ht; [|done].
  destruct (tp_Port tp) eqn:Hn; [|done]. eapply Hp; eauto.
Qed.

Lemma GRPCPort_int32 l : decoded (lim_Spec l) → is_int32 (GRPCPort l).
Proof.
  intros (_ & _ & Hp). unfold GRPCPort.
  destruct (spec_Listener _) as [ln|] eqn:Hl; [|done].
  destruct (ln_GRPC ln) as [tp|] eqn:Ht; [|done].
  destruct (tp_Port tp) eqn:Hn; [|done]. eapply Hp; eauto.
Qed.

End types.

#[export] Hint Resolve GetReplicas_int32 : operator.
