(* ===== verification/Effects.v ===== *)
(** * Calls out of the process

    A function of the operator that talks to the API server, to the tracing
    SDK, to the log or to the clock is a program [prog A]: it ends with a value, panics,
    or makes one call and continues with whatever the other side replies.
    Nothing is assumed about replies, so every statement about the runs of a
    program covers API servers that fail at any call, and other writers that
    change the cluster between any two calls.

    The second half is the program logic of the development: a monitor reads
    the calls of a run one after the other, and [wpm] computes the condition
    under which a program keeps the monitor happy and ends in a good state. *)

From S2P Require Import Prelude Kube Helpers Types.

Section effects.
Context {PF : Platform}.

(** ** Objects the client handles *)

Inductive kind :=
  KLimitador | KService | KPersistentVolumeClaim | KDeployment | KConfigMap
  | KPodDisruptionBudget | KPod | KSecret.

Definition struct_of (kd : kind) : Type :=
  match kd with
  | KLimitador => Limitador
  | KService => Service
  | KPersistentVolumeClaim => PersistentVolumeClaim
  | KDeployment => Deployment
  | KConfigMap => ConfigMap
  | KPodDisruptionBudget => PodDisruptionBudget
  | KPod => Pod
  | KSecret => Secret
  end.

(** [client.Object] *)
Inductive object := Obj (kd : kind) (o : struct_of kd).

Definition obj_kind (o : object) : kind := let '(Obj kd _) := o in kd.

Definition struct_meta (kd : kind) : struct_of kd → ObjectMeta :=
  match kd with
  | KLimitador => lim_ObjectMeta
  | KService => svc_ObjectMeta
  | KPersistentVolumeClaim => pvc_ObjectMeta
  | KDeployment => dep_ObjectMeta
  | KConfigMap => cm_ObjectMeta
  | KPodDisruptionBudget => pdb_ObjectMeta
  | KPod => pod_ObjectMeta
  | KSecret => sec_ObjectMeta
  end.

Definition obj_meta (o : object) : ObjectMeta := let '(Obj kd s) := o in struct_meta kd s.

(** [obj.GetObjectKind()] *)
Definition obj_type (o : object) : TypeMeta :=
  let '(Obj kd s) := o in
  match kd return struct_of kd → TypeMeta with
  | KLimitador => lim_TypeMeta
  | KService => svc_TypeMeta
  | KPersistentVolumeClaim => pvc_TypeMeta
  | KDeployment => dep_TypeMeta
  | KConfigMap => cm_TypeMeta
  | KPodDisruptionBudget => pdb_TypeMeta
  | KPod => pod_TypeMeta
  | KSecret => λ _, {| tm_Kind := ""; tm_APIVersion := "" |}
  end s.

(** Where a write lands: kind, namespace and name. *)
Definition obj_ref (o : object) : kind * NamespacedName := (obj_kind o, key_of (obj_meta o)).

(** ** Tracing operations *)

Inductive attr_value := VString (s : string) | VInt (z : Z) | VDuration (d : Z).

Definition attribute : Type := string * attr_value.

Inductive span_start_option :=
  | WithSpanKindServer
  | WithAttributes (attrs : list attribute).

Inductive span_code := CodeError | CodeOk.

Inductive span_op :=
  | SpanAddLink (target : Span)
  | SpanSetAttributes (attrs : list attribute)
  | SpanRecordError (err : error) (attrs : list attribute)
  | SpanSetStatus (code : span_code) (description : string)
  | SpanAddEvent (name : string).

(** ** Log lines *)

(** The values logged beside a message. [FDiff] is the text [cmp.Diff] makes
    of two values, [FKind] the group, version and kind in an object's type. *)
Inductive log_field :=
  | FString (s : string)
  | FBool (b : bool)
  | FError (err : option error)
  | FKind (t : TypeMeta)
  | FDiff (d : status_difference).

(** [logger.V(v).Info(msg, fields...)] and [logger.Error(err, msg, fields...)] *)
Inductive log_line :=
  | Info (v : nat) (msg : string) (fields : list (string * log_field))
  | Error_line (err : error) (msg : string) (fields : list (string * log_field)).

(** ** Calls and their replies *)

(** The options of a server-side apply: [client.ForceOwnership] and
    [client.FieldOwner(name)]. *)
Record apply_options := { ao_ForceOwnership : bool; ao_FieldOwner : string }.

Inductive call :=
  (* sigs.k8s.io/controller-runtime/pkg/client *)
  | Get (kd : kind) (key : NamespacedName)
  | ListPods (labelSelector : gmap string string) (namespace : string)
  | Patch_Apply (o : object) (opts : apply_options)
  | Status_Patch_Apply (o : object) (opts : apply_options)
  | Create (o : object)
  | Update (o : object)
  | Delete (o : object)
  (* go.opentelemetry.io/otel *)
  | StartSpan (parent : option Span) (name : string) (opts : list span_start_option)
  | SpanDo (s : Span) (op : span_op)
  | EndSpan (s : Span)
  | ExtractSpanContext (carrier : option (gmap string string))
  (* github.com/go-logr/logr *)
  | LogLine (logger : Logger) (line : log_line)
  (* time.Now *)
  | Now.

Definition reply (c : call) : Type :=
  match c with
  | Get kd _ => result ExtError (struct_of kd)
  | ListPods _ _ => result ExtError (list Pod)
  | Patch_Apply _ _ | Status_Patch_Apply _ _ | Create _ | Update _ | Delete _ => option ExtError
  | StartSpan _ _ _ | ExtractSpanContext _ => Span
  | SpanDo _ _ | EndSpan _ | LogLine _ _ => unit
  | Now => Time
  end.

(** ** Programs *)

Inductive prog (A : Type) : Type :=
  | Ret (a : A)
  | Panic (msg : string)
  | Call (c : call) (k : reply c → prog A).

Arguments Ret {A} a.
Arguments Panic {A} msg.
Arguments Call {A} c k.

Fixpoint prog_bind {A B} (f : A → prog B) (p : prog A) : prog B :=
  match p with
  | Ret a => f a
  | Panic msg => Panic msg
  | Call c k => Call c (λ x, prog_bind f (k x))
  end.

#[global] Instance prog_ret : MRet prog := λ A a, Ret a.
#[global] Instance prog_mbind : MBind prog := λ A B f p, prog_bind f p.

Definition do_call (c : call) : prog (reply c) := Call c Ret.

(** A pure Go call that may panic. *)
Definition of_outcome {A} (o : outcome A) : prog A :=
  match o with
  | Done a => Ret a
  | Panicked msg => Panic msg
  end.

(** [defer fin] around the rest of a function: [fin] runs when the body
    returns and when it panics. *)
Fixpoint deferring {A} (fin : prog unit) (p : prog A) : prog A :=
  match p with
  | Ret a => _ ← fin; Ret a
  | Panic msg => _ ← fin; Panic msg
  | Call c k => Call c (λ x, deferring fin (k x))
  end.

(** The error half of a reply, as an [error]. *)
Definition ext_error (e : option ExtError) : option error := ErrExt <$> e.

(** ** Runs *)

(** One call of a run with the reply it got. *)
Inductive event := Ev (c : call) (x : reply c).

Definition ev_call (e : event) : call := let '(Ev c _) := e in c.

(** [runs p t o]: [p] makes the calls of [t] in order, getting the replies
    of [t], and ends with [o]. *)
Fixpoint runs {A} (p : prog A) (t : list event) (o : outcome A) : Prop :=
  match p with
  | Ret a => t = [] ∧ o = Done a
  | Panic msg => t = [] ∧ o = Panicked msg
  | Call c k => ∃ x t', t = Ev c x :: t' ∧ runs (k x) t' o
  end.

(** The run against one particular outside world. *)
Section exec.
Context {W : Type} (handle : ∀ c : call, W → reply c * W).

Fixpoint exec {A} (p : prog A) (w : W) : list event * outcome A * W :=
  match p with
  | Ret a => ([], Done a, w)
  | Panic msg => ([], Panicked msg, w)
  | Call c k =>
      let '(x, w1) := handle c w in
      let '(t, o, w2) := exec (k x) w1 in
      (Ev c x :: t, o, w2)
  end.
End exec.

(** ** Monitors *)

Section monitor.
Context {S : Type} (δ : S → event → option S).

(** The monitor's state after a sequence of calls; [None] when it objected. *)
Fixpoint monitor (s : S) (t : list event) : option S :=
  match t with
  | [] => Some s
  | e :: t' => s' ← δ s e; monitor s' t'
  end.

Fixpoint wpm {A} (p : prog A) (s : S) (Q : outcome A → S → Prop) : Prop :=
  match p with
  | Ret a => Q (Done a) s
  | Panic msg => Q (Panicked msg) s
  | Call c k => ∀ x, match δ s (Ev c x) with
                     | Some s' => wpm (k x) s' Q
                     | None => False
                     end
  end.
End monitor.

(** ** Theorems *)

Lemma exec_runs {W A} (h : ∀ c : call, W → reply c * W) (p : prog A) w :
  runs p (exec h p w).1.1 (exec h p w).1.2.
Proof.
  revert w. induction p as [a|msg|c k IH]; intros w; simpl; [done..|].
  destruct (h c w) as [x w1]. specialize (IH x w1).
  destruct (exec h (k x) w1) as [[t o] w2]. eauto.
Qed.

(** Every program has a run, whatever the outside world answers. *)
Lemma runs_total {A} (p : prog A) (answer : ∀ c : call, reply c) : ∃ t o, runs p t o.
Proof.
  exists (exec (λ c (w : unit), (answer c, w)) p tt).1.1,
    (exec (λ c (w : unit), (answer c, w)) p tt).1.2. apply exec_runs.
Qed.

Lemma monitor_app {S} (δ : S → event → option S) s t1 t2 :
  monitor δ s (t1 ++ t2) = s' ← monitor δ s t1; monitor δ s' t2.
Proof.
  revert s. induction t1 as [|e t1 IH]; intros s; simpl; [done|].
  destruct (δ s e); simpl; [apply IH|done].
Qed.

Section wpm_rules.
Context {S : Type} (δ : S → event → option S).

Lemma wpm_runs {A} (p : prog A) s Q t o :
  wpm δ p s Q → runs p t o → ∃ s', monitor δ s t = Some s' ∧ Q o s'.
Proof.
  revert s t. induction p as [a|msg|c k IH]; simpl; intros s t.
  - intros HQ [-> ->]. eauto.
  - intros HQ [-> ->]. eauto.
  - intros HQ (x & t' & -> & Hr). specialize (HQ x). simpl.
    destruct (δ s (Ev c x)) as [s'|]; [|done]. simpl. eauto.
Qed.

Lemma wpm_mono {A} (p : prog A) s (Q Q' : outcome A → S → Prop) :
  wpm δ p s Q → (∀ o s', Q o s' → Q' o s') → wpm δ p s Q'.
Proof.
  intros Hp HQ. revert s Hp. induction p as [a|msg|c k IH]; simpl; intros s Hp; [by auto..|].
  intros x. specialize (Hp x). destruct (δ s (Ev c x)); [|done]. by apply IH.
Qed.

(** What a bind owes after its first half. *)
Definition bind_post {A B} (f : A → prog B) (Q : outcome B → S → Prop)
    (o : outcome A) (s : S) : Prop :=
  match o with
  | Done a => wpm δ (f a) s Q
  | Panicked msg => Q (Panicked msg) s
  end.

Lemma wpm_bind {A B} (f : A → prog B) (p : prog A) s Q :
  wpm δ p s (bind_post f Q) → wpm δ (p ≫= f) s Q.
Proof.
  revert s. induction p as [a|msg|c k IH]; simpl; intros s Hp; [done..|].
  intros x. specialize (Hp x). destruct (δ s (Ev c x)); [|done]. by apply IH.
Qed.

(** What a deferred call owes after the body. *)
Definition defer_post {A} (fin : prog unit) (Q : outcome A → S → Prop)
    (o : outcome A) (s : S) : Prop :=
  wpm δ fin s (λ o' s', match o' with
                        | Done _ => Q o s'
                        | Panicked msg => Q (Panicked msg) s'
                        end).

Lemma wpm_deferring {A} (fin : prog unit) (p : prog A) s Q :
  wpm δ p s (defer_post fin Q) → wpm δ (deferring fin p) s Q.
Proof.
  revert s. induction p as [a|msg|c k IH]; simpl; intros s Hp.
  - apply wpm_bind. eapply wpm_mono; [exact Hp|]. by intros [[]|msg'] s'.
  - apply wpm_bind. eapply wpm_mono; [exact Hp|]. by intros [[]|msg'] s'.
  - intros x. specialize (Hp x). destruct (δ s (Ev c x)); [|done]. by apply IH.
Qed.

Lemma wpm_of_outcome {A} (o : outcome A) s (Q : outcome A → S → Prop) :
  Q o s → wpm δ (of_outcome o) s Q.
Proof. by destruct o. Qed.

End wpm_rules.

(** *** Inversion of runs *)

Lemma runs_bind {A B} (f : A → prog B) (p : prog A) t o :
  runs (p ≫= f) t o ↔
  (∃ t1 a t2, t = t1 ++ t2 ∧ runs p t1 (Done a) ∧ runs (f a) t2 o) ∨
  (∃ msg, o = Panicked msg ∧ runs p t (Panicked msg)).
Proof.
  revert t. induction p as [a|msg|c k IH]; simpl; intros t.
  - split; [intros Hr; left; by exists [], a, t|].
    intros [(t1 & a' & t2 & -> & [-> [= ->]] & Hr)|(msg & -> & [-> [=]])]; done.
  - split; [intros [-> ->]; right; eauto|].
    intros [(t1 & a' & t2 & -> & [-> [=]] & _)|(msg' & -> & -> & [= ->])]; done.
  - split.
    + intros (x & t' & -> & Hr). apply IH in Hr
        as [(t1 & a & t2 & -> & H1 & H2)|(msg & -> & Hr)].
      * left. exists (Ev c x :: t1), a, t2. eauto 10.
      * right. eauto 10.
    + intros [(t1 & a & t2 & -> & (x & t' & -> & H1) & H2)|(msg & -> & x & t' & -> & Hr)].
      * exists x, (t' ++ t2). split; [done|]. apply IH. left. by exists t', a, t2.
      * exists x, t'. split; [done|]. apply IH. right. eauto.
Qed.

End effects.

Arguments Ret {PF A} a.
Arguments Panic {PF A} msg.
Arguments Call {PF A} c k.

#[export] Instance kind_eq_dec : EqDecision kind.
Proof. solve_decision. Defined.
