(* ===== verification/Observability.v ===== *)
(** * [pkg/observability]: the context's logger and the tracing spans

    A [Context] is the part of a [context.Context] the operator stores into:
    the base logger under [baseLoggerKey], the logger of [logr.NewContext]
    and the current span. Starting a span is a call; the functions that
    record on a span are programs made of calls on it. *)

From S2P Require Import Prelude Kube Helpers Types Effects.

(** ** Constants of tracer.go *)

Definition tracerName : string := "limitador-operator".
Definition spanReconcile : string := "Reconcile".
Definition spanReconcileSpec : string := "reconcileSpec".
Definition spanReconcileStatus : string := "reconcileStatus".
Definition attrK8sLimitadorReplicas : string := "k8s.limitador.replicas".
Definition attrK8sLimitadorStorage : string := "k8s.limitador.storage.type".
Definition attrReconcileRequeue : string := "reconcile.requeue".
Definition attrReconcileRequeueAfter : string := "reconcile.requeue_after".
Definition attrResourceOperation : string := "k8s.resource.operation".
Definition operationApplied : string := "applied".
Definition operationCreated : string := "created".
Definition operationUnchanged : string := "unchanged".
Definition eventSpecCompleted : string := "reconcile.spec.completed".
Definition eventStatusCompleted : string := "reconcile.status.completed".

(** [ctrl.Result] *)
Record Result := { Requeue : bool; RequeueAfter : Z }.
Definition Result_zero : Result := {| Requeue := false; RequeueAfter := 0 |}.

#[export] Instance Result_eq_dec : EqDecision Result.
Proof. solve_decision. Defined.

Section observability.
Context {PF : Platform}.

(** ** Log lines *)

Definition log_v (logger : Logger) (v : nat) (msg : string) (fields : list (string * log_field))
    : prog unit := do_call (LogLine logger (Info v msg fields)).

Definition log_info (logger : Logger) (msg : string) (fields : list (string * log_field))
    : prog unit := log_v logger 0 msg fields.

Definition log_error (logger : Logger) (err : error) (msg : string)
    (fields : list (string * log_field)) : prog unit :=
  do_call (LogLine logger (Error_line err msg fields)).

(** ** logger.go *)

Record Context := {
  ctx_baseLogger : option Logger;
  ctx_logger : option Logger;
  ctx_span : option Span
}.

(** [context.Background()] *)
Definition Background : Context :=
  {| ctx_baseLogger := None; ctx_logger := None; ctx_span := None |}.

(** [logr.NewContext] and [logr.FromContext] *)
Definition NewContext (ctx : Context) (logger : Logger) : Context :=
  {| ctx_baseLogger := ctx_baseLogger ctx; ctx_logger := Some logger; ctx_span := ctx_span ctx |}.

Definition FromContext (ctx : Context) : result error Logger :=
  match ctx_logger ctx with
  | Some logger => Ok logger
  | None => Err (ErrExt NoLogger)
  end.

(** [trace.ContextWithSpan] and [trace.SpanFromContext] *)
Definition ContextWithSpan (ctx : Context) (span : Span) : Context :=
  {| ctx_baseLogger := ctx_baseLogger ctx; ctx_logger := ctx_logger ctx; ctx_span := Some span |}.

Definition SpanFromContext (ctx : Context) : Span := default noopSpan (ctx_span ctx).

Definition StoreBaseLogger (ctx : Context) (logger : Logger) : Context :=
  {| ctx_baseLogger := Some logger; ctx_logger := ctx_logger ctx; ctx_span := ctx_span ctx |}.

Definition RefreshLoggerWithCurrentSpan (ctx : Context) : Context :=
  match ctx_baseLogger ctx with
  | None => ctx
  | Some baseLogger =>
      let spanCtx := SpanFromContext ctx in
      if negb (SpanContext_IsValid spanCtx) then NewContext ctx baseLogger
      else
        let enrichedLogger := WithValues baseLogger
          [("trace_id", LogString (TraceID_String spanCtx)); ("span_id", LogString (SpanID_String spanCtx))] in
        NewContext ctx enrichedLogger
  end.

(** ** tracer.go *)

(** [t.tracer.Start(ctx, name, opts...)]: the SDK makes the span, a child of
    the one in the context, and puts it in the returned context. *)
Definition tracer_Start (ctx : Context) (name : string) (opts : list span_start_option)
    : prog (Context * Span) :=
  span ← do_call (StartSpan (ctx_span ctx) name opts);
  Ret (ContextWithSpan ctx span, span).

Definition StartReconcileSpan (ctx : Context) (req : NamespacedName)
    (opts : list span_start_option) : prog (Context * Span) :=
  let spanOpts :=
    [ WithSpanKindServer;
      WithAttributes [ (K8SNamespaceNameKey, VString (nn_Namespace req));
                       ("k8s.limitador.name", VString (nn_Name req)) ] ] in
  let spanOpts := spanOpts ++ opts in
  '(ctx, span) ← tracer_Start ctx spanReconcile spanOpts;
  let ctx := RefreshLoggerWithCurrentSpan ctx in
  Ret (ctx, span).

Definition StartReconcileSpecSpan (ctx : Context) : prog (Context * Span) :=
  '(ctx, span) ← tracer_Start ctx spanReconcileSpec [];
  let ctx := RefreshLoggerWithCurrentSpan ctx in
  Ret (ctx, span).

Definition StartReconcileStatusSpan (ctx : Context) : prog (Context * Span) :=
  '(ctx, span) ← tracer_Start ctx spanReconcileStatus [];
  let ctx := RefreshLoggerWithCurrentSpan ctx in
  Ret (ctx, span).

Definition StartResourceSpan (ctx : Context) (resourceType namespace name : string)
    : prog (Context * Span) :=
  let spanName := "reconcile" +:+ resourceType in
  '(ctx, span) ← tracer_Start ctx spanName
    [ WithAttributes [ (K8SNamespaceNameKey, VString namespace);
                       ("k8s.resource.kind", VString resourceType);
                       ("k8s.resource.name", VString name) ] ];
  let ctx := RefreshLoggerWithCurrentSpan ctx in
  Ret (ctx, span).

Definition span_do (span : Span) (op : span_op) : prog unit := do_call (SpanDo span op).

Definition span_End (span : Span) : prog unit := do_call (EndSpan span).

(** [span.SetStatus(codes.Ok, "")] *)
Definition set_status_ok (span : Span) : prog unit := span_do span (SpanSetStatus CodeOk "").

Definition RecordReconcileResult (span : Span) (result : Result) (err : option error)
    : prog unit :=
  _ ← match err with
      | Some err =>
          _ ← span_do span (SpanRecordError err []);
          span_do span (SpanSetStatus CodeError (Error err))
      | None => span_do span (SpanSetStatus CodeOk "")
      end;
  span_do span (SpanSetAttributes [(attrReconcileRequeueAfter, VDuration (RequeueAfter result))]).

Definition SetResourceOperation (span : Span) (operation : string) : prog unit :=
  span_do span (SpanSetAttributes [(attrResourceOperation, VString operation)]).

Definition RecordResourceApplied (span : Span) : prog unit :=
  SetResourceOperation span operationApplied.

Definition RecordResourceCreated (span : Span) : prog unit :=
  SetResourceOperation span operationCreated.

Definition RecordResourceUnchanged (span : Span) : prog unit :=
  SetResourceOperation span operationUnchanged.

Definition RecordError (span : Span) (err : error) (description : string) : prog unit :=
  _ ← span_do span (SpanRecordError err [("error.description", VString description)]);
  span_do span (SpanSetStatus CodeError description).

Definition RecordSpecCompleted (span : Span) : prog unit :=
  _ ← span_do span (SpanAddEvent eventSpecCompleted);
  span_do span (SpanSetStatus CodeOk "").

Definition RecordStatusCompleted (span : Span) : prog unit :=
  _ ← span_do span (SpanAddEvent eventStatusCompleted);
  span_do span (SpanSetStatus CodeOk "").

Definition AddLimitadorAttributes (span : Span) (namespace name : string) (replicas : Z)
    (storageType : string) : prog unit :=
  span_do span (SpanSetAttributes
    [ (K8SNamespaceNameKey, VString namespace);
      ("k8s.limitador.name", VString name);
      (attrK8sLimitadorReplicas, VInt replicas);
      (attrK8sLimitadorStorage, VString storageType) ]).

(** ** The logger is never lost *)

(** A context that [FromContext] can read a logger from, now and after every
    further span. *)
Definition logger_ready (ctx : Context) : Prop :=
  is_Some (ctx_baseLogger ctx) ∧ is_Some (ctx_logger ctx).

Lemma Refresh_ready ctx :
  is_Some (ctx_baseLogger ctx) → logger_ready (RefreshLoggerWithCurrentSpan ctx).
Proof.
  unfold logger_ready, RefreshLoggerWithCurrentSpan.
  intros [b Hb]. rewrite Hb. by destruct (negb _); simpl; rewrite Hb.
Qed.

Lemma Refresh_span ctx : ctx_span (RefreshLoggerWithCurrentSpan ctx) = ctx_span ctx.
Proof.
  unfold RefreshLoggerWithCurrentSpan. destruct (ctx_baseLogger ctx); [|done].
  by destruct (negb _).
Qed.

Lemma logger_ready_FromContext ctx :
  logger_ready ctx → ∃ logger, FromContext ctx = Ok logger.
Proof. intros [_ [lg Hl]]. exists lg. unfold FromContext. by rewrite Hl. Qed.

(** The logger [RefreshLoggerWithCurrentSpan] leaves in the context. *)
Definition refreshed_logger (base : Logger) (span : Span) : Logger :=
  if SpanContext_IsValid span
  then WithValues base [("trace_id", LogString (TraceID_String span));
                        ("span_id", LogString (SpanID_String span))]
  else base.

Lemma Refresh_logger ctx base :
  ctx_baseLogger ctx = Some base →
  RefreshLoggerWithCurrentSpan ctx = NewContext ctx (refreshed_logger base (SpanFromContext ctx)).
Proof.
  intros Hb. unfold RefreshLoggerWithCurrentSpan, refreshed_logger. rewrite Hb.
  by destruct (SpanContext_IsValid _).
Qed.

End observability.

#[export] Hint Resolve Refresh_ready : operator.
