(* ===== verification/Names.v ===== *)
(** * [pkg/limitador]: names and labels

    The names of the objects a Limitador resource owns and the label sets
    that tie them together ([k8s_objects.go]). *)

From S2P Require Import Prelude Kube Helpers Types.

Section names.
Context {PF : Platform}.

Definition LimitsConfigMapName (limitadorObj : Limitador) : string :=
  "limitador-limits-config-" +:+ lim_Name limitadorObj.

Definition ServiceName (limitadorObj : Limitador) : string :=
  "limitador-" +:+ lim_Name limitadorObj.

Definition PVCName (limitadorObj : Limitador) : string :=
  "limitador-" +:+ lim_Name limitadorObj.

Definition DeploymentName (limitadorObj : Limitador) : string :=
  "limitador-" +:+ lim_Name limitadorObj.

Definition PodDisruptionBudgetName (limitadorObj : Limitador) : string :=
  "limitador-" +:+ lim_Name limitadorObj.

Definition SelectorLabels (limitador : Limitador) : gmap string string :=
  list_to_map
    [ (LabelKeyApp, LimitadorAppName);
      (LabelKeyLimitadorResource, lim_Name limitador) ].

Definition Labels (limitador : Limitador) : gmap string string :=
  list_to_map
    [ (LabelKeyApp, LimitadorAppName);
      (LabelKeyLimitadorResource, lim_Name limitador);
      ("app.kubernetes.io/name", LimitadorAppName);
      ("app.kubernetes.io/instance", lim_Name limitador);
      ("app.kubernetes.io/component", LimitadorAppName);
      ("app.kubernetes.io/managed-by", "limitador-operator");
      ("app.kubernetes.io/part-of", "kuadrant") ].

(** ** Lemmas *)

Lemma SelectorLabels_app l : SelectorLabels l !! LabelKeyApp = Some LimitadorAppName.
Proof. done. Qed.

Lemma SelectorLabels_resource l :
  SelectorLabels l !! LabelKeyLimitadorResource = Some (lim_Name l).
Proof. done. Qed.

Lemma SelectorLabels_lookup l k v :
  SelectorLabels l !! k = Some v ↔
  (k = LabelKeyApp ∧ v = LimitadorAppName) ∨ (k = LabelKeyLimitadorResource ∧ v = lim_Name l).
Proof.
  unfold SelectorLabels. cbn [list_to_map foldr fst snd].
  rewrite !lookup_insert_Some, lookup_empty.
  unfold LabelKeyApp, LabelKeyLimitadorResource. intuition congruence.
Qed.

Lemma SelectorLabels_Labels l : selects (SelectorLabels l) (Labels l).
Proof.
  apply map_subseteq_spec. intros k v [[-> ->]|[-> ->]]%SelectorLabels_lookup; done.
Qed.

(** The pods of one Limitador are not selected for another. *)
Lemma SelectorLabels_exclusive l l' :
  selects (SelectorLabels l) (Labels l') → lim_Name l = lim_Name l'.
Proof.
  intros H. eapply lookup_weaken in H; [|apply SelectorLabels_resource].
  unfold Labels in H. cbn in H.
  change (Labels l' !! LabelKeyLimitadorResource = Some (lim_Name l)) in H.
  assert (Labels l' !! LabelKeyLimitadorResource = Some (lim_Name l')) as H' by done.
  congruence.
Qed.

End names.

#[export] Hint Resolve SelectorLabels_Labels : operator.
