(* ===== verification/Options.v ===== *)
(** * [pkg/limitador]: what the limitador process is started with

    The image, the storage back ends, and the command line, volumes and
    environment put together from them ([image.go],
    [inmemory_storage_options.go], [redis_storage_options.go],
    [redis_cache_storage_options.go], [disk_storage_options.go],
    [deployment_options.go]). *)

From S2P Require Import Prelude Kube Helpers Types Effects Names.

Definition LimitadorRepository : string := "quay.io/kuadrant/limitador".
Definition defaultImage : string := LimitadorRepository +:+ ":" +:+ "latest".

Definition DiskVolumeName : string := "storage".
Definition DiskPath : string := "/var/lib/limitador/data".

Definition LimitadorConfigFileName : string := "limitador-config.yaml".
Definition LimitadorCMMountPath : string := "/home/limitador/etc".
Definition LimitsCMVolumeName : string := "config-file".

Section options.
Context {PF : Platform}.

(** ** image.go *)

Definition GetLimitadorImage : string := env_GetString "RELATED_IMAGE_LIMITADOR" defaultImage.

(** ** Data of deployment_options.go *)

Record DeploymentOptions := {
  do_Args : list string;
  do_VolumeMounts : list VolumeMount;
  do_Volumes : list Volume;
  do_DeploymentStrategy : DeploymentStrategy;
  do_EnvVar : list EnvVar;
  do_ImagePullSecrets : list LocalObjectReference
}.

Record DeploymentStorageOptions := {
  dso_Args : list string;
  dso_VolumeMounts : list VolumeMount;
  dso_Volumes : list Volume;
  dso_DeploymentStrategy : DeploymentStrategy
}.

(** The strategy every back end that can be shared uses:
    [{Type: RollingUpdate, RollingUpdate: &RollingUpdateDeployment{}}]. *)
Definition rolling_update : DeploymentStrategy :=
  {| ds_Type := Some RollingUpdateDeploymentStrategyType;
     ds_RollingUpdate := Some {| ru_MaxUnavailable := None; ru_MaxSurge := None |} |}.

(** ** inmemory_storage_options.go *)

Definition InMemoryDeploymentOptions : result error DeploymentStorageOptions :=
  Ok {| dso_Args := ["memory"]; dso_VolumeMounts := []; dso_Volumes := [];
        dso_DeploymentStrategy := rolling_update |}.

(** ** redis_storage_options.go *)

Definition errNoConfigSecretRef : error := ErrNew "there's no ConfigSecretRef set".
Definition errNoURL : error := ErrNew "the storage config Secret doesn't have the `URL` field".

Definition DeploymentEnvVar (configSecretRef : option LocalObjectReference)
    : result error (list EnvVar) :=
  match configSecretRef with
  | None => Err errNoConfigSecretRef
  | Some configSecretRef =>
      Ok [ {| ev_Name := "LIMITADOR_OPERATOR_REDIS_URL";
              ev_SecretKeyRef := Some {| sks_Name := lor_Name configSecretRef;
                                         sks_Key := "URL" |} |} ]
  end.

Definition validateRedisSecret (defSecretNamespace : string) (secretRef : LocalObjectReference)
    : prog (option error) :=
  got ← do_call (Get KSecret {| nn_Namespace := defSecretNamespace;
                                nn_Name := lor_Name secretRef |});
  match got with
  | Err e => Ret (Some (ErrExt e))
  | Ok secret =>
      match sec_Data secret !! "URL" with
      | Some _ => Ret None
      | None => Ret (Some errNoURL)
      end
  end.

Definition RedisDeploymentOptions (defSecretNamespace : string) (redisObj : Redis)
    : prog (result error DeploymentStorageOptions) :=
  match redis_ConfigSecretRef redisObj with
  | None => Ret (Err errNoConfigSecretRef)
  | Some ref =>
      err ← validateRedisSecret defSecretNamespace ref;
      match err with
      | Some err => Ret (Err err)
      | None =>
          Ret (Ok {| dso_Args := ["redis"; "$(LIMITADOR_OPERATOR_REDIS_URL)"];
                     dso_VolumeMounts := []; dso_Volumes := [];
                     dso_DeploymentStrategy := rolling_update |})
      end
  end.

(** ** redis_cache_storage_options.go *)

(** Append a flag and the decimal value of an optional integer, when set. *)
Definition append_int_flag (flag : string) (opt : option Z) (command : list string) : list string :=
  match opt with
  | Some n => command ++ [flag; Itoa n]
  | None => command
  end.

Definition redis_cached_command (options : option RedisCachedOptions) : list string :=
  let command := ["redis_cached"; "$(LIMITADOR_OPERATOR_REDIS_URL)"] in
  match options with
  | None => command
  | Some o =>
      let command := append_int_flag "--flush-period" (rco_FlushPeriod o) command in
      let command := append_int_flag "--max-cached" (rco_MaxCached o) command in
      let command := append_int_flag "--response-timeout" (rco_ResponseTimeout o) command in
      append_int_flag "--batch-size" (rco_BatchSize o) command
  end.

Definition RedisCachedDeploymentOptions (defSecretNamespace : string) (redisCachedObj : RedisCached)
    : prog (result error DeploymentStorageOptions) :=
  match rc_ConfigSecretRef redisCachedObj with
  | None => Ret (Err errNoConfigSecretRef)
  | Some ref =>
      err ← validateRedisSecret defSecretNamespace ref;
      match err with
      | Some err => Ret (Err err)
      | None =>
          Ret (Ok {| dso_Args := redis_cached_command (rc_Options redisCachedObj);
                     dso_VolumeMounts := []; dso_Volumes := [];
                     dso_DeploymentStrategy := rolling_update |})
      end
  end.

(** ** disk_storage_options.go *)

Definition diskVolumeMounts : list VolumeMount :=
  [ {| vm_ReadOnly := false; vm_Name := DiskVolumeName; vm_MountPath := DiskPath |} ].

Definition diskVolumes (limObj : Limitador) : list Volume :=
  [ {| vol_Name := DiskVolumeName; vol_ConfigMap := None;
       vol_PersistentVolumeClaim :=
         Some {| pvs_ClaimName := PVCName limObj; pvs_ReadOnly := false |} |} ].

Definition DiskDeploymentOptions (limObj : Limitador) (diskObj : DiskSpec)
    : result error DeploymentStorageOptions :=
  let command := ["disk"] in
  let command := match disk_Optimize diskObj with
                 | Some o => command ++ ["--optimize"; o]
                 | None => command
                 end in
  let command := command ++ [DiskPath] in
  Ok {| dso_Args := command;
        dso_VolumeMounts := diskVolumeMounts;
        dso_Volumes := diskVolumes limObj;
        dso_DeploymentStrategy :=
          {| ds_Type := Some RecreateDeploymentStrategyType; ds_RollingUpdate := None |} |}.

(** ** deployment_options.go *)

(** The file the limits are mounted at. *)
Definition limits_file : string := JoinRooted LimitadorCMMountPath LimitadorConfigFileName.

(** The verbosity flag is the one step that can panic, on a negative level. *)
Definition DeploymentArgs (limObj : Limitador) (storageOptions : DeploymentStorageOptions)
    : outcome (list string) :=
  let spec := lim_Spec limObj in
  let args := [] in
  let args := match spec_RateLimitHeaders spec with
              | Some h => args ++ ["--rate-limit-headers"; h]
              | None => args
              end in
  let args := match spec_Telemetry spec with
              | Some t => if bool_decide (t = "exhaustive")
                          then args ++ ["--limit-name-in-labels"] else args
              | None => args
              end in
  let args := match spec_Tracing spec with
              | Some t => args ++ ["--tracing-endpoint"; tr_Endpoint t]
              | None => args
              end in
  args ← match spec_Verbosity spec with
         | Some v => vs ← Repeat "v" v; Done (args ++ ["-" +:+ vs])
         | None => Done args
         end;
  let args := args ++ ["--http-port"; Itoa (HTTPPort limObj)] in
  let args := args ++ ["--rls-port"; Itoa (GRPCPort limObj)] in
  let args := match spec_MetricLabelsDefault spec with
              | Some m => args ++ ["--metric-labels-default"; m]
              | None => args
              end in
  let args := args ++ [limits_file] in
  let args := args ++ dso_Args storageOptions in
  Done args.

Definition DeploymentVolumeMounts (storageOptions : DeploymentStorageOptions) : list VolumeMount :=
  let volumeMounts :=
    [ {| vm_ReadOnly := false; vm_Name := LimitsCMVolumeName;
         vm_MountPath := LimitadorCMMountPath |} ] in
  volumeMounts ++ dso_VolumeMounts storageOptions.

Definition DeploymentVolumes (limObj : Limitador) (storageOptions : DeploymentStorageOptions)
    : list Volume :=
  let volumes :=
    [ {| vol_Name := LimitsCMVolumeName;
         vol_ConfigMap := Some {| lor_Name := LimitsConfigMapName limObj |};
         vol_PersistentVolumeClaim := None |} ] in
  volumes ++ dso_Volumes storageOptions.

End options.
