(* ===== verification/Objects.v ===== *)
(** * [pkg/limitador/k8s_objects.go]: the objects the operator wants *)

From S2P Require Import Prelude Kube Helpers Types Effects Names Options.

Definition StatusEndpoint : string := "/status".

(** [sigs.k8s.io/yaml.Marshal] of the limits. *)
Class LimitsCodec {PF : Platform} := {
  yaml_Marshal_Limits : list RateLimit → result error string
}.

Section objects.
Context {PF : Platform}.

(** The literal of [Service], named apart from the struct. *)
Definition Service_of (limitador : Limitador) : Service :=
  {| svc_TypeMeta := {| tm_Kind := "Service"; tm_APIVersion := "v1" |};
     svc_ObjectMeta := new_meta (ServiceName limitador) (lim_Namespace limitador) (Labels limitador);
     svc_Ports :=
       [ {| sp_Name := "http"; sp_Protocol := ProtocolTCP; sp_Port := HTTPPort limitador;
            sp_TargetPort := FromString "http" |};
         {| sp_Name := "grpc"; sp_Protocol := ProtocolTCP; sp_Port := GRPCPort limitador;
            sp_TargetPort := FromString "grpc" |} ];
     svc_Selector := SelectorLabels limitador;
     svc_ClusterIP := ClusterIPNone;
     svc_Type := ServiceTypeClusterIP |}.

(** The image of the container: [spec.image] over [spec.version] over the
    environment. *)
Definition deployment_image (limitador : Limitador) : string :=
  let image := GetLimitadorImage in
  let image := match spec_Version (lim_Spec limitador) with
               | Some v => LimitadorRepository +:+ ":" +:+ v
               | None => image
               end in
  match spec_Image (lim_Spec limitador) with
  | Some i => i
  | None => image
  end.

Definition status_probe (limitador : Limitador) (timeout : Z) : Probe :=
  {| pr_HTTPGet := Some {| hg_Path := StatusEndpoint; hg_Port := FromInt (HTTPPort limitador);
                           hg_Scheme := URISchemeHTTP |};
     pr_InitialDelaySeconds := 5; pr_TimeoutSeconds := timeout; pr_PeriodSeconds := 10;
     pr_SuccessThreshold := 1; pr_FailureThreshold := 3 |}.

Definition limitador_container (limitador : Limitador) (o : DeploymentOptions) : Container :=
  {| c_Name := "limitador";
     c_Image := deployment_image limitador;
     c_Command := ["limitador-server"];
     c_Args := do_Args o;
     c_Env := do_EnvVar o;
     c_Ports :=
       [ {| cp_Name := "http"; cp_ContainerPort := HTTPPort limitador; cp_Protocol := ProtocolTCP |};
         {| cp_Name := "grpc"; cp_ContainerPort := GRPCPort limitador; cp_Protocol := ProtocolTCP |} ];
     c_LivenessProbe := Some (status_probe limitador 2);
     c_ReadinessProbe := Some (status_probe limitador 5);
     c_Resources := GetResourceRequirements limitador;
     c_VolumeMounts := do_VolumeMounts o;
     c_ImagePullPolicy := PullIfNotPresent |}.

Definition Deployment_of (limitador : Limitador) (deploymentOptions : DeploymentOptions) : Deployment :=
  {| dep_TypeMeta := {| tm_Kind := "Deployment"; tm_APIVersion := "apps/v1" |};
     dep_ObjectMeta :=
       new_meta (DeploymentName limitador) (lim_Namespace limitador) (Labels limitador);
     dep_Spec :=
       {| dsp_Replicas := Some (GetReplicas limitador);
          dsp_Strategy := do_DeploymentStrategy deploymentOptions;
          dsp_Selector := Some {| MatchLabels := SelectorLabels limitador |};
          dsp_Template :=
            {| pt_Labels := Labels limitador;
               pt_Spec :=
                 {| ps_Affinity := spec_Affinity (lim_Spec limitador);
                    ps_ImagePullSecrets := do_ImagePullSecrets deploymentOptions;
                    ps_Containers := [limitador_container limitador deploymentOptions];
                    ps_Volumes := do_Volumes deploymentOptions |} |} |};
     dep_Status := DeploymentStatus_zero |}.

Definition LimitsConfigMap {LC : LimitsCodec} (limitadorObj : Limitador) : result error ConfigMap :=
  match yaml_Marshal_Limits (Limits limitadorObj) with
  | Err marshallErr => Err marshallErr
  | Ok limitsMarshalled =>
      Ok {| cm_TypeMeta := {| tm_Kind := "ConfigMap"; tm_APIVersion := "v1" |};
            cm_ObjectMeta := new_meta (LimitsConfigMapName limitadorObj)
                               (lim_Namespace limitadorObj) (Labels limitadorObj);
            cm_Data := {[ LimitadorConfigFileName := limitsMarshalled ]} |}
  end.

(** The tag is set on the object's metadata in place. *)
Definition PodDisruptionBudget_of (limitadorObj : Limitador) : PodDisruptionBudget :=
  let meta := new_meta (PodDisruptionBudgetName limitadorObj) (lim_Namespace limitadorObj)
                (Labels limitadorObj) in
  let type := {| tm_Kind := "PodDisruptionBudget"; tm_APIVersion := "policy/v1" |} in
  let selector := Some {| MatchLabels := SelectorLabels limitadorObj |} in
  match spec_PodDisruptionBudget (lim_Spec limitadorObj) with
  | None =>
      {| pdb_TypeMeta := type; pdb_ObjectMeta := TagObjectToDelete meta; pdb_Selector := selector;
         pdb_MaxUnavailable := None; pdb_MinAvailable := None |}
  | Some b =>
      {| pdb_TypeMeta := type; pdb_ObjectMeta := meta; pdb_Selector := selector;
         pdb_MaxUnavailable := pbt_MaxUnavailable b; pdb_MinAvailable := pbt_MinAvailable b |}
  end.

(** The claim before the spec's own settings are copied in. *)
Definition PVC_default (limitador : Limitador) : PersistentVolumeClaim :=
  {| pvc_TypeMeta := {| tm_Kind := "PersistentVolumeClaim"; tm_APIVersion := "v1" |};
     pvc_ObjectMeta := new_meta (PVCName limitador) (lim_Namespace limitador) (Labels limitador);
     pvc_AccessModes := [ReadWriteOnce];
     pvc_Requests := {[ ResourceStorage := MustParse "1Gi" ]};
     pvc_StorageClassName := None;
     pvc_VolumeName := "" |}.

Definition PVC (limitador : Limitador) : PersistentVolumeClaim :=
  let pvc := PVC_default limitador in
  match spec_Storage (lim_Spec limitador) ≫= st_Disk with
  | None =>
      {| pvc_TypeMeta := pvc_TypeMeta pvc; pvc_ObjectMeta := TagObjectToDelete (pvc_ObjectMeta pvc);
         pvc_AccessModes := pvc_AccessModes pvc; pvc_Requests := pvc_Requests pvc;
         pvc_StorageClassName := pvc_StorageClassName pvc; pvc_VolumeName := pvc_VolumeName pvc |}
  | Some disk =>
      match disk_PVC disk with
      | None => pvc
      | Some g =>
          {| pvc_TypeMeta := pvc_TypeMeta pvc; pvc_ObjectMeta := pvc_ObjectMeta pvc;
             pvc_AccessModes := pvc_AccessModes pvc;
             pvc_Requests := match pg_Resources g with
                             | Some r => {[ ResourceStorage := pcr_Requests r ]}
                             | None => pvc_Requests pvc
                             end;
             pvc_StorageClassName := pg_StorageClassName g;
             pvc_VolumeName := default (pvc_VolumeName pvc) (pg_VolumeName g) |}
      end
  end.

End objects.
