(* ===== verification/BaseReconciler.v ===== *)
(** * [pkg/reconcilers/base_reconciler.go]

    The operations every reconciler shares: server-side apply of a desired
    object, deletion of an object that carries the delete tag, the
    create-only treatment of volume claims, the patch of a pod annotation,
    and the owner reference. *)

From S2P Require Import Prelude Kube Helpers Types Effects Observability.

Definition FieldManagerName : string := "limitador-operator".

(** [controllerutil.SetControllerReference(owner, controlled, scheme)]: it
    changes the owner references of [controlled] and nothing else, or fails. *)
Class ControllerUtil {PF : Platform} := {
  SetControllerReference : ObjectMeta → ObjectMeta → result ExtError (list OwnerReference)
}.

Section base_reconciler.
Context {PF : Platform}.

(** The options of every server-side apply:
    [client.ForceOwnership, client.FieldOwner(FieldManagerName)]. *)
Definition apply_opts : apply_options :=
  {| ao_ForceOwnership := true; ao_FieldOwner := FieldManagerName |}.

Definition map_meta (kd : kind) (f : ObjectMeta → ObjectMeta) : struct_of kd → struct_of kd :=
  match kd with
  | KLimitador => λ l, {| lim_TypeMeta := lim_TypeMeta l; lim_ObjectMeta := f (lim_ObjectMeta l);
                          lim_Spec := lim_Spec l; lim_Status := lim_Status l |}
  | KService => λ s, {| svc_TypeMeta := svc_TypeMeta s; svc_ObjectMeta := f (svc_ObjectMeta s);
                        svc_Ports := svc_Ports s; svc_Selector := svc_Selector s;
                        svc_ClusterIP := svc_ClusterIP s; svc_Type := svc_Type s |}
  | KPersistentVolumeClaim => λ p,
      {| pvc_TypeMeta := pvc_TypeMeta p; pvc_ObjectMeta := f (pvc_ObjectMeta p);
         pvc_AccessModes := pvc_AccessModes p; pvc_Requests := pvc_Requests p;
         pvc_StorageClassName := pvc_StorageClassName p; pvc_VolumeName := pvc_VolumeName p |}
  | KDeployment => λ d, {| dep_TypeMeta := dep_TypeMeta d; dep_ObjectMeta := f (dep_ObjectMeta d);
                           dep_Spec := dep_Spec d; dep_Status := dep_Status d |}
  | KConfigMap => λ c, {| cm_TypeMeta := cm_TypeMeta c; cm_ObjectMeta := f (cm_ObjectMeta c);
                          cm_Data := cm_Data c |}
  | KPodDisruptionBudget => λ p,
      {| pdb_TypeMeta := pdb_TypeMeta p; pdb_ObjectMeta := f (pdb_ObjectMeta p);
         pdb_Selector := pdb_Selector p; pdb_MaxUnavailable := pdb_MaxUnavailable p;
         pdb_MinAvailable := pdb_MinAvailable p |}
  | KPod => λ p, {| pod_TypeMeta := pod_TypeMeta p; pod_ObjectMeta := f (pod_ObjectMeta p) |}
  | KSecret => λ s, {| sec_ObjectMeta := f (sec_ObjectMeta s); sec_Data := sec_Data s |}
  end.

(** ** Owner references *)

Section owner.
Context {CU : ControllerUtil}.

Definition SetOwnerReference (owner : Limitador) {kd : kind} (obj : struct_of kd)
    : result error (struct_of kd) :=
  match SetControllerReference (lim_ObjectMeta owner) (struct_meta kd obj) with
  | Err e => Err (ErrExt e)
  | Ok refs => Ok (map_meta kd (with_owners refs) obj)
  end.

(** The call with its log line, on the reconciler's own logger. *)
Definition SetOwnerReference_logged (logger : Logger) (owner : Limitador) {kd : kind}
    (obj : struct_of kd) : prog (result error (struct_of kd)) :=
  match SetOwnerReference owner obj with
  | Err err =>
      _ ← log_error logger err "Error setting OwnerReference on object"
            [("Kind", FKind (obj_type (Obj kd obj)));
             ("Namespace", FString (om_Namespace (struct_meta kd obj)));
             ("Name", FString (om_Name (struct_meta kd obj)))];
      Ret (Err err)
  | Ok obj => Ret (Ok obj)
  end.

(** The object after the call, and whether it gained an owner. *)
Definition EnsureOwnerReference (logger : Logger) (owner : Limitador) {kd : kind}
    (obj : struct_of kd) : prog (result error (struct_of kd * bool)) :=
  let originalSize := length (om_OwnerReferences (struct_meta kd obj)) in
  got ← SetOwnerReference_logged logger owner obj;
  match got with
  | Err e => Ret (Err e)
  | Ok obj' =>
      let newSize := length (om_OwnerReferences (struct_meta kd obj')) in
      Ret (Ok (obj', bool_decide (originalSize ≠ newSize)))
  end.
End owner.

(** ** Single calls *)

(** The fields that name an object in a log line. *)
Definition object_fields (obj : object) : list (string * log_field) :=
  [ ("GKV", FKind (obj_type obj)); ("name", FString (om_Name (obj_meta obj)));
    ("namespace", FString (om_Namespace (obj_meta obj))) ].

(** [obj] says the kind to read; what was read takes its place. *)
Definition GetResource (ctx : Context) (objKey : NamespacedName) (obj : object)
    : prog (result error (struct_of (obj_kind obj))) :=
  match FromContext ctx with
  | Err err => Ret (Err err)
  | Ok logger =>
      _ ← log_info logger "get object" (object_fields obj);
      got ← do_call (Get (obj_kind obj) objKey);
      Ret match got with
          | Ok o => Ok o
          | Err e => Err (ErrExt e)
          end
  end.

Definition CreateResource (ctx : Context) (obj : object) : prog (option error) :=
  match FromContext ctx with
  | Err err => Ret (Some err)
  | Ok logger =>
      _ ← log_info logger "create object" (object_fields obj);
      err ← do_call (Create obj); Ret (ext_error err)
  end.

Definition UpdateResource (ctx : Context) (obj : object) : prog (option error) :=
  match FromContext ctx with
  | Err err => Ret (Some err)
  | Ok logger =>
      _ ← log_info logger "update object" (object_fields obj);
      err ← do_call (Update obj); Ret (ext_error err)
  end.

Definition DeleteResource (ctx : Context) (obj : object) : prog (option error) :=
  match FromContext ctx with
  | Err err => Ret (Some err)
  | Ok logger =>
      _ ← log_info logger "delete object" (object_fields obj);
      err ← do_call (Delete obj);
      match ext_error err with
      | Some err => if IsNotFound err then Ret None else Ret (Some err)
      | None => Ret None
      end
  end.

Definition UpdateResourceStatus (ctx : Context) (obj : object) : prog (option error) :=
  match FromContext ctx with
  | Err err => Ret (Some err)
  | Ok logger =>
      _ ← log_info logger "apply object status" (object_fields obj);
      err ← do_call (Status_Patch_Apply obj apply_opts); Ret (ext_error err)
  end.

(** ** Reconciliation of one object *)

Definition ReconcileResource (ctx : Context) (obj : object) : prog (option error) :=
  match FromContext ctx with
  | Err err => Ret (Some err)
  | Ok logger =>
      if IsObjectTaggedToDelete (obj_meta obj) then DeleteResource ctx obj
      else
        _ ← log_info logger "apply object" (object_fields obj);
        err ← do_call (Patch_Apply obj apply_opts);
        let span := SpanFromContext ctx in
        _ ← match ext_error err with
            | None => RecordResourceApplied span
            | Some err => RecordError span err "failed to apply resource"
            end;
        Ret (ext_error err)
  end.

Definition ReconcileService (ctx : Context) (desired : Service) : prog (option error) :=
  ReconcileResource ctx (Obj KService desired).

Definition ReconcileDeployment (ctx : Context) (desired : Deployment) : prog (option error) :=
  ReconcileResource ctx (Obj KDeployment desired).

Definition ReconcileConfigMap (ctx : Context) (desired : ConfigMap) : prog (option error) :=
  ReconcileResource ctx (Obj KConfigMap desired).

Definition ReconcilePodDisruptionBudget (ctx : Context) (desired : PodDisruptionBudget)
    : prog (option error) :=
  ReconcileResource ctx (Obj KPodDisruptionBudget desired).

Definition ReconcilePersistentVolumeClaim (ctx : Context) (desired : PersistentVolumeClaim)
    : prog (option error) :=
  match FromContext ctx with
  | Err err => Ret (Some err)
  | Ok logger =>
      if IsObjectTaggedToDelete (pvc_ObjectMeta desired)
      then DeleteResource ctx (Obj KPersistentVolumeClaim desired)
      else
        let key := key_of (pvc_ObjectMeta desired) in
        got ← do_call (Get KPersistentVolumeClaim key);
        match got with
        | Err e =>
            let err := ErrExt e in
            if negb (IsNotFound err) then
              let span := SpanFromContext ctx in
              _ ← RecordError span err "failed to get PVC";
              Ret (Some err)
            else
              err ← CreateResource ctx (Obj KPersistentVolumeClaim desired);
              let span := SpanFromContext ctx in
              _ ← match err with
                  | None => RecordResourceCreated span
                  | Some err => RecordError span err "failed to create PVC"
                  end;
              Ret err
        | Ok _ =>
            _ ← log_v logger 1 "pvc already exists, skipping update"
                  [("name", FString (om_Name (pvc_ObjectMeta desired)));
                   ("namespace", FString (om_Namespace (pvc_ObjectMeta desired)))];
            let span := SpanFromContext ctx in
            _ ← RecordResourceUnchanged span;
            Ret None
        end
  end.

(** The patch that sets one annotation of a pod. *)
Definition pod_annotation_patch (podName podNamespace annotationKey annotationValue : string) : Pod :=
  {| pod_TypeMeta := {| tm_Kind := "Pod"; tm_APIVersion := "v1" |};
     pod_ObjectMeta := with_annotations (Some {[ annotationKey := annotationValue ]})
                         (new_meta podName podNamespace ∅) |}.

Definition ReconcilePodAnnotation (ctx : Context)
    (podName podNamespace annotationKey annotationValue : string) : prog (option error) :=
  match FromContext ctx with
  | Err err => Ret (Some err)
  | Ok logger =>
      let podPatch := pod_annotation_patch podName podNamespace annotationKey annotationValue in
      _ ← log_info logger "apply pod annotation"
            [("name", FString podName); ("namespace", FString podNamespace);
             ("key", FString annotationKey)];
      ReconcileResource ctx (Obj KPod podPatch)
  end.

(** ** Lemmas *)

Lemma map_meta_struct_meta kd f (o : struct_of kd) :
  struct_meta kd (map_meta kd f o) = f (struct_meta kd o).
Proof. by destruct kd. Qed.

Lemma SetOwnerReference_Ok {CU : ControllerUtil} owner kd (o o' : struct_of kd) :
  SetOwnerReference owner o = Ok o' →
  ∃ refs, o' = map_meta kd (with_owners refs) o.
Proof.
  unfold SetOwnerReference.
  destruct (SetControllerReference _ _) as [refs|e]; [|done]. intros [= <-]. eauto.
Qed.

End base_reconciler.
