(* ===== verification/Status.v ===== *)
(** * [controllers/limitador_status.go] *)

From S2P Require Import Prelude Kube Helpers Types Effects Observability Names BaseReconciler.

(** [meta.SetStatusCondition(&conditions, newCondition)] at a given time: the
    conditions after the call. *)
Class StatusConditions {PF : Platform} := {
  SetStatusCondition : Time → list Condition → Condition → list Condition
}.

Section status.
Context {PF : Platform} {CC : ConditionCodec} {SC : StatusConditions}.

Definition buildServiceHost (limitadorObj : Limitador) : string :=
  ServiceName limitadorObj +:+ "." +:+ lim_Namespace limitadorObj +:+ ".svc.cluster.local".

(** The verdict on a Deployment that was read: why it is not available. *)
Definition deployment_unavailable (deployment : Deployment) : option string :=
  let st := dep_Status deployment in
  if bool_decide (dst_ObservedGeneration st ≠ om_Generation (dep_ObjectMeta deployment))
  then Some "Deployment still in progress"
  else
    match FindDeploymentStatusCondition (dst_Conditions st) DeploymentAvailable with
    | None => Some "Available condition not found"
    | Some availableCondition =>
        if bool_decide (dc_Status availableCondition ≠ ConditionTrue)
        then Some (dc_Message availableCondition)
        else if bool_decide (dst_UnavailableReplicas st ≠ 0%Z)
        then Some "Deployment has unavailable replicas"
        else if bool_decide (dst_ReadyReplicas st ≠ dst_Replicas st)
        then Some "Deployment has replicas not ready yet"
        else None
    end.

Definition checkLimitadorAvailable (limitadorObj : Limitador)
    : prog (result error (option string)) :=
  let dKey := {| nn_Namespace := lim_Namespace limitadorObj;
                 nn_Name := DeploymentName limitadorObj |} in
  got ← do_call (Get KDeployment dKey);
  match got with
  | Err e =>
      let err := ErrExt e in
      match IgnoreNotFound err with
      | Some err => Ret (Err err)
      | None => Ret (Ok (Some (Error err)))
      end
  | Ok deployment => Ret (Ok (deployment_unavailable deployment))
  end.

(** The literal of a Ready condition. *)
Definition ready_cond (status : ConditionStatus) (reason message : string) : Condition :=
  {| cond_Type := StatusConditionReady; cond_Status := status; cond_ObservedGeneration := 0;
     cond_LastTransitionTime := Time_zero; cond_Reason := reason; cond_Message := message |}.

Definition readyCondition (limitadorObj : Limitador) (specErr : option error)
    : prog (result error Condition) :=
  match specErr with
  | Some specErr =>
      Ret (Ok (ready_cond ConditionFalse "ReconcilliationError" (Error specErr)))
  | None =>
      checked ← checkLimitadorAvailable limitadorObj;
      match checked with
      | Err err => Ret (Err err)
      | Ok (Some reason) => Ret (Ok (ready_cond ConditionFalse "LimitadorNotAvailable" reason))
      | Ok None => Ret (Ok (ready_cond ConditionTrue "Ready" "Limitador is ready"))
      end
  end.

(** The new status around an updated list of conditions. *)
Definition new_status (limitadorObj : Limitador) (conditions : list Condition) : LimitadorStatus :=
  {| status_ObservedGeneration := lim_Generation limitadorObj;
     status_Conditions := conditions;
     status_Service :=
       Some {| ls_Host := buildServiceHost limitadorObj;
               ls_Ports := {| ports_HTTP := HTTPPort limitadorObj;
                              ports_GRPC := GRPCPort limitadorObj |} |} |}.

Definition calculateStatus (limitadorObj : Limitador) (specErr : option error)
    : prog (result error LimitadorStatus) :=
  let conditions := DeepCopyConditions (status_Conditions (lim_Status limitadorObj)) in
  availableCond ← readyCondition limitadorObj specErr;
  match availableCond with
  | Err err => Ret (Err err)
  | Ok availableCond =>
      now ← do_call Now;
      Ret (Ok (new_status limitadorObj (SetStatusCondition now conditions availableCond)))
  end.

(** The object of the status patch: identity and status, nothing else. *)
Definition status_patch (limitadorObj : Limitador) (newStatus : LimitadorStatus) : Limitador :=
  {| lim_TypeMeta := {| tm_Kind := "Limitador"; tm_APIVersion := GroupVersion_String |};
     lim_ObjectMeta := new_meta (lim_Name limitadorObj) (lim_Namespace limitadorObj) ∅;
     lim_Spec := LimitadorSpec_zero;
     lim_Status := newStatus |}.

(** [limitadorObj.Status.Equals(newStatus, logger)]: the comparison of Types.v
    with the line it logs. *)
Definition difference_message (d : status_difference) : string :=
  match d with
  | DiffGeneration _ _ => "status observedGeneration not equal"
  | DiffConditions _ _ => "status conditions not equal"
  | DiffService _ _ => "status service not equal"
  end.

Definition Equals_logged (logger : Logger) (s other : LimitadorStatus) : prog bool :=
  match Equals_difference s other with
  | Some d => _ ← log_v logger 1 (difference_message d) [("difference", FDiff d)]; Ret false
  | None => Ret true
  end.

Definition reconcileStatus_body (ctx : Context) (span : Span) (limitadorObj : Limitador)
    (specErr : option error) : prog (Result * option error) :=
  match FromContext ctx with
  | Err err => Ret (Result_zero, Some err)
  | Ok logger =>
      newStatus ← calculateStatus limitadorObj specErr;
      match newStatus with
      | Err err =>
          _ ← RecordError span err "failed to calculate status";
          Ret (Result_zero, Some err)
      | Ok newStatus =>
          equalStatus ← Equals_logged logger (lim_Status limitadorObj) newStatus;
          let sameGeneration := bool_decide (lim_Generation limitadorObj =
                                  status_ObservedGeneration (lim_Status limitadorObj)) in
          _ ← log_v logger 1 "Status" [("status is different", FBool (negb equalStatus))];
          _ ← log_v logger 1 "Status" [("generation is different", FBool (negb sameGeneration))];
          if equalStatus && sameGeneration
          then
            _ ← log_v logger 1 "Status was not updated" [];
            _ ← RecordStatusCompleted span;
            Ret (Result_zero, None)
          else
            _ ← log_v logger 1 "Updating Status"
                  [("sequence no:", FString ("sequence No: " +:+
                      Itoa (status_ObservedGeneration (lim_Status limitadorObj)) +:+ "->" +:+
                      Itoa (status_ObservedGeneration newStatus)))];
            updateErr ← UpdateResourceStatus ctx
                          (Obj KLimitador (status_patch limitadorObj newStatus));
            match updateErr with
            | Some updateErr =>
                _ ← RecordError span updateErr "failed to update status";
                Ret (Result_zero, Some (ErrWrap "failed to update status" updateErr))
            | None =>
                _ ← RecordStatusCompleted span;
                Ret (Result_zero, None)
            end
      end
  end.

Definition reconcileStatus (ctx : Context) (limitadorObj : Limitador) (specErr : option error)
    : prog (Result * option error) :=
  '(ctx, span) ← StartReconcileStatusSpan ctx;
  deferring (span_End span) (reconcileStatus_body ctx span limitadorObj specErr).

End status.
