(* ===== verification/Controller.v ===== *)
(** * [controllers/limitador_controller.go]: the reconcile loop *)

From S2P Require Import Prelude Kube Helpers Types Effects Observability Names Options Objects.
From S2P Require Import BaseReconciler Status.

(** [json.MarshalIndent] of the custom resource, for the debug log. *)
Class LimitadorCodec {PF : Platform} := {
  json_MarshalIndent_Limitador : Limitador → result error string
}.

Section controller.
Context {PF : Platform} {CC : ConditionCodec} {LC : LimitsCodec} {JC : LimitadorCodec}
  {CU : ControllerUtil} {SC : StatusConditions}.

(** ** Deployment options *)

Definition getDeploymentStorageOptions (limObj : Limitador)
    : prog (result error DeploymentStorageOptions) :=
  match spec_Storage (lim_Spec limObj) with
  | Some {| st_Redis := Some redis |} => RedisDeploymentOptions (lim_Namespace limObj) redis
  | Some {| st_RedisCached := Some cached |} =>
      RedisCachedDeploymentOptions (lim_Namespace limObj) cached
  | Some {| st_Disk := Some disk |} => Ret (DiskDeploymentOptions limObj disk)
  | _ => Ret InMemoryDeploymentOptions
  end.

Definition getDeploymentEnvVar (limObj : Limitador) : result error (list EnvVar) :=
  match spec_Storage (lim_Spec limObj) with
  | Some {| st_Redis := Some redis |} => DeploymentEnvVar (redis_ConfigSecretRef redis)
  | Some {| st_RedisCached := Some cached |} => DeploymentEnvVar (rc_ConfigSecretRef cached)
  | _ => Ok []
  end.

Definition getDeploymentImagePullSecrets (limObj : Limitador) : list LocalObjectReference :=
  spec_ImagePullSecrets (lim_Spec limObj).

Definition getDeploymentOptions (limObj : Limitador) : prog (result error DeploymentOptions) :=
  got ← getDeploymentStorageOptions limObj;
  match got with
  | Err err => Ret (Err err)
  | Ok deploymentStorageOptions =>
      args ← of_outcome (DeploymentArgs limObj deploymentStorageOptions);
      match getDeploymentEnvVar limObj with
      | Err err => Ret (Err err)
      | Ok envVar =>
          Ret (Ok {| do_Args := args;
                     do_VolumeMounts := DeploymentVolumeMounts deploymentStorageOptions;
                     do_Volumes := DeploymentVolumes limObj deploymentStorageOptions;
                     do_DeploymentStrategy := dso_DeploymentStrategy deploymentStorageOptions;
                     do_EnvVar := envVar;
                     do_ImagePullSecrets := getDeploymentImagePullSecrets limObj |})
      end
  end.

(** ** One resource at a time

    The tail every [reconcileX] shares: set the owner, reconcile the object,
    log and record what happened. [rLogger] is the logger of the reconciler,
    [r.Logger()]; [logger] the one in the context. *)
Definition reconcile_owned (rLogger logger : Logger) (ctx : Context) (span : Span)
    (limitadorObj : Limitador) {kd : kind} (obj : struct_of kd)
    (reconcile : Context → struct_of kd → prog (option error))
    (message description : string) : prog (option error) :=
  got ← SetOwnerReference_logged rLogger limitadorObj obj;
  match got with
  | Err err => _ ← RecordError span err "failed to set owner reference"; Ret (Some err)
  | Ok obj =>
      err ← reconcile ctx obj;
      _ ← log_v logger 1 message [("error", FError err)];
      match err with
      | Some err => _ ← RecordError span err description; Ret (Some err)
      | None => _ ← set_status_ok span; Ret None
      end
  end.

Definition reconcileService (rLogger : Logger) (ctx : Context) (limitadorObj : Limitador)
    : prog (option error) :=
  '(ctx, span) ← StartResourceSpan ctx "Service" (lim_Namespace limitadorObj)
                   (ServiceName limitadorObj);
  deferring (span_End span)
    match FromContext ctx with
    | Err err => Ret (Some err)
    | Ok logger =>
        reconcile_owned rLogger logger (kd := KService) ctx span limitadorObj
          (Service_of limitadorObj)
          ReconcileService "reconcile service" "failed to reconcile service"
    end.

Definition reconcilePVC (rLogger : Logger) (ctx : Context) (limitadorObj : Limitador)
    : prog (option error) :=
  '(ctx, span) ← StartResourceSpan ctx "PersistentVolumeClaim" (lim_Namespace limitadorObj)
                   (PVCName limitadorObj);
  deferring (span_End span)
    match FromContext ctx with
    | Err err => Ret (Some err)
    | Ok logger =>
        reconcile_owned rLogger logger (kd := KPersistentVolumeClaim) ctx span limitadorObj
          (PVC limitadorObj)
          ReconcilePersistentVolumeClaim "reconcile pvc" "failed to reconcile PVC"
    end.

Definition reconcileDeployment (rLogger : Logger) (ctx : Context) (limitadorObj : Limitador)
    : prog (option error) :=
  '(ctx, span) ← StartResourceSpan ctx "Deployment" (lim_Namespace limitadorObj)
                   (DeploymentName limitadorObj);
  deferring (span_End span)
    match FromContext ctx with
    | Err err => Ret (Some err)
    | Ok logger =>
        got ← getDeploymentOptions limitadorObj;
        match got with
        | Err err => _ ← RecordError span err "failed to get deployment options"; Ret (Some err)
        | Ok deploymentOptions =>
            reconcile_owned rLogger logger (kd := KDeployment) ctx span limitadorObj
              (Deployment_of limitadorObj deploymentOptions)
              ReconcileDeployment "reconcile deployment" "failed to reconcile deployment"
        end
    end.

Definition reconcileLimitsConfigMap (rLogger : Logger) (ctx : Context) (limitadorObj : Limitador)
    : prog (option error) :=
  '(ctx, span) ← StartResourceSpan ctx "ConfigMap" (lim_Namespace limitadorObj)
                   (LimitsConfigMapName limitadorObj);
  deferring (span_End span)
    match FromContext ctx with
    | Err err => Ret (Some err)
    | Ok logger =>
        match LimitsConfigMap limitadorObj with
        | Err err => _ ← RecordError span err "failed to create limits ConfigMap"; Ret (Some err)
        | Ok limitsConfigMap =>
            reconcile_owned rLogger logger (kd := KConfigMap) ctx span limitadorObj limitsConfigMap
              ReconcileConfigMap "reconcile limits ConfigMap" "failed to reconcile limits ConfigMap"
        end
    end.

Definition reconcilePdb (rLogger : Logger) (ctx : Context) (limitadorObj : Limitador)
    : prog (option error) :=
  '(ctx, span) ← StartResourceSpan ctx "PodDisruptionBudget" (lim_Namespace limitadorObj)
                   (PodDisruptionBudgetName limitadorObj);
  deferring (span_End span)
    match FromContext ctx with
    | Err err => Ret (Some err)
    | Ok logger =>
        reconcile_owned rLogger logger (kd := KPodDisruptionBudget) ctx span limitadorObj
          (PodDisruptionBudget_of limitadorObj)
          ReconcilePodDisruptionBudget "reconcile pdb" "failed to reconcile PodDisruptionBudget"
    end.

(** ** The pods *)

(** [pod.GetAnnotations()[key]]: the empty string when there is none. *)
Definition pod_annotation (pod : Pod) (key : string) : string :=
  default "" (om_Annotations (pod_ObjectMeta pod) ≫= (.!! key)).

(** The loop over the listed pods. *)
Fixpoint annotate_pods (ctx : Context) (span : Span) (resourceVersion : string) (pods : list Pod)
    : prog (option error) :=
  match pods with
  | [] => Ret None
  | pod :: pods' =>
      if bool_decide (pod_annotation pod PodAnnotationConfigMapResourceVersion ≠ resourceVersion)
      then
        err ← ReconcilePodAnnotation ctx (om_Name (pod_ObjectMeta pod))
                (om_Namespace (pod_ObjectMeta pod))
                PodAnnotationConfigMapResourceVersion resourceVersion;
        match err with
        | Some err => _ ← RecordError span err "failed to update pod annotation"; Ret (Some err)
        | None => annotate_pods ctx span resourceVersion pods'
        end
      else annotate_pods ctx span resourceVersion pods'
  end.

(** The result that asks to be run again. *)
Definition Result_requeue : Result := {| Requeue := true; RequeueAfter := 0 |}.

(** [Spec.Replicas != nil && len(pods) != int(GetReplicas())] *)
Definition replicas_pending (limitadorObj : Limitador) (pods : list Pod) : bool :=
  match spec_Replicas (lim_Spec limitadorObj) with
  | Some _ => bool_decide (Z.of_nat (length pods) ≠ GetReplicas limitadorObj)
  | None => false
  end.

Definition limits_key (limitadorObj : Limitador) : NamespacedName :=
  {| nn_Namespace := lim_Namespace limitadorObj; nn_Name := LimitsConfigMapName limitadorObj |}.

Definition reconcilePodLimitsHashAnnotation_body (ctx : Context) (span : Span)
    (limitadorObj : Limitador) : prog (Result * option error) :=
  listed ← do_call (ListPods (SelectorLabels limitadorObj) (lim_Namespace limitadorObj));
  match listed with
  | Err e => _ ← RecordError span (ErrExt e) "failed to list pods"; Ret (Result_zero, Some (ErrExt e))
  | Ok pods =>
      if bool_decide (length pods = 0) then
        _ ← set_status_ok span; Ret (Result_requeue, None)
      else if replicas_pending limitadorObj pods then
        _ ← set_status_ok span; Ret (Result_requeue, None)
      else
        got ← do_call (Get KConfigMap (limits_key limitadorObj));
        match got with
        | Err e =>
            if IsNotFound (ErrExt e) then
              _ ← set_status_ok span; Ret (Result_requeue, None)
            else
              _ ← RecordError span (ErrExt e) "failed to get limits ConfigMap";
              Ret (Result_zero, Some (ErrExt e))
        | Ok cm =>
            err ← annotate_pods ctx span (om_ResourceVersion (cm_ObjectMeta cm)) pods;
            match err with
            | Some err => Ret (Result_zero, Some err)
            | None => _ ← set_status_ok span; Ret (Result_zero, None)
            end
        end
  end.

Definition reconcilePodLimitsHashAnnotation (ctx : Context) (limitadorObj : Limitador)
    : prog (Result * option error) :=
  '(ctx, span) ← StartResourceSpan ctx "PodAnnotation" (lim_Namespace limitadorObj)
                   (DeploymentName limitadorObj);
  deferring (span_End span) (reconcilePodLimitsHashAnnotation_body ctx span limitadorObj).

(** ** The whole spec *)

(** [if err := step; err != nil { RecordError; return Result{}, err }] *)
Definition or_return (span : Span) (step : prog (option error)) (description : string)
    (rest : prog (Result * option error)) : prog (Result * option error) :=
  err ← step;
  match err with
  | Some err => _ ← RecordError span err description; Ret (Result_zero, Some err)
  | None => rest
  end.

Definition reconcileSpec_body (rLogger : Logger) (ctx : Context) (span : Span) (limitadorObj : Limitador)
    : prog (Result * option error) :=
  or_return span (reconcileService rLogger ctx limitadorObj) "failed to reconcile service" (
  or_return span (reconcilePVC rLogger ctx limitadorObj) "failed to reconcile PVC" (
  or_return span (reconcileDeployment rLogger ctx limitadorObj) "failed to reconcile deployment" (
  or_return span (reconcileLimitsConfigMap rLogger ctx limitadorObj) "failed to reconcile limits ConfigMap" (
  or_return span (reconcilePdb rLogger ctx limitadorObj) "failed to reconcile PodDisruptionBudget" (
  '(result, err) ← reconcilePodLimitsHashAnnotation ctx limitadorObj;
  _ ← match err with
      | Some err => RecordError span err "failed to reconcile pod annotations"
      | None => RecordSpecCompleted span
      end;
  Ret (result, err)))))).

Definition reconcileSpec (rLogger : Logger) (ctx : Context) (limitadorObj : Limitador)
    : prog (Result * option error) :=
  '(ctx, span) ← StartReconcileSpecSpan ctx;
  deferring (span_End span) (reconcileSpec_body rLogger ctx span limitadorObj).

(** ** Reconcile *)

(** The storage type reported on the span. *)
Definition storageType (limitadorObj : Limitador) : string :=
  match spec_Storage (lim_Spec limitadorObj) with
  | None => "memory"
  | Some st =>
      match st_RedisCached st, st_Redis st, st_Disk st with
      | Some _, _, _ => "redis-cached"
      | None, Some _, _ => "redis"
      | None, None, Some _ => "disk"
      | None, None, None => "memory"
      end
  end.

(** Reconcile once the object is read and described on the span. *)
Definition Reconcile_object (rLogger logger : Logger) (ctx : Context) (span : Span)
    (limitadorObj : Limitador) : prog (Result * option error) :=
  match om_DeletionTimestamp (lim_ObjectMeta limitadorObj) with
  | Some _ =>
      _ ← log_info logger "marked to be deleted" [];
      _ ← RecordReconcileResult span Result_zero None; Ret (Result_zero, None)
  | None =>
      '(specResult, specErr) ← reconcileSpec rLogger ctx limitadorObj;
      '(statusResult, statusErr) ← reconcileStatus ctx limitadorObj specErr;
      match specErr, statusErr with
      | Some specErr, _ =>
          _ ← RecordError span specErr "spec reconciliation failed";
          Ret (Result_zero, Some specErr)
      | None, Some statusErr =>
          _ ← RecordError span statusErr "status reconciliation failed";
          Ret (Result_zero, Some statusErr)
      | None, None =>
          if (RequeueAfter specResult >? 0)%Z then
            _ ← log_v logger 1 "Reconciling spec not finished. Requeueing." [];
            _ ← RecordReconcileResult span specResult None; Ret (specResult, None)
          else if (RequeueAfter statusResult >? 0)%Z then
            _ ← log_v logger 1 "Reconciling status not finished. Requeueing." [];
            _ ← RecordReconcileResult span statusResult None; Ret (statusResult, None)
          else
            _ ← log_info logger "successfully reconciled" [];
            _ ← RecordReconcileResult span Result_zero None; Ret (Result_zero, None)
      end
  end.

(** The debug line with the whole resource; marshalling it may fail. *)
Definition debug_marshal (logger : Logger) (limitadorObj : Limitador) : prog (option error) :=
  if V1_Enabled logger then
    match json_MarshalIndent_Limitador limitadorObj with
    | Err err => Ret (Some err)
    | Ok jsonData => _ ← log_v logger 1 jsonData []; Ret None
    end
  else Ret None.

Definition Reconcile_body (rLogger logger : Logger) (ctx : Context) (span : Span)
    (req : NamespacedName) : prog (Result * option error) :=
  let logger :=
    if Span_IsRecording span
    then WithValues logger [("trace_id", LogString (TraceID_String span));
                            ("span_id", LogString (SpanID_String span))]
    else logger in
  _ ← log_v logger 1 "Reconciling Limitador" [];
  got ← do_call (Get KLimitador req);
  match got with
  | Err e =>
      let err := ErrExt e in
      if IsNotFound err then
        _ ← log_info logger "no object found" [];
        _ ← RecordReconcileResult span Result_zero None; Ret (Result_zero, None)
      else
        _ ← log_error logger err "Failed to get Limitador object." [];
        _ ← RecordError span err "failed to get Limitador object"; Ret (Result_zero, Some err)
  | Ok limitadorObj =>
      linkSpanCtx ← do_call (ExtractSpanContext (om_Annotations (lim_ObjectMeta limitadorObj)));
      _ ← (if SpanContext_IsValid linkSpanCtx then span_do span (SpanAddLink linkSpanCtx)
           else Ret tt);
      _ ← AddLimitadorAttributes span (lim_Namespace limitadorObj) (lim_Name limitadorObj)
            (GetReplicas limitadorObj) (storageType limitadorObj);
      failed ← debug_marshal logger limitadorObj;
      match failed with
      | Some err =>
          _ ← RecordError span err "failed to marshal Limitador object to JSON";
          Ret (Result_zero, Some err)
      | None => Reconcile_object rLogger logger ctx span limitadorObj
      end
  end.

Definition Reconcile (baseLogger : Logger) (eventCtx : Context) (req : NamespacedName)
    : prog (Result * option error) :=
  let logger := WithValues baseLogger [("limitador", LogKey req)] in
  let ctx := StoreBaseLogger eventCtx logger in
  '(ctx, span) ← StartReconcileSpan ctx req [];
  deferring (span_End span) (Reconcile_body baseLogger logger ctx span req).

End controller.
