(* ===== verification/Traffic.v ===== *)
(** * The traffic of a run

    The calls a run makes to the API server and to the clock, with their
    replies, apart from the tracing calls and log lines in between; the monitor that logs
    them; and the exact traffic of the operations of the base reconciler. *)

From S2P Require Import Prelude Kube Helpers Types Effects Observability BaseReconciler.

Section traffic.
Context {PF : Platform}.

(** The calls that are not about tracing or logging. *)
Definition is_traffic (c : call) : bool :=
  match c with
  | StartSpan _ _ _ | SpanDo _ _ | EndSpan _ | ExtractSpanContext _ | LogLine _ _ => false
  | _ => true
  end.

(** The calls that change the state of the cluster. *)
Definition is_write (c : call) : bool :=
  match c with
  | Patch_Apply _ _ | Status_Patch_Apply _ _ | Create _ | Update _ | Delete _ => true
  | _ => false
  end.

Definition traffic (t : list event) : list event :=
  List.filter (λ e, is_traffic (ev_call e)) t.

Definition writes (t : list event) : list event :=
  List.filter (λ e, is_write (ev_call e)) t.

(** The monitor that logs the traffic and never objects. *)
Definition traffic_log (s : list event) (e : event) : option (list event) :=
  Some (if is_traffic (ev_call e) then s ++ [e] else s).

(** [does p Q]: whatever the replies, [p] ends with an outcome and a list of
    calls that [Q] relates. *)
Definition does {A} (p : prog A) (Q : outcome A → list event → Prop) : Prop :=
  ∀ s, wpm traffic_log p s (λ o s', ∃ w, s' = s ++ w ∧ Q o w).

Lemma traffic_log_traffic s t : monitor traffic_log s t = Some (s ++ traffic t).
Proof.
  revert s. induction t as [|e t IH]; intros s; simpl; [by rewrite app_nil_r|].
  rewrite IH. destruct (is_traffic (ev_call e)); [|done]. by rewrite <-(assoc_L (++)).
Qed.

Lemma does_runs {A} (p : prog A) Q t o : does p Q → runs p t o → Q o (traffic t).
Proof.
  intros Hd Hr. destruct (wpm_runs traffic_log p [] _ t o (Hd []) Hr) as (s' & Hm & w & -> & HQ).
  rewrite traffic_log_traffic in Hm. by simplify_eq/=.
Qed.

Lemma writes_app t1 t2 : writes (t1 ++ t2) = writes t1 ++ writes t2.
Proof. apply List.filter_app. Qed.

Lemma writes_traffic t : writes (traffic t) = writes t.
Proof.
  induction t as [|[c x] t IH]; simpl; [done|]. destruct c; simpl; by rewrite IH.
Qed.

Lemma does_mono {A} (p : prog A) (Q Q' : outcome A → list event → Prop) :
  does p Q → (∀ o w, Q o w → Q' o w) → does p Q'.
Proof.
  intros Hp HQ s. eapply wpm_mono; [apply Hp|]. intros o s' (w & -> & ?). eauto.
Qed.

Lemma does_Ret {A} (a : A) (Q : outcome A → list event → Prop) : Q (Done a) [] → does (Ret a) Q.
Proof. intros HQ s. exists []. by rewrite app_nil_r. Qed.

Lemma does_Panic {A} msg (Q : outcome A → list event → Prop) :
  Q (Panicked msg) [] → does (Panic msg) Q.
Proof. intros HQ s. exists []. by rewrite app_nil_r. Qed.

Lemma does_of_outcome {A} (x : outcome A) (Q : outcome A → list event → Prop) :
  Q x [] → does (of_outcome x) Q.
Proof. destruct x; [apply does_Ret|apply does_Panic]. Qed.

(** Sequencing concatenates the calls. *)
Lemma does_bind {A B} (f : A → prog B) (p : prog A) Q :
  does p (λ o w1, match o with
                  | Done a => does (f a) (λ o' w2, Q o' (w1 ++ w2))
                  | Panicked msg => Q (Panicked msg) w1
                  end) →
  does (p ≫= f) Q.
Proof.
  intros Hp s. apply wpm_bind. eapply wpm_mono; [apply Hp|].
  intros [a|msg] s' (w & -> & H); simpl; [|eauto].
  eapply wpm_mono; [apply H|]. intros o s' (w2 & -> & HQ).
  exists (w ++ w2). by rewrite (assoc_L (++)).
Qed.

Lemma does_logged c (Q : outcome (reply c) → list event → Prop) :
  is_traffic c = true → (∀ x, Q (Done x) [Ev c x]) → does (do_call c) Q.
Proof. intros Hc HQ s x. simpl. rewrite Hc. eauto. Qed.

Lemma does_silent c (Q : outcome (reply c) → list event → Prop) :
  is_traffic c = false → (∀ x, Q (Done x) []) → does (do_call c) Q.
Proof. intros Hc HQ s x. simpl. rewrite Hc. exists []. by rewrite app_nil_r. Qed.

Lemma does_deferring_End {A} span (p : prog A) Q :
  does p Q → does (deferring (span_End span) p) Q.
Proof.
  intros Hp s. apply wpm_deferring. eapply wpm_mono; [apply Hp|].
  intros o s' HQ []. simpl. done.
Qed.

(** *** Span operations are not traffic *)

Lemma does_span_do span op (Q : outcome unit → list event → Prop) :
  Q (Done tt) [] → does (span_do span op) Q.
Proof. intros HQ. apply does_silent; [done|]. by intros []. Qed.

Lemma does_span_seq {B} span op (f : unit → prog B) Q :
  does (f tt) Q → does (span_do span op ≫= f) Q.
Proof. intros Hf. apply does_bind. by apply does_span_do. Qed.

Lemma does_RecordError {B} span err d (f : unit → prog B) Q :
  does (f tt) Q → does (RecordError span err d ≫= f) Q.
Proof.
  intros Hf. apply does_bind. unfold RecordError. by apply does_span_seq, does_span_do.
Qed.

Lemma does_RecordReconcileResult {B} span r err (f : unit → prog B) Q :
  does (f tt) Q → does (RecordReconcileResult span r err ≫= f) Q.
Proof.
  intros Hf. apply does_bind. unfold RecordReconcileResult. apply does_bind.
  destruct err; [apply does_span_seq|]; apply does_span_do; by apply does_span_do.
Qed.

Lemma does_RecordSpecCompleted {B} span (f : unit → prog B) Q :
  does (f tt) Q → does (RecordSpecCompleted span ≫= f) Q.
Proof.
  intros Hf. apply does_bind. unfold RecordSpecCompleted. by apply does_span_seq, does_span_do.
Qed.

Lemma does_RecordStatusCompleted {B} span (f : unit → prog B) Q :
  does (f tt) Q → does (RecordStatusCompleted span ≫= f) Q.
Proof.
  intros Hf. apply does_bind. unfold RecordStatusCompleted. by apply does_span_seq, does_span_do.
Qed.

(** *** Log lines are not traffic *)

Lemma does_log_seq {B} logger line (f : unit → prog B) Q :
  does (f tt) Q → does (do_call (LogLine logger line) ≫= f) Q.
Proof. intros Hf. apply does_bind, does_silent; [done|]. by intros []. Qed.

(** Starting a span in a context that has a base logger gives a context
    [FromContext] succeeds on, whatever the span. *)
Lemma does_tracer_Start ctx name opts :
  is_Some (ctx_baseLogger ctx) →
  does ('(ctx, span) ← tracer_Start ctx name opts; Ret (RefreshLoggerWithCurrentSpan ctx, span))
    (λ o w, w = [] ∧ ∃ ctx' span, o = Done (ctx', span) ∧ logger_ready ctx' ∧
                                   ctx_span ctx' = Some span).
Proof.
  intros Hb. apply does_bind. unfold tracer_Start. apply does_bind.
  apply (does_silent (StartSpan (ctx_span ctx) name opts)); [done|].
  intros span. apply does_Ret. cbn. apply does_Ret.
  split; [done|]. eexists _, span. split; [done|]. split; [by apply Refresh_ready|].
  by rewrite Refresh_span.
Qed.

(** The shape every function that opens a span has. *)
Lemma does_in_span {B} (start : prog (Context * Span)) (f : Context * Span → prog B) Q :
  does start (λ o w, w = [] ∧ ∃ ctx' span, o = Done (ctx', span) ∧ logger_ready ctx' ∧
                                            ctx_span ctx' = Some span) →
  (∀ ctx span, logger_ready ctx → ctx_span ctx = Some span → does (f (ctx, span)) Q) →
  does (start ≫= f) Q.
Proof.
  intros Hs Hf. apply does_bind. eapply does_mono; [exact Hs|].
  intros o w (-> & ctx' & span & -> & ? & ?). by apply Hf.
Qed.

End traffic.

Create HintDb does discriminated.
#[export] Hint Resolve does_Ret does_span_do : does.

(** [skip_logs] moves over the log lines at the start of a program. *)
Ltac skip_logs :=
  repeat
    (cbv beta iota;
     lazymatch goal with
     | |- does (mbind _ (log_v _ _ _ _)) _ => apply does_log_seq
     | |- does (mbind _ (log_info _ _ _)) _ => apply does_log_seq
     | |- does (mbind _ (log_error _ _ _ _)) _ => apply does_log_seq
     end).

(** [does_step] moves over one statement of a program: a value, a span
    operation, a call; and over log lines before and after. *)
Ltac does_step :=
  skip_logs;
  cbv beta iota;
  lazymatch goal with
  | |- does (Ret _) _ => apply does_Ret
  | |- does (Panic _) _ => apply does_Panic
  | |- does (of_outcome _) _ => apply does_of_outcome
  | |- does (deferring (span_End _) _) _ => apply does_deferring_End
  | |- does (mbind _ (RecordError _ _ _)) _ => apply does_RecordError
  | |- does (mbind _ (RecordReconcileResult _ _ _)) _ => apply does_RecordReconcileResult
  | |- does (mbind _ (RecordSpecCompleted _)) _ => apply does_RecordSpecCompleted
  | |- does (mbind _ (RecordStatusCompleted _)) _ => apply does_RecordStatusCompleted
  | |- does (mbind _ (RecordResourceApplied _)) _ => apply does_span_seq
  | |- does (mbind _ (RecordResourceCreated _)) _ => apply does_span_seq
  | |- does (mbind _ (RecordResourceUnchanged _)) _ => apply does_span_seq
  | |- does (mbind _ (set_status_ok _)) _ => apply does_span_seq
  | |- does (mbind _ (span_do _ _)) _ => apply does_span_seq
  | |- does (mbind _ (AddLimitadorAttributes _ _ _ _ _)) _ => apply does_span_seq
  | |- does (mbind _ _) _ => apply does_bind
  | |- does (do_call ?c) ?Q =>
      first [ refine (does_silent c Q eq_refl _) | refine (does_logged c Q eq_refl _) ]
  end;
  skip_logs.

(** Reduce the case distinctions on replies, and nothing of the programs. *)
Ltac reply_simpl :=
  cbv beta iota; cbn [ext_error fmap option_fmap option_map IsNotFound negb].

Section base_traffic.
Context {PF : Platform}.

(** The error [DeleteResource] makes of the client's reply. *)
Definition delete_error (e : option ExtError) : option error :=
  match e with
  | Some e => if Err_IsNotFound e then None else Some (ErrExt e)
  | None => None
  end.

(** What reconciling one object does: a tagged object is deleted, any other
    is applied with the operator's options; either way exactly one write. *)
Definition resource_step (o : object) (w : list event) (err : option error) : Prop :=
  ∃ e : option ExtError,
    if IsObjectTaggedToDelete (obj_meta o)
    then w = [Ev (Delete o) e] ∧ err = delete_error e
    else w = [Ev (Patch_Apply o apply_opts) e] ∧ err = ext_error e.

(** What reconciling a volume claim does: a tagged claim is deleted; another
    is created if reading it finds nothing, and never changed. *)
Definition pvc_resource_step (p : PersistentVolumeClaim) (w : list event) (err : option error)
    : Prop :=
  let o := Obj KPersistentVolumeClaim p in
  if IsObjectTaggedToDelete (pvc_ObjectMeta p)
  then ∃ e, w = [Ev (Delete o) e] ∧ err = delete_error e
  else
    ∃ got, let read := Ev (Get KPersistentVolumeClaim (key_of (pvc_ObjectMeta p))) got in
      match got with
      | Ok _ => w = [read] ∧ err = None
      | Err e => if Err_IsNotFound e
                 then ∃ r, w = [read; Ev (Create o) r] ∧ err = ext_error r
                 else w = [read] ∧ err = Some (ErrExt e)
      end.

(** A step that returns its error. *)
Definition returns (step : list event → option error → Prop) (o : outcome (option error))
    (w : list event) : Prop :=
  match o with
  | Done err => step w err
  | Panicked _ => False
  end.

Lemma DeleteResource_does ctx o :
  logger_ready ctx →
  does (DeleteResource ctx o)
    (returns (λ w err, ∃ e, w = [Ev (Delete o) e] ∧ err = delete_error e)).
Proof.
  intros [logger Hl]%logger_ready_FromContext. unfold DeleteResource. rewrite Hl.
  does_step. does_step. intros [e|]; reply_simpl.
  - destruct (Err_IsNotFound e) eqn:He; does_step; exists (Some e); simpl; by rewrite He.
  - does_step. by exists None.
Qed.

Lemma ReconcileResource_does ctx o :
  logger_ready ctx → does (ReconcileResource ctx o) (returns (resource_step o)).
Proof.
  intros Hc. destruct (logger_ready_FromContext ctx Hc) as [logger Hl].
  unfold ReconcileResource, resource_step. rewrite Hl.
  destruct (IsObjectTaggedToDelete (obj_meta o)); [by apply DeleteResource_does|].
  does_step. does_step. intros e. destruct e; reply_simpl; do 2 does_step; by eexists.
Qed.

Lemma ReconcilePersistentVolumeClaim_does ctx p :
  logger_ready ctx →
  does (ReconcilePersistentVolumeClaim ctx p) (returns (pvc_resource_step p)).
Proof.
  intros Hc. destruct (logger_ready_FromContext ctx Hc) as [logger Hl].
  unfold ReconcilePersistentVolumeClaim, pvc_resource_step. rewrite Hl.
  destruct (IsObjectTaggedToDelete (pvc_ObjectMeta p)); [by apply DeleteResource_does|].
  do 2 does_step. intros got. destruct got as [o|e] eqn:Hgot; reply_simpl.
  - do 2 does_step. by exists got; subst got.
  - destruct (Err_IsNotFound e) eqn:He; reply_simpl.
    + unfold CreateResource. rewrite Hl. do 3 does_step. intros e'. does_step.
      destruct e'; reply_simpl; do 2 does_step; exists got; subst got; rewrite He; by eexists.
    + do 2 does_step. exists got. subst got. by rewrite He.
Qed.

End base_traffic.
