(* ===== verification/Plan.v ===== *)
(** * The plan of a reconciliation

    The specification the reconcile loop is proved against. A step relates
    the calls it makes to the API server, with the replies, to the error it
    returns; a plan is a list of steps run in order until one fails. Nothing
    here mentions contexts, loggers or spans. *)

From S2P Require Import Prelude Kube Helpers Types Effects Observability Names Options Objects.
From S2P Require Import BaseReconciler Status Controller Traffic.

Section plan.
Context {PF : Platform}.

Definition step : Type := list event → option error → Prop.

(** Steps in order, stopping at the first error. *)
Fixpoint in_order (steps : list step) (w : list event) (err : option error) : Prop :=
  match steps with
  | [] => w = [] ∧ err = None
  | s :: steps' =>
      (∃ e, s w (Some e) ∧ err = Some e) ∨
      (∃ w1 w2, w = w1 ++ w2 ∧ s w1 None ∧ in_order steps' w2 err)
  end.

(** What happens to an owned object: it gets its owner, or the step fails
    without a call. *)
Definition owned_step {CU : ControllerUtil} (l : Limitador) {kd : kind} (obj : struct_of kd)
    (reconcile : struct_of kd → step) : step := λ w err,
  (∃ e, SetOwnerReference l obj = Err e ∧ w = [] ∧ err = Some e) ∨
  (∃ obj', SetOwnerReference l obj = Ok obj' ∧ reconcile obj' w err).

(** ** The storage back end a resource asks for *)

(** The verdict on the reply to the read of a Redis secret. *)
Definition secret_error (got : result ExtError Secret) : option error :=
  match got with
  | Err e => Some (ErrExt e)
  | Ok s => match sec_Data s !! "URL" with
            | Some _ => None
            | None => Some errNoURL
            end
  end.

(** Either flavour of Redis: without a secret reference an error and no call;
    with one, a single read of that secret in the resource's namespace. *)
Definition redis_options (l : Limitador) (ref : option LocalObjectReference) (args : list string)
    (w : list event) (r : result error DeploymentStorageOptions) : Prop :=
  match ref with
  | None => w = [] ∧ r = Err errNoConfigSecretRef
  | Some ref =>
      ∃ got,
        w = [Ev (Get KSecret {| nn_Namespace := lim_Namespace l; nn_Name := lor_Name ref |}) got] ∧
        r = match secret_error got with
            | Some e => Err e
            | None => Ok {| dso_Args := args; dso_VolumeMounts := []; dso_Volumes := [];
                            dso_DeploymentStrategy := rolling_update |}
            end
  end.

(** Redis over cached Redis over disk over memory. *)
Definition storage_options (l : Limitador) (w : list event)
    (r : result error DeploymentStorageOptions) : Prop :=
  match spec_Storage (lim_Spec l) with
  | Some {| st_Redis := Some redis |} =>
      redis_options l (redis_ConfigSecretRef redis) ["redis"; "$(LIMITADOR_OPERATOR_REDIS_URL)"] w r
  | Some {| st_RedisCached := Some cached |} =>
      redis_options l (rc_ConfigSecretRef cached) (redis_cached_command (rc_Options cached)) w r
  | Some {| st_Disk := Some disk |} => w = [] ∧ r = DiskDeploymentOptions l disk
  | _ => w = [] ∧ r = InMemoryDeploymentOptions
  end.

(** The options of a deployment given those of its storage. *)
Definition deployment_options (l : Limitador) (so : DeploymentStorageOptions) (args : list string)
    (env : list EnvVar) : DeploymentOptions :=
  {| do_Args := args;
     do_VolumeMounts := DeploymentVolumeMounts so;
     do_Volumes := DeploymentVolumes l so;
     do_DeploymentStrategy := dso_DeploymentStrategy so;
     do_EnvVar := env;
     do_ImagePullSecrets := spec_ImagePullSecrets (lim_Spec l) |}.

Definition options_of (l : Limitador) (w : list event)
    (o : outcome (result error DeploymentOptions)) : Prop :=
  ∃ r, storage_options l w r ∧
    o = match r with
        | Err e => Done (Err e)
        | Ok so =>
            args ← DeploymentArgs l so;
            Done match getDeploymentEnvVar l with
                 | Err e => Err e
                 | Ok env => Ok (deployment_options l so args env)
                 end
        end.

(** ** The steps of the spec *)

Section steps.
Context {LC : LimitsCodec} {CU : ControllerUtil}.

Definition service_step (l : Limitador) : step :=
  owned_step (kd := KService) l (Service_of l) (λ s, resource_step (Obj KService s)).

Definition pvc_step (l : Limitador) : step :=
  owned_step (kd := KPersistentVolumeClaim) l (PVC l) pvc_resource_step.

Definition deployment_step (l : Limitador) : step := λ w err,
  ∃ w1 w2 r, w = w1 ++ w2 ∧ options_of l w1 (Done r) ∧
    match r with
    | Err e => w2 = [] ∧ err = Some e
    | Ok o => owned_step (kd := KDeployment) l (Deployment_of l o)
                (λ d, resource_step (Obj KDeployment d)) w2 err
    end.

Definition configmap_step (l : Limitador) : step := λ w err,
  match LimitsConfigMap l with
  | Err e => w = [] ∧ err = Some e
  | Ok cm => owned_step (kd := KConfigMap) l cm (λ c, resource_step (Obj KConfigMap c)) w err
  end.

Definition pdb_step (l : Limitador) : step :=
  owned_step (kd := KPodDisruptionBudget) l (PodDisruptionBudget_of l)
    (λ p, resource_step (Obj KPodDisruptionBudget p)).

(** The pods whose annotation is not [rv]. *)
Definition stale_pods (rv : string) (pods : list Pod) : list Pod :=
  filter (λ p, pod_annotation p PodAnnotationConfigMapResourceVersion ≠ rv) pods.

Definition pod_step (rv : string) (p : Pod) : step :=
  resource_step (Obj KPod (pod_annotation_patch (om_Name (pod_ObjectMeta p))
                             (om_Namespace (pod_ObjectMeta p))
                             PodAnnotationConfigMapResourceVersion rv)).

(** Annotating the pods: list them; ask for a new run, and do nothing, while
    they are not all there or the limits' ConfigMap is not found; otherwise
    patch the stale ones in order. *)
Definition pods_run (l : Limitador) (w : list event) (r : Result) (err : option error) : Prop :=
  ∃ listed w1, w = Ev (ListPods (SelectorLabels l) (lim_Namespace l)) listed :: w1 ∧
  match listed with
  | Err e => w1 = [] ∧ r = Result_zero ∧ err = Some (ErrExt e)
  | Ok pods =>
      if bool_decide (length pods = 0) || replicas_pending l pods
      then w1 = [] ∧ r = Result_requeue ∧ err = None
      else
        ∃ got w2, w1 = Ev (Get KConfigMap (limits_key l)) got :: w2 ∧
        match got with
        | Err e =>
            w2 = [] ∧ if Err_IsNotFound e then r = Result_requeue ∧ err = None
                      else r = Result_zero ∧ err = Some (ErrExt e)
        | Ok cm =>
            let rv := om_ResourceVersion (cm_ObjectMeta cm) in
            r = Result_zero ∧ in_order (pod_step rv <$> stale_pods rv pods) w2 err
        end
  end.

(** The objects of the resource, in the order they are reconciled. *)
Definition owned_plan (l : Limitador) : list step :=
  [service_step l; pvc_step l; deployment_step l; configmap_step l; pdb_step l].

(** A run of the whole spec: the objects until one fails, then the pods. *)
Definition spec_run (l : Limitador) (w : list event) (r : Result) (err : option error) : Prop :=
  (∃ e, in_order (owned_plan l) w (Some e) ∧ r = Result_zero ∧ err = Some e) ∨
  (∃ w1 w2, w = w1 ++ w2 ∧ in_order (owned_plan l) w1 None ∧ pods_run l w2 r err).

(** The run of a spec whose command line cannot be built: the service and the
    claim are reconciled, the storage's secret may be read, then the panic. *)
Definition spec_panic (l : Limitador) (w : list event) (msg : string) : Prop :=
  ∃ w1 w2, w = w1 ++ w2 ∧ in_order [service_step l; pvc_step l] w1 None ∧
    options_of l w2 (Panicked msg).

(** What a run of [reconcileSpec] amounts to. *)
Definition spec_post (l : Limitador) (o : outcome (Result * option error)) (w : list event) : Prop :=
  match o with
  | Done (r, err) => spec_run l w r err
  | Panicked msg => spec_panic l w msg
  end.
End steps.

(** ** The status and the whole reconciliation *)

Section whole.
Context {CC : ConditionCodec} {LC : LimitsCodec} {JC : LimitadorCodec} {CU : ControllerUtil}
  {SC : StatusConditions}.

(** The Ready condition a Deployment's reply leads to. *)
Definition ready_of (got : result ExtError Deployment) : result error Condition :=
  match got with
  | Err e =>
      if Err_IsNotFound e
      then Ok (ready_cond ConditionFalse "LimitadorNotAvailable" (Err_Error e))
      else Err (ErrExt e)
  | Ok d =>
      match deployment_unavailable d with
      | Some reason => Ok (ready_cond ConditionFalse "LimitadorNotAvailable" reason)
      | None => Ok (ready_cond ConditionTrue "Ready" "Limitador is ready")
      end
  end.

(** With an error of the spec no call is made; without, the Deployment is read. *)
Definition ready_run (l : Limitador) (specErr : option error) (w : list event)
    (c : result error Condition) : Prop :=
  match specErr with
  | Some e => w = [] ∧ c = Ok (ready_cond ConditionFalse "ReconcilliationError" (Error e))
  | None =>
      ∃ got, w = [Ev (Get KDeployment {| nn_Namespace := lim_Namespace l;
                                         nn_Name := DeploymentName l |}) got] ∧
             c = ready_of got
  end.

(** The status computed from a Ready condition at a given time. *)
Definition next_status (l : Limitador) (now : Time) (ready : Condition) : LimitadorStatus :=
  new_status l (SetStatusCondition now (status_Conditions (lim_Status l)) ready).

(** The status patch, and the error made of its reply. *)
Definition status_write (l : Limitador) (newStatus : LimitadorStatus) : step := λ w err,
  ∃ e, w = [Ev (Status_Patch_Apply (Obj KLimitador (status_patch l newStatus)) apply_opts) e] ∧
       err = ErrWrap "failed to update status" <$> ext_error e.

(** The status is patched exactly when it differs from the stored one. *)
Definition status_run (l : Limitador) (specErr : option error) : step := λ w err,
  ∃ w1 w2 c, w = w1 ++ w2 ∧ ready_run l specErr w1 c ∧
  match c with
  | Err e => w2 = [] ∧ err = Some e
  | Ok ready =>
      ∃ now w3, w2 = Ev Now now :: w3 ∧
      if LimitadorStatus_Equals (lim_Status l) (next_status l now ready)
      then w3 = [] ∧ err = None
      else status_write l (next_status l now ready) w3 err
  end.

(** The two halves of a reconciliation: the status is reconciled whether the
    spec failed or not, and the error of the spec is the one reported. *)
Definition object_run (l : Limitador) (w : list event) (err : option error) : Prop :=
  ∃ w1 w2 r specErr statusErr,
    w = w1 ++ w2 ∧ spec_run l w1 r specErr ∧ status_run l specErr w2 statusErr ∧
    err = match specErr with Some e => Some e | None => statusErr end.

(** A whole reconciliation of a request: nothing is written unless the object
    is read and is not being deleted. The result is always the empty one. *)
Definition reconcile_run (req : NamespacedName) (o : outcome (Result * option error))
    (w : list event) : Prop :=
  ∃ got w', w = Ev (Get KLimitador req) got :: w' ∧
  match got with
  | Err e =>
      w' = [] ∧ o = Done (Result_zero, if Err_IsNotFound e then None else Some (ErrExt e))
  | Ok l =>
      (∃ e, json_MarshalIndent_Limitador l = Err e ∧ w' = [] ∧ o = Done (Result_zero, Some e)) ∨
      match om_DeletionTimestamp (lim_ObjectMeta l) with
      | Some _ => w' = [] ∧ o = Done (Result_zero, None)
      | None =>
          (∃ err, o = Done (Result_zero, err) ∧ object_run l w' err) ∨
          (∃ msg, o = Panicked msg ∧ spec_panic l w' msg)
      end
  end.
End whole.

(** ** Lemmas on plans *)

Lemma in_order_app steps s w1 w2 err :
  in_order steps w1 None → in_order s w2 err → in_order (steps ++ s) (w1 ++ w2) err.
Proof.
  revert w1. induction steps as [|st steps IH]; intros w1; simpl.
  - by intros [-> _].
  - intros [(e & _ & [=])|(wa & wb & -> & Hs & Hrest)] H2. right.
    exists wa, (wb ++ w2). rewrite (assoc_L (++)). auto.
Qed.

Lemma in_order_one (s : step) w err : s w err → in_order [s] w err.
Proof.
  destruct err as [e|]; intros Hs; [left; eauto|right].
  exists w, []. by rewrite app_nil_r.
Qed.

Lemma in_order_mono steps1 steps2 w err :
  Forall2 (λ s1 s2 : step, ∀ w e, s1 w e → s2 w e) steps1 steps2 →
  in_order steps1 w err → in_order steps2 w err.
Proof.
  intros H. revert w. induction H as [|s1 s2 l1 l2 Hs H IH]; intros w; simpl; [done|].
  intros [(e & He & ->)|(w1 & w2 & -> & H1 & H2)]; [left|right]; eauto 10.
Qed.

(** A property of the calls of every step is one of the calls of the plan. *)
Lemma in_order_Forall (P : event → Prop) steps w err :
  Forall (λ s : step, ∀ w e, s w e → Forall P w) steps → in_order steps w err → Forall P w.
Proof.
  intros H. revert w. induction H as [|s l Hs H IH]; intros w; simpl.
  - by intros [-> _].
  - intros [(e & He & ->)|(w1 & w2 & -> & H1 & H2)]; [by eauto|].
    apply Forall_app. eauto.
Qed.

End plan.
