(* ===== verification/Follows.v ===== *)
(** * The code follows the plan

    The refinement proofs: each function of the controller makes the calls
    its step of the plan allows, for every possible reply, and the context
    always holds a logger. *)

From S2P Require Import Prelude Kube Helpers Types Effects Observability Names Options Objects.
From S2P Require Import BaseReconciler Status Controller Traffic Plan.

Section follows.
Context {PF : Platform} {CC : ConditionCodec} {LC : LimitsCodec} {JC : LimitadorCodec}
  {CU : ControllerUtil} {SC : StatusConditions}.

(** ** One resource at a time *)

Lemma reconcile_owned_does rl lg ctx span l kd (obj : struct_of kd) rec (s : struct_of kd → step)
    m d :
  (∀ obj', does (rec ctx obj') (returns (s obj'))) →
  does (reconcile_owned rl lg ctx span l obj rec m d) (returns (owned_step l obj s)).
Proof.
  intros Hrec. unfold reconcile_owned, SetOwnerReference_logged, owned_step. does_step.
  destruct (SetOwnerReference l obj) as [obj'|e] eqn:Ho; does_step.
  - does_step. eapply does_mono; [apply Hrec|].
    intros [[e|]|msg] w Hs; [..|done]; do 2 does_step; right; rewrite app_nil_r; eauto.
  - do 2 does_step. left. eauto.
Qed.

(** A function that opens a span for a resource and needs the logger. *)
Lemma resource_span_does {A} ctx ty ns n (body : Context → Span → prog A) Q :
  is_Some (ctx_baseLogger ctx) →
  (∀ ctx' span lg, logger_ready ctx' → FromContext ctx' = Ok lg → does (body ctx' span) Q) →
  does ('(ctx', span) ← StartResourceSpan ctx ty ns n;
        deferring (span_End span) (body ctx' span)) Q.
Proof.
  intros Hb Hbody. apply does_in_span; [by apply does_tracer_Start|].
  intros ctx' span Hc _. destruct (logger_ready_FromContext ctx' Hc) as [lg Hl].
  does_step. eauto.
Qed.

Lemma reconcileService_does rl ctx l :
  is_Some (ctx_baseLogger ctx) → does (reconcileService rl ctx l) (returns (service_step l)).
Proof.
  intros Hb. apply resource_span_does; [done|]. intros ctx' span lg Hc Hl. rewrite Hl.
  apply reconcile_owned_does. intros s. by apply ReconcileResource_does.
Qed.

Lemma reconcilePVC_does rl ctx l :
  is_Some (ctx_baseLogger ctx) → does (reconcilePVC rl ctx l) (returns (pvc_step l)).
Proof.
  intros Hb. apply resource_span_does; [done|]. intros ctx' span lg Hc Hl. rewrite Hl.
  apply reconcile_owned_does. intros s. by apply ReconcilePersistentVolumeClaim_does.
Qed.

Lemma reconcileLimitsConfigMap_does rl ctx l :
  is_Some (ctx_baseLogger ctx) →
  does (reconcileLimitsConfigMap rl ctx l) (returns (configmap_step l)).
Proof.
  intros Hb. apply resource_span_does; [done|]. intros ctx' span lg Hc Hl. rewrite Hl.
  unfold configmap_step. destruct (LimitsConfigMap l) as [cm|e]; [|by do 2 does_step].
  apply reconcile_owned_does. intros s. by apply ReconcileResource_does.
Qed.

Lemma reconcilePdb_does rl ctx l :
  is_Some (ctx_baseLogger ctx) → does (reconcilePdb rl ctx l) (returns (pdb_step l)).
Proof.
  intros Hb. apply resource_span_does; [done|]. intros ctx' span lg Hc Hl. rewrite Hl.
  apply reconcile_owned_does. intros s. by apply ReconcileResource_does.
Qed.

(** ** The deployment *)

Lemma validateRedisSecret_does ns ref :
  does (validateRedisSecret ns ref)
    (λ o w, ∃ got, w = [Ev (Get KSecret {| nn_Namespace := ns; nn_Name := lor_Name ref |}) got] ∧
                   o = Done (secret_error got)).
Proof.
  unfold validateRedisSecret. do 2 does_step. intros got.
  destruct got as [s|e] eqn:Hg; [destruct (sec_Data s !! "URL") eqn:Hu|]; does_step;
    exists got; subst got; (split; [done|]); simpl; by rewrite ?Hu.
Qed.

(** The common body of the two Redis flavours. *)
Lemma redis_body_does l ref args :
  does (err ← validateRedisSecret (lim_Namespace l) ref;
        match err with
        | Some err => Ret (Err err)
        | None => Ret (Ok {| dso_Args := args; dso_VolumeMounts := []; dso_Volumes := [];
                             dso_DeploymentStrategy := rolling_update |})
        end)
    (λ o w, ∃ r, o = Done r ∧ redis_options l (Some ref) args w r).
Proof.
  does_step. eapply does_mono; [apply validateRedisSecret_does|].
  intros o w (got & -> & ->). destruct (secret_error got) eqn:He; does_step;
    eexists; (split; [done|]); exists got; by rewrite He.
Qed.

Lemma getDeploymentStorageOptions_does l :
  does (getDeploymentStorageOptions l) (λ o w, ∃ r, o = Done r ∧ storage_options l w r).
Proof.
  unfold getDeploymentStorageOptions, storage_options.
  destruct (spec_Storage (lim_Spec l)) as [[[r|] [c|] [d|]]|]; simpl;
    try (does_step; eauto; fail).
  all: unfold RedisDeploymentOptions, RedisCachedDeploymentOptions.
  all: match goal with |- context [match ?ref with _ => _ end] => destruct ref end;
    [apply redis_body_does|does_step; by eexists].
Qed.

Lemma getDeploymentOptions_does l : does (getDeploymentOptions l) (λ o w, options_of l w o).
Proof.
  unfold getDeploymentOptions. does_step.
  eapply does_mono; [apply getDeploymentStorageOptions_does|].
  intros o w (r & -> & Hr). unfold options_of.
  destruct r as [so|e]; [|does_step; rewrite app_nil_r; by exists (Err e)].
  do 2 does_step. destruct (DeploymentArgs l so) as [args|msg] eqn:Ha.
  - destruct (getDeploymentEnvVar l) eqn:He; does_step; rewrite !app_nil_r;
      exists (Ok so); (split; [done|]); by rewrite Ha.
  - rewrite app_nil_r. exists (Ok so). split; [done|]. by rewrite Ha.
Qed.

(** A panic comes from the command line only, and before any write. *)
Definition deployment_post (l : Limitador) (o : outcome (option error)) (w : list event) : Prop :=
  match o with
  | Done err => deployment_step l w err
  | Panicked msg => options_of l w (Panicked msg)
  end.

Lemma reconcileDeployment_does rl ctx l :
  is_Some (ctx_baseLogger ctx) → does (reconcileDeployment rl ctx l) (deployment_post l).
Proof.
  intros Hb. apply resource_span_does; [done|]. intros ctx' span lg Hc Hl. rewrite Hl.
  does_step. eapply does_mono; [apply getDeploymentOptions_does|].
  intros [[opts|e]|msg] w Ho; [| |done].
  - eapply does_mono; [apply reconcile_owned_does|].
    + intros s. by apply ReconcileResource_does.
    + intros [err|msg] w2 Hw; [|done]. by exists w, w2, (Ok opts).
  - do 2 does_step. by exists w, [], (Err e).
Qed.

(** ** The pods *)

Lemma annotate_pods_does ctx span rv pods :
  logger_ready ctx →
  does (annotate_pods ctx span rv pods)
    (returns (in_order (pod_step rv <$> stale_pods rv pods))).
Proof.
  intros Hc. destruct (logger_ready_FromContext ctx Hc) as [lg Hl].
  induction pods as [|p ps IH]; [by apply does_Ret|].
  unfold stale_pods. cbn [annotate_pods]. case_bool_decide as Hp.
  2: { rewrite filter_cons_False by (intros Hn; by apply Hn). exact IH. }
  rewrite filter_cons_True by exact Hp.
  does_step. unfold ReconcilePodAnnotation. rewrite Hl. skip_logs.
  eapply does_mono; [by apply ReconcileResource_does|].
  intros [[e|]|msg] w Hw; [..|done].
  - do 2 does_step. left. rewrite app_nil_r. eauto.
  - eapply does_mono; [exact IH|]. intros [err|msg] w' Hw'; [|done]. right. eauto.
Qed.

Lemma reconcilePodLimitsHashAnnotation_does ctx l :
  is_Some (ctx_baseLogger ctx) →
  does (reconcilePodLimitsHashAnnotation ctx l)
    (λ o w, ∃ r err, o = Done (r, err) ∧ pods_run l w r err).
Proof.
  intros Hb. apply resource_span_does; [done|]. intros ctx' span lg Hc _.
  unfold reconcilePodLimitsHashAnnotation_body, pods_run. do 2 does_step. intros listed.
  destruct listed as [pods|e]; [|do 2 does_step; eexists _, _; split; [done|]; by eexists _, _].
  destruct (bool_decide (length pods = 0)) eqn:Hn; [|destruct (replicas_pending l pods) eqn:Hr].
  1,2: do 2 does_step; eexists _, _; (split; [done|]); eexists (Ok pods), _; (split; [done|]);
    cbv beta iota; by rewrite Hn, ?Hr.
  assert (Hgo : bool_decide (length pods = 0) || replicas_pending l pods = false)
    by by rewrite Hn, Hr.
  do 2 does_step. intros got. destruct got as [cm|e]; reply_simpl.
  - does_step. eapply does_mono; [by apply annotate_pods_does|].
    intros [[err|]|msg] w Hw; [..|done]; repeat does_step; rewrite app_nil_r;
      eexists _, _; (split; [done|]); eexists (Ok pods), _; (split; [done|]);
      cbv beta iota; rewrite Hgo; by eexists (Ok cm), _.
  - destruct (Err_IsNotFound e) eqn:He; do 2 does_step;
      eexists _, _; (split; [done|]); eexists (Ok pods), _; (split; [done|]);
      cbv beta iota; rewrite Hgo; eexists (Err e), _; (split; [done|]);
      cbv beta iota; by rewrite He.
Qed.

(** ** The spec *)

(** One step of [reconcileSpec], after the steps [pre] have succeeded. *)
Lemma or_return_does pre s post l span p d rest w0 :
  owned_plan l = pre ++ s :: post → in_order pre w0 None →
  does p (λ o w, match o with
                 | Done err => s w err
                 | Panicked msg => spec_post l (Panicked msg) (w0 ++ w)
                 end) →
  (∀ w, in_order (pre ++ [s]) w None → does rest (λ o w', spec_post l o (w ++ w'))) →
  does (or_return span p d rest) (λ o w, spec_post l o (w0 ++ w)).
Proof.
  intros Hplan Hpre Hp Hrest. unfold or_return. does_step.
  eapply does_mono; [exact Hp|]. intros [[e|]|msg] w HP.
  - do 2 does_step. rewrite app_nil_r. left. exists e. split; [|done].
    rewrite Hplan. apply in_order_app; [done|]. left. eauto.
  - eapply does_mono; [apply (Hrest (w0 ++ w))|].
    + apply in_order_app; [done|]. by apply in_order_one.
    + intros o w'. by rewrite (assoc_L (++)).
  - done.
Qed.

Lemma returns_post {l w0} (s : step) o w :
  returns s o w →
  match o with Done err => s w err | Panicked msg => spec_post l (Panicked msg) (w0 ++ w) end.
Proof. by destruct o. Qed.

Lemma reconcileSpec_body_does rl ctx span l :
  is_Some (ctx_baseLogger ctx) → does (reconcileSpec_body rl ctx span l) (spec_post l).
Proof.
  intros Hb. change (spec_post l) with (λ o w, spec_post l o ([] ++ w)).
  unfold reconcileSpec_body.
  eapply (or_return_does []); [done|done| |cbn [app]; intros w1 H1].
  { eapply does_mono; [by apply reconcileService_does|]. apply returns_post. }
  eapply (or_return_does [_]); [done|done| |cbn [app]; intros w2 H2].
  { eapply does_mono; [by apply reconcilePVC_does|]. apply returns_post. }
  eapply (or_return_does [_; _]); [done|done| |cbn [app]; intros w3 H3].
  { eapply does_mono; [by apply reconcileDeployment_does|].
    intros [err|msg] w Ho; [done|]. by exists w2, w. }
  eapply (or_return_does [_; _; _]); [done|done| |cbn [app]; intros w4 H4].
  { eapply does_mono; [by apply reconcileLimitsConfigMap_does|]. apply returns_post. }
  eapply (or_return_does [_; _; _; _]); [done|done| |cbn [app]; intros w5 H5].
  { eapply does_mono; [by apply reconcilePdb_does|]. apply returns_post. }
  does_step. eapply does_mono; [by apply reconcilePodLimitsHashAnnotation_does|].
  intros o w (r & err & -> & Hp).
  destruct err; do 2 does_step; rewrite app_nil_r; right; eauto 10.
Qed.

Lemma reconcileSpec_does rl ctx l :
  is_Some (ctx_baseLogger ctx) → does (reconcileSpec rl ctx l) (spec_post l).
Proof.
  intros Hb. apply does_in_span; [by apply does_tracer_Start|].
  intros ctx' span [Hc _] _. does_step. by apply reconcileSpec_body_does.
Qed.

(** ** The status *)

Lemma readyCondition_does l specErr :
  does (readyCondition l specErr) (λ o w, ∃ c, o = Done c ∧ ready_run l specErr w c).
Proof.
  unfold readyCondition, ready_run. destruct specErr as [e|]; [does_step; by eexists|].
  unfold checkLimitadorAvailable. do 3 does_step. intros got. destruct got as [d|e].
  - does_step. destruct (deployment_unavailable d) eqn:Hd; does_step;
      eexists; (split; [done|]); exists (Ok d); (split; [done|]); simpl; by rewrite Hd.
  - unfold IgnoreNotFound. reply_simpl. destruct (Err_IsNotFound e) eqn:He; do 2 does_step;
      eexists; (split; [done|]); exists (Err e); (split; [done|]); simpl; by rewrite He.
Qed.

Lemma Equals_logged_does lg s other :
  does (Equals_logged lg s other) (λ o w, o = Done (LimitadorStatus_Equals s other) ∧ w = []).
Proof.
  unfold Equals_logged, LimitadorStatus_Equals.
  destruct (Equals_difference s other); by does_step.
Qed.

Lemma reconcileStatus_does ctx l specErr :
  is_Some (ctx_baseLogger ctx) →
  does (reconcileStatus ctx l specErr)
    (λ o w, ∃ err, o = Done (Result_zero, err) ∧ status_run l specErr w err).
Proof.
  intros Hb. apply does_in_span; [by apply does_tracer_Start|].
  intros ctx' span Hc _. destruct (logger_ready_FromContext ctx' Hc) as [lg Hl].
  does_step. unfold reconcileStatus_body. rewrite Hl. does_step. unfold calculateStatus.
  rewrite DeepCopyConditions_id. does_step. eapply does_mono; [apply readyCondition_does|].
  intros o w (c & -> & Hc1). unfold status_run.
  destruct c as [ready|e].
  2: { do 3 does_step. eexists. split; [done|]. exists w, [], (Err e). by rewrite app_nil_r. }
  do 2 does_step. intros now. does_step. cbv beta iota zeta.
  change (new_status l _) with (next_status l now ready).
  does_step. eapply does_mono; [apply Equals_logged_does|]. intros ? ? [-> ->].
  cbv beta iota zeta. skip_logs.
  destruct (LimitadorStatus_Equals _ _) eqn:Heq; cbn [andb].
  - rewrite bool_decide_eq_true_2 by (symmetry; by apply Equals_generation in Heq).
    do 2 does_step. rewrite !app_nil_r. eexists. split; [done|].
    eexists w, _, (Ok ready). do 2 (split; [done|]). eexists now, _. split; [done|]. by rewrite Heq.
  - does_step. unfold UpdateResourceStatus. rewrite Hl. do 2 does_step. intros e.
    does_step. destruct e as [e|]; reply_simpl; do 2 does_step; rewrite ?app_nil_r;
      eexists; (split; [done|]); eexists w, _, (Ok ready);
      (split; [by rewrite <-(assoc_L (++))|]); (split; [done|]);
      eexists now, _; (split; [done|]); rewrite Heq; by eexists.
Qed.

(** ** Reconcile *)

(** No result of a spec asks for a delay, so none survives [Reconcile]. *)
Lemma spec_run_result l w r err : spec_run l w r err → RequeueAfter r = 0%Z.
Proof.
  intros [(e & _ & -> & _)|(w1 & w2 & _ & _ & listed & w3 & _ & Hp)]; [done|].
  destruct listed as [pods|e]; [|by destruct Hp as (_ & -> & _)].
  destruct (_ || _); [by destruct Hp as (_ & -> & _)|].
  destruct Hp as ([cm|e] & w4 & _ & Hp); [by destruct Hp as (-> & _)|].
  destruct Hp as [_ Hp]. by destruct (Err_IsNotFound e), Hp as [-> _].
Qed.

Lemma Reconcile_object_does rl lg ctx span l :
  is_Some (ctx_baseLogger ctx) →
  does (Reconcile_object rl lg ctx span l)
    (λ o w, match om_DeletionTimestamp (lim_ObjectMeta l) with
            | Some _ => w = [] ∧ o = Done (Result_zero, None)
            | None => (∃ err, o = Done (Result_zero, err) ∧ object_run l w err) ∨
                      (∃ msg, o = Panicked msg ∧ spec_panic l w msg)
            end).
Proof.
  intros Hb. unfold Reconcile_object.
  destruct (om_DeletionTimestamp _); [by do 2 does_step|].
  does_step. eapply does_mono; [by apply reconcileSpec_does|].
  intros [[r specErr]|msg] w1 H1; [|right; eauto].
  does_step. eapply does_mono; [by apply reconcileStatus_does|].
  intros o w2 (statusErr & -> & H2). pose proof (spec_run_result _ _ _ _ H1) as Hr.
  assert (Hrun : object_run l (w1 ++ w2) match specErr with Some e => Some e | None => statusErr end)
    by (exists w1, w2, r, specErr, statusErr; auto).
  destruct specErr as [e|]; [do 2 does_step; rewrite app_nil_r; left; eauto|].
  destruct statusErr as [e|]; [do 2 does_step; rewrite app_nil_r; left; eauto|].
  rewrite Hr. change (RequeueAfter Result_zero) with 0%Z. change (0 >? 0)%Z with false.
  do 2 does_step. rewrite app_nil_r. left. eauto.
Qed.

Lemma debug_marshal_does logger l :
  does (debug_marshal logger l)
    (λ o w, ∃ failed, o = Done failed ∧ w = [] ∧
       match failed with Some e => json_MarshalIndent_Limitador l = Err e | None => True end).
Proof.
  unfold debug_marshal. destruct (V1_Enabled logger); [|does_step; by exists None].
  destruct (json_MarshalIndent_Limitador l) as [json|e] eqn:Hj; does_step; by eexists.
Qed.

Lemma Reconcile_does logger ctx req : does (Reconcile logger ctx req) (reconcile_run req).
Proof.
  apply does_in_span; [apply does_tracer_Start; by eexists|].
  intros ctx' span [Hb _] _. does_step. unfold Reconcile_body. do 2 does_step.
  intros got. destruct got as [l|e]; reply_simpl.
  2: { destruct (Err_IsNotFound e) eqn:He; do 2 does_step; eexists (Err e), _;
       (split; [done|]); cbv beta iota; by rewrite He. }
  do 2 does_step. intros link. does_step.
  assert (Hlink : does (if SpanContext_IsValid link then span_do span (SpanAddLink link) else Ret tt)
                    (λ o w, o = Done tt ∧ w = [])).
  { destruct (SpanContext_IsValid link); [by apply does_span_do|by does_step]. }
  eapply does_mono; [exact Hlink|]. intros o w [-> ->]. does_step.
  does_step. eapply does_mono; [apply debug_marshal_does|]. intros o w (failed & -> & -> & Hf).
  destruct failed as [e|].
  - do 2 does_step. eexists (Ok l), _. split; [done|]. left. by exists e.
  - eapply does_mono; [by apply Reconcile_object_does|].
    intros o w Ho. eexists (Ok l), _. split; [done|]. right. exact Ho.
Qed.

End follows.
