(* ===== verification/Spans.v ===== *)
(** * The discipline of spans and log lines

    The monitor of this file keeps the stack of the spans that are open. It
    objects when a span is ended that is not the innermost one, when a span
    is used that is not open, and when a span is started whose parent is not
    the innermost open span. It also passes each log line, with the open
    spans, to a test, and objects when the test fails; the operator passes any
    test that accepts the loggers [refreshed_logger] and [own_logger] of the
    innermost span. *)

From S2P Require Import Prelude Kube Helpers Types Effects Observability Names Options Objects.
From S2P Require Import BaseReconciler Status Controller.

Create HintDb spans discriminated.

(** ** Vocabulary *)

Section span_defs.
Context {PF : Platform}.

(** The logger [Reconcile] makes for itself: it names the span if the span is
    recording. *)
Definition own_logger (base : Logger) (span : Span) : Logger :=
  if Span_IsRecording span
  then WithValues base [("trace_id", LogString (TraceID_String span));
                        ("span_id", LogString (SpanID_String span))]
  else base.

Definition owner_message : string := "Error setting OwnerReference on object".

Definition is_owner_line (line : log_line) : bool :=
  match line with
  | Error_line _ msg _ => bool_decide (msg = owner_message)
  | _ => false
  end.

Context {SD : EqDecision Span} (log_ok : list Span → Logger → log_line → bool).

Definition span_stack (s : list Span) (e : event) : option (list Span) :=
  let '(Ev c x) := e in
  match c return reply c → option (list Span) with
  | StartSpan parent _ _ => λ span,
      if bool_decide (s = [] ∨ parent = head s) then Some (span :: s) else None
  | EndSpan span => λ _,
      match s with
      | top :: s' => if bool_decide (span = top) then Some s' else None
      | [] => None
      end
  | SpanDo span _ => λ _, if bool_decide (span ∈ s) then Some s else None
  | LogLine logger line => λ _, if log_ok s logger line then Some s else None
  | _ => λ _, Some s
  end x.

(** A program that leaves the open spans as it found them, however it ends. *)
Definition keeps {A} (p : prog A) (s : list Span) : Prop :=
  wpm span_stack p s (λ _ s', s' = s).

Lemma keeps_monitor {A} (p : prog A) t o :
  keeps p [] → runs p t o → monitor span_stack [] t = Some [].
Proof.
  intros Hk Hr. by destruct (wpm_runs _ _ _ _ _ _ Hk Hr) as (s' & Hm & ->).
Qed.
End span_defs.

(** Log lines are free. *)
Definition any_line {PF : Platform} (s : list Span) (logger : Logger) (line : log_line) : bool := true.

(** Every span started is ended, in the order of nesting, and used only in
    between. *)
Definition well_bracketed {PF : Platform} {SD : EqDecision Span} (t : list event) : Prop :=
  monitor (span_stack any_line) [] t = Some [].

(** ** Rules *)

Section spans.
Context {PF : Platform} {SD : EqDecision Span} (log_ok : list Span → Logger → log_line → bool).
(** The logger of the reconciler and that of the request. *)
Context (rl base : Logger).

Class Accepts : Prop := {
  ok_refreshed top s line : log_ok (top :: s) (refreshed_logger base top) line = true;
  ok_own top line : log_ok [top] (own_logger base top) line = true;
  ok_owner s err fields : log_ok s rl (Error_line err owner_message fields) = true
}.

(** The span of a context is the innermost open one, and its logger is the
    request's, refreshed for this span. *)
Definition tracks (ctx : Context) (s : list Span) : Prop :=
  ∃ span s', s = span :: s' ∧
    ctx = {| ctx_baseLogger := Some base; ctx_logger := Some (refreshed_logger base span);
             ctx_span := Some span |}.

(** Every line of the logger passes. *)
Definition speaks (logger : Logger) (s : list Span) : Prop :=
  ∀ line, log_ok s logger line = true.

#[local] Notation keeps := (keeps log_ok).

Lemma keeps_Ret {A} (a : A) s : keeps (Ret a) s.
Proof. done. Qed.

Lemma keeps_of_outcome {A} (o : outcome A) s : keeps (of_outcome o) s.
Proof. by destruct o. Qed.

Lemma keeps_bind {A B} (p : prog A) (f : A → prog B) s :
  keeps p s → (∀ a, keeps (f a) s) → keeps (p ≫= f) s.
Proof.
  intros Hp Hf. apply wpm_bind. eapply wpm_mono; [exact Hp|].
  intros [a|msg] s' ->; [apply Hf|done].
Qed.

Definition monitored (c : call) : bool :=
  match c with
  | StartSpan _ _ _ | EndSpan _ | SpanDo _ _ | LogLine _ _ => true
  | _ => false
  end.

Lemma keeps_call c s : monitored c = false → keeps (do_call c) s.
Proof. intros Hc x. by destruct c. Qed.

Lemma keeps_log_v logger v msg fields s : speaks logger s → keeps (log_v logger v msg fields) s.
Proof. intros Hs x. simpl. by rewrite Hs. Qed.

Lemma keeps_log_error logger err msg fields s :
  speaks logger s → keeps (log_error logger err msg fields) s.
Proof. intros Hs x. simpl. by rewrite Hs. Qed.

Lemma keeps_span_do span op s : span ∈ s → keeps (span_do span op) s.
Proof. intros Hs x. simpl. by rewrite bool_decide_eq_true_2. Qed.

Lemma keeps_RecordError span err d s : span ∈ s → keeps (RecordError span err d) s.
Proof. intros Hs. apply keeps_bind; intros; by apply keeps_span_do. Qed.

Lemma keeps_RecordReconcileResult span r err s :
  span ∈ s → keeps (RecordReconcileResult span r err) s.
Proof.
  intros Hs. apply keeps_bind; [|by intros; apply keeps_span_do].
  destruct err; [apply keeps_bind; intros|]; by apply keeps_span_do.
Qed.

Lemma keeps_RecordSpecCompleted span s : span ∈ s → keeps (RecordSpecCompleted span) s.
Proof. intros Hs. apply keeps_bind; intros; by apply keeps_span_do. Qed.

Lemma keeps_RecordStatusCompleted span s : span ∈ s → keeps (RecordStatusCompleted span) s.
Proof. intros Hs. apply keeps_bind; intros; by apply keeps_span_do. Qed.

(** A function that opens a span and defers its end. *)
Lemma keeps_in_span {A} ctx name opts (body : Context → Span → prog A) s :
  ctx_baseLogger ctx = Some base → s = [] ∨ tracks ctx s →
  (∀ ctx' span, tracks ctx' (span :: s) → ctx_span ctx' = Some span → keeps (body ctx' span) (span :: s)) →
  keeps ('(ctx', span) ← ('(ctx', span) ← tracer_Start ctx name opts;
                          Ret (RefreshLoggerWithCurrentSpan ctx', span));
         deferring (span_End span) (body ctx' span)) s.
Proof.
  intros Hb Hs Hbody. unfold tracer_Start. intros span. simpl.
  rewrite bool_decide_eq_true_2
    by (destruct Hs as [->|(sp & s' & -> & ->)]; [by left|by right]).
  apply wpm_deferring. eapply wpm_mono.
  - apply Hbody; [|by rewrite Refresh_span]. exists span, s. split; [done|].
    rewrite (Refresh_logger _ base) by done. unfold NewContext. simpl. by rewrite Hb.
  - intros o s' -> []. simpl. by rewrite bool_decide_eq_true_2.
Qed.

Lemma tracks_base ctx s : tracks ctx s → ctx_baseLogger ctx = Some base.
Proof. by intros (span & s' & _ & ->). Qed.

Lemma tracks_SpanFromContext ctx s : tracks ctx s → SpanFromContext ctx ∈ s.
Proof. intros (span & s' & -> & ->). apply list_elem_of_here. Qed.

Lemma tracks_FromContext ctx s :
  tracks ctx s → FromContext ctx = Ok (refreshed_logger base (SpanFromContext ctx)).
Proof. by intros (span & s' & -> & ->). Qed.

Lemma tracks_speaks {OK : Accepts} ctx s :
  tracks ctx s → speaks (refreshed_logger base (SpanFromContext ctx)) s.
Proof. intros (span & s' & -> & ->) line. apply ok_refreshed. Qed.

(** ** The operator *)

Context {CC : ConditionCodec} {LC : LimitsCodec} {JC : LimitadorCodec} {CU : ControllerUtil}
  {SC : StatusConditions} {OK : Accepts}.

#[local] Hint Resolve keeps_Ret keeps_of_outcome keeps_span_do keeps_RecordError keeps_log_v
  keeps_log_error keeps_RecordReconcileResult keeps_RecordSpecCompleted keeps_RecordStatusCompleted
  tracks_base tracks_SpanFromContext tracks_speaks list_elem_of_here or_intror : spans.
#[local] Hint Extern 1 (Spans.keeps _ (do_call _) _) => (apply keeps_call; reflexivity) : spans.
#[local] Hint Extern 1 (Spans.keeps _ (log_info _ _ _) _) => (apply keeps_log_v) : spans.

(** [keeps_solve] goes through a program: binds, case distinctions, and the
    hints for everything else; [keeps_logged] does so with the logger of the
    context. *)
Ltac keeps_solve :=
  repeat
    match goal with
    | |- keeps (mbind _ _) _ => apply keeps_bind; [|intros ?]
    | |- keeps (match ?x with _ => _ end) _ => destruct x
    | |- keeps (let _ := _ in _) _ => cbv zeta
    end;
  eauto 6 with spans.

Ltac keeps_logged Hc := rewrite ?(tracks_FromContext _ _ Hc); keeps_solve.

Lemma keeps_DeleteResource ctx o s : tracks ctx s → keeps (DeleteResource ctx o) s.
Proof. intros Hc. unfold DeleteResource. keeps_logged Hc. Qed.

#[local] Hint Resolve keeps_DeleteResource : spans.

Lemma keeps_ReconcileResource ctx o s : tracks ctx s → keeps (ReconcileResource ctx o) s.
Proof.
  intros Hc. unfold ReconcileResource, RecordResourceApplied, SetResourceOperation.
  keeps_logged Hc.
Qed.

Lemma keeps_CreateResource ctx o s : tracks ctx s → keeps (CreateResource ctx o) s.
Proof. intros Hc. unfold CreateResource. keeps_logged Hc. Qed.

#[local] Hint Resolve keeps_ReconcileResource keeps_CreateResource : spans.

Lemma keeps_ReconcilePersistentVolumeClaim ctx p s :
  tracks ctx s → keeps (ReconcilePersistentVolumeClaim ctx p) s.
Proof.
  intros Hc. unfold ReconcilePersistentVolumeClaim, RecordResourceCreated,
    RecordResourceUnchanged, SetResourceOperation.
  keeps_logged Hc.
Qed.

Lemma keeps_SetOwnerReference_logged l kd (obj : struct_of kd) s :
  keeps (SetOwnerReference_logged rl l obj) s.
Proof.
  unfold SetOwnerReference_logged. destruct (SetOwnerReference l obj) as [o|err]; [done|].
  intros x. simpl. by rewrite (ok_owner s err).
Qed.

#[local] Hint Resolve keeps_SetOwnerReference_logged keeps_ReconcilePersistentVolumeClaim : spans.

Lemma keeps_reconcile_owned lg ctx span l kd (obj : struct_of kd) rec m d s :
  speaks lg s → span ∈ s → (∀ o, keeps (rec ctx o) s) →
  keeps (reconcile_owned rl lg ctx span l obj rec m d) s.
Proof. intros Hlg Hs Hrec. unfold reconcile_owned, set_status_ok. keeps_solve. Qed.

Lemma keeps_getDeploymentOptions l s : keeps (getDeploymentOptions l) s.
Proof.
  unfold getDeploymentOptions, getDeploymentStorageOptions, RedisDeploymentOptions,
    RedisCachedDeploymentOptions, validateRedisSecret.
  keeps_solve.
Qed.

#[local] Hint Resolve keeps_reconcile_owned keeps_getDeploymentOptions : spans.

(** The functions of one resource each: open a span, then log and reconcile
    inside it. *)
Ltac keeps_resource :=
  intros Hc; apply keeps_in_span; [by eauto with spans|by right|];
  intros ctx' span Hc' _; keeps_logged Hc'.

Lemma keeps_reconcileService ctx l s : tracks ctx s → keeps (reconcileService rl ctx l) s.
Proof. keeps_resource. Qed.

Lemma keeps_reconcilePVC ctx l s : tracks ctx s → keeps (reconcilePVC rl ctx l) s.
Proof. keeps_resource. Qed.

Lemma keeps_reconcileDeployment ctx l s : tracks ctx s → keeps (reconcileDeployment rl ctx l) s.
Proof. keeps_resource. Qed.

Lemma keeps_reconcileLimitsConfigMap ctx l s :
  tracks ctx s → keeps (reconcileLimitsConfigMap rl ctx l) s.
Proof. keeps_resource. Qed.

Lemma keeps_reconcilePdb ctx l s : tracks ctx s → keeps (reconcilePdb rl ctx l) s.
Proof. keeps_resource. Qed.

Lemma keeps_annotate_pods ctx span rv pods s :
  tracks ctx s → span ∈ s → keeps (annotate_pods ctx span rv pods) s.
Proof.
  intros Hc Hs. induction pods as [|p ps IH]; [done|].
  cbn [annotate_pods]. unfold ReconcilePodAnnotation. keeps_logged Hc.
Qed.

#[local] Hint Resolve keeps_annotate_pods : spans.

Lemma keeps_reconcilePodLimitsHashAnnotation ctx l s :
  tracks ctx s → keeps (reconcilePodLimitsHashAnnotation ctx l) s.
Proof.
  intros Hc. apply keeps_in_span; [by eauto with spans|by right|]. intros ctx' span Hc' _.
  unfold reconcilePodLimitsHashAnnotation_body, set_status_ok. keeps_solve.
Qed.

Lemma keeps_or_return span p d rest s :
  span ∈ s → keeps p s → keeps rest s → keeps (or_return span p d rest) s.
Proof. intros Hs Hp Hrest. unfold or_return. keeps_solve. Qed.

#[local] Hint Resolve keeps_reconcileService keeps_reconcilePVC keeps_reconcileDeployment
  keeps_reconcileLimitsConfigMap keeps_reconcilePdb keeps_reconcilePodLimitsHashAnnotation : spans.

Lemma keeps_reconcileSpec ctx l s : tracks ctx s → keeps (reconcileSpec rl ctx l) s.
Proof.
  intros Hc. apply keeps_in_span; [by eauto with spans|by right|]. intros ctx' span Hc' _.
  unfold reconcileSpec_body. do 5 (apply keeps_or_return; [by constructor|by eauto with spans|]).
  keeps_solve.
Qed.

Lemma keeps_Equals_logged lg st st' s : speaks lg s → keeps (Equals_logged lg st st') s.
Proof. intros Hlg. unfold Equals_logged. keeps_solve. Qed.

Lemma keeps_UpdateResourceStatus ctx o s : tracks ctx s → keeps (UpdateResourceStatus ctx o) s.
Proof. intros Hc. unfold UpdateResourceStatus. keeps_logged Hc. Qed.

#[local] Hint Resolve keeps_Equals_logged keeps_UpdateResourceStatus : spans.

Lemma keeps_calculateStatus l specErr s : keeps (calculateStatus l specErr) s.
Proof. unfold calculateStatus, readyCondition, checkLimitadorAvailable. keeps_solve. Qed.

#[local] Hint Resolve keeps_calculateStatus : spans.

Lemma keeps_reconcileStatus ctx l specErr s : tracks ctx s → keeps (reconcileStatus ctx l specErr) s.
Proof.
  intros Hc. apply keeps_in_span; [by eauto with spans|by right|]. intros ctx' span Hc' _.
  unfold reconcileStatus_body. keeps_logged Hc'.
Qed.

#[local] Hint Resolve keeps_reconcileSpec keeps_reconcileStatus : spans.

Lemma keeps_debug_marshal lg l s : speaks lg s → keeps (debug_marshal lg l) s.
Proof. intros Hlg. unfold debug_marshal. keeps_solve. Qed.

Lemma keeps_Reconcile_object lg ctx span l s :
  speaks lg s → tracks ctx s → span ∈ s → keeps (Reconcile_object rl lg ctx span l) s.
Proof. intros Hlg Hc Hs. unfold Reconcile_object. keeps_solve. Qed.

#[local] Hint Resolve keeps_debug_marshal keeps_Reconcile_object : spans.

Lemma own_speaks span : speaks (own_logger base span) [span].
Proof. intros line. apply ok_own. Qed.

Lemma keeps_Reconcile_body ctx span req :
  tracks ctx [span] → keeps (Reconcile_body rl base ctx span req) [span].
Proof.
  intros Hc. pose proof (own_speaks span) as Hlg.
  unfold Reconcile_body, AddLimitadorAttributes. fold (own_logger base span).
  cbv zeta. keeps_solve.
Qed.

End spans.

#[export] Instance any_line_accepts {PF : Platform} rl base : Accepts any_line rl base.
Proof. by split. Qed.

(** The logger of a request names the resource. *)
Definition request_logger {PF : Platform} (rl : Logger) (req : NamespacedName) : Logger :=
  WithValues rl [("limitador", LogKey req)].

Lemma keeps_Reconcile {PF : Platform} {SD : EqDecision Span} log_ok
    {CC : ConditionCodec} {LC : LimitsCodec} {JC : LimitadorCodec} {CU : ControllerUtil}
    {SC : StatusConditions} rl ctx req {OK : Accepts log_ok rl (request_logger rl req)} :
  keeps log_ok (Reconcile rl ctx req) [].
Proof.
  apply (keeps_in_span log_ok (request_logger rl req)); [done|by left|].
  intros ctx' span Hc' _. by apply keeps_Reconcile_body.
Qed.
