(* ===== verification/Footprint.v ===== *)
(** * The footprint of a reconciliation

    What each call of a run may be, given the resource that was read: which
    objects are applied, created, deleted and read, and with which content;
    the order of the calls; and what an error reply does to the rest of the
    run. All of it is derived from the plan. *)

From S2P Require Import Prelude Kube Helpers Types Effects Observability Names Options Objects.
From S2P Require Import BaseReconciler Status Controller Traffic Plan Follows.

Section footprint.
Context {PF : Platform} {CC : ConditionCodec} {LC : LimitsCodec} {JC : LimitadorCodec}
  {CU : ControllerUtil} {SC : StatusConditions}.

(** ** The storage back end of a resource *)

Inductive backend :=
  | BackendMemory
  | BackendRedis (r : Redis)
  | BackendRedisCached (c : RedisCached)
  | BackendDisk (d : DiskSpec).

Definition backend_of (l : Limitador) : backend :=
  match spec_Storage (lim_Spec l) with
  | Some {| st_Redis := Some r |} => BackendRedis r
  | Some {| st_RedisCached := Some c |} => BackendRedisCached c
  | Some {| st_Disk := Some d |} => BackendDisk d
  | _ => BackendMemory
  end.

(** The secret the back end takes its URL from. *)
Definition backend_secret (b : backend) : option LocalObjectReference :=
  match b with
  | BackendRedis r => redis_ConfigSecretRef r
  | BackendRedisCached c => rc_ConfigSecretRef c
  | _ => None
  end.

Definition uses_redis (b : backend) : bool :=
  match b with
  | BackendRedis _ | BackendRedisCached _ => true
  | _ => false
  end.

Definition uses_disk (b : backend) : bool :=
  match b with
  | BackendDisk _ => true
  | _ => false
  end.

Definition backend_args (b : backend) : list string :=
  match b with
  | BackendMemory => ["memory"]
  | BackendRedis _ => ["redis"; "$(LIMITADOR_OPERATOR_REDIS_URL)"]
  | BackendRedisCached c => redis_cached_command (rc_Options c)
  | BackendDisk d =>
      "disk" :: match disk_Optimize d with Some o => ["--optimize"; o] | None => [] end ++ [DiskPath]
  end.

Definition backend_options (l : Limitador) : DeploymentStorageOptions :=
  let b := backend_of l in
  {| dso_Args := backend_args b;
     dso_VolumeMounts := if uses_disk b then diskVolumeMounts else [];
     dso_Volumes := if uses_disk b then diskVolumes l else [];
     dso_DeploymentStrategy :=
       if uses_disk b
       then {| ds_Type := Some RecreateDeploymentStrategyType; ds_RollingUpdate := None |}
       else rolling_update |}.

Definition backend_env (b : backend) : list EnvVar :=
  match backend_secret b with
  | Some ref => [ {| ev_Name := "LIMITADOR_OPERATOR_REDIS_URL";
                     ev_SecretKeyRef := Some {| sks_Name := lor_Name ref; sks_Key := "URL" |} |} ]
  | None => []
  end.

(** ** What a run may do *)

(** The Deployment a resource asks for, as it is sent. *)
Definition desired_deployment (l : Limitador) (d : Deployment) : Prop :=
  ∃ args,
    DeploymentArgs l (backend_options l) = Done args ∧
    (uses_redis (backend_of l) = true → is_Some (backend_secret (backend_of l))) ∧
    SetOwnerReference (kd := KDeployment) l
      (Deployment_of l (deployment_options l (backend_options l) args
                          (backend_env (backend_of l)))) = Ok d.

(** The objects that may be applied. *)
Definition applied (l : Limitador) (pods : list Pod) (o : object) : Prop :=
  match o with
  | Obj KService s => SetOwnerReference (kd := KService) l (Service_of l) = Ok s
  | Obj KDeployment d => desired_deployment l d
  | Obj KConfigMap c =>
      ∃ cm, LimitsConfigMap l = Ok cm ∧ SetOwnerReference (kd := KConfigMap) l cm = Ok c
  | Obj KPodDisruptionBudget p =>
      is_Some (spec_PodDisruptionBudget (lim_Spec l)) ∧
      SetOwnerReference (kd := KPodDisruptionBudget) l (PodDisruptionBudget_of l) = Ok p
  | Obj KPod p =>
      ∃ pod rv, pod ∈ stale_pods rv pods ∧
        p = pod_annotation_patch (om_Name (pod_ObjectMeta pod)) (om_Namespace (pod_ObjectMeta pod))
              PodAnnotationConfigMapResourceVersion rv
  | _ => False
  end.

Definition wants_claim (l : Limitador) : bool :=
  bool_decide (is_Some (spec_Storage (lim_Spec l) ≫= st_Disk)).

Definition created (l : Limitador) (o : object) : Prop :=
  match o with
  | Obj KPersistentVolumeClaim p =>
      wants_claim l = true ∧ SetOwnerReference (kd := KPersistentVolumeClaim) l (PVC l) = Ok p
  | _ => False
  end.

Definition deleted (l : Limitador) (o : object) : Prop :=
  match o with
  | Obj KPersistentVolumeClaim p =>
      wants_claim l = false ∧ SetOwnerReference (kd := KPersistentVolumeClaim) l (PVC l) = Ok p
  | Obj KPodDisruptionBudget p =>
      spec_PodDisruptionBudget (lim_Spec l) = None ∧
      SetOwnerReference (kd := KPodDisruptionBudget) l (PodDisruptionBudget_of l) = Ok p
  | _ => False
  end.

Definition read (l : Limitador) (kd : kind) (key : NamespacedName) : Prop :=
  match kd with
  | KPersistentVolumeClaim =>
      wants_claim l = true ∧ key = {| nn_Namespace := lim_Namespace l; nn_Name := PVCName l |}
  | KSecret =>
      ∃ ref, backend_secret (backend_of l) = Some ref ∧
             key = {| nn_Namespace := lim_Namespace l; nn_Name := lor_Name ref |}
  | KConfigMap => key = limits_key l
  | KDeployment => key = {| nn_Namespace := lim_Namespace l; nn_Name := DeploymentName l |}
  | _ => False
  end.

Definition status_patched (l : Limitador) (o : object) : Prop :=
  ∃ now ready, let st := next_status l now ready in
    o = Obj KLimitador (status_patch l st) ∧ LimitadorStatus_Equals (lim_Status l) st = false.

Definition duty (l : Limitador) (pods : list Pod) (e : event) : Prop :=
  let '(Ev c x) := e in
  match c return reply c → Prop with
  | Get kd key => λ _, read l kd key
  | ListPods sel ns => λ got,
      sel = SelectorLabels l ∧ ns = lim_Namespace l ∧ ∀ ps, got = Ok ps → ps = pods
  | Patch_Apply o opts => λ _, opts = apply_opts ∧ applied l pods o
  | Status_Patch_Apply o opts => λ _, opts = apply_opts ∧ status_patched l o
  | Create o => λ _, created l o
  | Delete o => λ _, deleted l o
  | Now => λ _, True
  | _ => λ _, False
  end x.

(** The place of a call in the order of a reconciliation. *)
Definition rank (e : event) : nat :=
  match ev_call e with
  | Get KPersistentVolumeClaim _ | Create _ => 2
  | Get KSecret _ => 3
  | ListPods _ _ | Get KConfigMap _ => 6
  | Get KDeployment _ | Now => 8
  | Patch_Apply o _ | Delete o =>
      match obj_kind o with
      | KService => 1
      | KPersistentVolumeClaim => 2
      | KDeployment => 3
      | KConfigMap => 4
      | KPodDisruptionBudget => 5
      | _ => 7
      end
  | Status_Patch_Apply _ _ => 9
  | _ => 0
  end.

(** Calls in their order, each of them a duty, of ranks between two bounds. *)
Definition ordered (l : Limitador) (pods : list Pod) (a b : nat) (w : list event) : Prop :=
  Forall (λ e, duty l pods e ∧ a ≤ rank e ≤ b) w ∧ StronglySorted le (rank <$> w).

(** ** Lemmas *)

Lemma elem_traffic e t : e ∈ traffic t ↔ is_traffic (ev_call e) = true ∧ e ∈ t.
Proof.
  unfold traffic. rewrite !list_elem_of_In, List.filter_In. tauto.
Qed.

Lemma elem_writes e t : e ∈ writes t ↔ is_write (ev_call e) = true ∧ e ∈ t.
Proof.
  unfold writes. rewrite !list_elem_of_In, List.filter_In. tauto.
Qed.

Lemma is_write_traffic c : is_write c = true → is_traffic c = true.
Proof. by destruct c. Qed.

Lemma ordered_nil l pods a b : ordered l pods a b [].
Proof. split; constructor. Qed.

Lemma ordered_one l pods a b e : duty l pods e → a ≤ rank e ≤ b → ordered l pods a b [e].
Proof. intros Hd Hr. split; [by apply Forall_singleton|]. by repeat constructor. Qed.

Lemma ordered_cons l pods a b e w :
  duty l pods e → a ≤ rank e ≤ b → ordered l pods (rank e) b w → ordered l pods a b (e :: w).
Proof.
  intros Hd Hr [Hw Hs]. split.
  - constructor; [done|]. eapply Forall_impl; [exact Hw|]. simpl. intros ? [??]; split; [done|lia].
  - simpl. constructor; [done|]. apply Forall_fmap. eapply Forall_impl; [exact Hw|].
    simpl. intros ? [??]; lia.
Qed.

Lemma ordered_app l pods a b c d w1 w2 :
  ordered l pods a b w1 → ordered l pods c d w2 → a ≤ b → b ≤ c → c ≤ d →
  ordered l pods a d (w1 ++ w2).
Proof.
  intros [H1 S1] [H2 S2] Hab Hbc Hcd. split.
  - apply Forall_app; split; (eapply Forall_impl; [eassumption|]); simpl; intros ? [??];
      (split; [done|lia]).
  - rewrite fmap_app. apply StronglySorted_app. split; [|done].
    intros x1 x2 Hx1 Hx2.
    apply list_elem_of_fmap in Hx1 as (e1 & -> & He1).
    apply list_elem_of_fmap in Hx2 as (e2 & -> & He2).
    rewrite Forall_forall in H1, H2.
    pose proof (H1 _ He1) as [_ ?]. pose proof (H2 _ He2) as [_ ?]. lia.
Qed.

Lemma ordered_weaken l pods a b a' b' w :
  ordered l pods a b w → a' ≤ a → b ≤ b' → ordered l pods a' b' w.
Proof.
  intros [H S] ??. split; [|done]. eapply Forall_impl; [exact H|]. simpl. intros ? [??].
  split; [done|lia].
Qed.

(** *** The back end as a function *)

Lemma storage_options_Ok l w so :
  storage_options l w (Ok so) →
  so = backend_options l ∧
  (uses_redis (backend_of l) = true → is_Some (backend_secret (backend_of l))) ∧
  Forall (λ e, ∃ ref got, backend_secret (backend_of l) = Some ref ∧
     e = Ev (Get KSecret {| nn_Namespace := lim_Namespace l; nn_Name := lor_Name ref |}) got) w.
Proof.
  unfold storage_options, backend_options, backend_of, redis_options.
  destruct (spec_Storage (lim_Spec l)) as [[[r|] [c|] [d|]]|]; simpl;
    try (intros [-> [= ->]]; split; [|by split; [|constructor]]).
  all: try by destruct (disk_Optimize d).
  all: try done.
  all: match goal with |- context [match ?ref with _ => _ end] => destruct ref eqn:? end;
    [|by intros [_ [=]]].
  all: intros (got & -> & Hr); destruct (secret_error got); simplify_eq;
    (split; [done|]); (split; [done|]); apply Forall_singleton; eauto.
Qed.

Lemma storage_options_reads l w r :
  storage_options l w r →
  Forall (λ e, ∃ ref got, backend_secret (backend_of l) = Some ref ∧
     e = Ev (Get KSecret {| nn_Namespace := lim_Namespace l; nn_Name := lor_Name ref |}) got) w.
Proof.
  unfold storage_options, backend_of, redis_options.
  destruct (spec_Storage (lim_Spec l)) as [[[r'|] [c|] [d|]]|]; simpl;
    try (intros [-> _]; constructor).
  all: match goal with |- context [match ?ref with _ => _ end] => destruct ref eqn:? end;
    [|intros [-> _]; constructor].
  all: intros (got & -> & _); apply Forall_singleton; eauto.
Qed.

Lemma getDeploymentEnvVar_backend l :
  getDeploymentEnvVar l =
    if uses_redis (backend_of l)
    then match backend_secret (backend_of l) with
         | Some _ => Ok (backend_env (backend_of l))
         | None => Err errNoConfigSecretRef
         end
    else Ok [].
Proof.
  unfold getDeploymentEnvVar, backend_of, backend_env, DeploymentEnvVar.
  destruct (spec_Storage (lim_Spec l)) as [[[r|] [c|] [d|]]|]; simpl; try done;
    by destruct (_ : option LocalObjectReference).
Qed.

Lemma options_of_Ok l w o :
  options_of l w (Done (Ok o)) →
  ∃ args, DeploymentArgs l (backend_options l) = Done args ∧
    (uses_redis (backend_of l) = true → is_Some (backend_secret (backend_of l))) ∧
    o = deployment_options l (backend_options l) args (backend_env (backend_of l)).
Proof.
  intros (r & Hs & Ho). destruct r as [so|e]; [|done].
  apply storage_options_Ok in Hs as (-> & Hsec & _).
  destruct (DeploymentArgs l (backend_options l)) as [args|msg]; [|done].
  simpl in Ho. exists args. split; [done|]. split; [done|].
  rewrite getDeploymentEnvVar_backend in Ho. unfold backend_env in *.
  destruct (uses_redis (backend_of l)) eqn:Hu.
  - destruct Hsec as [ref Href]; [done|]. rewrite Href in *. by simplify_eq.
  - destruct (backend_of l); simplify_eq/=; done.
Qed.

Lemma options_of_reads l w o :
  options_of l w o → ∀ pods, ordered l pods 3 3 w.
Proof.
  intros (r & Hs%storage_options_reads & _) pods. split.
  - eapply Forall_impl; [exact Hs|]. intros e (ref & got & Href & ->).
    split; [|done]. simpl. eauto.
  - clear r o. induction Hs as [|e w (ref & got & _ & ->) Hw IH]; simpl; [constructor|].
    constructor; [done|]. apply Forall_fmap. eapply Forall_impl; [exact Hw|].
    intros e (ref' & got' & _ & ->). cbn. lia.
Qed.

(** *** The footprint of each step *)

(** An owned object is sent with its owner, or not at all. *)
Lemma owned_step_inv l kd (obj : struct_of kd) (rec : struct_of kd → step) w err :
  owned_step l obj rec w err →
  (w = [] ∧ is_Some err) ∨ ∃ obj', SetOwnerReference l obj = Ok obj' ∧ rec obj' w err.
Proof. intros [(e & _ & -> & ->)|(o & ? & ?)]; eauto. Qed.

Lemma SetOwnerReference_tagged l kd (obj obj' : struct_of kd) :
  SetOwnerReference l obj = Ok obj' →
  IsObjectTaggedToDelete (struct_meta kd obj') = IsObjectTaggedToDelete (struct_meta kd obj).
Proof. by intros [refs ->]%SetOwnerReference_Ok; rewrite map_meta_struct_meta. Qed.

Lemma SetOwnerReference_key l kd (obj obj' : struct_of kd) :
  SetOwnerReference l obj = Ok obj' →
  key_of (struct_meta kd obj') = key_of (struct_meta kd obj).
Proof. by intros [refs ->]%SetOwnerReference_Ok; rewrite map_meta_struct_meta. Qed.

Lemma service_step_ordered l pods w err : service_step l w err → ordered l pods 1 1 w.
Proof.
  intros [[-> _]|(s & Hs & e & Hw)]%owned_step_inv; [apply ordered_nil|].
  pose proof (SetOwnerReference_tagged _ _ _ _ Hs) as Ht. simpl in Ht, Hw.
  rewrite Ht, new_meta_not_tagged in Hw. destruct Hw as [-> _]. by apply ordered_one.
Qed.

Lemma PVC_tagged l : IsObjectTaggedToDelete (pvc_ObjectMeta (PVC l)) = negb (wants_claim l).
Proof.
  unfold PVC, wants_claim. destruct (spec_Storage (lim_Spec l) ≫= st_Disk) as [d|]; simpl.
  - by destruct (disk_PVC d).
  - apply TagObjectToDelete_tags.
Qed.

Lemma PVC_key l :
  key_of (pvc_ObjectMeta (PVC l)) = {| nn_Namespace := lim_Namespace l; nn_Name := PVCName l |}.
Proof.
  unfold PVC. destruct (spec_Storage (lim_Spec l) ≫= st_Disk) as [d|]; [|done].
  by destruct (disk_PVC d).
Qed.

Lemma pvc_step_ordered l pods w err : pvc_step l w err → ordered l pods 2 2 w.
Proof.
  intros [[-> _]|(p & Hp & Hw)]%owned_step_inv; [apply ordered_nil|].
  pose proof (SetOwnerReference_tagged _ _ _ _ Hp) as Ht. simpl in Ht.
  pose proof (SetOwnerReference_key _ _ _ _ Hp) as Hk. simpl in Hk.
  unfold pvc_resource_step in Hw. rewrite Ht, PVC_tagged, Hk, PVC_key in Hw.
  destruct (wants_claim l) eqn:Hc; simpl in Hw.
  - destruct Hw as ([q|e] & Hw); [destruct Hw as [-> _]; by apply ordered_one|].
    destruct (Err_IsNotFound e); [destruct Hw as (r & -> & _)|destruct Hw as [-> _];
      by apply ordered_one].
    apply ordered_cons; [done|done|]. by apply ordered_one.
  - destruct Hw as (e & -> & _). by apply ordered_one.
Qed.

Lemma deployment_step_ordered l pods w err : deployment_step l w err → ordered l pods 3 3 w.
Proof.
  intros (w1 & w2 & r & -> & Ho & Hr).
  pose proof (options_of_reads _ _ _ Ho pods) as H1.
  destruct r as [o|e]; [|destruct Hr as [-> _]; by rewrite app_nil_r].
  eapply ordered_app; [exact H1| |done..].
  apply options_of_Ok in Ho as (args & Ha & Hsec & ->).
  apply owned_step_inv in Hr as [[-> _]|(d & Hd & e & Hw)]; [apply ordered_nil|].
  pose proof (SetOwnerReference_tagged _ _ _ _ Hd) as Ht. simpl in Ht, Hw.
  rewrite Ht, new_meta_not_tagged in Hw. destruct Hw as [-> _].
  apply ordered_one; [|done]. split; [done|]. by exists args.
Qed.

Lemma LimitsConfigMap_meta l cm :
  LimitsConfigMap l = Ok cm →
  cm_ObjectMeta cm = new_meta (LimitsConfigMapName l) (lim_Namespace l) (Labels l).
Proof. unfold LimitsConfigMap. destruct (yaml_Marshal_Limits _); [|done]. by intros [= <-]. Qed.

Lemma configmap_step_ordered l pods w err : configmap_step l w err → ordered l pods 4 4 w.
Proof.
  unfold configmap_step. destruct (LimitsConfigMap l) as [cm|e] eqn:Hcm;
    [|intros [-> _]; apply ordered_nil].
  intros [[-> _]|(c & Hc & e & Hw)]%owned_step_inv; [apply ordered_nil|].
  pose proof (SetOwnerReference_tagged _ _ _ _ Hc) as Ht. simpl in Ht, Hw.
  rewrite Ht, (LimitsConfigMap_meta l cm Hcm), new_meta_not_tagged in Hw.
  destruct Hw as [-> _]. apply ordered_one; [|done]. split; [done|]. by exists cm.
Qed.

Lemma PDB_tagged l :
  IsObjectTaggedToDelete (pdb_ObjectMeta (PodDisruptionBudget_of l)) =
  negb (bool_decide (is_Some (spec_PodDisruptionBudget (lim_Spec l)))).
Proof.
  unfold PodDisruptionBudget_of.
  destruct (spec_PodDisruptionBudget (lim_Spec l)); simpl; [done|apply TagObjectToDelete_tags].
Qed.

Lemma pdb_step_ordered l pods w err : pdb_step l w err → ordered l pods 5 5 w.
Proof.
  intros [[-> _]|(p & Hp & e & Hw)]%owned_step_inv; [apply ordered_nil|].
  pose proof (SetOwnerReference_tagged _ _ _ _ Hp) as Ht. simpl in Ht, Hw.
  rewrite Ht, PDB_tagged in Hw. case_bool_decide as Hb; simpl in Hw; destruct Hw as [-> _];
    (apply ordered_one; [|done]); split; try done.
  by apply eq_None_not_Some.
Qed.

Lemma pods_patched l pods rv ps w err :
  (∀ p, p ∈ ps → p ∈ stale_pods rv pods) →
  in_order (pod_step rv <$> ps) w err → ordered l pods 7 7 w.
Proof.
  revert w. induction ps as [|p ps IH]; intros w Hps; simpl.
  { intros [-> _]. apply ordered_nil. }
  assert (Hone : ∀ v err', pod_step rv p v err' → ordered l pods 7 7 v).
  { intros v err' (e & Hw). simpl in Hw. unfold IsObjectTaggedToDelete in Hw. simpl in Hw.
    rewrite lookup_singleton_ne in Hw by done.
    destruct Hw as [-> _]. apply ordered_one; [|done]. split; [done|].
    exists p, rv. split; [|done]. apply Hps. left. }
  intros [(e & He & _)|(w1 & w2 & -> & H1 & H2)]; [by eapply Hone|].
  eapply ordered_app; [by eapply Hone|apply IH; [|done]|done..].
  intros q Hq. apply Hps. by right.
Qed.

Lemma pods_run_ordered l w r err : pods_run l w r err → ∃ pods, ordered l pods 6 7 w.
Proof.
  intros (listed & w1 & -> & H). destruct listed as [ps|e].
  2: { exists []. destruct H as (-> & _). by apply ordered_one; [|cbn; lia]. }
  exists ps. apply ordered_cons; [|cbn; lia|change (rank _) with 6].
  { cbn. split_and!; [done..|]. by intros ? [= ->]. }
  destruct (_ || _); [destruct H as (-> & _); apply ordered_nil|].
  destruct H as (got & w2 & -> & H). apply ordered_cons; [done|cbn; lia|change (rank _) with 6].
  destruct got as [cm|e]; [|destruct H as (-> & _); apply ordered_nil].
  destruct H as [_ H]. eapply ordered_weaken; [by eapply pods_patched|lia|lia].
Qed.

(** Steps in order give calls in order. *)
Lemma in_order_ordered l pods (ns : list nat) (steps : list step) a b w err :
  Forall2 (λ n s, ∀ w err, s w err → ordered l pods n n w) ns steps →
  StronglySorted le ns → Forall (λ n, a ≤ n ≤ b) ns →
  in_order steps w err → ordered l pods a b w.
Proof.
  intros H. revert a w. induction H as [|n s ns steps Hs H IH]; intros a w Hso Hb; simpl.
  { intros [-> _]. apply ordered_nil. }
  apply StronglySorted_cons in Hso as [Hle Hso]. apply Forall_cons in Hb as [Hn Hb].
  intros [(e & He & _)|(w1 & w2 & -> & H1 & H2)].
  - eapply ordered_weaken; [by apply (Hs _ _ He)|lia|lia].
  - eapply ordered_weaken; [eapply ordered_app; [by apply (Hs _ _ H1)| |reflexivity|reflexivity|]|lia|].
    + apply (IH n); [done| |done]. apply Forall_and. split; [done|].
      eapply Forall_impl; [exact Hb|]. simpl. lia.
    + lia.
    + lia.
Qed.

Lemma owned_plan_ordered l pods w err : in_order (owned_plan l) w err → ordered l pods 1 5 w.
Proof.
  apply (in_order_ordered l pods [1; 2; 3; 4; 5]).
  - apply Forall2_cons; split; [exact (service_step_ordered l pods)|].
    apply Forall2_cons; split; [exact (pvc_step_ordered l pods)|].
    apply Forall2_cons; split; [exact (deployment_step_ordered l pods)|].
    apply Forall2_cons; split; [exact (configmap_step_ordered l pods)|].
    apply Forall2_cons; split; [exact (pdb_step_ordered l pods)|]. constructor.
  - repeat constructor.
  - repeat constructor.
Qed.

Lemma spec_run_ordered l w r err : spec_run l w r err → ∃ pods, ordered l pods 1 7 w.
Proof.
  intros [(e & H & _)|(w1 & w2 & -> & H1 & H2)].
  - exists []. eapply ordered_weaken; [by eapply owned_plan_ordered|lia|lia].
  - destruct (pods_run_ordered _ _ _ _ H2) as [pods Hp]. exists pods.
    eapply ordered_app; [by eapply owned_plan_ordered|exact Hp|lia..].
Qed.

Lemma spec_panic_ordered l w msg : spec_panic l w msg → ordered l [] 1 3 w.
Proof.
  intros (w1 & w2 & -> & H1 & H2).
  apply (ordered_app l [] 1 2 3 3); [|by eapply options_of_reads|lia..].
  apply (in_order_ordered l [] [1; 2] [service_step l; pvc_step l] 1 2 w1 None);
    [|by repeat constructor..|done].
  apply Forall2_cons; split; [exact (service_step_ordered l [])|].
  apply Forall2_cons; split; [exact (pvc_step_ordered l [])|]. constructor.
Qed.

Lemma status_run_ordered l specErr pods w err :
  status_run l specErr w err → ordered l pods 8 9 w.
Proof.
  intros (w1 & w2 & c & -> & H1 & H2).
  assert (Hw1 : ordered l pods 8 8 w1).
  { destruct specErr as [e|]; [destruct H1 as [-> _]; apply ordered_nil|].
    destruct H1 as (got & -> & _). by apply ordered_one. }
  eapply ordered_app; [exact Hw1| |done|done|lia].
  destruct c as [ready|e]; [|destruct H2 as [-> _]; apply ordered_nil].
  destruct H2 as (now & w3 & -> & H3). apply ordered_cons; [done|cbn; lia|change (rank _) with 8].
  destruct (LimitadorStatus_Equals _ _) eqn:He; [destruct H3 as [-> _]; apply ordered_nil|].
  destruct H3 as (e & -> & _). apply ordered_one; [|cbn; lia].
  split; [done|]. by exists now, ready.
Qed.

Lemma Reconcile_footprint logger ctx req t o :
  runs (Reconcile logger ctx req) t o →
  ∃ got w, traffic t = Ev (Get KLimitador req) got :: w ∧
    match got with
    | Err _ => w = []
    | Ok l => (is_Some (om_DeletionTimestamp (lim_ObjectMeta l)) → w = []) ∧
              ∃ pods, ordered l pods 1 9 w
    end.
Proof.
  intros Hr. destruct (does_runs _ _ _ _ (Reconcile_does logger ctx req) Hr)
    as (got & w & Hw & H). exists got, w. split; [done|].
  destruct got as [l|e]; [|by destruct H].
  destruct H as [(e & _ & -> & _)|H]; [split; [done|exists []; apply ordered_nil]|].
  destruct (om_DeletionTimestamp (lim_ObjectMeta l)).
  { destruct H as [-> _]. split; [done|exists []; apply ordered_nil]. }
  split; [by intros [? [=]]|].
  destruct H as [(err & _ & w1 & w2 & r & specErr & statusErr & -> & H1 & H2 & _)|(msg & _ & H)].
  - destruct (spec_run_ordered _ _ _ _ H1) as [pods Hp]. exists pods.
    eapply ordered_app; [exact Hp|by eapply status_run_ordered|lia..].
  - exists []. eapply ordered_weaken; [by eapply spec_panic_ordered|lia|lia].
Qed.

(** One call of a run, given the resource that was read. *)
Lemma Reconcile_duty logger ctx req t o e :
  runs (Reconcile logger ctx req) t o → e ∈ traffic t →
  (∃ got, e = Ev (Get KLimitador req) got) ∨
  ∃ l pods, Ev (Get KLimitador req) (Ok l) ∈ t ∧
            om_DeletionTimestamp (lim_ObjectMeta l) = None ∧
            duty l pods e ∧ 1 ≤ rank e ≤ 9.
Proof.
  intros Hr He. destruct (Reconcile_footprint _ _ _ _ _ Hr) as (got & w & Hw & H).
  rewrite Hw in He. apply elem_of_cons in He as [->|He]; [eauto|]. right.
  destruct got as [l|e']; [|subst w; by apply elem_of_nil in He].
  destruct H as [Hdel (pods & Hd & _)]. exists l, pods. split.
  { apply (elem_traffic _ t). rewrite Hw. left. }
  rewrite Forall_forall in Hd. split; [|by apply Hd].
  destruct (om_DeletionTimestamp (lim_ObjectMeta l)); [|done].
  rewrite Hdel in He by done. by apply elem_of_nil in He.
Qed.

(** ** The effect of a failed write *)

(** The error a write makes the operator report; a delete of something that
    is not there is no error. *)
Definition write_error (e : event) : option error :=
  let '(Ev c x) := e in
  match c return reply c → option error with
  | Patch_Apply _ _ | Create _ | Update _ => ext_error
  | Status_Patch_Apply _ _ => λ r, ErrWrap "failed to update status" <$> ext_error r
  | Delete _ => delete_error
  | _ => λ _, None
  end x.

Definition clean (w : list event) : Prop := Forall (λ e, write_error e = None) w.

(** No write failed, or the last call is the first write that did and the
    error is the one of that write. *)
Definition fail_stop (w : list event) (err : option error) : Prop :=
  clean w ∨ ∃ w' e x, w = w' ++ [e] ∧ clean w' ∧ write_error e = Some x ∧ err = Some x.

Lemma fail_stop_nil err : fail_stop [] err.
Proof. left. constructor. Qed.

Lemma fail_stop_one e : fail_stop [e] (write_error e).
Proof.
  destruct (write_error e) as [x|] eqn:He; [|left; by apply Forall_singleton].
  right. exists [], e, x. split; [done|]. split; [constructor|done].
Qed.

Lemma fail_stop_None w : fail_stop w None → clean w.
Proof. by intros [?|(w' & e & x & _ & _ & _ & [=])]. Qed.

Lemma fail_stop_app w1 w2 err : clean w1 → fail_stop w2 err → fail_stop (w1 ++ w2) err.
Proof.
  intros H1 [H2|(w' & e & x & -> & H2 & He & ->)].
  - left. by apply Forall_app.
  - right. exists (w1 ++ w'), e, x. rewrite (assoc_L (++)). split; [done|].
    split; [by apply Forall_app|done].
Qed.

Lemma in_order_fail_stop (steps : list step) w err :
  Forall (λ s : step, ∀ w err, s w err → fail_stop w err) steps →
  in_order steps w err → fail_stop w err.
Proof.
  intros H. revert w. induction H as [|s steps Hs H IH]; intros w; simpl.
  { intros [-> _]. apply fail_stop_nil. }
  intros [(e & He & ->)|(w1 & w2 & -> & H1 & H2)]; [by apply Hs|].
  apply fail_stop_app; [by apply fail_stop_None, Hs|by apply IH].
Qed.

Lemma resource_step_fail_stop o w err : resource_step o w err → fail_stop w err.
Proof. intros (e & H). destruct (IsObjectTaggedToDelete _); destruct H as [-> ->]; apply fail_stop_one. Qed.

Lemma pvc_resource_step_fail_stop p w err : pvc_resource_step p w err → fail_stop w err.
Proof.
  unfold pvc_resource_step. destruct (IsObjectTaggedToDelete _).
  { intros (e & -> & ->). apply fail_stop_one. }
  intros ([q|e] & H); [destruct H as [-> _]; left; by apply Forall_singleton|].
  destruct (Err_IsNotFound e); [|destruct H as [-> _]; left; by apply Forall_singleton].
  destruct H as (r & -> & ->).
  eapply (fail_stop_app [_] [_]); [by apply Forall_singleton|apply fail_stop_one].
Qed.

Lemma owned_step_fail_stop l kd (obj : struct_of kd) (rec : struct_of kd → step) w err :
  (∀ o w err, rec o w err → fail_stop w err) →
  owned_step l obj rec w err → fail_stop w err.
Proof. intros H [[-> _]|(o & _ & Ho)]%owned_step_inv; [apply fail_stop_nil|by eapply H]. Qed.

Lemma options_of_clean l w o : options_of l w o → clean w.
Proof.
  intros (r & Hs%storage_options_reads & _). eapply Forall_impl; [exact Hs|].
  by intros e (ref & got & _ & ->).
Qed.

Lemma deployment_step_fail_stop l w err : deployment_step l w err → fail_stop w err.
Proof.
  intros (w1 & w2 & r & -> & Ho & Hr). apply fail_stop_app; [by eapply options_of_clean|].
  destruct r as [o|e]; [|destruct Hr as [-> _]; apply fail_stop_nil].
  eapply owned_step_fail_stop; [|exact Hr]. intros d ??. apply resource_step_fail_stop.
Qed.

Lemma configmap_step_fail_stop l w err : configmap_step l w err → fail_stop w err.
Proof.
  unfold configmap_step. destruct (LimitsConfigMap l); [|intros [-> _]; apply fail_stop_nil].
  apply owned_step_fail_stop. intros c ??. apply resource_step_fail_stop.
Qed.

Lemma owned_plan_fail_stop l w err : in_order (owned_plan l) w err → fail_stop w err.
Proof.
  apply in_order_fail_stop.
  apply Forall_cons; split.
  { intros ??. apply owned_step_fail_stop. intros o ??. apply resource_step_fail_stop. }
  apply Forall_cons; split.
  { intros ??. apply owned_step_fail_stop. intros o ??. apply pvc_resource_step_fail_stop. }
  apply Forall_cons; split; [exact (deployment_step_fail_stop l)|].
  apply Forall_cons; split; [exact (configmap_step_fail_stop l)|].
  apply Forall_singleton.
  intros ??. apply owned_step_fail_stop. intros o ??. apply resource_step_fail_stop.
Qed.

Lemma pods_run_fail_stop l w r err : pods_run l w r err → fail_stop w err.
Proof.
  intros (listed & w1 & -> & H).
  apply (fail_stop_app [_]); [by apply Forall_singleton|].
  destruct listed as [ps|e]; [|destruct H as [-> _]; apply fail_stop_nil].
  destruct (_ || _); [destruct H as [-> _]; apply fail_stop_nil|].
  destruct H as (got & w2 & -> & H).
  apply (fail_stop_app [_]); [by apply Forall_singleton|].
  destruct got as [cm|e]; [|destruct H as [-> _]; apply fail_stop_nil].
  destruct H as [_ H]. eapply in_order_fail_stop; [|exact H].
  apply Forall_fmap, Forall_forall. intros p _ ??. apply resource_step_fail_stop.
Qed.

Lemma spec_run_fail_stop l w r err : spec_run l w r err → fail_stop w err.
Proof.
  intros [(e & H & _ & ->)|(w1 & w2 & -> & H1 & H2)]; [by eapply owned_plan_fail_stop|].
  apply fail_stop_app; [by eapply fail_stop_None, owned_plan_fail_stop|].
  by eapply pods_run_fail_stop.
Qed.

(** ** Plans that succeed *)

Lemma in_order_None (steps : list step) w :
  in_order steps w None → ∃ ws, w = concat ws ∧ Forall2 (λ (s : step) v, s v None) steps ws.
Proof.
  revert w. induction steps as [|s steps IH]; intros w; simpl.
  { intros [-> _]. by exists []. }
  intros [(e & _ & [=])|(w1 & w2 & -> & H1 & H2)].
  destruct (IH _ H2) as (ws & -> & Hws). exists (w1 :: ws). split; [done|by constructor].
Qed.

(** A step of a plan that succeeded has succeeded, within the plan's calls. *)
Lemma in_order_None_step (steps : list step) s w :
  in_order steps w None → s ∈ steps → ∃ v, v ⊆ w ∧ s v None.
Proof.
  intros (ws & -> & H)%in_order_None. induction H as [|s' v steps' ws Hs H IH].
  { by intros ?%elem_of_nil. }
  intros [->|Hin]%elem_of_cons; simpl.
  - exists v. split; [|done]. intros e He. apply elem_of_app. by left.
  - destruct (IH Hin) as (v' & Hv & ?). exists v'. split; [|done].
    intros e He. apply elem_of_app. right. by apply Hv.
Qed.

End footprint.
