(* ===== verification/SameResource.v ===== *)
(** * What a run depends on in a resource

    The objects a reconciliation sends are made of the name, the namespace and
    the specification of the resource, and of the owner references made from
    it. Resources that agree on these are the same to the operator, whatever
    their status, their generation and their version; the functions that build
    objects respect this equivalence, so it can be rewritten with. *)

From S2P Require Import Prelude Kube Helpers Types Effects Observability Names Options Objects.
From S2P Require Import BaseReconciler Status Controller Traffic Plan Follows Footprint.

Section same.
Context {PF : Platform} {CU : ControllerUtil}.

Record same_resource (l l' : Limitador) : Prop := {
  same_Name : lim_Name l = lim_Name l';
  same_Namespace : lim_Namespace l = lim_Namespace l';
  same_Spec : lim_Spec l = lim_Spec l';
  same_owner m : SetControllerReference (lim_ObjectMeta l) m = SetControllerReference (lim_ObjectMeta l') m
}.

#[export] Instance same_resource_equivalence : Equivalence same_resource.
Proof.
  split.
  - by intros l.
  - intros l l' [Hn Hns Hs Ho]. split; [done..|]. intros m. by rewrite Ho.
  - intros l1 l2 l3 [Hn Hns Hs Ho] [Hn' Hns' Hs' Ho'].
    split; [congruence..|]. intros m. by rewrite Ho.
Qed.

(** The resource reduced to its name, namespace and specification. *)
Definition core (l : Limitador) : Limitador :=
  {| lim_TypeMeta := {| tm_Kind := ""; tm_APIVersion := "" |};
     lim_ObjectMeta := new_meta (lim_Name l) (lim_Namespace l) ∅;
     lim_Spec := lim_Spec l; lim_Status := LimitadorStatus_zero |}.

Lemma same_core l l' : same_resource l l' → core l = core l'.
Proof. intros [Hn Hns Hs _]. unfold core. by rewrite Hn, Hns, Hs. Qed.

(** A function that looks at nothing else is the same on both. *)
Ltac by_core :=
  intros l l' H;
  match goal with |- ?f l = ?f l' => change (f (core l) = f (core l')) end;
  by rewrite (same_core _ _ H).

#[export] Instance Service_of_same : Proper (same_resource ==> eq) Service_of.
Proof. by_core. Qed.

#[export] Instance PVC_same : Proper (same_resource ==> eq) PVC.
Proof. by_core. Qed.

#[export] Instance Deployment_of_same : Proper (same_resource ==> eq) Deployment_of.
Proof. by_core. Qed.

#[export] Instance LimitsConfigMap_same {LC : LimitsCodec} :
  Proper (same_resource ==> eq) LimitsConfigMap.
Proof. by_core. Qed.

#[export] Instance pods_run_same : Proper (same_resource ==> eq) pods_run.
Proof. by_core. Qed.

#[export] Instance PodDisruptionBudget_of_same : Proper (same_resource ==> eq) PodDisruptionBudget_of.
Proof. by_core. Qed.

#[export] Instance DeploymentArgs_same : Proper (same_resource ==> eq) DeploymentArgs.
Proof. by_core. Qed.

#[export] Instance deployment_options_same : Proper (same_resource ==> eq) deployment_options.
Proof. by_core. Qed.

#[export] Instance backend_of_same : Proper (same_resource ==> eq) backend_of.
Proof. by_core. Qed.

#[export] Instance backend_options_same : Proper (same_resource ==> eq) backend_options.
Proof. by_core. Qed.

#[export] Instance wants_claim_same : Proper (same_resource ==> eq) wants_claim.
Proof. by_core. Qed.

#[export] Instance SetOwnerReference_same kd :
  Proper (same_resource ==> eq ==> eq) (λ l, @SetOwnerReference PF CU l kd).
Proof. intros l l' H obj ? <-. unfold SetOwnerReference. by rewrite (same_owner _ _ H). Qed.

Lemma SetOwnerReference_of_same l l' kd (obj : struct_of kd) :
  same_resource l l' → SetOwnerReference l obj = SetOwnerReference l' obj.
Proof. intros H. by apply SetOwnerReference_same. Qed.

(** ** What the resource asks for *)

#[export] Instance desired_deployment_same : Proper (same_resource ==> eq ==> iff) desired_deployment.
Proof.
  intros l l' H d ? <-. unfold desired_deployment. rewrite (backend_of_same _ _ H).
  rewrite (backend_options_same _ _ H), (DeploymentArgs_same _ _ H).
  setoid_rewrite (SetOwnerReference_of_same _ _ _ _ H).
  by rewrite (Deployment_of_same _ _ H), (deployment_options_same _ _ H).
Qed.

#[export] Instance applied_same {LC : LimitsCodec} :
  Proper (same_resource ==> eq ==> eq ==> iff) applied.
Proof.
  intros l l' H pods ? <- o ? <-. destruct o as [[] o]; cbn [applied]; try done.
  - by rewrite (Service_of_same _ _ H), (SetOwnerReference_of_same _ _ _ _ H).
  - by rewrite (desired_deployment_same _ _ H o o eq_refl).
  - rewrite (LimitsConfigMap_same _ _ H). by setoid_rewrite (SetOwnerReference_of_same _ _ _ _ H).
  - by rewrite (same_Spec _ _ H), (PodDisruptionBudget_of_same _ _ H),
      (SetOwnerReference_of_same _ _ _ _ H).
Qed.

#[export] Instance created_same : Proper (same_resource ==> eq ==> iff) created.
Proof.
  intros l l' H o ? <-. destruct o as [[] o]; cbn [created]; try done.
  by rewrite (wants_claim_same _ _ H), (PVC_same _ _ H), (SetOwnerReference_of_same _ _ _ _ H).
Qed.

#[export] Instance deleted_same : Proper (same_resource ==> eq ==> iff) deleted.
Proof.
  intros l l' H o ? <-. destruct o as [[] o]; cbn [deleted]; try done.
  - by rewrite (wants_claim_same _ _ H), (PVC_same _ _ H), (SetOwnerReference_of_same _ _ _ _ H).
  - by rewrite (same_Spec _ _ H), (PodDisruptionBudget_of_same _ _ H),
      (SetOwnerReference_of_same _ _ _ _ H).
Qed.

End same.
