(* ===== verification/Sample.v ===== *)
(** * A small cluster

    A concrete [Platform], the codecs and library functions the operator is
    generic in, and an API server kept in a record. The witnesses of the
    theorems run the operator against it; no theorem depends on it. *)

From S2P Require Import Prelude Kube Helpers Types Effects Observability Names Options Objects.
From S2P Require Import BaseReconciler Status Controller Traffic.

(** ** The platform *)

Inductive server_error := NotFoundError | ConflictError | NoLoggerError.

#[export] Instance server_error_eq_dec : EqDecision server_error.
Proof. solve_decision. Defined.

(** Quantities are their text, owner references the owner's name, times are
    numbers, a logger is the list of its values and a span its number, the
    number 0 being the span of a context without one. Of the environment only
    the tracing endpoint is set. *)
#[local] Instance platform : Platform := {|
  ExtError := server_error;
  Err_Error e := match e with
                 | NotFoundError => "not found"
                 | ConflictError => "conflict"
                 | NoLoggerError => "no logr.Logger was present"
                 end;
  Err_IsNotFound e := match e with NotFoundError => true | _ => false end;
  NoLogger := NoLoggerError;
  Quantity := string;
  MustParse q := q;
  Affinity := unit;
  OwnerReference := string;
  Time := Z;
  Time_zero := 0%Z;
  Logger := list (string * log_value);
  WithValues lg kvs := lg ++ kvs;
  WithName lg _ := lg;
  V1_Enabled _ := true;
  Span := nat;
  noopSpan := 0;
  Span_IsRecording s := bool_decide (s ≠ 0);
  SpanContext_IsValid s := bool_decide (s ≠ 0);
  TraceID_String _ := "trace";
  SpanID_String s := pretty s;
  K8SNamespaceNameKey := "k8s.namespace.name";
  env_GetString k d := if bool_decide (k = "OTEL_EXPORTER_OTLP_ENDPOINT") then "rpc://jaeger:4317" else d
|}.

#[local] Instance span_eq_dec : EqDecision (@Span platform).
Proof. unfold Span; simpl. apply _. Defined.

#[local] Instance logger_eq_dec : EqDecision (@Logger platform).
Proof.
  assert (EqDecision NamespacedName) by solve_decision.
  assert (EqDecision log_value) by solve_decision. unfold Logger; simpl. apply _.
Defined.

(** ** Codecs and library functions *)

Definition show_condition_status (s : ConditionStatus) : string :=
  match s with
  | ConditionTrue => "True"
  | ConditionFalse => "False"
  | ConditionUnknown => "Unknown"
  end.

Definition show_condition (c : Condition) : string :=
  cond_Type c +:+ "," +:+ show_condition_status (cond_Status c) +:+ "," +:+
  Itoa (cond_ObservedGeneration c) +:+ "," +:+ Itoa (cond_LastTransitionTime c) +:+ "," +:+
  cond_Reason c +:+ "," +:+ cond_Message c.

#[local] Instance condition_codec : ConditionCodec :=
  {| json_Marshal_Conditions cs := Ok (String.concat ";" (show_condition <$> cs)) |}.

#[local] Instance limits_codec : LimitsCodec :=
  {| yaml_Marshal_Limits ls := Ok (String.concat ";" (rl_Namespace <$> ls)) |}.

#[local] Instance limitador_codec : LimitadorCodec :=
  {| json_MarshalIndent_Limitador l := Ok (lim_Name l) |}.

#[local] Instance controller_util : ControllerUtil :=
  {| SetControllerReference owner controlled := Ok [om_Name owner] |}.

(** A condition of the same type is updated in place, its transition time
    kept while its status stays; a new one is added at the end, with the
    current time unless it brings its own. *)
Definition stamp (now : Time) (c : Condition) : Condition :=
  {| cond_Type := cond_Type c; cond_Status := cond_Status c;
     cond_ObservedGeneration := cond_ObservedGeneration c;
     cond_LastTransitionTime :=
       if bool_decide (cond_LastTransitionTime c = 0%Z) then now else cond_LastTransitionTime c;
     cond_Reason := cond_Reason c; cond_Message := cond_Message c |}.

Definition update_condition (now : Time) (old c : Condition) : Condition :=
  {| cond_Type := cond_Type old; cond_Status := cond_Status c;
     cond_ObservedGeneration := cond_ObservedGeneration c;
     cond_LastTransitionTime :=
       match cond_Status old, cond_Status c with
       | ConditionTrue, ConditionTrue | ConditionFalse, ConditionFalse
       | ConditionUnknown, ConditionUnknown => cond_LastTransitionTime old
       | _, _ => cond_LastTransitionTime (stamp now c)
       end;
     cond_Reason := cond_Reason c; cond_Message := cond_Message c |}.

Fixpoint set_condition (now : Time) (cs : list Condition) (c : Condition) : list Condition :=
  match cs with
  | [] => [stamp now c]
  | old :: cs' =>
      if bool_decide (cond_Type old = cond_Type c) then update_condition now old c :: cs'
      else old :: set_condition now cs' c
  end.

#[local] Instance status_conditions : StatusConditions :=
  {| SetStatusCondition := set_condition |}.

(** ** Resources *)

Definition meta (name : string) (labels : gmap string string) : ObjectMeta :=
  {| om_Name := name; om_Namespace := "default"; om_Labels := labels; om_Annotations := None;
     om_OwnerReferences := []; om_Generation := 3; om_ResourceVersion := "7";
     om_DeletionTimestamp := None |}.

Definition sample_limit : RateLimit :=
  {| rl_Conditions := None; rl_MaxValue := 10; rl_Namespace := "toystore"; rl_Seconds := 60;
     rl_Variables := None; rl_Name := "per-minute" |}.

(** A specification around its storage and verbosity. *)
Definition sample_spec (storage : option Storage) (verbosity : option Z) : LimitadorSpec :=
  {| spec_Affinity := None; spec_Replicas := Some 1%Z; spec_Version := Some "1.6.0";
     spec_Listener := Some {| ln_HTTP := Some {| tp_Port := Some 9090%Z |}; ln_GRPC := None |};
     spec_Storage := storage; spec_RateLimitHeaders := Some RateLimitHeadersTypeDraft03;
     spec_Telemetry := Some TelemetryExhaustive; spec_Tracing := Some {| tr_Endpoint := "rpc://jaeger:4317" |};
     spec_Limits := Some [sample_limit];
     spec_PodDisruptionBudget :=
       Some {| pbt_MaxUnavailable := Some (FromInt 1); pbt_MinAvailable := None |};
     spec_ResourceRequirements := None; spec_Verbosity := verbosity; spec_Image := None;
     spec_ImagePullSecrets := [{| lor_Name := "pull" |}];
     spec_MetricLabelsDefault := Some "descriptors[1]" |}.

Definition limitador_with (s : LimitadorSpec) : Limitador :=
  {| lim_TypeMeta := {| tm_Kind := "Limitador"; tm_APIVersion := GroupVersion_String |};
     lim_ObjectMeta := meta "sample" ∅; lim_Spec := s; lim_Status := LimitadorStatus_zero |}.

Definition sample_claim : PVCGenericSpec :=
  {| pg_StorageClassName := Some "standard"; pg_Resources := Some {| pcr_Requests := "2Gi" |};
     pg_VolumeName := None |}.

Definition disk_storage : Storage :=
  {| st_Redis := None; st_RedisCached := None;
     st_Disk := Some {| disk_PVC := Some sample_claim; disk_Optimize := Some "throughput" |} |}.

Definition redis_ref : LocalObjectReference := {| lor_Name := "redis-config" |}.

Definition redis_storage : Storage :=
  {| st_Redis := Some {| redis_ConfigSecretRef := Some redis_ref |}; st_RedisCached := None;
     st_Disk := None |}.

Definition both_storage : Storage :=
  {| st_Redis := Some {| redis_ConfigSecretRef := Some redis_ref |};
     st_RedisCached := Some {| rc_ConfigSecretRef := Some redis_ref; rc_Options := None |};
     st_Disk := None |}.

(** In memory, on disk, in Redis, and one whose verbosity makes it panic. *)
Definition sample : Limitador := limitador_with (sample_spec None (Some 3%Z)).
Definition sample_disk : Limitador := limitador_with (sample_spec (Some disk_storage) None).
Definition sample_redis : Limitador := limitador_with (sample_spec (Some redis_storage) None).
Definition sample_panics : Limitador := limitador_with (sample_spec None (Some (-1)%Z)).

Definition sample_request : NamespacedName :=
  {| nn_Namespace := "default"; nn_Name := "sample" |}.

Definition available : DeploymentStatus :=
  {| dst_ObservedGeneration := 3; dst_Replicas := 1; dst_ReadyReplicas := 1;
     dst_UnavailableReplicas := 0;
     dst_Conditions := [{| dc_Type := DeploymentAvailable; dc_Status := ConditionTrue;
                           dc_Message := "ok" |}] |}.

(** A deployment of the sample with a given status. *)
Definition sample_deployment (st : DeploymentStatus) : Deployment :=
  {| dep_TypeMeta := {| tm_Kind := "Deployment"; tm_APIVersion := "apps/v1" |};
     dep_ObjectMeta := meta "limitador-sample" (Labels sample);
     dep_Spec := {| dsp_Replicas := Some 1%Z; dsp_Strategy := rolling_update; dsp_Selector := None;
                    dsp_Template := {| pt_Labels := Labels sample;
                                       pt_Spec := {| ps_Affinity := None; ps_ImagePullSecrets := [];
                                                     ps_Containers := []; ps_Volumes := [] |} |} |};
     dep_Status := st |}.

Definition sample_pod : Pod :=
  {| pod_TypeMeta := {| tm_Kind := "Pod"; tm_APIVersion := "v1" |};
     pod_ObjectMeta := meta "limitador-sample-abc" (Labels sample) |}.

Definition sample_configmap : ConfigMap :=
  {| cm_TypeMeta := {| tm_Kind := "ConfigMap"; tm_APIVersion := "v1" |};
     cm_ObjectMeta := meta "limitador-limits-config-sample" (Labels sample);
     cm_Data := {[ LimitadorConfigFileName := "toystore" ]} |}.

Definition sample_secret : Secret :=
  {| sec_ObjectMeta := meta "redis-config" ∅; sec_Data := {[ "URL" := "redis://127.0.0.1:6379" ]} |}.

(** ** The API server *)

Record world := {
  w_limitador : result server_error Limitador;
  w_deployment : result server_error Deployment;
  w_claim : result server_error PersistentVolumeClaim;
  w_configmap : result server_error ConfigMap;
  w_secret : result server_error Secret;
  w_pods : result server_error (list Pod);
  w_apply : kind → option server_error;
  w_spans : nat
}.

Definition next_span (w : world) : world :=
  {| w_limitador := w_limitador w; w_deployment := w_deployment w; w_claim := w_claim w;
     w_configmap := w_configmap w; w_secret := w_secret w; w_pods := w_pods w;
     w_apply := w_apply w; w_spans := S (w_spans w) |}.

Definition answer_get (kd : kind) (w : world) : result server_error (struct_of kd) :=
  match kd with
  | KLimitador => w_limitador w
  | KDeployment => w_deployment w
  | KPersistentVolumeClaim => w_claim w
  | KConfigMap => w_configmap w
  | KSecret => w_secret w
  | _ => Err NotFoundError
  end.

Definition handle (c : call) (w : world) : reply c * world :=
  match c with
  | Get kd _ => (answer_get kd w, w)
  | ListPods _ _ => (w_pods w, w)
  | Patch_Apply o _ => (w_apply w (obj_kind o), w)
  | Status_Patch_Apply o _ => (w_apply w (obj_kind o), w)
  | Create o | Update o => (w_apply w (obj_kind o), w)
  | Delete _ => (Some NotFoundError, w)
  | StartSpan _ _ _ => (S (w_spans w), next_span w)
  | SpanDo _ _ | EndSpan _ | LogLine _ _ => (tt, w)
  | ExtractSpanContext _ => (0, w)
  | Now => (100%Z, w)
  end.

Definition no_error (kd : kind) : option server_error := None.

(** Applying an object of this kind fails. *)
Definition fails_on (bad : kind) (kd : kind) : option server_error :=
  match bad, kd with
  | KConfigMap, KConfigMap | KDeployment, KDeployment | KService, KService
  | KPersistentVolumeClaim, KPersistentVolumeClaim => Some ConflictError
  | _, _ => None
  end.

(** A cluster that holds a resource and everything made from it. *)
Definition cluster (l : Limitador) (apply : kind → option server_error) : world :=
  {| w_limitador := Ok l; w_deployment := Ok (sample_deployment available);
     w_claim := Err NotFoundError; w_configmap := Ok sample_configmap;
     w_secret := Ok sample_secret; w_pods := Ok [sample_pod]; w_apply := apply; w_spans := 0 |}.

(** The same before any pod runs. *)
Definition without_pods (w : world) : world :=
  {| w_limitador := w_limitador w; w_deployment := w_deployment w; w_claim := w_claim w;
     w_configmap := w_configmap w; w_secret := w_secret w; w_pods := Ok [];
     w_apply := w_apply w; w_spans := w_spans w |}.

(** The context a reconciliation hands to its functions. *)
Definition sample_context : Context :=
  {| ctx_baseLogger := Some []; ctx_logger := Some []; ctx_span := Some 1 |}.

(** The run of a program against a cluster, and its outcome. *)
Definition log_of {A} (p : prog A) (w : world) : list event := (exec handle p w).1.1.
Definition end_of {A} (p : prog A) (w : world) : outcome A := (exec handle p w).1.2.

Lemma sample_runs {A} (p : prog A) (w : world) : runs p (log_of p w) (end_of p w).
Proof. apply exec_runs. Defined.

(** The base logger, without values. *)
Definition no_values : @Logger platform := [].

(** The reconciliation of a resource in its cluster. *)
Definition reconcile_sample : prog (Result * option error) :=
  Reconcile no_values Background sample_request.

(** The clusters the witnesses run in: the sample in memory, on disk and in
    Redis; on disk with an API server that refuses the limits ConfigMap; and
    the resource that makes the operator panic. *)
Definition memory_world : world := cluster sample no_error.
Definition disk_world : world := cluster sample_disk no_error.
Definition redis_world : world := cluster sample_redis no_error.
Definition failing_world : world := cluster sample_disk (fails_on KConfigMap).
Definition panic_world : world := cluster sample_panics no_error.

(** The log of the reconciliation of a world's resource. *)
Definition log_in (w : world) : list event := log_of reconcile_sample w.

Lemma runs_in (w : world) : runs reconcile_sample (log_in w) (end_of reconcile_sample w).
Proof. apply sample_runs. Defined.

(** The claim the sample on disk asks for, as it is created. *)
Definition disk_claim : PersistentVolumeClaim :=
  map_meta KPersistentVolumeClaim (with_owners ["sample"]) (PVC sample_disk).

(** The events of a log that are not log lines. *)
Definition is_step (e : event) : bool :=
  let '(Ev c _) := e in match c with LogLine _ _ => false | _ => true end.

Definition steps (t : list event) : list event := List.filter is_step t.

Lemma in_steps t n e : steps t !! n = Some e → e ∈ t.
Proof.
  intros Hn%list_elem_of_lookup_2. apply list_elem_of_In in Hn. apply list_elem_of_In.
  by apply filter_In in Hn as [Hn _].
Qed.

(** The Deployment applied at a place of a log, and those of three clusters. *)
Definition deployment_at (w : world) (n : nat) : Deployment :=
  match steps (log_in w) !! n with
  | Some (Ev (Patch_Apply (Obj kd o) _) _) =>
      match kd return struct_of kd → Deployment with
      | KDeployment => λ d, d
      | _ => λ _, sample_deployment available
      end o
  | _ => sample_deployment available
  end.

Definition memory_deployment : Deployment := Eval vm_compute in deployment_at memory_world 15.
Definition disk_deployment : Deployment := Eval vm_compute in deployment_at disk_world 17.
Definition redis_deployment : Deployment := Eval vm_compute in deployment_at redis_world 16.

(** A cluster where nothing exists. *)
Definition empty_world : world :=
  {| w_limitador := Err NotFoundError; w_deployment := Err NotFoundError;
     w_claim := Err NotFoundError; w_configmap := Err NotFoundError;
     w_secret := Err NotFoundError; w_pods := Ok []; w_apply := no_error; w_spans := 0 |}.

(** An equation that holds because both sides run to the same value, written
    out in the proof. *)
Ltac by_running :=
  match goal with
  | |- ?a = ?b => let v := eval vm_compute in b in exact (@eq_refl _ v <: a = b)
  end.

(** An event of a log, by its place among those that are not log lines. *)
Ltac in_log n := apply (in_steps _ n); by_running.
