(* ===== verification/Loop.v ===== *)
(** * What a reconciliation guarantees

    The properties of whole runs of [Reconcile], whatever the API server
    answers: what is written, in which order, what happens on errors, and
    what a run that reports success has achieved. *)

From S2P Require Import Prelude Kube Helpers Types Effects Observability Names Options Objects.
From S2P Require Import BaseReconciler Status Controller Traffic Plan Follows Footprint Spans Sample.

Section loop.
Context {PF : Platform} {CC : ConditionCodec} {LC : LimitsCodec} {JC : LimitadorCodec}
  {CU : ControllerUtil} {SC : StatusConditions}.

(** ** Vocabulary *)

(** The object a write lands on. *)
Definition write_target (e : event) : option (kind * NamespacedName) :=
  match ev_call e with
  | Patch_Apply o _ | Status_Patch_Apply o _ | Create o | Update o | Delete o => Some (obj_ref o)
  | _ => None
  end.

(** The objects a resource owns: kind, namespace and name of each. *)
Definition owned_refs (l : Limitador) : list (kind * NamespacedName) :=
  let at_ name := {| nn_Namespace := lim_Namespace l; nn_Name := name |} in
  [ (KService, at_ (ServiceName l)); (KPersistentVolumeClaim, at_ (PVCName l));
    (KDeployment, at_ (DeploymentName l)); (KConfigMap, at_ (LimitsConfigMapName l));
    (KPodDisruptionBudget, at_ (PodDisruptionBudgetName l)) ].

(** The resource itself, which only its status patch lands on. *)
Definition self_ref (l : Limitador) : kind * NamespacedName :=
  (KLimitador, {| nn_Namespace := lim_Namespace l; nn_Name := lim_Name l |}).

Definition is_status_write (c : call) : bool :=
  match c with
  | Status_Patch_Apply _ _ => true
  | _ => false
  end.

(** A write a run on [l] may make, given the pods it was told about. *)
Definition in_scope (l : Limitador) (t : list event) (e : event) : Prop :=
  ∃ target, write_target e = Some target ∧
    if is_status_write (ev_call e) then target = self_ref l
    else target ∈ owned_refs l ∨
         ∃ pods pod, Ev (ListPods (SelectorLabels l) (lim_Namespace l)) (Ok pods) ∈ t ∧
                     pod ∈ pods ∧ target = (KPod, key_of (pod_ObjectMeta pod)).

(** Every claim that is created was just looked for and not found; [prev] is
    the call before. *)
Fixpoint created_after_miss (prev : option event) (w : list event) : Prop :=
  match w with
  | [] => True
  | e :: w' =>
      match ev_call e with
      | Create o =>
          ∃ er, prev = Some (Ev (Get KPersistentVolumeClaim (key_of (obj_meta o))) (Err er)) ∧
                Err_IsNotFound er = true
      | _ => True
      end ∧ created_after_miss (Some e) w'
  end.

(** ** Lemmas *)

(** The reply a read of the resource got. *)
Definition read_resource (e : event) : option (result ExtError Limitador) :=
  let '(Ev c x) := e in
  match c return reply c → option (result ExtError Limitador) with
  | Get KLimitador _ => Some
  | _ => λ _, None
  end x.

(** The reply a listing got. *)
Definition listed_pods (e : event) : option (list Pod) :=
  let '(Ev c x) := e in
  match c return reply c → option (list Pod) with
  | ListPods _ _ => λ got, match got with Ok ps => Some ps | Err _ => None end
  | _ => λ _, None
  end x.

(** A run that read [l]: its calls after the read, and the plan they follow. *)
Lemma Reconcile_on logger ctx req t o l :
  runs (Reconcile logger ctx req) t o → Ev (Get KLimitador req) (Ok l) ∈ t →
  ∃ w pods, traffic t = Ev (Get KLimitador req) (Ok l) :: w ∧ ordered l pods 1 9 w ∧
    reconcile_run req o (traffic t).
Proof.
  intros Hr Hin.
  pose proof (does_runs _ _ _ _ (Reconcile_does logger ctx req) Hr) as Hrun.
  destruct (Reconcile_footprint _ _ _ _ _ Hr) as (got & w & Hw & H).
  assert (got = Ok l) as ->.
  { assert (Hl : Ev (Get KLimitador req) (Ok l) ∈ traffic t) by by apply elem_traffic.
    rewrite Hw in Hl. apply elem_of_cons in Hl as [Hl|Hl].
    - apply (f_equal read_resource) in Hl. by injection Hl as <-.
    - destruct got as [l'|e]; [|subst w; by apply elem_of_nil in Hl].
      destruct H as [_ (pods & Hd & _)]. rewrite Forall_forall in Hd.
      destruct (Hd _ Hl) as [[] _]. }
  destruct H as [_ (pods & Hd)]. by exists w, pods.
Qed.

(** What the plan says of a run that read [l] and did not stop at it. *)
Lemma reconcile_run_on req o l w :
  reconcile_run req o (Ev (Get KLimitador req) (Ok l) :: w) →
  (∃ e, json_MarshalIndent_Limitador l = Err e ∧ w = [] ∧ o = Done (Result_zero, Some e)) ∨
  (is_Some (om_DeletionTimestamp (lim_ObjectMeta l)) ∧ w = [] ∧ o = Done (Result_zero, None)) ∨
  (om_DeletionTimestamp (lim_ObjectMeta l) = None ∧
   ((∃ err, o = Done (Result_zero, err) ∧ object_run l w err) ∨
    (∃ msg, o = Panicked msg ∧ spec_panic l w msg))).
Proof.
  intros (got & w' & He & H).
  pose proof (f_equal (λ v, head v ≫= read_resource) He) as Hg. injection Hg as <-.
  pose proof (f_equal tail He) as Hw. simpl in Hw. subst w'.
  destruct H as [H|H]; [by left|right].
  destruct (om_DeletionTimestamp (lim_ObjectMeta l)); [left|by right].
  destruct H as [-> ->]. by split; [eexists|].
Qed.

(** The same on a run, with the duties of the calls. *)
Lemma Reconcile_object_on logger ctx req t r err l :
  runs (Reconcile logger ctx req) t (Done (r, err)) → Ev (Get KLimitador req) (Ok l) ∈ t →
  r = Result_zero ∧
  (writes t = [] ∨
   ∃ w, traffic t = Ev (Get KLimitador req) (Ok l) :: w ∧ object_run l w err).
Proof.
  intros Hr Hin. destruct (Reconcile_on _ _ _ _ _ _ Hr Hin) as (w & pods & Hw & _ & Hrun).
  rewrite Hw in Hrun.
  destruct (reconcile_run_on _ _ _ _ Hrun)
    as [(e & _ & -> & [= -> _])|[(_ & -> & [= -> _])|(_ & [(err' & [= -> ->] & H)|(msg & [=] & _)])]].
  - split; [done|]. left. by rewrite <-writes_traffic, Hw.
  - split; [done|]. left. by rewrite <-writes_traffic, Hw.
  - split; [done|]. right. eauto.
Qed.

Lemma in_scope_duty l pods t e :
  (∀ ps, Ev (ListPods (SelectorLabels l) (lim_Namespace l)) (Ok ps) ∈ t → ps = pods) →
  (∃ ps, Ev (ListPods (SelectorLabels l) (lim_Namespace l)) (Ok ps) ∈ t) ∨ rank e ≠ 7 →
  duty l pods e → is_write (ev_call e) = true → in_scope l t e.
Proof.
  intros Hps Hl Hd Hw. destruct e as [c x]. destruct c as [| |o opts|o opts|o|o|o| | | | | |]; try done;
    simpl in Hd.
  - destruct Hd as [_ Hd]. destruct o as [kd o].
    assert (Hown : ∀ obj : struct_of kd, SetOwnerReference l obj = Ok o →
              key_of (struct_meta kd o) = key_of (struct_meta kd obj))
      by (intros obj; apply SetOwnerReference_key).
    exists (kd, key_of (struct_meta kd o)). split; [done|]. cbn [ev_call is_status_write].
    destruct kd; try done; simpl in Hd.
    + left. rewrite (Hown _ Hd). left.
    + destruct Hd as (args & _ & _ & Hd). left. rewrite (Hown _ Hd). right. right. left.
    + destruct Hd as (cm & Hcm & Hd). left. rewrite (Hown _ Hd). cbn [struct_meta].
      rewrite (LimitsConfigMap_meta _ _ Hcm). do 3 right. left.
    + destruct Hd as (Hb & Hd). left. rewrite (Hown _ Hd). do 4 right. cbn [struct_meta].
      unfold PodDisruptionBudget_of. destruct (spec_PodDisruptionBudget _); left.
    + right. destruct Hd as (pod & rv & Hp & ->).
      destruct Hl as [[ps Hl]|Hl]; [|by cbn in Hl].
      rewrite <-(Hps _ Hl) in Hp. exists ps, pod. split; [done|]. split; [|done].
      by apply list_elem_of_filter in Hp as [_ ?].
  - destruct Hd as [_ (now & ready & -> & _)]. by exists (self_ref l).
  - destruct o as [kd o]. destruct kd; try done. destruct Hd as [_ Hd].
    pose proof (SetOwnerReference_key _ _ _ _ Hd) as Hk. simpl in Hk. rewrite PVC_key in Hk.
    exists (obj_ref (Obj KPersistentVolumeClaim o)). split; [done|]. left. unfold obj_ref. simpl.
    rewrite Hk. right. left.
  - destruct o as [kd o]. destruct kd; try done; destruct Hd as [Hn Hd].
    + pose proof (SetOwnerReference_key _ _ _ _ Hd) as Hk. simpl in Hk. rewrite PVC_key in Hk.
      exists (obj_ref (Obj KPersistentVolumeClaim o)). split; [done|]. left. unfold obj_ref. simpl.
      rewrite Hk. right. left.
    + pose proof (SetOwnerReference_key _ _ _ _ Hd) as Hk. simpl in Hk.
      exists (obj_ref (Obj KPodDisruptionBudget o)). split; [done|]. left. unfold obj_ref. simpl.
      rewrite Hk. unfold PodDisruptionBudget_of. rewrite Hn. do 4 right. left.
Qed.

(** Pods are patched only after they were listed. *)
Lemma spec_run_listed l w r err e :
  spec_run l w r err → e ∈ w → rank e = 7 →
  ∃ ps, Ev (ListPods (SelectorLabels l) (lim_Namespace l)) (Ok ps) ∈ w.
Proof.
  assert (Hno : ∀ v err', in_order (owned_plan l) v err' → e ∈ v → rank e ≠ 7).
  { intros v err' [Hv _]%(owned_plan_ordered l []) He. rewrite Forall_forall in Hv.
    destruct (Hv _ He) as [_ ?]. lia. }
  intros [(x & H & _)|(w1 & w2 & -> & H1 & H2)] He Hr; [by destruct (Hno _ _ H He)|].
  apply elem_of_app in He as [He|He]; [by destruct (Hno _ _ H1 He)|].
  destruct H2 as (listed & w3 & -> & H2). destruct listed as [ps|x].
  - exists ps. apply elem_of_app. right. left.
  - destruct H2 as [-> _]. by apply list_elem_of_singleton in He as ->.
Qed.

Lemma Reconcile_listed logger ctx req t o l e :
  runs (Reconcile logger ctx req) t o → Ev (Get KLimitador req) (Ok l) ∈ t →
  e ∈ traffic t → rank e = 7 →
  ∃ ps, Ev (ListPods (SelectorLabels l) (lim_Namespace l)) (Ok ps) ∈ t.
Proof.
  intros Hr Hl He Hk. destruct (Reconcile_on _ _ _ _ _ _ Hr Hl) as (w & pods & Hw & _ & Hrun).
  rewrite Hw in Hrun. rewrite Hw in He. apply elem_of_cons in He as [->|He]; [done|].
  assert (Hsub : ∀ e', e' ∈ w → e' ∈ t).
  { intros e' He'. apply (elem_traffic e' t). rewrite Hw. by right. }
  destruct (reconcile_run_on _ _ _ _ Hrun)
    as [(x & _ & -> & _)|[(_ & -> & _)|(_ & [(err & _ & H)|(msg & _ & H)])]].
  1,2: by apply elem_of_nil in He.
  - destruct H as (w1 & w2 & r & specErr & statusErr & -> & H1 & H2 & _).
    apply elem_of_app in He as [He|He].
    + destruct (spec_run_listed _ _ _ _ _ H1 He Hk) as [ps Hps]. exists ps. apply Hsub.
      apply elem_of_app. by left.
    + apply (status_run_ordered _ _ []) in H2 as [H2 _]. rewrite Forall_forall in H2.
      destruct (H2 _ He) as [_ ?]. lia.
  - apply spec_panic_ordered in H as [H _]. rewrite Forall_forall in H.
    destruct (H _ He) as [_ ?]. lia.
Qed.

Lemma late_write_is_status e : 8 ≤ rank e → is_write (ev_call e) = true →
  is_status_write (ev_call e) = true.
Proof.
  destruct e as [c x]. unfold rank. simpl. intros Hk Hw.
  destruct c as [| |[[] ?] ?| |[[] ?]| |[[] ?]| | | | | |]; simpl in *; try done; lia.
Qed.

Lemma status_run_writes l specErr w err :
  status_run l specErr w err → Forall (λ e, is_status_write (ev_call e) = true) (writes w).
Proof.
  intros [H _]%(status_run_ordered _ _ []). apply Forall_forall.
  intros e [Hw He]%elem_writes. rewrite Forall_forall in H. destruct (H _ He) as [_ ?].
  apply late_write_is_status; [lia|done].
Qed.

(** The status patch after a failed spec. *)
Lemma status_run_failed l x w err :
  status_run l (Some x) w err →
  Forall (λ e, ∃ now, ev_call e = Status_Patch_Apply (Obj KLimitador (status_patch l
             (next_status l now (ready_cond ConditionFalse "ReconcilliationError" (Error x)))))
             apply_opts) (writes w).
Proof.
  intros (w1 & w2 & c & -> & [-> ->] & now & w3 & -> & H). simpl.
  destruct (LimitadorStatus_Equals _ _); [destruct H as [-> _]; constructor|].
  destruct H as (e & -> & _). apply Forall_singleton. by exists now.
Qed.

Lemma spec_panic_clean l w msg : spec_panic l w msg → clean w.
Proof.
  intros (w1 & w2 & -> & H1 & H2). apply Forall_app. split; [|by eapply options_of_clean].
  eapply fail_stop_None, in_order_fail_stop; [|exact H1].
  apply Forall_cons; split.
  { intros ??. apply owned_step_fail_stop. intros o ??. apply resource_step_fail_stop. }
  apply Forall_singleton. intros ??. apply owned_step_fail_stop.
  intros o ??. apply pvc_resource_step_fail_stop.
Qed.

(** Two splits of a list at its one element that has a property agree. *)
Lemma split_unique {A} (P : A → Prop) (l1 l2 r1 r2 : list A) x y :
  l1 ++ x :: l2 = r1 ++ y :: r2 → P x →
  Forall (λ z, ¬ P z) r1 → Forall (λ z, ¬ P z) r2 → x = y ∧ l2 = r2.
Proof.
  revert r1. induction l1 as [|a l1 IH]; intros [|b r1]; simpl; intros Heq Hx H1 H2; simplify_eq.
  - done.
  - by apply Forall_cons in H1 as [? _].
  - rewrite Forall_forall in H2. destruct (H2 x); [|done].
    apply elem_of_app. right. left.
  - apply (IH r1); [done..| |done]. by apply Forall_cons in H1 as [_ ?].
Qed.

Lemma clean_writes w : clean w → clean (writes w).
Proof.
  intros H. apply Forall_forall. intros e [_ He]%elem_writes. by apply (proj1 (Forall_forall _ _) H).
Qed.

Lemma write_error_is_write e : write_error e ≠ None → is_write (ev_call e) = true.
Proof. destruct e as [c x]. by destruct c. Qed.

Lemma fail_stop_writes w err e x ws2 ws1 :
  fail_stop w err → writes w = ws1 ++ e :: ws2 → write_error e = Some x →
  err = Some x ∧ ws2 = [].
Proof.
  intros [Hc|(w' & e' & x' & -> & Hc & He' & ->)] Hws He.
  - apply clean_writes in Hc. rewrite Hws in Hc. apply Forall_app in Hc as [_ Hc].
    apply Forall_cons in Hc as [Hc _]. congruence.
  - assert (Hw' : writes [e'] = [e']).
    { unfold writes. simpl. by rewrite write_error_is_write by by rewrite He'. }
    rewrite writes_app, Hw' in Hws. symmetry in Hws.
    apply (split_unique (λ e, write_error e ≠ None)) in Hws as [-> ->].
    + by simplify_eq.
    + by rewrite He.
    + eapply Forall_impl; [apply clean_writes, Hc|]. intros e0 H0 Hn. by destruct Hn.
    + constructor.
Qed.

(** A write that is not a status write belongs to the spec. *)
Lemma failed_in_spec wa wb ws1 e ws2 :
  writes (wa ++ wb) = ws1 ++ e :: ws2 → is_status_write (ev_call e) = false →
  Forall (λ e, is_status_write (ev_call e) = true) (writes wb) →
  ∃ us, writes wa = ws1 ++ e :: us ∧ ws2 = us ++ writes wb.
Proof.
  rewrite writes_app. generalize (writes wa) (writes wb). intros va vb. revert va.
  induction ws1 as [|z ws1 IH]; intros [|a va]; simpl; intros Heq He Hb.
  - rewrite Heq in Hb. apply Forall_cons in Hb as [Hb _]. congruence.
  - simplify_eq. by exists va.
  - rewrite Heq in Hb. apply Forall_cons in Hb as [_ Hb].
    apply Forall_app in Hb as [_ Hb]. apply Forall_cons in Hb as [Hb _]. congruence.
  - simplify_eq. destruct (IH va) as (us & -> & ->); [done..|]. by exists us.
Qed.

Lemma writes_sorted w : StronglySorted le (rank <$> w) → StronglySorted le (rank <$> writes w).
Proof.
  unfold writes. induction w as [|e w IH]; simpl; [done|].
  intros [He Hs]%StronglySorted_cons. destruct (is_write (ev_call e)); simpl; [|by apply IH].
  apply StronglySorted_cons. split; [|by apply IH]. apply Forall_forall. intros n Hn.
  apply list_elem_of_fmap in Hn as (e' & -> & He'). apply (elem_writes e' w) in He' as [_ He'].
  rewrite Forall_fmap, Forall_forall in He. by apply He.
Qed.

(** *** Lengths *)

Lemma in_order_length (ns : list nat) (steps : list step) w err :
  Forall2 (λ n (s : step), ∀ w err, s w err → length w ≤ n) ns steps →
  in_order steps w err → length w ≤ sum_list ns.
Proof.
  intros H. revert w. induction H as [|n s ns steps Hs H IH]; intros w; simpl; [by intros [-> _]|].
  intros [(e & He & _)|(w1 & w2 & -> & H1 & H2)]; [pose proof (Hs _ _ He); lia|].
  rewrite length_app. pose proof (Hs _ _ H1). pose proof (IH _ H2). lia.
Qed.

Lemma resource_step_length o w err : resource_step o w err → length w ≤ 1.
Proof. intros (e & H). destruct (IsObjectTaggedToDelete _); destruct H as [-> _]; simpl; lia. Qed.

Lemma pvc_resource_step_length p w err : pvc_resource_step p w err → length w ≤ 2.
Proof.
  unfold pvc_resource_step. destruct (IsObjectTaggedToDelete _).
  { intros (e & -> & _). simpl. lia. }
  intros ([q|e] & H); [destruct H as [-> _]; simpl; lia|].
  destruct (Err_IsNotFound e); [|destruct H as [-> _]; simpl; lia].
  destruct H as (r & -> & _). simpl. lia.
Qed.

Lemma owned_step_length l kd (obj : struct_of kd) (rec : struct_of kd → step) n w err :
  (∀ o w err, rec o w err → length w ≤ n) → owned_step l obj rec w err → length w ≤ n.
Proof. intros H [[-> _]|(o & _ & Ho)]%owned_step_inv; simpl; [lia|by eapply H]. Qed.

Lemma storage_options_length l w r : storage_options l w r → length w ≤ 1.
Proof.
  unfold storage_options, redis_options.
  destruct (spec_Storage (lim_Spec l)) as [[[r'|] [c|] [d|]]|]; simpl;
    try (intros [-> _]; simpl; lia).
  all: match goal with |- context [match ?ref with _ => _ end] => destruct ref end;
    [|intros [-> _]; simpl; lia].
  all: intros (got & -> & _); simpl; lia.
Qed.

Lemma deployment_step_length l w err : deployment_step l w err → length w ≤ 2.
Proof.
  intros (w1 & w2 & r & -> & (r' & Hs & _) & H). rewrite length_app.
  apply storage_options_length in Hs. destruct r as [o|e]; [|destruct H as [-> _]; simpl; lia].
  apply (owned_step_length _ _ _ _ 1) in H; [lia|]. intros d ??. apply resource_step_length.
Qed.

Lemma configmap_step_length l w err : configmap_step l w err → length w ≤ 1.
Proof.
  unfold configmap_step. destruct (LimitsConfigMap l); [|intros [-> _]; simpl; lia].
  apply owned_step_length. intros c ??. apply resource_step_length.
Qed.

Lemma owned_plan_length l w err : in_order (owned_plan l) w err → length w ≤ 7.
Proof.
  apply (in_order_length [1; 2; 2; 1; 1]).
  apply Forall2_cons; split.
  { intros ??. apply owned_step_length. intros o ??. apply resource_step_length. }
  apply Forall2_cons; split.
  { intros ??. apply owned_step_length. intros o ??. apply pvc_resource_step_length. }
  apply Forall2_cons; split; [exact (deployment_step_length l)|].
  apply Forall2_cons; split; [exact (configmap_step_length l)|].
  apply Forall2_cons; split; [|constructor].
  intros ??. apply owned_step_length. intros o ??. apply resource_step_length.
Qed.

(** The pods a run of the last step was told about. *)
Lemma pods_run_length l w r err :
  pods_run l w r err →
  ∃ pods, length w ≤ 2 + length pods ∧
    ∀ ps, Ev (ListPods (SelectorLabels l) (lim_Namespace l)) (Ok ps) ∈ w → ps = pods.
Proof.
  intros H. destruct (pods_run_ordered _ _ _ _ H) as (pods & Hd & _). exists pods. split.
  2: { intros ps Hps. rewrite Forall_forall in Hd. by apply (Hd _ Hps). }
  destruct H as (listed & w1 & -> & H). apply Forall_cons in Hd as [[(_ & _ & Hps) _] _].
  destruct listed as [ps|e]; [|destruct H as (-> & _); simpl; lia].
  rewrite <-(Hps ps eq_refl).
  destruct (_ || _); [destruct H as (-> & _); simpl; lia|].
  destruct H as (got & w2 & -> & H). destruct got as [cm|e]; [|destruct H as (-> & _); simpl; lia].
  destruct H as [_ H]. simpl.
  assert (Hlen : length w2 ≤ sum_list ((λ _, 1) <$> stale_pods (om_ResourceVersion (cm_ObjectMeta cm)) ps)).
  { eapply in_order_length; [|exact H]. apply Forall2_fmap, Forall_Forall2_diag, Forall_forall.
    intros p _ ??. apply resource_step_length. }
  assert (Hsum : ∀ qs : list Pod, sum_list ((λ _, 1) <$> qs) = length qs)
    by (induction qs as [|q qs IH]; csimpl; [done|by rewrite IH]).
  rewrite Hsum in Hlen. unfold stale_pods in Hlen.
  pose proof (length_filter (λ p, pod_annotation p PodAnnotationConfigMapResourceVersion ≠
    om_ResourceVersion (cm_ObjectMeta cm)) ps). lia.
Qed.

Lemma status_run_length l specErr w err : status_run l specErr w err → length w ≤ 3.
Proof.
  intros (w1 & w2 & c & -> & H1 & H2). rewrite length_app.
  assert (length w1 ≤ 1).
  { destruct specErr; [by destruct H1 as [-> _]; simpl; lia|].
    destruct H1 as (got & -> & _). done. }
  destruct c as [ready|e]; [|destruct H2 as [-> _]; simpl; lia].
  destruct H2 as (now & w3 & -> & H3).
  destruct (LimitadorStatus_Equals _ _); [destruct H3 as [-> _]; simpl; lia|].
  destruct H3 as (e & -> & _). simpl. lia.
Qed.

(** *** Creation of the claim *)

Lemma created_after_miss_weaken p w : created_after_miss None w → created_after_miss p w.
Proof.
  destruct w as [|e w]; simpl; [done|]. intros [He Hw]. split; [|done].
  destruct (ev_call e); try done. by destruct He as (er & [=] & _).
Qed.

Lemma created_after_miss_app p w1 w2 :
  created_after_miss p w1 → created_after_miss None w2 → created_after_miss p (w1 ++ w2).
Proof.
  revert p. induction w1 as [|e w1 IH]; simpl; intros p H1 H2.
  { by apply created_after_miss_weaken. }
  destruct H1. by split; [|apply IH].
Qed.

(** Calls of a single rank other than the claim's create nothing. *)
Lemma ordered_no_create l pods a b w :
  ordered l pods a b w → 2 < a ∨ b < 2 → created_after_miss None w.
Proof.
  intros [Hd _] Hab. generalize (@None event).
  induction Hd as [|e w [_ Hr] Hd IH]; intros p; simpl; [done|]. split; [|apply IH].
  destruct e as [c x]. destruct c; try done. unfold rank in Hr. simpl in Hr. lia.
Qed.

Lemma pvc_step_creation l w err : pvc_step l w err → created_after_miss None w.
Proof.
  intros [[-> _]|(p & Hp & Hw)]%owned_step_inv; [done|]. unfold pvc_resource_step in Hw.
  destruct (IsObjectTaggedToDelete _); [by destruct Hw as (e & -> & _)|].
  destruct Hw as ([q|e] & Hw); [by destruct Hw as [-> _]|].
  destruct (Err_IsNotFound e) eqn:He; [|by destruct Hw as [-> _]].
  destruct Hw as (r & -> & _). split; [done|]. split; [|done]. by exists e.
Qed.

Lemma in_order_creation (steps : list step) w err :
  Forall (λ s : step, ∀ w err, s w err → created_after_miss None w) steps →
  in_order steps w err → created_after_miss None w.
Proof.
  intros H. revert w. induction H as [|s steps Hs H IH]; intros w; simpl; [by intros [-> _]|].
  intros [(e & He & ->)|(w1 & w2 & -> & H1 & H2)]; [by eapply Hs|].
  apply created_after_miss_app; [by eapply Hs|by apply IH].
Qed.

Lemma service_pvc_creation l :
  Forall (λ s : step, ∀ w err, s w err → created_after_miss None w) [service_step l; pvc_step l].
Proof.
  apply Forall_cons; split; [|apply Forall_singleton; exact (pvc_step_creation l)].
  intros v e Hv. eapply ordered_no_create; [exact (service_step_ordered l [] _ _ Hv)|lia].
Qed.

Lemma owned_plan_creation l w err : in_order (owned_plan l) w err → created_after_miss None w.
Proof.
  apply in_order_creation. apply (Forall_app_2 _ [_; _]); [apply service_pvc_creation|].
  repeat (apply Forall_cons; split); [..|constructor]; intros v e Hv;
    eapply (ordered_no_create l []).
  - exact (deployment_step_ordered l [] _ _ Hv).
  - lia.
  - exact (configmap_step_ordered l [] _ _ Hv).
  - lia.
  - exact (pdb_step_ordered l [] _ _ Hv).
  - lia.
Qed.

Lemma object_run_creation l w err : object_run l w err → created_after_miss None w.
Proof.
  intros (w1 & w2 & r & specErr & statusErr & -> & H1 & H2 & _).
  apply created_after_miss_app.
  - destruct H1 as [(e & H & _)|(w3 & w4 & -> & H3 & H4)]; [by eapply owned_plan_creation|].
    apply created_after_miss_app; [by eapply owned_plan_creation|].
    destruct (pods_run_ordered _ _ _ _ H4) as [pods Hp].
    eapply ordered_no_create; [exact Hp|lia].
  - eapply ordered_no_create; [exact (status_run_ordered _ _ [] _ _ H2)|lia].
Qed.

Lemma spec_panic_creation l w msg : spec_panic l w msg → created_after_miss None w.
Proof.
  intros (w1 & w2 & -> & H1 & H2). apply created_after_miss_app.
  - eapply in_order_creation; [apply service_pvc_creation|exact H1].
  - eapply ordered_no_create; [exact (options_of_reads _ _ _ H2 [])|lia].
Qed.

(** The predicate at one creation. *)
Lemma created_after_miss_at p w1 o r w2 :
  created_after_miss p (w1 ++ Ev (Create o) r :: w2) →
  ∃ er, Err_IsNotFound er = true ∧
    from_option Some p (last w1) =
      Some (Ev (Get KPersistentVolumeClaim (key_of (obj_meta o))) (Err er)).
Proof.
  revert p. induction w1 as [|e w1 IH]; intros p; simpl.
  { intros [(er & -> & He) _]. by exists er. }
  intros [_ H]. destruct (IH _ H) as (er & He & Hl). exists er. split; [done|].
  rewrite last_cons. by destruct (last w1).
Qed.

Lemma object_run_length l w err :
  object_run l w err →
  ∃ pods : list Pod, length w ≤ 12 + length pods ∧
    (pods = [] ∨ ∃ sel ns, Ev (ListPods sel ns) (Ok pods) ∈ w).
Proof.
  intros (w1 & w2 & r & specErr & statusErr & -> & H1 & H2 & _). rewrite length_app.
  apply status_run_length in H2.
  destruct H1 as [(e & H & _)|(w3 & w4 & -> & H3 & H4)].
  { apply owned_plan_length in H. exists []. split; [lia|by left]. }
  apply owned_plan_length in H3. rewrite length_app.
  pose proof H4 as (listed & w5 & -> & _).
  destruct (pods_run_length _ _ _ _ H4) as (pods & Hl & Hps).
  destruct listed as [ps|e].
  - rewrite <-(Hps ps) in Hl by left. exists ps. split; [lia|right]. eexists _, _.
    rewrite !elem_of_app. left. right. left.
  - exists []. split; [|by left]. destruct H4 as (listed & w6 & Heq & H4).
    pose proof (f_equal (λ v, length (tail v)) Heq) as Hlen. simpl in Hlen.
    destruct listed as [ps|e']; [|destruct H4 as [-> _]; simpl in *; lia].
    by apply (f_equal (λ v, head v ≫= listed_pods)) in Heq.
Qed.

Lemma traffic_length req o got w t :
  traffic t = Ev (Get KLimitador req) got :: w →
  match got with
  | Err e => w = [] ∧ o = Done (Result_zero, if Err_IsNotFound e then None else Some (ErrExt e))
  | Ok l =>
      (∃ e, json_MarshalIndent_Limitador l = Err e ∧ w = [] ∧ o = Done (Result_zero, Some e)) ∨
      match om_DeletionTimestamp (lim_ObjectMeta l) with
      | Some _ => w = [] ∧ o = Done (Result_zero, None)
      | None => (∃ err, o = Done (Result_zero, err) ∧ object_run l w err) ∨
                (∃ msg, o = Panicked msg ∧ spec_panic l w msg)
      end
  end →
  ∃ pods : list Pod, length (traffic t) ≤ 13 + length pods ∧
    (pods = [] ∨ ∃ sel ns, Ev (ListPods sel ns) (Ok pods) ∈ traffic t).
Proof.
  intros -> H.
  assert (Hnil : w = [] → ∃ pods : list Pod,
    length (Ev (Get KLimitador req) got :: w) ≤ 13 + length pods ∧
    (pods = [] ∨ ∃ sel ns, Ev (ListPods sel ns) (Ok pods) ∈ Ev (Get KLimitador req) got :: w)).
  { intros ->. exists []. simpl. split; [lia|by left]. }
  destruct got as [l|e]; [|by destruct H; auto].
  destruct H as [(e & _ & -> & _)|H]; [by auto|].
  destruct (om_DeletionTimestamp _); [by destruct H; auto|].
  destruct H as [(err & _ & H)|(msg & _ & H)].
  - destruct (object_run_length _ _ _ H) as (pods & Hl & Hp). exists pods. simpl.
    split; [lia|]. destruct Hp as [->|(sel & ns & Hp)]; [by left|right]. exists sel, ns. by right.
  - exists []. split; [|by left]. destruct H as (w1 & w2 & -> & H1 & (r & H2 & _)).
    apply storage_options_length in H2. simpl. rewrite length_app.
    apply (in_order_length [1; 2]) in H1; [simpl in *; lia|].
    apply Forall2_cons; split.
    { intros ??. apply owned_step_length. intros q ??. apply resource_step_length. }
    apply Forall2_cons; split; [|constructor].
    intros ??. apply owned_step_length. intros q ??. apply pvc_resource_step_length.
Qed.

(** *** Status writes *)

Lemma status_writes_traffic t :
  List.filter (λ e, is_status_write (ev_call e)) (traffic t) =
  List.filter (λ e, is_status_write (ev_call e)) t.
Proof. induction t as [|[c x] t IH]; simpl; [done|]. destruct c; simpl; by rewrite IH. Qed.

Lemma early_status_writes l pods a b w :
  ordered l pods a b w → b < 9 → List.filter (λ e, is_status_write (ev_call e)) w = [].
Proof.
  intros [Hd _] Hb. induction Hd as [|e w [_ Hr] Hd IH]; simpl; [done|]. rewrite IH.
  destruct e as [c x]. destruct c; try done. cbn in Hr. lia.
Qed.

Lemma object_run_status_writes l w err :
  object_run l w err → length (List.filter (λ e, is_status_write (ev_call e)) w) ≤ 1.
Proof.
  intros (w1 & w2 & r & specErr & statusErr & -> & H1 & H2 & _).
  destruct (spec_run_ordered _ _ _ _ H1) as [pods Hp].
  rewrite List.filter_app, (early_status_writes _ _ _ _ _ Hp) by lia. simpl.
  destruct H2 as (w3 & w4 & c & -> & H3 & H4).
  assert (Hw3 : List.filter (λ e, is_status_write (ev_call e)) w3 = []).
  { destruct specErr; [by destruct H3 as [-> _]|by destruct H3 as (got & -> & _)]. }
  rewrite List.filter_app, Hw3. simpl.
  destruct c as [ready|e]; [|by destruct H4 as [-> _]; simpl; lia].
  destruct H4 as (now & w5 & -> & H5).
  destruct (LimitadorStatus_Equals _ _); [destruct H5 as [-> _]; simpl; lia|].
  by destruct H5 as (e & -> & _).
Qed.

Lemma Reconcile_writes_in_scope logger ctx req t o l :
  runs (Reconcile logger ctx req) t o → Ev (Get KLimitador req) (Ok l) ∈ t →
  Forall (in_scope l t) (writes t).
Proof.
  intros Hr Hl. destruct (Reconcile_on _ _ _ _ _ _ Hr Hl) as (w & pods & Hw & [Hd _] & _).
  rewrite Forall_forall in Hd. apply Forall_forall. intros e [Hwr He]%elem_writes.
  assert (Hew : e ∈ traffic t) by (apply elem_traffic; split; [by apply is_write_traffic|done]).
  rewrite Hw in Hew. apply elem_of_cons in Hew as [->|Hew]; [done|].
  apply (in_scope_duty _ pods); [| |by apply Hd|done].
  - intros ps Hps. assert (Hpw : Ev (ListPods (SelectorLabels l) (lim_Namespace l)) (Ok ps) ∈ traffic t)
      by by apply elem_traffic.
    rewrite Hw in Hpw. apply elem_of_cons in Hpw as [Hp|Hp]; [|by apply (Hd _ Hp)].
    by apply (f_equal (λ e, rank e)) in Hp.
  - destruct (decide (rank e = 7)) as [H7|]; [left|by right].
    eapply Reconcile_listed; [done..| |done]. rewrite Hw. by right.
Qed.

Lemma Reconcile_creation logger ctx req t o :
  runs (Reconcile logger ctx req) t o →
  ∃ got w, traffic t = Ev (Get KLimitador req) got :: w ∧
    created_after_miss (Some (Ev (Get KLimitador req) got)) w.
Proof.
  intros Hr. destruct (does_runs _ _ _ _ (Reconcile_does logger ctx req) Hr)
    as (got & w & Hw & H). exists got, w. split; [done|]. apply created_after_miss_weaken.
  destruct got as [l|e]; [|by destruct H as [-> _]].
  destruct H as [(e & _ & -> & _)|H]; [done|].
  destruct (om_DeletionTimestamp _); [by destruct H as [-> _]|].
  destruct H as [(err & _ & H)|(msg & _ & H)];
    [by eapply object_run_creation|by eapply spec_panic_creation].
Qed.

(** ** Theorems *)

(** C1: [Reconcile] refines the plan. Whatever the API server answers, call
    by call, the run of the whole handler (spans, loggers, deferred calls and
    early returns included) makes exactly the calls, gets the error and
    returns the result that the abstract plan [reconcile_run] allows. *)
Theorem Reconcile_refines_plan logger ctx req t o :
  runs (Reconcile logger ctx req) t o → reconcile_run req o (traffic t).
Proof. apply does_runs, Reconcile_does. Qed.

(** C8: the writes of a run stay within the resource's own objects: its
    Service, volume claim, Deployment, limits ConfigMap and disruption budget,
    by name and namespace; pods that the selector listed in its namespace; and
    its own status. *)
Theorem Reconcile_write_scope logger ctx req t o l :
  runs (Reconcile logger ctx req) t o → Ev (Get KLimitador req) (Ok l) ∈ t →
  Forall (in_scope l t) (writes t).
Proof. apply Reconcile_writes_in_scope. Qed.

(** C7: a failed write stops the spec. If a write other than the status patch
    is refused with an error, every later write of the run is a patch of the
    resource's own status, which reports Ready false with that error's
    message, and the run returns that error. *)
Theorem Reconcile_stops_at_failure logger ctx req t o l ws1 e ws2 x :
  runs (Reconcile logger ctx req) t o → Ev (Get KLimitador req) (Ok l) ∈ t →
  writes t = ws1 ++ e :: ws2 → write_error e = Some x → is_status_write (ev_call e) = false →
  o = Done (Result_zero, Some x) ∧
  Forall (λ e', ∃ now, ev_call e' = Status_Patch_Apply (Obj KLimitador (status_patch l
             (next_status l now (ready_cond ConditionFalse "ReconcilliationError" (Error x)))))
             apply_opts) ws2.
Proof.
  intros Hr Hl Hws Hx Hst.
  destruct (Reconcile_on _ _ _ _ _ _ Hr Hl) as (w & pods & Hw & _ & Hrun).
  rewrite Hw in Hrun. rewrite <-writes_traffic, Hw in Hws.
  change (writes (_ :: w)) with (writes w) in Hws.
  assert (Hclean : ¬ clean (writes w)).
  { rewrite Hws. intros [_ [Hc _]%Forall_cons]%Forall_app. congruence. }
  destruct (reconcile_run_on _ _ _ _ Hrun)
    as [(y & _ & -> & _)|[(_ & -> & _)|(_ & [(err & -> & H)|(msg & _ & H)])]].
  1,2: by destruct Hclean; constructor.
  2: by destruct Hclean; apply clean_writes, (spec_panic_clean _ _ _ H).
  destruct H as (wa & wb & r & specErr & statusErr & -> & H1 & H2 & ->).
  destruct (failed_in_spec wa wb ws1 e ws2) as (us & Hus & ->);
    [done|done|by eapply status_run_writes|].
  destruct (fail_stop_writes _ _ _ _ _ _ (spec_run_fail_stop _ _ _ _ H1) Hus Hx) as [-> ->].
  split; [done|]. by eapply status_run_failed.
Qed.

(** C19: a run always ends, after a bounded number of API calls. Against any
    API server, however it behaves, [Reconcile] stops, and the calls it makes
    outside tracing and logging number at most 13 plus the pods it is told
    about. *)
Theorem Reconcile_bounded {W} (handle : ∀ c : call, W → reply c * W) w0 logger ctx req :
  ∃ t o w1, exec handle (Reconcile logger ctx req) w0 = (t, o, w1) ∧
    ∃ pods : list Pod, length (traffic t) ≤ 13 + length pods ∧
      (pods = [] ∨ ∃ sel ns, Ev (ListPods sel ns) (Ok pods) ∈ t).
Proof.
  destruct (exec handle (Reconcile logger ctx req) w0) as [[t o] w1] eqn:Hx.
  exists t, o, w1. split; [done|].
  assert (Hr : runs (Reconcile logger ctx req) t o).
  { pose proof (exec_runs handle (Reconcile logger ctx req) w0) as H. by rewrite Hx in H. }
  destruct (does_runs _ _ _ _ (Reconcile_does logger ctx req) Hr) as (got & w & Hw & H).
  destruct (traffic_length req o got w t Hw H) as (pods & Hl & Hp). exists pods. split; [done|].
  destruct Hp as [->|(sel & ns & Hp)]; [by left|right]. exists sel, ns.
  by apply elem_traffic in Hp as [_ ?].
Qed.

(** C12: the writes of a run come in one order: Service, volume claim,
    Deployment, limits ConfigMap, disruption budget, pods, and last the status
    patch, of which there is at most one. *)
Theorem Reconcile_write_order logger ctx req t o :
  runs (Reconcile logger ctx req) t o →
  StronglySorted le (rank <$> writes t) ∧
  length (List.filter (λ e, is_status_write (ev_call e)) t) ≤ 1.
Proof.
  intros Hr. rewrite <-writes_traffic, <-status_writes_traffic.
  destruct (Reconcile_footprint _ _ _ _ _ Hr) as (got & w & Hw & H).
  pose proof (does_runs _ _ _ _ (Reconcile_does logger ctx req) Hr) as Hrun.
  split.
  - rewrite Hw. apply writes_sorted.
    destruct got as [l|e]; [|subst w; repeat constructor].
    destruct H as (_ & pods & Hd & Hs). apply StronglySorted_cons. split; [|done].
    apply Forall_fmap, Forall_forall. intros e _. cbn. lia.
  - rewrite Hw in *. destruct got as [l|e]; [|subst w; simpl; lia]. simpl.
    destruct (reconcile_run_on _ _ _ _ Hrun)
      as [(y & _ & -> & _)|[(_ & -> & _)|(_ & [(err & _ & Ho)|(msg & _ & Ho)])]];
      [simpl; lia..| |].
    + by eapply object_run_status_writes.
    + rewrite (early_status_writes l [] 1 3); [simpl; lia|by eapply spec_panic_ordered|lia].
Qed.

(** C13: a volume claim is only ever created. A run creates a claim only right
    after reading that claim and being told it does not exist; it never
    applies a change to one, so an existing claim keeps its content. *)
Theorem Reconcile_claim_create_only logger ctx req t o :
  runs (Reconcile logger ctx req) t o →
  (∀ w1 ob r w2, traffic t = w1 ++ Ev (Create ob) r :: w2 →
     obj_kind ob = KPersistentVolumeClaim ∧
     ∃ er, Err_IsNotFound er = true ∧
       last w1 = Some (Ev (Get KPersistentVolumeClaim (key_of (obj_meta ob))) (Err er))) ∧
  (∀ ob opts r, Ev (Patch_Apply ob opts) r ∈ t → obj_kind ob ≠ KPersistentVolumeClaim) ∧
  (∀ ob r, Ev (Update ob) r ∉ t).
Proof.
  intros Hr. split_and!.
  - intros w1 ob r w2 Hsplit. split.
    { assert (He : Ev (Create ob) r ∈ traffic t)
        by (rewrite Hsplit; apply elem_of_app; right; left).
      destruct (Reconcile_duty _ _ _ _ _ _ Hr He) as [[got [=]]|(l & pods & _ & _ & Hd & _)].
      destruct ob as [[] ob]; try done. }
    destruct (Reconcile_creation _ _ _ _ _ Hr) as (got & w & Hw & Hc).
    rewrite Hw in Hsplit. destruct w1 as [|e w1]; [by apply (f_equal (λ v, rank <$> head v)) in Hsplit|].
    pose proof (f_equal tail Hsplit) as Ht. simpl in Ht. subst w.
    destruct (created_after_miss_at _ _ _ _ _ Hc) as (er & Hn & Hl). exists er. split; [done|].
    rewrite last_cons. by destruct (last w1).
  - intros ob opts r He.
    assert (Het : Ev (Patch_Apply ob opts) r ∈ traffic t) by by apply elem_traffic.
    destruct (Reconcile_duty _ _ _ _ _ _ Hr Het) as [[got [=]]|(l & pods & _ & _ & Hd & _)].
    destruct Hd as [_ Hd]. destruct ob as [[] ob]; done.
  - intros ob r He. assert (Het : Ev (Update ob) r ∈ traffic t) by by apply elem_traffic.
    by destruct (Reconcile_duty _ _ _ _ _ _ Hr Het) as [[got [=]]|(l & pods & _ & _ & Hd & _)].
Qed.

End loop.

(** ** Witnesses *)

#[local] Existing Instances Sample.platform Sample.condition_codec Sample.limits_codec
  Sample.limitador_codec Sample.controller_util Sample.status_conditions Sample.span_eq_dec.

Lemma Reconcile_refines_plan_witness :
  end_of reconcile_sample memory_world = Done (Result_zero, None) ∧
  reconcile_run sample_request (Done (Result_zero, None)) (traffic (log_in memory_world)).
Proof.
  split; [reflexivity|]. apply (Reconcile_refines_plan no_values Background). exact (runs_in memory_world).
Defined.

Lemma Reconcile_write_scope_witness :
  length (writes (log_in disk_world)) = 7 ∧
  Forall (in_scope sample_disk (log_in disk_world)) (writes (log_in disk_world)).
Proof.
  split; [by_running|].
  apply (Reconcile_write_scope no_values Background sample_request _ (end_of reconcile_sample disk_world)).
  - exact (runs_in disk_world).
  - in_log 1.
Defined.

(** The ConfigMap is refused: the status reports it and nothing else follows. *)
Lemma Reconcile_stops_at_failure_witness :
  end_of reconcile_sample failing_world = Done (Result_zero, Some (ErrExt ConflictError)) ∧
  length (drop 4 (writes (log_in failing_world))) = 1 ∧
  Forall (λ e', ∃ now, ev_call e' = Status_Patch_Apply (Obj KLimitador (status_patch sample_disk
             (next_status sample_disk now
                (ready_cond ConditionFalse "ReconcilliationError" "conflict"))))
             apply_opts) (drop 4 (writes (log_in failing_world))).
Proof.
  split; [reflexivity|]. split; [by_running|].
  refine (proj2 (Reconcile_stops_at_failure no_values Background sample_request (log_in failing_world)
    (end_of reconcile_sample failing_world) sample_disk (take 3 (writes (log_in failing_world)))
    (default (Ev Now 0%Z) (writes (log_in failing_world) !! 3))
    (drop 4 (writes (log_in failing_world))) (ErrExt ConflictError) _ _ _ _ _)).
  - exact (runs_in failing_world).
  - in_log 1.
  - by_running.
  - by_running.
  - by_running.
Defined.

Lemma Reconcile_write_order_witness :
  (rank <$> writes (log_in disk_world)) = [1; 2; 3; 4; 5; 7; 9] ∧
  StronglySorted le (rank <$> writes (log_in disk_world)) ∧
  length (List.filter (λ e, is_status_write (ev_call e)) (log_in disk_world)) ≤ 1.
Proof.
  split; [by_running|].
  apply (Reconcile_write_order no_values Background sample_request _ (end_of reconcile_sample disk_world)).
  exact (runs_in disk_world).
Defined.

Lemma Reconcile_claim_create_only_witness :
  Ev (Create (Obj KPersistentVolumeClaim disk_claim)) None ∈ log_in disk_world ∧
  ∃ er, Err_IsNotFound er = true ∧
    last (take 3 (traffic (log_in disk_world))) =
      Some (Ev (Get KPersistentVolumeClaim (key_of (pvc_ObjectMeta disk_claim))) (Err er)).
Proof.
  split; [in_log 12|].
  refine (proj2 (proj1 (Reconcile_claim_create_only no_values Background sample_request _
    (end_of reconcile_sample disk_world) (runs_in disk_world))
    (take 3 (traffic (log_in disk_world))) (Obj KPersistentVolumeClaim disk_claim) None
    (drop 4 (traffic (log_in disk_world))) _)).
  by_running.
Defined.
