(* ===== verification/Isolation.v ===== *)
(** * Reconciliations of different resources

    The manager reconciles different resources at the same time against one
    API server. Their runs write to disjoint sets of objects, whatever the
    interleaving of their calls. *)

From S2P Require Import Prelude Kube Helpers Types Effects Observability Names Options Objects.
From S2P Require Import BaseReconciler Status Controller Traffic Plan Follows Footprint Sample Loop.

Section isolation.
Context {PF : Platform} {CC : ConditionCodec} {LC : LimitsCodec} {JC : LimitadorCodec}
  {CU : ControllerUtil} {SC : StatusConditions}.

(** ** Vocabulary *)

(** Resources that are not the same object. *)
Definition distinct_resources (l l' : Limitador) : Prop :=
  lim_Name l ≠ lim_Name l' ∨ lim_Namespace l ≠ lim_Namespace l'.

(** A listing returns pods of the namespace asked for that carry the labels of
    the selector, as the API documents. *)
Definition lists_selected (t : list event) : Prop :=
  ∀ sel ns pods pod, Ev (ListPods sel ns) (Ok pods) ∈ t → pod ∈ pods →
    om_Namespace (pod_ObjectMeta pod) = ns ∧ selects sel (om_Labels (pod_ObjectMeta pod)).

(** Nobody moves a pod from one resource to another between two runs. *)
Definition same_owner_label (t1 t2 : list event) : Prop :=
  ∀ sel1 ns1 pods1 pod1 sel2 ns2 pods2 pod2,
    Ev (ListPods sel1 ns1) (Ok pods1) ∈ t1 → pod1 ∈ pods1 →
    Ev (ListPods sel2 ns2) (Ok pods2) ∈ t2 → pod2 ∈ pods2 →
    key_of (pod_ObjectMeta pod1) = key_of (pod_ObjectMeta pod2) →
    om_Labels (pod_ObjectMeta pod1) !! LabelKeyLimitadorResource =
    om_Labels (pod_ObjectMeta pod2) !! LabelKeyLimitadorResource.

(** ** Lemmas *)

Lemma owned_ref_name l kd key :
  (kd, key) ∈ owned_refs l →
  kd ≠ KPod ∧ kd ≠ KLimitador ∧ nn_Namespace key = lim_Namespace l ∧
  nn_Name key = (if bool_decide (kd = KConfigMap) then "limitador-limits-config-" else "limitador-")
                +:+ lim_Name l.
Proof.
  unfold owned_refs. rewrite !elem_of_cons. intros H.
  destruct H as [[= -> ->]|[[= -> ->]|[[= -> ->]|[[= -> ->]|[[= -> ->]|H]]]]]; try done.
  by apply elem_of_nil in H.
Qed.

(** Two resources never own the same object, and the objects of one are distinct. *)
Lemma owned_refs_disjoint l l' ref :
  distinct_resources l l' → ref ∈ owned_refs l → ref ∉ owned_refs l'.
Proof.
  intros Hne. destruct ref as [kd key].
  intros (_ & _ & Hns & Hn)%owned_ref_name (_ & _ & Hns' & Hn')%owned_ref_name.
  rewrite Hns' in Hns. rewrite Hn' in Hn. case_bool_decide;
    apply (inj (String.app _)) in Hn; destruct Hne; congruence.
Qed.

Lemma owned_refs_NoDup l : NoDup (owned_refs l).
Proof.
  apply (NoDup_fmap_1 fst). cbn. by repeat (apply NoDup_cons; split;
    [rewrite ?elem_of_cons, elem_of_nil; intuition discriminate|]); apply NoDup_nil.
Qed.

Lemma selected_resource l labels :
  selects (SelectorLabels l) labels → labels !! LabelKeyLimitadorResource = Some (lim_Name l).
Proof. intros Hs. eapply lookup_weaken; [apply SelectorLabels_resource|exact Hs]. Qed.

Lemma write_target_is_write e target : write_target e = Some target → is_write (ev_call e) = true.
Proof. destruct e as [c x]. by destruct c. Qed.

(** The target of a write of a run, by its kind. *)
Lemma run_target logger ctx req t o l e kd key :
  runs (Reconcile logger ctx req) t o → Ev (Get KLimitador req) (Ok l) ∈ t →
  e ∈ t → write_target e = Some (kd, key) →
  (kd = KLimitador ∧ key = (self_ref l).2) ∨ (kd, key) ∈ owned_refs l ∨
  (kd = KPod ∧ ∃ pods pod, Ev (ListPods (SelectorLabels l) (lim_Namespace l)) (Ok pods) ∈ t ∧
     pod ∈ pods ∧ key = key_of (pod_ObjectMeta pod)).
Proof.
  intros Hr Hl He Ht. pose proof (Reconcile_writes_in_scope _ _ _ _ _ _ Hr Hl) as Hs.
  rewrite Forall_forall in Hs. destruct (Hs e) as (target & Ht' & H).
  { apply elem_writes. split; [by eapply write_target_is_write|done]. }
  rewrite Ht in Ht'. injection Ht' as <-. destruct (is_status_write (ev_call e)).
  - left. by injection H as -> ->.
  - destruct H as [H|(pods & pod & H1 & H2 & [= -> ->])]; [by right; left|right; right; eauto 10].
Qed.

(** The two conditions on listings, decided on a log. *)
Definition listing_selected (e : event) : bool :=
  let '(Ev c x) := e in
  match c return reply c → bool with
  | ListPods sel ns => λ got,
      match got with
      | Ok pods => forallb (λ pod, bool_decide (om_Namespace (pod_ObjectMeta pod) = ns) &&
                                   bool_decide (selects sel (om_Labels (pod_ObjectMeta pod)))) pods
      | Err _ => true
      end
  | _ => λ _, true
  end x.

Lemma listings_selected t : forallb listing_selected t = true → lists_selected t.
Proof.
  intros H sel ns pods pod He Hp. rewrite forallb_forall in H.
  specialize (H _ (proj1 (list_elem_of_In _ _) He)). simpl in H. rewrite forallb_forall in H.
  specialize (H _ (proj1 (list_elem_of_In _ _) Hp)). apply andb_true_iff in H as [H1 H2].
  split; by eapply bool_decide_eq_true.
Qed.

Definition all_listed (t : list event) : list Pod := concat (omap listed_pods t).

Lemma elem_all_listed t sel ns pods pod :
  Ev (ListPods sel ns) (Ok pods) ∈ t → pod ∈ pods → pod ∈ all_listed t.
Proof.
  intros He Hp. unfold all_listed. apply list_elem_of_In, in_concat. exists pods.
  split; [|by apply list_elem_of_In]. apply list_elem_of_In, list_elem_of_omap. by exists (Ev (ListPods sel ns) (Ok pods)).
Qed.

Lemma no_common_pods t1 t2 :
  Forall (λ p1, Forall (λ p2, key_of (pod_ObjectMeta p1) ≠ key_of (pod_ObjectMeta p2)) (all_listed t2))
    (all_listed t1) →
  same_owner_label t1 t2.
Proof.
  intros H sel1 ns1 pods1 pod1 sel2 ns2 pods2 pod2 He1 Hp1 He2 Hp2 Hk. exfalso.
  rewrite Forall_forall in H. specialize (H _ (elem_all_listed _ _ _ _ _ He1 Hp1)).
  rewrite Forall_forall in H. by apply (H _ (elem_all_listed _ _ _ _ _ He2 Hp2)).
Qed.

(** ** Theorems *)

(** C9: runs on different resources never write the same object. Take two
    runs of [Reconcile], in any order or interleaved, that read resources
    differing in name or namespace; if listings return pods their selector
    selects, and no pod changes the resource it is labelled with, then the
    objects the two runs write, the pods and the resources' statuses
    included, are all different. *)
Theorem runs_write_apart logger1 ctx1 req1 t1 o1 l1 logger2 ctx2 req2 t2 o2 l2 e1 e2 r1 r2 :
  runs (Reconcile logger1 ctx1 req1) t1 o1 → Ev (Get KLimitador req1) (Ok l1) ∈ t1 →
  runs (Reconcile logger2 ctx2 req2) t2 o2 → Ev (Get KLimitador req2) (Ok l2) ∈ t2 →
  distinct_resources l1 l2 →
  lists_selected t1 → lists_selected t2 → same_owner_label t1 t2 →
  e1 ∈ t1 → e2 ∈ t2 → write_target e1 = Some r1 → write_target e2 = Some r2 → r1 ≠ r2.
Proof.
  intros Hr1 Hl1 Hr2 Hl2 Hne Hs1 Hs2 Hsame He1 He2 Ht1 Ht2 <-. destruct r1 as [kd key].
  destruct (run_target _ _ _ _ _ _ _ _ _ Hr1 Hl1 He1 Ht1)
    as [[-> ->]|[Ho1|(-> & pods1 & pod1 & Hp1 & Hin1 & ->)]];
  destruct (run_target _ _ _ _ _ _ _ _ _ Hr2 Hl2 He2 Ht2)
    as [[Hk Hk2]|[Ho2|(Hk & pods2 & pod2 & Hp2 & Hin2 & Hkey)]]; try done.
  - injection Hk2 as Hns Hn. by destruct Hne.
  - by apply owned_ref_name in Ho2 as (_ & ? & _).
  - by apply owned_ref_name in Ho1 as (_ & ? & _).
  - by eapply owned_refs_disjoint.
  - by apply owned_ref_name in Ho1 as (? & _).
  - by apply owned_ref_name in Ho2 as (? & _).
  - destruct (Hs1 _ _ _ _ Hp1 Hin1) as [Hns1 Hsel1]. destruct (Hs2 _ _ _ _ Hp2 Hin2) as [Hns2 Hsel2].
    pose proof (Hsame _ _ _ _ _ _ _ _ Hp1 Hin1 Hp2 Hin2 Hkey) as Hlab.
    rewrite (selected_resource _ _ Hsel1), (selected_resource _ _ Hsel2) in Hlab.
    injection Hkey as Hns _. destruct Hne; congruence.
Qed.

End isolation.

(** ** Witnesses *)

#[local] Existing Instances Sample.platform Sample.condition_codec Sample.limits_codec
  Sample.limitador_codec Sample.controller_util Sample.status_conditions.

(** A second resource of the namespace, with a pod of its own. *)
Definition other : Limitador :=
  {| lim_TypeMeta := lim_TypeMeta sample; lim_ObjectMeta := meta "other" ∅;
     lim_Spec := lim_Spec sample; lim_Status := LimitadorStatus_zero |}.

Definition other_pod : Pod :=
  {| pod_TypeMeta := {| tm_Kind := "Pod"; tm_APIVersion := "v1" |};
     pod_ObjectMeta := meta "limitador-other-xyz" (Labels other) |}.

Definition other_world : world :=
  {| w_limitador := Ok other; w_deployment := w_deployment memory_world;
     w_claim := w_claim memory_world; w_configmap := w_configmap memory_world;
     w_secret := w_secret memory_world; w_pods := Ok [other_pod];
     w_apply := w_apply memory_world; w_spans := w_spans memory_world |}.

Definition reconcile_other : prog (Result * option error) :=
  Reconcile no_values Background {| nn_Namespace := "default"; nn_Name := "other" |}.

Definition other_log : list event := log_of reconcile_other other_world.

(** The pods the two runs patch, at place 32 of their logs. *)
Lemma runs_write_apart_witness :
  (KPod, {| nn_Namespace := "default"; nn_Name := "limitador-sample-abc" |}) ≠
  (KPod, {| nn_Namespace := "default"; nn_Name := "limitador-other-xyz" |}).
Proof.
  apply (runs_write_apart no_values Background sample_request (log_in memory_world)
    (end_of reconcile_sample memory_world) sample
    no_values Background {| nn_Namespace := "default"; nn_Name := "other" |} other_log
    (end_of reconcile_other other_world) other
    (Ev (Patch_Apply (Obj KPod (pod_annotation_patch "limitador-sample-abc" "default"
           PodAnnotationConfigMapResourceVersion "7")) apply_opts) None)
    (Ev (Patch_Apply (Obj KPod (pod_annotation_patch "limitador-other-xyz" "default"
           PodAnnotationConfigMapResourceVersion "7")) apply_opts) None)).
  - exact (runs_in memory_world).
  - in_log 1.
  - exact (sample_runs reconcile_other other_world).
  - in_log 1.
  - left. discriminate.
  - apply listings_selected. by_running.
  - apply listings_selected. by_running.
  - apply no_common_pods. vm_compute. by repeat constructor.
  - in_log 32.
  - in_log 32.
  - reflexivity.
  - reflexivity.
Defined.
