(* ===== verification/Outcome.v ===== *)
(** * How a reconciliation ends

    What success, failure and a panic of [Reconcile] mean for the cluster,
    which results the manager sees, and the discipline of what is sent. *)

From S2P Require Import Prelude Kube Helpers Types Effects Observability Names Options Objects.
From S2P Require Import BaseReconciler Status Controller Traffic Plan Follows Footprint SameResource Spans Loop Sample.

(** The permissions the RBAC markers of the controller ask for, on the
    resources a call touches: those of [limitadors], [limitadors/status],
    [services], [persistentvolumeclaims], [deployments], [configmaps],
    [poddisruptionbudgets], [pods] and [secrets]. *)
Inductive verb := VGet | VList | VWatch | VCreate | VUpdate | VPatch | VDelete.

#[export] Instance verb_eq_dec : EqDecision verb.
Proof. solve_decision. Defined.

Definition rbac (kd : kind) : list verb :=
  match kd with
  | KLimitador | KPodDisruptionBudget | KDeployment | KService | KConfigMap | KSecret
  | KPersistentVolumeClaim => [VGet; VList; VWatch; VCreate; VUpdate; VPatch; VDelete]
  | KPod => [VList; VWatch; VUpdate; VPatch]
  end.

Definition rbac_status : list verb := [VGet; VUpdate; VPatch].

Section outcome.
Context {PF : Platform} {CC : ConditionCodec} {LC : LimitsCodec} {JC : LimitadorCodec}
  {CU : ControllerUtil} {SC : StatusConditions}.

(** ** Vocabulary *)

(** The call was made in the run and not refused. *)
Definition accepted (t : list event) (c : call) : Prop :=
  ∃ x, Ev c x ∈ t ∧ write_error (Ev c x) = None.

(** Every object of the resource is as the resource asks: [there], or [gone]
    when the resource does not ask for it; the claim it asks for is [kept]. *)
Definition objects_hold (l : Limitador) (there gone : object → Prop)
    (kept : PersistentVolumeClaim → Prop) : Prop :=
  (∃ s, SetOwnerReference (kd := KService) l (Service_of l) = Ok s ∧ there (Obj KService s)) ∧
  (∃ p, SetOwnerReference (kd := KPersistentVolumeClaim) l (PVC l) = Ok p ∧
        if wants_claim l then kept p else gone (Obj KPersistentVolumeClaim p)) ∧
  (∃ d, desired_deployment l d ∧ there (Obj KDeployment d)) ∧
  (∃ cm c, LimitsConfigMap l = Ok cm ∧ SetOwnerReference (kd := KConfigMap) l cm = Ok c ∧
           there (Obj KConfigMap c)) ∧
  (∃ p, SetOwnerReference (kd := KPodDisruptionBudget) l (PodDisruptionBudget_of l) = Ok p ∧
        if bool_decide (is_Some (spec_PodDisruptionBudget (lim_Spec l)))
        then there (Obj KPodDisruptionBudget p) else gone (Obj KPodDisruptionBudget p)).

(** In a run: applied, deleted, and a claim found or created. *)
Definition objects_reconciled (l : Limitador) (t : list event) : Prop :=
  objects_hold l (λ o, accepted t (Patch_Apply o apply_opts)) (λ o, accepted t (Delete o))
    (λ p, (∃ q, Ev (Get KPersistentVolumeClaim (key_of (pvc_ObjectMeta p))) (Ok q) ∈ t) ∨
          accepted t (Create (Obj KPersistentVolumeClaim p))).

(** The stored status is the one computed from what the Deployment was, or
    was made so. *)
Definition status_reconciled (l : Limitador) (t : list event) : Prop :=
  ∃ got ready now,
    Ev (Get KDeployment {| nn_Namespace := lim_Namespace l; nn_Name := DeploymentName l |}) got ∈ t ∧
    ready_of got = Ok ready ∧ Ev Now now ∈ t ∧
    let st := next_status l now ready in
    LimitadorStatus_Equals (lim_Status l) st = true ∨
    accepted t (Status_Patch_Apply (Obj KLimitador (status_patch l st)) apply_opts).

(** A server-side apply creates what does not exist, when asked to create is
    permitted; applying to a listed pod is a patch. *)
Definition permitted (c : call) : bool :=
  match c with
  | Get kd _ => bool_decide (VGet ∈ rbac kd)
  | ListPods _ _ => bool_decide (VList ∈ rbac KPod)
  | Patch_Apply o _ =>
      bool_decide (VPatch ∈ rbac (obj_kind o)) &&
      (bool_decide (obj_kind o = KPod) || bool_decide (VCreate ∈ rbac (obj_kind o)))
  | Status_Patch_Apply o _ => bool_decide (obj_kind o = KLimitador) && bool_decide (VPatch ∈ rbac_status)
  | Create o => bool_decide (VCreate ∈ rbac (obj_kind o))
  | Update o => bool_decide (VUpdate ∈ rbac (obj_kind o))
  | Delete o => bool_decide (VDelete ∈ rbac (obj_kind o))
  | _ => true
  end.

(** ** Lemmas *)

Lemma accepted_incl (v t : list event) c : v ⊆ t → accepted v c → accepted t c.
Proof. intros Hv (x & Hx & He). exists x. split; [by apply Hv|done]. Qed.

Lemma accepted_one c x : write_error (Ev c x) = None → accepted [Ev c x] c.
Proof. intros He. exists x. split; [left|done]. Qed.

(** A resource step that succeeded on an object that is not tagged. *)
Lemma resource_step_applied o w :
  resource_step o w None → IsObjectTaggedToDelete (obj_meta o) = false →
  accepted w (Patch_Apply o apply_opts).
Proof. intros (e & H) Ht. rewrite Ht in H. destruct H as [-> He]. by apply accepted_one. Qed.

Lemma resource_step_deleted o w :
  resource_step o w None → IsObjectTaggedToDelete (obj_meta o) = true → accepted w (Delete o).
Proof. intros (e & H) Ht. rewrite Ht in H. destruct H as [-> He]. by apply accepted_one. Qed.

Lemma owned_step_None l kd (obj : struct_of kd) (rec : struct_of kd → step) w :
  owned_step l obj rec w None → ∃ o, SetOwnerReference l obj = Ok o ∧ rec o w None.
Proof. by intros [[_ [? [=]]]|?]%owned_step_inv. Qed.

Lemma service_step_done l w :
  service_step l w None →
  ∃ s, SetOwnerReference (kd := KService) l (Service_of l) = Ok s ∧
       accepted w (Patch_Apply (Obj KService s) apply_opts).
Proof.
  intros (s & Hs & H)%owned_step_None. exists s. split; [done|].
  apply resource_step_applied; [done|]. exact (SetOwnerReference_tagged _ _ _ _ Hs).
Qed.

Lemma pvc_step_done l w :
  pvc_step l w None →
  ∃ p, SetOwnerReference (kd := KPersistentVolumeClaim) l (PVC l) = Ok p ∧
    if wants_claim l
    then (∃ q, Ev (Get KPersistentVolumeClaim (key_of (pvc_ObjectMeta p))) (Ok q) ∈ w) ∨
         accepted w (Create (Obj KPersistentVolumeClaim p))
    else accepted w (Delete (Obj KPersistentVolumeClaim p)).
Proof.
  intros (p & Hp & H)%owned_step_None. exists p. split; [done|].
  pose proof (SetOwnerReference_tagged _ _ _ _ Hp) as Ht. simpl in Ht.
  unfold pvc_resource_step in H. rewrite Ht, PVC_tagged in H.
  destruct (wants_claim l); simpl in H.
  - destruct H as ([q|e] & H); [left; exists q; destruct H as [-> _]; left|right].
    destruct (Err_IsNotFound e); [|by destruct H].
    destruct H as (r & -> & Hr). exists r. split; [right; left|done].
  - destruct H as (e & -> & He). by apply accepted_one.
Qed.

Lemma deployment_step_done l w :
  deployment_step l w None →
  ∃ d, desired_deployment l d ∧ accepted w (Patch_Apply (Obj KDeployment d) apply_opts).
Proof.
  intros (w1 & w2 & r & -> & Ho & H). destruct r as [o|e]; [|by destruct H].
  apply options_of_Ok in Ho as (args & Ha & Hsec & ->).
  apply owned_step_None in H as (d & Hd & H). exists d. split; [by exists args|].
  eapply accepted_incl; [|apply resource_step_applied; [exact H|]].
  - intros e He. apply elem_of_app. by right.
  - exact (SetOwnerReference_tagged _ _ _ _ Hd).
Qed.

Lemma configmap_step_done l w :
  configmap_step l w None →
  ∃ cm c, LimitsConfigMap l = Ok cm ∧ SetOwnerReference (kd := KConfigMap) l cm = Ok c ∧
          accepted w (Patch_Apply (Obj KConfigMap c) apply_opts).
Proof.
  unfold configmap_step. destruct (LimitsConfigMap l) as [cm|e] eqn:Hcm; [|by intros [_ [=]]].
  intros (c & Hc & H)%owned_step_None. exists cm, c. do 2 (split; [done|]).
  apply resource_step_applied; [done|].
  pose proof (SetOwnerReference_tagged _ _ _ _ Hc) as Ht. simpl in Ht.
  by rewrite (LimitsConfigMap_meta _ _ Hcm) in Ht.
Qed.

Lemma pdb_step_done l w :
  pdb_step l w None →
  ∃ p, SetOwnerReference (kd := KPodDisruptionBudget) l (PodDisruptionBudget_of l) = Ok p ∧
    if bool_decide (is_Some (spec_PodDisruptionBudget (lim_Spec l)))
    then accepted w (Patch_Apply (Obj KPodDisruptionBudget p) apply_opts)
    else accepted w (Delete (Obj KPodDisruptionBudget p)).
Proof.
  intros (p & Hp & H)%owned_step_None. exists p. split; [done|].
  pose proof (SetOwnerReference_tagged _ _ _ _ Hp) as Ht. simpl in Ht. rewrite PDB_tagged in Ht.
  case_bool_decide; [by apply resource_step_applied|by apply resource_step_deleted].
Qed.

Lemma owned_plan_done l w t : in_order (owned_plan l) w None → w ⊆ t → objects_reconciled l t.
Proof.
  intros H Hw.
  assert (Hstep : ∀ s, s ∈ owned_plan l → ∃ v, v ⊆ t ∧ s v None).
  { intros s Hs. destruct (in_order_None_step _ _ _ H Hs) as (v & Hv & Hsv).
    exists v. split; [|done]. intros e He. by apply Hw, Hv. }
  unfold owned_plan in Hstep. split_and!.
  - destruct (Hstep (service_step l)) as (v & Hv & (s & ? & ?)%service_step_done); [left|].
    exists s. split; [done|]. by eapply accepted_incl.
  - destruct (Hstep (pvc_step l)) as (v & Hv & (p & ? & Hp)%pvc_step_done); [right; left|].
    exists p. split; [done|]. destruct (wants_claim l); [|by eapply accepted_incl].
    destruct Hp as [[q Hq]|Hp]; [left; exists q; by apply Hv|right; by eapply accepted_incl].
  - destruct (Hstep (deployment_step l)) as (v & Hv & (d & ? & ?)%deployment_step_done);
      [do 2 right; left|]. exists d. split; [done|]. by eapply accepted_incl.
  - destruct (Hstep (configmap_step l)) as (v & Hv & (cm & c & ? & ? & ?)%configmap_step_done);
      [do 3 right; left|]. exists cm, c. split_and!; [done..|]. by eapply accepted_incl.
  - destruct (Hstep (pdb_step l)) as (v & Hv & (p & ? & Hp)%pdb_step_done); [do 4 right; left|].
    exists p. split; [done|]. case_bool_decide; by eapply accepted_incl.
Qed.

Lemma status_run_done l w t : status_run l None w None → w ⊆ t → status_reconciled l t.
Proof.
  intros (w1 & w2 & c & -> & (got & -> & Hc) & H) Hw. destruct c as [ready|e]; [|by destruct H].
  destruct H as (now & w3 & -> & H). exists got, ready, now. split_and!.
  - apply Hw. left.
  - done.
  - apply Hw. right. left.
  - cbv zeta. destruct (LimitadorStatus_Equals (lim_Status l) (next_status l now ready)); [by left|right].
    destruct H as (e & -> & He). exists e. split; [apply Hw; do 2 right; left|exact (eq_sym He)].
Qed.

Lemma Repeat_panics s n msg :
  Repeat s n = Panicked msg ↔ (n < 0)%Z ∧ msg = "strings: negative Repeat count".
Proof.
  unfold Repeat. destruct (Z.ltb_spec n 0); split; intros H'; simplify_eq; try done;
    destruct H'; [by subst|lia].
Qed.

Lemma DeploymentArgs_panics l so msg :
  DeploymentArgs l so = Panicked msg → ∃ v, spec_Verbosity (lim_Spec l) = Some v ∧ (v < 0)%Z.
Proof.
  unfold DeploymentArgs. destruct (spec_Verbosity (lim_Spec l)) as [v|]; simpl; [|done].
  destruct (Repeat "v" v) as [vs|m] eqn:Hv; simpl; [done|].
  apply Repeat_panics in Hv as [? _]. eauto.
Qed.

Lemma spec_panic_verbosity l w msg :
  spec_panic l w msg → ∃ v, spec_Verbosity (lim_Spec l) = Some v ∧ (v < 0)%Z.
Proof.
  intros (w1 & w2 & _ & _ & r & _ & Ho). destruct r as [so|e]; [|done].
  destruct (DeploymentArgs l so) as [args|m] eqn:Ha; [done|]. by eapply DeploymentArgs_panics.
Qed.

Lemma negative_verbosity_inadmissible s v :
  spec_Verbosity s = Some v → (v < 0)%Z → admissible s = false.
Proof.
  intros Hv Hn. destruct (admissible s) eqn:Ha; [|done].
  apply admissible_rules in Ha as (_ & _ & Hr & _). unfold rule_verbosity in Hr. rewrite Hv in Hr.
  apply andb_true_iff in Hr as [Hr _]. apply Z.leb_le in Hr. lia.
Qed.

(** An applied object with its owner: the metadata of an owned object. *)
Lemma SetOwnerReference_meta l kd (obj obj' : struct_of kd) :
  SetOwnerReference l obj = Ok obj' →
  SetControllerReference (lim_ObjectMeta l) (struct_meta kd obj) =
    Ok (om_OwnerReferences (struct_meta kd obj')) ∧
  om_Labels (struct_meta kd obj') = om_Labels (struct_meta kd obj) ∧
  om_Namespace (struct_meta kd obj') = om_Namespace (struct_meta kd obj).
Proof.
  unfold SetOwnerReference.
  destruct (SetControllerReference _ _) as [refs|e]; [|done]. intros [= <-].
  by rewrite map_meta_struct_meta.
Qed.

Lemma PDB_meta l :
  om_Labels (pdb_ObjectMeta (PodDisruptionBudget_of l)) = Labels l ∧
  om_Namespace (pdb_ObjectMeta (PodDisruptionBudget_of l)) = lim_Namespace l.
Proof. unfold PodDisruptionBudget_of. by destruct (spec_PodDisruptionBudget (lim_Spec l)). Qed.

Lemma applied_meta l pods o :
  applied l pods o → obj_kind o ≠ KPod →
  ∃ m, SetControllerReference (lim_ObjectMeta l) m = Ok (om_OwnerReferences (obj_meta o)) ∧
    om_Labels (obj_meta o) = Labels l ∧ om_Namespace (obj_meta o) = lim_Namespace l.
Proof.
  destruct o as [[] o]; simpl; try done.
  - intros Ho _. destruct (SetOwnerReference_meta l KService _ _ Ho) as (? & ? & ?). eauto.
  - intros (args & _ & _ & Ho) _.
    destruct (SetOwnerReference_meta l KDeployment _ _ Ho) as (? & ? & ?). eauto.
  - intros (cm & Hcm & Ho) _.
    destruct (SetOwnerReference_meta l KConfigMap _ _ Ho) as (? & Hl & Hn). simpl in Hl, Hn.
    rewrite (LimitsConfigMap_meta _ _ Hcm) in Hl, Hn. eauto.
  - intros (_ & Ho) _.
    destruct (SetOwnerReference_meta l KPodDisruptionBudget _ _ Ho) as (? & Hl & Hn).
    simpl in Hl, Hn. destruct (PDB_meta l) as [Hl' Hn']. rewrite Hl', Hn' in *. eauto.
Qed.

(** The object applied, of a kind that is owned, is a function of the resource. *)
Lemma applied_unique l pods1 pods2 kd (o1 o2 : struct_of kd) :
  applied l pods1 (Obj kd o1) → applied l pods2 (Obj kd o2) → kd ≠ KPod → o1 = o2.
Proof.
  destruct kd; simpl; try done.
  - intros H1 H2 _. congruence.
  - intros (args1 & Ha1 & _ & H1) (args2 & Ha2 & _ & H2) _. rewrite Ha1 in Ha2.
    injection Ha2 as <-. rewrite H1 in H2. by injection H2.
  - intros (cm1 & Hc1 & H1) (cm2 & Hc2 & H2) _. rewrite Hc1 in Hc2. injection Hc2 as <-.
    rewrite H1 in H2. by injection H2.
  - intros [_ H1] [_ H2] _. rewrite H1 in H2. by injection H2.
Qed.

Lemma permitted_duty l pods e : duty l pods e → permitted (ev_call e) = true.
Proof.
  destruct e as [c x]. destruct c as [kd key|sel ns|o opts|o opts|o|o|o| | | | | |]; simpl; try done.
  - by destruct kd.
  - intros [_ Ho]. by destruct o as [[] o].
  - by intros [_ (now & ready & -> & _)].
  - by destruct o as [[] o].
  - by destruct o as [[] o].
Qed.

(** An apply of a run that read [l]. *)
Lemma applied_on logger ctx req t out l ob opts r :
  runs (Reconcile logger ctx req) t out → Ev (Get KLimitador req) (Ok l) ∈ t →
  Ev (Patch_Apply ob opts) r ∈ t → ∃ pods, opts = apply_opts ∧ applied l pods ob.
Proof.
  intros Hr Hl He. destruct (Reconcile_on _ _ _ _ _ _ Hr Hl) as (w & pods & Hw & [Hd _] & _).
  assert (Het : Ev (Patch_Apply ob opts) r ∈ traffic t) by by apply elem_traffic.
  rewrite Hw in Het. apply elem_of_cons in Het as [Het|Het].
  { by apply (f_equal (λ e, is_write (ev_call e))) in Het. }
  rewrite Forall_forall in Hd. destruct (Hd _ Het) as [Hdu _]. by exists pods.
Qed.

Lemma spec_panic_writes l w msg : spec_panic l w msg → Forall (λ e, rank e ≤ 2) (writes w).
Proof.
  intros (w1 & w2 & -> & H1 & H2). rewrite writes_app. apply Forall_app. split.
  - pose proof (in_order_ordered l [] [1; 2] [service_step l; pvc_step l] 1 2 w1 None) as Ho.
    destruct Ho as [Ho _]; [|by repeat constructor..|done|].
    + apply Forall2_cons; split; [exact (service_step_ordered l [])|].
      apply Forall2_cons; split; [exact (pvc_step_ordered l [])|]. constructor.
    + rewrite Forall_forall in Ho. apply Forall_forall.
      intros e [_ He]%elem_writes. by destruct (Ho _ He) as [_ [_ ?]].
  - destruct H2 as (r & Hs%storage_options_reads & _). apply Forall_forall.
    intros e [Hwr He]%elem_writes. rewrite Forall_forall in Hs.
    by destruct (Hs _ He) as (ref & got & _ & ->).
Qed.

Lemma pods_run_none l w r sel ns :
  pods_run l w r None → Ev (ListPods sel ns) (Ok []) ∈ w → r = Result_requeue.
Proof.
  intros H He. destruct (pods_run_ordered _ _ _ _ H) as (pods & Hd & _).
  rewrite Forall_forall in Hd. destruct (Hd _ He) as [(_ & _ & Hps) _].
  specialize (Hps [] eq_refl). destruct H as (listed & w1 & -> & H).
  destruct (Hd (Ev (ListPods (SelectorLabels l) (lim_Namespace l)) listed)) as [(_ & _ & Hq) _];
    [left|].
  destruct listed as [ps|e]; [|by destruct H as (_ & _ & [=])].
  rewrite (Hq ps eq_refl), <-Hps in H. simpl in H. by destruct H as (_ & -> & _).
Qed.

(** A run whose read of the resource failed. *)
Lemma read_failed logger ctx req t o e :
  runs (Reconcile logger ctx req) t o → Ev (Get KLimitador req) (Err e) ∈ t →
  traffic t = [Ev (Get KLimitador req) (Err e)] ∧
  o = Done (Result_zero, if Err_IsNotFound e then None else Some (ErrExt e)).
Proof.
  intros Hr Hin. destruct (does_runs _ _ _ _ (Reconcile_does logger ctx req) Hr)
    as (got & w & Hw & H).
  destruct (Reconcile_footprint _ _ _ _ _ Hr) as (got' & w' & Hw' & H').
  rewrite Hw' in Hw. pose proof (f_equal (λ v, head v ≫= read_resource) Hw) as Hg.
  injection Hg as <-. pose proof (f_equal tail Hw) as Ht. simpl in Ht. subst w'.
  assert (He : Ev (Get KLimitador req) (Err e) ∈ traffic t) by by apply elem_traffic.
  rewrite Hw' in He. apply elem_of_cons in He as [He|He].
  - apply (f_equal read_resource) in He. injection He as <-. by destruct H as [-> ->].
  - destruct got' as [l|e']; [|subst w; by apply elem_of_nil in He].
    destruct H' as (_ & pods & Hd & _). rewrite Forall_forall in Hd. by destruct (Hd _ He) as [[] _].
Qed.

Lemma status_run_clean l specErr w : status_run l specErr w None → clean w.
Proof.
  intros (w1 & w2 & c & -> & H1 & H2). apply Forall_app. split.
  - destruct specErr; [destruct H1 as [-> _]; constructor|].
    destruct H1 as (g & -> & _). by apply Forall_singleton.
  - destruct c as [ready|e]; [|by destruct H2]. destruct H2 as (now & w3 & -> & H3).
    apply Forall_cons. split; [done|].
    destruct (LimitadorStatus_Equals _ _); [destruct H3 as [-> _]; constructor|].
    destruct H3 as (e & -> & He). by apply Forall_singleton.
Qed.

Lemma object_run_clean l w : object_run l w None → clean w.
Proof.
  intros (w1 & w2 & r & specErr & statusErr & -> & H1 & H2 & He).
  destruct specErr as [e|]; [done|]. subst statusErr. apply Forall_app. split.
  - by eapply fail_stop_None, spec_run_fail_stop.
  - by eapply status_run_clean.
Qed.

(** A run that ends without an error on a resource it keeps: the objects, the
    pods and the status, in this order, each without an error. *)
Lemma Reconcile_success_run logger ctx req t r l :
  runs (Reconcile logger ctx req) t (Done (r, None)) → Ev (Get KLimitador req) (Ok l) ∈ t →
  om_DeletionTimestamp (lim_ObjectMeta l) = None →
  ∃ w1 w2 w3 r', traffic t = Ev (Get KLimitador req) (Ok l) :: w1 ++ w2 ++ w3 ∧
    in_order (owned_plan l) w1 None ∧ pods_run l w2 r' None ∧ status_run l None w3 None.
Proof.
  intros Hr Hl Hd. destruct (Reconcile_on _ _ _ _ _ _ Hr Hl) as (w & pods & Hw & _ & Hrun).
  rewrite Hw in Hrun.
  destruct (reconcile_run_on _ _ _ _ Hrun)
    as [(e & _ & _ & [=])|[([? Hx] & _)|(_ & [(err & [= _ <-] & H)|(msg & [=] & _)])]];
    [congruence|].
  destruct H as (w1 & w2 & r' & specErr & statusErr & -> & H1 & H2 & He).
  destruct specErr as [e|]; [done|]. subst statusErr.
  destruct H1 as [(e & _ & _ & [=])|(w3 & w4 & -> & H3 & H4)].
  exists w3, w4, w2, r'. by rewrite Hw, app_assoc.
Qed.

(** ** Theorems *)

(** C2: success means reconciled. A run that ends without an error, on a
    resource that is not being deleted, had every object the resource asks
    for accepted by the API server (Service, Deployment, ConfigMap, and the
    disruption budget and volume claim where asked for), every object it does
    not ask for deleted or gone, an existing claim left alone, and the status
    computed from the Deployment stored or already there. *)
Theorem Reconcile_success logger ctx req t r l :
  runs (Reconcile logger ctx req) t (Done (r, None)) → Ev (Get KLimitador req) (Ok l) ∈ t →
  om_DeletionTimestamp (lim_ObjectMeta l) = None →
  objects_reconciled l t ∧ status_reconciled l t.
Proof.
  intros Hr Hl Hd.
  destruct (Reconcile_success_run _ _ _ _ _ _ Hr Hl Hd) as (w1 & w2 & w3 & r' & Hw & H1 & _ & H3).
  assert (Hsub : w1 ++ w2 ++ w3 ⊆ t) by (intros e He; apply (elem_traffic e t); rewrite Hw; by right).
  split.
  - eapply owned_plan_done; [exact H1|]. intros e He. apply Hsub. rewrite !elem_of_app. auto.
  - eapply status_run_done; [exact H3|]. intros e He. apply Hsub. rewrite !elem_of_app. auto.
Qed.

(** C26: the desired objects are a function of the resource's name, namespace,
    specification and owner references. Two runs that read resources which
    agree on these, in any context and against any server, apply equal objects
    of each owned kind: reconciling again, after whatever change of status,
    generation or version, sends the same state. *)
Theorem Reconcile_deterministic logger1 logger2 ctx1 ctx2 req1 req2 t1 t2 out1 out2 l1 l2 kd
    o1 o2 p1 p2 r1 r2 :
  runs (Reconcile logger1 ctx1 req1) t1 out1 → runs (Reconcile logger2 ctx2 req2) t2 out2 →
  Ev (Get KLimitador req1) (Ok l1) ∈ t1 → Ev (Get KLimitador req2) (Ok l2) ∈ t2 →
  same_resource l1 l2 →
  Ev (Patch_Apply (Obj kd o1) p1) r1 ∈ t1 → Ev (Patch_Apply (Obj kd o2) p2) r2 ∈ t2 →
  kd ≠ KPod → o1 = o2 ∧ p1 = p2.
Proof.
  intros Hr1 Hr2 Hl1 Hl2 Hsame He1 He2 Hk.
  destruct (applied_on _ _ _ _ _ _ _ _ _ Hr1 Hl1 He1) as (pods1 & -> & Ha1).
  destruct (applied_on _ _ _ _ _ _ _ _ _ Hr2 Hl2 He2) as (pods2 & -> & Ha2).
  rewrite <-Hsame in Ha2. split; [|done]. by eapply applied_unique.
Qed.

(** C32: everything applied is owned. Each apply forces ownership under the
    operator's field manager; an applied object other than a pod carries the
    owner references of the resource, its labels and its namespace; a pod
    patch carries one annotation and nothing else. *)
Theorem Reconcile_applies_owned logger ctx req t out l ob opts r :
  runs (Reconcile logger ctx req) t out → Ev (Get KLimitador req) (Ok l) ∈ t →
  Ev (Patch_Apply ob opts) r ∈ t →
  opts = {| ao_ForceOwnership := true; ao_FieldOwner := FieldManagerName |} ∧
  if bool_decide (obj_kind ob = KPod)
  then om_Labels (obj_meta ob) = ∅ ∧ om_OwnerReferences (obj_meta ob) = [] ∧
       ∃ rv, om_Annotations (obj_meta ob) = Some {[ PodAnnotationConfigMapResourceVersion := rv ]}
  else ∃ m, SetControllerReference (lim_ObjectMeta l) m = Ok (om_OwnerReferences (obj_meta ob)) ∧
       om_Labels (obj_meta ob) = Labels l ∧ om_Namespace (obj_meta ob) = lim_Namespace l.
Proof.
  intros Hr Hl He. destruct (applied_on _ _ _ _ _ _ _ _ _ Hr Hl He) as (pods & -> & Ha).
  split; [done|]. case_bool_decide as Hk; [|by eapply applied_meta].
  destruct ob as [[] ob]; try done. destruct Ha as (pod & rv & _ & ->). simpl. eauto.
Qed.

(** C20: only a negative verbosity panics, which the CRD does not admit. A run
    that panics has read a resource whose verbosity is negative, so that its
    admission rules reject it, and has written its Service and volume claim at
    most: no Deployment and no status. *)
Theorem Reconcile_panics logger ctx req t msg :
  runs (Reconcile logger ctx req) t (Panicked msg) →
  ∃ l v, Ev (Get KLimitador req) (Ok l) ∈ t ∧ spec_Verbosity (lim_Spec l) = Some v ∧ (v < 0)%Z ∧
    admissible (lim_Spec l) = false ∧ Forall (λ e, rank e ≤ 2) (writes t).
Proof.
  intros Hr. pose proof (does_runs _ _ _ _ (Reconcile_does logger ctx req) Hr)
    as (got & w & Hw & H).
  destruct got as [l|e]; [|by destruct H].
  destruct H as [(e & _ & _ & [=])|H]. destruct (om_DeletionTimestamp _); [by destruct H as [_ [=]]|].
  destruct H as [(err & [=] & _)|(msg' & [= <-] & H)].
  destruct (spec_panic_verbosity _ _ _ H) as (v & Hv & Hn). exists l, v. split_and!; [|done..| |].
  - apply (elem_traffic _ t). rewrite Hw. left.
  - by eapply negative_verbosity_inadmissible.
  - rewrite <-writes_traffic, Hw. change (writes (_ :: w)) with (writes w).
    by eapply spec_panic_writes.
Qed.

(** C28: the request for another run is dropped. While no pod is listed the
    step over the pods asks for a requeue, but [Reconcile], which forwards a
    result only when its [RequeueAfter] is positive, never returns anything
    but the empty result. *)
Theorem Requeue_is_lost logger ctx req t r err ctx' l t' r' sel ns :
  runs (Reconcile logger ctx req) t (Done (r, err)) →
  is_Some (ctx_baseLogger ctx') →
  runs (reconcilePodLimitsHashAnnotation ctx' l) t' (Done (r', None)) →
  Ev (ListPods sel ns) (Ok []) ∈ t' →
  r' = Result_requeue ∧ Requeue r' = true ∧ r = Result_zero.
Proof.
  intros Hr Hc Hr' He.
  assert (r' = Result_requeue) as ->.
  { destruct (does_runs _ _ _ _ (reconcilePodLimitsHashAnnotation_does ctx' l Hc) Hr')
      as (r2 & err2 & [= <- <-] & H).
    eapply pods_run_none; [exact H|by apply elem_traffic]. }
  do 2 (split; [done|]).
  destruct (does_runs _ _ _ _ (Reconcile_does logger ctx req) Hr) as (got & w & Hw & H).
  destruct got as [l0|e]; [|by destruct H as [_ [= -> _]]].
  destruct H as [(e & _ & _ & [= -> _])|H]; [done|].
  destruct (om_DeletionTimestamp _); [by destruct H as [_ [= -> _]]|].
  by destruct H as [(err' & [= -> _] & _)|(msg & [=] & _)].
Qed.

(** C36: nothing is touched for a resource that is gone or going. If the
    resource cannot be read the run makes no further API call and returns the
    error, none when it does not exist; if it is being deleted the run makes
    no further API call either. *)
Theorem Reconcile_leaves_alone logger ctx req t o :
  runs (Reconcile logger ctx req) t o →
  (∀ e, Ev (Get KLimitador req) (Err e) ∈ t →
     traffic t = [Ev (Get KLimitador req) (Err e)] ∧
     o = Done (Result_zero, if Err_IsNotFound e then None else Some (ErrExt e))) ∧
  (∀ l, Ev (Get KLimitador req) (Ok l) ∈ t → is_Some (om_DeletionTimestamp (lim_ObjectMeta l)) →
     traffic t = [Ev (Get KLimitador req) (Ok l)]).
Proof.
  intros Hr. split.
  - intros e He. destruct (read_failed _ _ _ _ _ _ Hr He) as [Hw Ho]. done.
  - intros l Hl Hd. destruct (Reconcile_on _ _ _ _ _ _ Hr Hl) as (w & pods & Hw & _ & Hrun).
    rewrite Hw in Hrun. rewrite Hw.
    destruct (reconcile_run_on _ _ _ _ Hrun) as [(e & _ & -> & _)|[(_ & -> & _)|(Hn & _)]]; [done..|].
    rewrite Hn in Hd. by destruct Hd.
Qed.

(** C37: the RBAC markers are enough. Every API call of every run is covered
    by the permissions declared on the controller. *)
Theorem Reconcile_permitted logger ctx req t o :
  runs (Reconcile logger ctx req) t o → Forall (λ e, permitted (ev_call e) = true) t.
Proof.
  intros Hr. apply Forall_forall. intros e He.
  destruct (is_traffic (ev_call e)) eqn:Ht.
  - destruct (Reconcile_duty _ _ _ _ _ e Hr) as [[got ->]|(l & pods & _ & _ & Hd & _)];
      [by apply elem_traffic|done|]. by eapply permitted_duty.
  - destruct e as [c x]. by destruct c.
Qed.

(** C33: the spans are bracketed. In every run, panics included, each span
    that is started is ended, the innermost first; its parent is the span it
    is nested in; and nothing is recorded on a span that is not open. *)
Theorem Reconcile_spans_bracketed {SD : EqDecision Span} logger ctx req t o :
  runs (Reconcile logger ctx req) t o → well_bracketed t.
Proof. intros Hr. apply (keeps_monitor any_line _ _ _ (keeps_Reconcile any_line logger ctx req) Hr). Qed.

(** C24: no failure is swallowed. If a run ends without an error, every
    write it made was accepted by the API server, deletions of what does not
    exist included, the status patch too. *)
Theorem Reconcile_reports_failures logger ctx req t r :
  runs (Reconcile logger ctx req) t (Done (r, None)) → Forall (λ e, write_error e = None) t.
Proof.
  intros Hr. pose proof (does_runs _ _ _ _ (Reconcile_does logger ctx req) Hr)
    as (got & w & Hw & H).
  assert (Hc : clean w).
  { destruct got as [l|e]; [|destruct H as [-> _]; constructor].
    destruct H as [(e & _ & _ & [=])|H].
    destruct (om_DeletionTimestamp _); [destruct H as [-> _]; constructor|].
    destruct H as [(err & [= _ <-] & H)|(msg & [=] & _)]. by apply object_run_clean in H. }
  apply Forall_forall. intros e He. destruct (is_write (ev_call e)) eqn:Hwr.
  - assert (Het : e ∈ traffic t) by (apply elem_traffic; split; [by apply is_write_traffic|done]).
    rewrite Hw in Het. apply elem_of_cons in Het as [->|Het]; [done|].
    by apply (proj1 (Forall_forall _ _) Hc).
  - destruct (write_error e) eqn:Hx; [|done].
    assert (is_write (ev_call e) = true) by (apply write_error_is_write; congruence). congruence.
Qed.

End outcome.

(** ** Witnesses *)

#[local] Existing Instances Sample.platform Sample.condition_codec Sample.limits_codec
  Sample.limitador_codec Sample.controller_util Sample.status_conditions Sample.span_eq_dec.

Lemma Reconcile_success_witness :
  objects_reconciled sample_disk (log_in disk_world) ∧
  status_reconciled sample_disk (log_in disk_world).
Proof.
  apply (Reconcile_success no_values Background sample_request _ Result_zero).
  - exact (runs_in disk_world).
  - in_log 1.
  - reflexivity.
Defined.

(** The sample at a later generation and version, with a status. *)
Definition sample_later : Limitador :=
  {| lim_TypeMeta := lim_TypeMeta sample;
     lim_ObjectMeta :=
       {| om_Name := "sample"; om_Namespace := "default"; om_Labels := ∅; om_Annotations := None;
          om_OwnerReferences := []; om_Generation := 4; om_ResourceVersion := "8";
          om_DeletionTimestamp := None |};
     lim_Spec := lim_Spec sample;
     lim_Status := {| status_ObservedGeneration := 3; status_Conditions := []; status_Service := None |} |}.

Definition later_world : world := without_pods (cluster sample_later no_error).

(** Two runs, before and after, of which only one finds pods. *)
Lemma Reconcile_deterministic_witness :
  memory_deployment = memory_deployment ∧ apply_opts = apply_opts.
Proof.
  apply (Reconcile_deterministic no_values no_values Background Background sample_request sample_request
    (log_in memory_world) (log_in later_world) (end_of reconcile_sample memory_world)
    (end_of reconcile_sample later_world) sample sample_later KDeployment
    memory_deployment memory_deployment apply_opts apply_opts None None).
  - exact (runs_in memory_world).
  - exact (runs_in later_world).
  - in_log 1.
  - in_log 1.
  - split; reflexivity.
  - in_log 15.
  - in_log 15.
  - discriminate.
Defined.

Lemma Reconcile_applies_owned_witness :
  ∃ m, SetControllerReference (lim_ObjectMeta sample) m = Ok (om_OwnerReferences (dep_ObjectMeta memory_deployment)) ∧
    om_Labels (dep_ObjectMeta memory_deployment) = Labels sample.
Proof.
  destruct (Reconcile_applies_owned no_values Background sample_request (log_in memory_world)
    (end_of reconcile_sample memory_world) sample (Obj KDeployment memory_deployment) apply_opts None)
    as [_ (m & H1 & H2 & _)].
  - exact (runs_in memory_world).
  - in_log 1.
  - in_log 15.
  - exists m. split; [exact H1|exact H2].
Defined.

Lemma Reconcile_panics_witness :
  end_of reconcile_sample panic_world = Panicked "strings: negative Repeat count" ∧
  ∃ l v, Ev (Get KLimitador sample_request) (Ok l) ∈ log_in panic_world ∧
    spec_Verbosity (lim_Spec l) = Some v ∧ (v < 0)%Z ∧ admissible (lim_Spec l) = false ∧
    Forall (λ e, rank e ≤ 2) (writes (log_in panic_world)).
Proof.
  split; [reflexivity|].
  apply (Reconcile_panics no_values Background sample_request (log_in panic_world)
           "strings: negative Repeat count").
  exact (runs_in panic_world).
Defined.

Lemma Requeue_is_lost_witness :
  end_of (reconcilePodLimitsHashAnnotation sample_context sample) (without_pods memory_world) =
    Done (Result_requeue, None) ∧
  end_of reconcile_sample (without_pods memory_world) = Done (Result_zero, None) ∧
  Requeue Result_requeue = true.
Proof.
  split; [reflexivity|]. split; [reflexivity|].
  apply (Requeue_is_lost no_values Background sample_request (log_in (without_pods memory_world))
    Result_zero None sample_context sample
    (log_of (reconcilePodLimitsHashAnnotation sample_context sample) (without_pods memory_world))
    Result_requeue (SelectorLabels sample) "default").
  - exact (runs_in (without_pods memory_world)).
  - by eexists.
  - exact (sample_runs (reconcilePodLimitsHashAnnotation sample_context sample)
             (without_pods memory_world)).
  - in_log 1.
Defined.

(** The resource does not exist. *)
Lemma Reconcile_leaves_alone_witness :
  traffic (log_in empty_world) = [Ev (Get KLimitador sample_request) (Err NotFoundError)] ∧
  end_of reconcile_sample empty_world = Done (Result_zero, None).
Proof.
  apply (proj1 (Reconcile_leaves_alone no_values Background sample_request (log_in empty_world)
    (end_of reconcile_sample empty_world) (runs_in empty_world)) NotFoundError).
  in_log 1.
Defined.

Lemma Reconcile_permitted_witness :
  length (log_in redis_world) = 70 ∧
  Forall (λ e, permitted (ev_call e) = true) (log_in redis_world).
Proof.
  split; [by_running|].
  apply (Reconcile_permitted no_values Background sample_request _ (end_of reconcile_sample redis_world)).
  exact (runs_in redis_world).
Defined.

Lemma Reconcile_spans_bracketed_witness :
  well_bracketed (log_in panic_world) ∧ well_bracketed (log_in failing_world).
Proof.
  split.
  - apply (Reconcile_spans_bracketed no_values Background sample_request _
      (end_of reconcile_sample panic_world)). exact (runs_in panic_world).
  - apply (Reconcile_spans_bracketed no_values Background sample_request _
      (end_of reconcile_sample failing_world)). exact (runs_in failing_world).
Defined.

Lemma Reconcile_reports_failures_witness :
  Forall (λ e, write_error e = None) (log_in disk_world).
Proof.
  apply (Reconcile_reports_failures no_values Background sample_request (log_in disk_world) Result_zero).
  exact (runs_in disk_world).
Defined.
