(* ===== verification/LogLines.v ===== *)
(** * What a reconciliation logs

    Two facts about the log lines of a run. Each line carries the values of the
    span in which it is written, with one exception, the line of
    [SetOwnerReference]; and each write is announced by a line that says what
    is done to which object, just before it. The first is an instance of the
    test of Spans.v; the second has a monitor of its own, whose state is the
    line of the call before. *)

From S2P Require Import Prelude Kube Helpers Types Effects Observability Names Options Objects.
From S2P Require Import BaseReconciler Status Controller Spans Sample.

Create HintDb announced discriminated.

#[export] Instance TypeMeta_eq_dec : EqDecision TypeMeta.
Proof. solve_decision. Defined.

Section log_lines.
Context {PF : Platform}.

(** ** Vocabulary *)

(** The spans that are open after a sequence of calls, the innermost first. *)
Definition open_spans {SD : EqDecision Span} (t : list event) : list Span :=
  default [] (monitor (span_stack any_line) [] t).

(** Where a logger may write: the reconciler's own logger, owner-reference
    failures; the logger that names a span, while that span is the innermost;
    the one [Reconcile] makes for itself, outside the nested spans. *)
Definition logger_fits (rl base : Logger) (s : list Span) (lg : Logger) (line : log_line) : Prop :=
  (lg = rl ∧ is_owner_line line = true) ∨
  (∃ top rest, s = top :: rest ∧
     (lg = refreshed_logger base top ∨ rest = [] ∧ lg = own_logger base top)).

(** The line that announces a write, and the object it names. *)
Definition announcement (c : call) : option (string * object) :=
  match c with
  | Patch_Apply o _ => Some ("apply object", o)
  | Status_Patch_Apply o _ => Some ("apply object status", o)
  | Create o => Some ("create object", o)
  | Update o => Some ("update object", o)
  | Delete o => Some ("delete object", o)
  | _ => None
  end.

(** A sequence of calls that ends in this line. *)
Definition ends_in_line (t : list event) (line : log_line) : Prop :=
  ∃ t' lg x, t = t' ++ [Ev (LogLine lg line) x].

(** ** The logger of a line *)

Section logger.
Context {SD : EqDecision Span} {LD : EqDecision Logger} (rl base : Logger).

#[local] Instance logger_fits_dec s lg line : Decision (logger_fits rl base s lg line).
Proof.
  unfold logger_fits. destruct s as [|top rest].
  - destruct (decide (lg = rl ∧ is_owner_line line = true)) as [H|H]; [left; by left|right].
    by intros [?|(? & ? & [=] & _)].
  - destruct (decide ((lg = rl ∧ is_owner_line line = true) ∨ lg = refreshed_logger base top ∨
                      (rest = [] ∧ lg = own_logger base top))) as [H|H].
    + left. destruct H as [?|?]; [by left|]. right. by exists top, rest.
    + right. intros [?|(? & ? & [= <- <-] & ?)]; apply H; [by left|by right].
Qed.

Definition fits (s : list Span) (lg : Logger) (line : log_line) : bool :=
  bool_decide (logger_fits rl base s lg line).

#[export] Instance fits_accepts : Accepts fits rl base.
Proof.
  split; intros; apply bool_decide_eq_true_2.
  - right. do 2 eexists. split; [done|]. by left.
  - right. do 2 eexists. split; [done|]. by right.
  - left. split; [done|]. by apply bool_decide_eq_true_2.
Qed.

(** A stricter test changes what is refused, not the stack. *)
Lemma span_stack_any log_ok s e s' :
  span_stack log_ok s e = Some s' → span_stack any_line s e = Some s'.
Proof. destruct e as [[] x]; simpl; try done. by destruct (log_ok _ _ _). Qed.

Lemma monitor_any log_ok s t s' :
  monitor (span_stack log_ok) s t = Some s' → monitor (span_stack any_line) s t = Some s'.
Proof.
  revert s. induction t as [|e t IH]; intros s; simpl; [done|].
  destruct (span_stack log_ok s e) as [s1|] eqn:He; [|done].
  rewrite (span_stack_any _ _ _ _ He). apply IH.
Qed.

Lemma monitor_line log_ok t1 lg line x t2 s' :
  monitor (span_stack log_ok) [] (t1 ++ Ev (LogLine lg line) x :: t2) = Some s' →
  log_ok (open_spans t1) lg line = true.
Proof.
  rewrite monitor_app. unfold open_spans.
  destruct (monitor (span_stack log_ok) [] t1) as [s|] eqn:H1; [|done].
  rewrite (monitor_any _ _ _ _ H1). simpl. by destruct (log_ok s lg line).
Qed.
End logger.

(** ** Writes are announced *)

Definition announces (line : log_line) (msg : string) (o : object) : bool :=
  match line with
  | Info 0 m [(k1, FKind t); (k2, FString n); (k3, FString ns)] =>
      bool_decide (m = msg ∧ k1 = "GKV" ∧ k2 = "name" ∧ k3 = "namespace" ∧
                   t = obj_type o ∧ n = om_Name (obj_meta o) ∧ ns = om_Namespace (obj_meta o))
  | _ => false
  end.

Lemma announces_line line msg o :
  announces line msg o = true → line = Info 0 msg (object_fields o).
Proof.
  destruct line as [[|v] m fs|]; try done.
  destruct fs as [|[k1 []] [|[k2 []] [|[k3 []] []]]]; try done. simpl.
  by intros (-> & -> & -> & -> & -> & -> & ->)%bool_decide_eq_true.
Qed.

Lemma announces_fields msg o : announces (Info 0 msg (object_fields o)) msg o = true.
Proof. by apply bool_decide_eq_true_2. Qed.

Definition line_of (c : call) : option log_line :=
  match c with LogLine _ line => Some line | _ => None end.

Definition announced_step (s : option log_line) (e : event) : option (option log_line) :=
  match announcement (ev_call e) with
  | Some (msg, o) =>
      match s with
      | Some line => if announces line msg o then Some None else None
      | None => None
      end
  | None => Some (line_of (ev_call e))
  end.

(** Every write of the program has its line, whatever was logged before. *)
Definition announced {A} (p : prog A) : Prop := ∀ s, wpm announced_step p s (λ _ _, True).

Lemma announced_Ret {A} (a : A) : announced (Ret a).
Proof. done. Qed.

Lemma announced_of_outcome {A} (o : outcome A) : announced (of_outcome o).
Proof. by destruct o. Qed.

Lemma announced_bind {A B} (p : prog A) (f : A → prog B) :
  announced p → (∀ a, announced (f a)) → announced (p ≫= f).
Proof.
  intros Hp Hf s. apply wpm_bind. eapply wpm_mono; [apply Hp|].
  intros [a|msg] s' _; [apply Hf|done].
Qed.

Lemma announced_deferring {A} fin (p : prog A) :
  announced fin → announced p → announced (deferring fin p).
Proof.
  intros Hfin Hp s. apply wpm_deferring. eapply wpm_mono; [apply Hp|].
  intros o s' _. eapply wpm_mono; [apply Hfin|]. by intros [].
Qed.

Lemma announced_call c : announcement c = None → announced (do_call c).
Proof. intros Hc s x. unfold announced_step. simpl. by rewrite Hc. Qed.

Lemma announced_step_write c msg o x :
  announcement c = Some (msg, o) →
  announced_step (Some (Info 0 msg (object_fields o))) (Ev c x) = Some None.
Proof. intros Hc. unfold announced_step. simpl ev_call. by rewrite Hc, announces_fields. Qed.

(** The line and the write. *)
Lemma announced_write {B} lg c msg o (f : reply c → prog B) :
  announcement c = Some (msg, o) → (∀ x, announced (f x)) →
  announced (_ ← log_info lg msg (object_fields o); x ← do_call c; f x).
Proof.
  intros Hc Hf s x. change (wpm announced_step (x ← do_call c; f x)
    (Some (Info 0 msg (object_fields o))) (λ _ _, True)).
  intros y. rewrite (announced_step_write _ _ _ _ Hc). apply Hf.
Qed.

Lemma monitor_ends s t line :
  monitor announced_step s t = Some (Some line) → t = [] ∧ s = Some line ∨ ends_in_line t line.
Proof.
  induction t as [|e t _] using rev_ind; [intros [= ->]; by left|].
  rewrite monitor_app. destruct (monitor announced_step s t) as [s'|]; [|done]. simpl.
  unfold announced_step. intros H. right. exists t.
  destruct e as [c x], c; simpl in *; try done;
    try (destruct s'; [|done]; by destruct (announces _ _ _)).
  injection H as ->. by exists logger, x.
Qed.

Lemma monitor_write t1 c x t2 s' msg o :
  monitor announced_step None (t1 ++ Ev c x :: t2) = Some s' → announcement c = Some (msg, o) →
  ends_in_line t1 (Info 0 msg (object_fields o)).
Proof.
  rewrite monitor_app. destruct (monitor announced_step None t1) as [s|] eqn:H1; [|done].
  cbn [mbind option_bind monitor]. intros H Hc. destruct (announced_step s (Ev c x)) eqn:Hs; [|done].
  unfold announced_step in Hs. simpl ev_call in Hs. rewrite Hc in Hs.
  destruct s as [line|]; [|done]. destruct (announces line msg o) eqn:Ha; [|done].
  apply announces_line in Ha as ->. by apply monitor_ends in H1 as [[_ [=]]|H1].
Qed.

(** ** The operator *)

#[local] Hint Resolve announced_Ret announced_of_outcome : announced.
#[local] Hint Extern 1 (announced _) => (apply announced_call; reflexivity) : announced.

(** [announced_solve] goes through a program: an announced write first, then
    binds, deferred calls, case distinctions, and the hints. *)
Ltac announced_solve :=
  repeat
    match goal with
    | |- announced (mbind _ (log_info _ _ _)) =>
        eapply announced_write; [reflexivity|intros ?]
    | |- announced (mbind _ _) => apply announced_bind; [|intros ?]
    | |- announced (deferring _ _) => apply announced_deferring
    | |- announced (match ?x with _ => _ end) => destruct x
    | |- announced (let _ := _ in _) => cbv zeta
    end;
  eauto 3 with announced.

Lemma announced_RecordError span err d : announced (RecordError span err d).
Proof. unfold RecordError. announced_solve. Qed.

Lemma announced_RecordReconcileResult span r err : announced (RecordReconcileResult span r err).
Proof. unfold RecordReconcileResult. announced_solve. Qed.

Lemma announced_tracer_Start ctx name opts : announced (tracer_Start ctx name opts).
Proof. unfold tracer_Start. announced_solve. Qed.

#[local] Hint Resolve announced_RecordError announced_RecordReconcileResult announced_tracer_Start
  : announced.

Lemma announced_DeleteResource ctx o : announced (DeleteResource ctx o).
Proof. unfold DeleteResource. announced_solve. Qed.

Lemma announced_CreateResource ctx o : announced (CreateResource ctx o).
Proof. unfold CreateResource. announced_solve. Qed.

Lemma announced_UpdateResource ctx o : announced (UpdateResource ctx o).
Proof. unfold UpdateResource. announced_solve. Qed.

Lemma announced_UpdateResourceStatus ctx o : announced (UpdateResourceStatus ctx o).
Proof. unfold UpdateResourceStatus. announced_solve. Qed.

#[local] Hint Resolve announced_DeleteResource announced_CreateResource
  announced_UpdateResourceStatus : announced.

Lemma announced_ReconcileResource ctx o : announced (ReconcileResource ctx o).
Proof. unfold ReconcileResource. announced_solve. Qed.

#[local] Hint Resolve announced_ReconcileResource : announced.

Lemma announced_ReconcilePersistentVolumeClaim ctx p :
  announced (ReconcilePersistentVolumeClaim ctx p).
Proof. unfold ReconcilePersistentVolumeClaim. announced_solve. Qed.

Lemma announced_reconcile_owned {CU : ControllerUtil} rl lg ctx span l kd (obj : struct_of kd) rec m d :
  (∀ o, announced (rec ctx o)) → announced (reconcile_owned rl lg ctx span l obj rec m d).
Proof. intros Hrec. unfold reconcile_owned, SetOwnerReference_logged. announced_solve. Qed.

Lemma announced_StartResourceSpan ctx ty ns n : announced (StartResourceSpan ctx ty ns n).
Proof. unfold StartResourceSpan. announced_solve. Qed.

Lemma announced_getDeploymentOptions l : announced (getDeploymentOptions l).
Proof.
  unfold getDeploymentOptions, getDeploymentStorageOptions, RedisDeploymentOptions,
    RedisCachedDeploymentOptions, validateRedisSecret.
  announced_solve.
Qed.

#[local] Hint Resolve announced_ReconcilePersistentVolumeClaim announced_reconcile_owned
  announced_StartResourceSpan announced_getDeploymentOptions : announced.

Lemma announced_annotate_pods ctx span rv pods : announced (annotate_pods ctx span rv pods).
Proof.
  induction pods as [|p ps IH]; [done|]. cbn [annotate_pods]. unfold ReconcilePodAnnotation.
  announced_solve.
Qed.

#[local] Hint Resolve announced_annotate_pods : announced.

Lemma announced_reconcilePodLimitsHashAnnotation ctx l :
  announced (reconcilePodLimitsHashAnnotation ctx l).
Proof.
  unfold reconcilePodLimitsHashAnnotation, reconcilePodLimitsHashAnnotation_body. announced_solve.
Qed.

Section operator.
Context {CC : ConditionCodec} {LC : LimitsCodec} {JC : LimitadorCodec} {CU : ControllerUtil}
  {SC : StatusConditions}.

Lemma announced_reconcileService rl ctx l : announced (reconcileService rl ctx l).
Proof. unfold reconcileService, ReconcileService. announced_solve. Qed.

Lemma announced_reconcilePVC rl ctx l : announced (reconcilePVC rl ctx l).
Proof. unfold reconcilePVC. announced_solve. Qed.

Lemma announced_reconcileDeployment rl ctx l : announced (reconcileDeployment rl ctx l).
Proof. unfold reconcileDeployment, ReconcileDeployment. announced_solve. Qed.

Lemma announced_reconcileLimitsConfigMap rl ctx l : announced (reconcileLimitsConfigMap rl ctx l).
Proof. unfold reconcileLimitsConfigMap, ReconcileConfigMap. announced_solve. Qed.

Lemma announced_reconcilePdb rl ctx l : announced (reconcilePdb rl ctx l).
Proof. unfold reconcilePdb, ReconcilePodDisruptionBudget. announced_solve. Qed.

#[local] Hint Resolve announced_reconcileService announced_reconcilePVC announced_reconcileDeployment
  announced_reconcileLimitsConfigMap announced_reconcilePdb
  announced_reconcilePodLimitsHashAnnotation : announced.

Lemma announced_reconcileSpec rl ctx l : announced (reconcileSpec rl ctx l).
Proof.
  unfold reconcileSpec, StartReconcileSpecSpan, reconcileSpec_body, or_return, RecordSpecCompleted.
  announced_solve.
Qed.

Lemma announced_reconcileStatus ctx l specErr : announced (reconcileStatus ctx l specErr).
Proof.
  unfold reconcileStatus, StartReconcileStatusSpan, reconcileStatus_body, calculateStatus,
    readyCondition, checkLimitadorAvailable, Equals_logged, RecordStatusCompleted.
  announced_solve.
Qed.

#[local] Hint Resolve announced_reconcileSpec announced_reconcileStatus : announced.

Lemma announced_Reconcile logger ctx req : announced (Reconcile logger ctx req).
Proof.
  unfold Reconcile, StartReconcileSpan, Reconcile_body, debug_marshal, Reconcile_object.
  announced_solve.
Qed.

(** ** The property *)

(** C38: the log tells what happens. In every run, a line is written with the
    logger of the innermost open span (outside the nested spans, the one
    [Reconcile] makes for itself), or is the line of [SetOwnerReference] about
    an owner reference that failed, on the logger of the reconciler, with
    neither the resource nor a span; and the call before each write is the log
    line that says what is done to which object. *)
Theorem Reconcile_log_lines {SD : EqDecision Span} {LD : EqDecision Logger}
    logger ctx req t o t1 c x t2 :
  runs (Reconcile logger ctx req) t o → t = t1 ++ Ev c x :: t2 →
  (∀ lg line, c = LogLine lg line →
     logger_fits logger (request_logger logger req) (open_spans t1) lg line) ∧
  (∀ msg obj, announcement c = Some (msg, obj) →
     ends_in_line t1 (Info 0 msg (object_fields obj))).
Proof.
  intros Hr ->. split.
  - intros lg line ->.
    pose proof (keeps_monitor (fits logger (request_logger logger req)) _ _ _
      (keeps_Reconcile _ logger ctx req) Hr) as Hm.
    apply monitor_line in Hm. by apply bool_decide_eq_true in Hm.
  - intros msg obj Hc.
    destruct (wpm_runs _ _ _ _ _ _ (announced_Reconcile logger ctx req None) Hr) as (s & Hm & _).
    by eapply monitor_write.
Qed.
End operator.

End log_lines.

(** ** Witness *)

#[local] Existing Instances Sample.platform Sample.condition_codec Sample.limits_codec
  Sample.limitador_codec Sample.controller_util Sample.status_conditions Sample.span_eq_dec
  Sample.logger_eq_dec.

(** The line written inside the span of the Deployment. *)
Definition deployment_logger : @Logger platform :=
  [("limitador", LogKey sample_request); ("trace_id", LogString "trace"); ("span_id", LogString "5")].

Definition deployment_line : log_line := Info 1 "reconcile deployment" [("error", FError None)].

Lemma Reconcile_log_lines_witness :
  ends_in_line (take 22 (log_in memory_world))
    (Info 0 "apply object" (object_fields (Obj KDeployment memory_deployment))) ∧
  open_spans (take 24 (log_in memory_world)) = [5; 2; 1] ∧
  logger_fits no_values (request_logger no_values sample_request)
    (open_spans (take 24 (log_in memory_world))) deployment_logger deployment_line.
Proof.
  assert (Happly : log_in memory_world !! 22 =
    Some (Ev (Patch_Apply (Obj KDeployment memory_deployment) apply_opts) None))
    by (by_running).
  assert (Hline : log_in memory_world !! 24 = Some (Ev (LogLine deployment_logger deployment_line) tt))
    by (by_running).
  apply take_drop_middle, symmetry in Happly, Hline. split; [|split].
  - eapply (proj2 (Reconcile_log_lines no_values Background sample_request _ _ _ _ _ _
      (runs_in memory_world) Happly)). reflexivity.
  - by_running.
  - eapply (proj1 (Reconcile_log_lines no_values Background sample_request _ _ _ _ _ _
      (runs_in memory_world) Hline)). reflexivity.
Defined.
