(* ===== verification/Progress.v ===== *)
(** * What a healthy cluster guarantees

    The theorems of Loop.v and Outcome.v hold against any API server; here the
    server is one that answers. Then a reconciliation ends without an error,
    and so with everything reconciled. *)

From S2P Require Import Prelude Kube Helpers Types Effects Observability Names Options Objects.
From S2P Require Import BaseReconciler Status Controller Traffic Plan Follows Footprint Sample Loop Outcome.

Section progress.
Context {PF : Platform} {CC : ConditionCodec} {LC : LimitsCodec} {JC : LimitadorCodec}
  {CU : ControllerUtil} {SC : StatusConditions}.

(** ** Vocabulary *)

(** A read that found its object, or was told that there is none. *)
Definition answered {A} (r : result ExtError A) : bool :=
  match r with
  | Ok _ => true
  | Err e => Err_IsNotFound e
  end.

(** The reply of a healthy server: a read is answered, a secret is there with
    its URL, a write is accepted, a deletion perhaps of nothing. *)
Definition favourable (e : event) : bool :=
  let '(Ev c x) := e in
  match c return reply c → bool with
  | Get kd _ =>
      match kd return result ExtError (struct_of kd) → bool with
      | KSecret => λ got, match got with
                          | Ok s => bool_decide (is_Some (sec_Data s !! "URL"))
                          | Err _ => false
                          end
      | _ => answered
      end
  | ListPods _ _ => λ got, match got with Ok _ => true | Err _ => false end
  | Patch_Apply _ _ | Status_Patch_Apply _ _ | Create _ | Update _ =>
      λ err, match err with None => true | Some _ => false end
  | Delete _ => λ err, match delete_error err with None => true | Some _ => false end
  | _ => λ _, true
  end x.

(** An object the operator has just built for the resource. *)
Definition fresh_for (l : Limitador) (m : ObjectMeta) : Prop :=
  om_Namespace m = lim_Namespace l ∧ om_OwnerReferences m = [].

(** A resource whose objects can be built: the verbosity is not negative, a
    Redis storage names its secret, the limits can be marshalled, and the
    resource can be made the owner of a fresh object. *)
Definition buildable (l : Limitador) : Prop :=
  (∀ v, spec_Verbosity (lim_Spec l) = Some v → (0 ≤ v)%Z) ∧
  (uses_redis (backend_of l) = true → is_Some (backend_secret (backend_of l))) ∧
  is_Ok (LimitsConfigMap l) ∧
  is_Ok (json_MarshalIndent_Limitador l) ∧
  (∀ m, fresh_for l m → is_Ok (SetControllerReference (lim_ObjectMeta l) m)).

(** A step that reports no error to a healthy server. *)
Definition succeeds (s : step) : Prop := ∀ w err, s w err → Forall favourable w → err = None.

(** ** Lemmas *)

Lemma in_order_succeeds (steps : list step) : Forall succeeds steps → succeeds (in_order steps).
Proof.
  intros H w err. revert w. induction H as [|s steps Hs H IH]; intros w; simpl.
  { by intros [_ ->]. }
  intros [(e & He & ->)|(w1 & w2 & -> & _ & H2)] Hf; [by apply (Hs w)|].
  apply Forall_app in Hf as [_ Hf]. by eapply IH.
Qed.

Lemma owned_step_succeeds l kd (obj : struct_of kd) (rec : struct_of kd → step) :
  is_Ok (SetControllerReference (lim_ObjectMeta l) (struct_meta kd obj)) →
  (∀ o, succeeds (rec o)) → succeeds (owned_step l obj rec).
Proof.
  intros Hset Hrec w err [(e & He & _)|(o & _ & H)] Hf; [|by eapply Hrec].
  unfold SetOwnerReference in He. by destruct (SetControllerReference _ _).
Qed.

Lemma resource_step_succeeds o : succeeds (resource_step o).
Proof.
  intros w err (e & H). destruct (IsObjectTaggedToDelete _); destruct H as [-> ->].
  - intros [He _]%Forall_cons. simpl in He. by destruct (delete_error e).
  - intros [He _]%Forall_cons. by destruct e.
Qed.

Lemma pvc_resource_step_succeeds p : succeeds (pvc_resource_step p).
Proof.
  intros w err. unfold pvc_resource_step. destruct (IsObjectTaggedToDelete _).
  { intros (e & -> & ->) [He _]%Forall_cons. simpl in He. by destruct (delete_error e). }
  intros ([q|e] & H); [by destruct H as [_ ->]|]. destruct (Err_IsNotFound e) eqn:Hn.
  - destruct H as (r & -> & ->). intros [_ [Hr _]%Forall_cons]%Forall_cons. by destruct r.
  - destruct H as [-> ->]. intros [He _]%Forall_cons. simpl in He. by rewrite Hn in He.
Qed.

Lemma DeploymentArgs_Done l so :
  (∀ v, spec_Verbosity (lim_Spec l) = Some v → (0 ≤ v)%Z) → ∃ args, DeploymentArgs l so = Done args.
Proof.
  intros Hv. destruct (DeploymentArgs l so) as [args|msg] eqn:Ha; [by exists args|].
  destruct (DeploymentArgs_panics _ _ _ Ha) as (v & Hs & Hn). apply Hv in Hs. lia.
Qed.

Lemma storage_options_succeed l w r :
  (uses_redis (backend_of l) = true → is_Some (backend_secret (backend_of l))) →
  storage_options l w r → Forall favourable w → is_Ok r.
Proof.
  unfold storage_options, backend_of, redis_options.
  destruct (spec_Storage (lim_Spec l)) as [[[r'|] [c|] [d|]]|]; simpl; intros Hsec;
    try (by intros [_ ->]).
  all: destruct Hsec as [ref Href]; [done|]; rewrite Href.
  all: intros (got & -> & ->) [Hg _]%Forall_cons; simpl in Hg.
  all: destruct got as [s|e]; [|done]; apply bool_decide_unpack in Hg as [url Hu].
  all: simpl; by rewrite Hu.
Qed.

Lemma deployment_step_succeeds l : buildable l → succeeds (deployment_step l).
Proof.
  intros (Hv & Hsec & _ & _ & Hown) w err (w1 & w2 & r & -> & Ho & H) [Hf1 Hf2]%Forall_app.
  destruct r as [o|e].
  - revert Hf2. eapply owned_step_succeeds; [|intros d; apply resource_step_succeeds|exact H].
    apply Hown. by split.
  - exfalso. destruct Ho as (r & Hs & Ho).
    pose proof (storage_options_succeed _ _ _ Hsec Hs Hf1) as Hr. destruct r as [so|e']; [|done].
    destruct (DeploymentArgs_Done l so Hv) as [args Ha]. rewrite Ha in Ho. simpl in Ho.
    rewrite getDeploymentEnvVar_backend in Ho. destruct (uses_redis (backend_of l)); [|done].
    destruct Hsec as [ref Href]; [done|]. by rewrite Href in Ho.
Qed.

Lemma PVC_fresh l : fresh_for l (pvc_ObjectMeta (PVC l)).
Proof. unfold PVC. destruct (spec_Storage (lim_Spec l) ≫= st_Disk) as [d|]; [by destruct (disk_PVC d)|done]. Qed.

Lemma PDB_fresh l : fresh_for l (pdb_ObjectMeta (PodDisruptionBudget_of l)).
Proof. unfold PodDisruptionBudget_of. by destruct (spec_PodDisruptionBudget (lim_Spec l)). Qed.

Lemma owned_plan_succeeds l : buildable l → succeeds (in_order (owned_plan l)).
Proof.
  intros Hb. pose proof Hb as (_ & _ & Hcm & _ & Hown).
  apply in_order_succeeds. unfold owned_plan. rewrite !Forall_cons. split_and!; [..|by apply Forall_nil].
  - apply owned_step_succeeds; [by apply Hown|]. intros s. apply resource_step_succeeds.
  - apply owned_step_succeeds; [apply Hown, PVC_fresh|]. apply pvc_resource_step_succeeds.
  - by apply deployment_step_succeeds.
  - intros w err. unfold configmap_step. destruct (LimitsConfigMap l) as [cm|e] eqn:Hl; [|by destruct Hcm].
    apply owned_step_succeeds; [|intros c; apply resource_step_succeeds].
    apply Hown. simpl. rewrite (LimitsConfigMap_meta _ _ Hl). by split.
  - apply owned_step_succeeds; [apply Hown, PDB_fresh|]. intros p. apply resource_step_succeeds.
Qed.

Lemma pods_run_succeeds l w r err : pods_run l w r err → Forall favourable w → err = None.
Proof.
  intros (listed & w1 & -> & H) [Hl Hf]%Forall_cons. destruct listed as [pods|e]; [|done].
  destruct (_ || _); [by destruct H as (_ & _ & ->)|].
  destruct H as (got & w2 & -> & H). apply Forall_cons in Hf as [Hg Hf].
  destruct got as [cm|e].
  - destruct H as [_ H]. revert H Hf. apply in_order_succeeds, Forall_fmap, Forall_forall.
    intros p _. apply resource_step_succeeds.
  - simpl in Hg. destruct (Err_IsNotFound e); [|done]. by destruct H as (_ & _ & ->).
Qed.

Lemma spec_run_succeeds l w r err :
  buildable l → spec_run l w r err → Forall favourable w → err = None.
Proof.
  intros Hb [(e & H & _ & ->)|(w1 & w2 & -> & _ & H)] Hf.
  - by pose proof (owned_plan_succeeds l Hb w (Some e) H Hf).
  - apply Forall_app in Hf as [_ Hf]. by eapply pods_run_succeeds.
Qed.

Lemma status_run_succeeds l : succeeds (status_run l None).
Proof.
  intros w err (w1 & w2 & c & -> & (got & -> & ->) & H) [[Hg _]%Forall_cons Hf]%Forall_app.
  assert (Hr : is_Ok (ready_of got)).
  { unfold ready_of. simpl in Hg. destruct got as [d|e]; [by destruct (deployment_unavailable d)|].
    simpl in Hg. by destruct (Err_IsNotFound e). }
  destruct (ready_of got) as [ready|e]; [|done]. destruct H as (now & w3 & -> & H).
  destruct (LimitadorStatus_Equals _ _); [by destruct H|].
  destruct H as (e & -> & ->). apply Forall_cons in Hf as [_ [He _]%Forall_cons].
  by destruct e.
Qed.

Lemma spec_panic_buildable l w msg : buildable l → ¬ spec_panic l w msg.
Proof.
  intros (Hv & _) H. destruct (spec_panic_verbosity _ _ _ H) as (v & Hs & Hn).
  apply Hv in Hs. lia.
Qed.

(** ** Theorems *)

(** C3: a reconciliation in a healthy cluster succeeds. If the API server
    answers every read and accepts every write of a run, a secret that is read
    has its URL, and the resource is one whose objects can be built, then the
    run ends without an error; so it does not panic, and a resource that is not
    being deleted has all its objects and its status reconciled. *)
Theorem Reconcile_succeeds logger ctx req t o l :
  runs (Reconcile logger ctx req) t o → Ev (Get KLimitador req) (Ok l) ∈ t →
  buildable l → Forall favourable t →
  o = Done (Result_zero, None) ∧
  (om_DeletionTimestamp (lim_ObjectMeta l) = None → objects_reconciled l t ∧ status_reconciled l t).
Proof.
  intros Hr Hl Hb Hf. destruct (Reconcile_on _ _ _ _ _ _ Hr Hl) as (w & pods & Hw & _ & Hrun).
  rewrite Hw in Hrun.
  assert (Hsub : ∀ e, e ∈ w → e ∈ t) by (intros e He; apply (elem_traffic e t); rewrite Hw; by right).
  assert (Hfw : Forall favourable w).
  { apply Forall_forall. intros e He. rewrite Forall_forall in Hf. by apply Hf, Hsub. }
  destruct (reconcile_run_on _ _ _ _ Hrun)
    as [(e & He & _)|[([? Hx] & _ & ->)|(Hd & [(err & -> & H)|(msg & _ & H)])]].
  - exfalso. destruct Hb as (_ & _ & _ & Hj & _). by rewrite He in Hj.
  - split; [done|congruence].
  - destruct H as (w1 & w2 & r & specErr & statusErr & -> & H1 & H2 & ->).
    apply Forall_app in Hfw as [Hf1 Hf2].
    pose proof (spec_run_succeeds _ _ _ _ Hb H1 Hf1) as ->.
    pose proof (status_run_succeeds _ _ _ H2 Hf2) as ->. split; [done|]. intros _. split.
    + destruct H1 as [(e & _ & _ & [=])|(w3 & w4 & -> & H3 & _)].
      eapply owned_plan_done; [exact H3|]. intros e He. apply Hsub. rewrite !elem_of_app. auto.
    + eapply status_run_done; [exact H2|]. intros e He. apply Hsub. rewrite elem_of_app. auto.
  - by destruct (spec_panic_buildable l w msg Hb).
Qed.

End progress.

(** ** Witnesses *)

#[local] Existing Instances Sample.platform Sample.condition_codec Sample.limits_codec
  Sample.limitador_codec Sample.controller_util Sample.status_conditions.

Lemma Reconcile_succeeds_witness :
  end_of reconcile_sample redis_world = Done (Result_zero, None) ∧
  (om_DeletionTimestamp (lim_ObjectMeta sample_redis) = None →
   objects_reconciled sample_redis (log_in redis_world) ∧
   status_reconciled sample_redis (log_in redis_world)).
Proof.
  apply (Reconcile_succeeds no_values Background sample_request (log_in redis_world)
    (end_of reconcile_sample redis_world) sample_redis).
  - exact (runs_in redis_world).
  - in_log 1.
  - split_and!; [by intros v [= <-]|by exists redis_ref|done..|].
    intros m _. exact I.
  - apply forallb_True. vm_compute. exact I.
Defined.
