(* ===== verification/Readiness.v ===== *)
(** * The status a resource reports

    When the Ready condition is true, what the status patch says, that a
    status that was stored is not written again, and what two statuses being
    equal means. *)

From S2P Require Import Prelude Kube Helpers Types Effects Observability Names Options Objects.
From S2P Require Import BaseReconciler Status Controller Traffic Plan Follows Footprint Sample.

(** ** Vocabulary *)

Section readiness_defs.
Context {PF : Platform}.

(** What the operator asks of a Deployment: its status is about the current
    generation, the first condition of type Available is true, no replica is
    unavailable, and as many are ready as there are. *)
Definition healthy (d : Deployment) : Prop :=
  dst_ObservedGeneration (dep_Status d) = om_Generation (dep_ObjectMeta d) ∧
  (∃ pre dc post, dst_Conditions (dep_Status d) = pre ++ dc :: post ∧
     Forall (λ c, dc_Type c ≠ DeploymentAvailable) pre ∧
     dc_Type dc = DeploymentAvailable ∧ dc_Status dc = ConditionTrue) ∧
  dst_UnavailableReplicas (dep_Status d) = 0%Z ∧
  dst_ReadyReplicas (dep_Status d) = dst_Replicas (dep_Status d).

Definition deployment_key (l : Limitador) : NamespacedName :=
  {| nn_Namespace := lim_Namespace l; nn_Name := DeploymentName l |}.

Definition with_time (time : Time) (c : Condition) : Condition :=
  {| cond_Type := cond_Type c; cond_Status := cond_Status c;
     cond_ObservedGeneration := cond_ObservedGeneration c; cond_LastTransitionTime := time;
     cond_Reason := cond_Reason c; cond_Message := cond_Message c |}.

(** What the documentation of [meta.SetStatusCondition] promises: a condition
    of a new type is appended; otherwise the first one of the type takes every
    field of the new one, and its transition time is kept while the status
    stays the same. *)
Class StatusConditionLaws {SC : StatusConditions} : Prop := {
  set_absent now cs c :
    Forall (λ o, cond_Type o ≠ cond_Type c) cs →
    ∃ time, SetStatusCondition now cs c = cs ++ [with_time time c];
  set_present now pre old post c :
    Forall (λ o, cond_Type o ≠ cond_Type c) pre → cond_Type old = cond_Type c →
    ∃ time, SetStatusCondition now (pre ++ old :: post) c = pre ++ with_time time c :: post ∧
            (cond_Status old = cond_Status c → time = cond_LastTransitionTime old)
}.

(** The resource once a status is stored. *)
Definition with_status (st : LimitadorStatus) (l : Limitador) : Limitador :=
  {| lim_TypeMeta := lim_TypeMeta l; lim_ObjectMeta := lim_ObjectMeta l;
     lim_Spec := lim_Spec l; lim_Status := st |}.

(** A text of seven-bit characters. *)
Fixpoint ascii_text (s : string) : bool :=
  match s with
  | EmptyString => true
  | String c s' => (Ascii.N_of_ascii c <? 128)%N && ascii_text s'
  end.

(** A condition as its JSON shows it, from how texts and times are shown. *)
Definition shown_condition (text : string → string) (time : Time → string) (c : Condition) :=
  (text (cond_Type c), cond_Status c, cond_ObservedGeneration c, time (cond_LastTransitionTime c),
   text (cond_Reason c), text (cond_Message c)).

(** What the documentation of [encoding/json] and of [metav1.Time] promises:
    marshalling conditions does not fail, and two slices are marshalled alike
    exactly when their conditions are shown alike. A time is shown to the
    second, and bytes that are not UTF-8 are replaced in a text, so different
    times and texts may be shown alike; but only an ASCII text is shown as it. *)
Class ConditionCodecLaws {CC : ConditionCodec} := {
  json_text : string → string;
  json_time : Time → string;
  json_text_ascii s s' : ascii_text s' = true → json_text s = json_text s' → s = s';
  marshal_total cs : ∃ b, json_Marshal_Conditions cs = Ok b;
  marshal_alike cs cs' :
    json_Marshal_Conditions cs = json_Marshal_Conditions cs' ↔
    shown_condition json_text json_time <$> cs = shown_condition json_text json_time <$> cs'
}.

Definition shown {CC : ConditionCodec} {CL : ConditionCodecLaws} :=
  shown_condition json_text json_time.

End readiness_defs.

Section readiness.
Context {PF : Platform} {CC : ConditionCodec} {SC : StatusConditions}.

(** ** Lemmas *)

Lemma FindDeploymentStatusCondition_Some cs ty dc :
  FindDeploymentStatusCondition cs ty = Some dc ↔
  ∃ pre post, cs = pre ++ dc :: post ∧ Forall (λ c, dc_Type c ≠ ty) pre ∧ dc_Type dc = ty.
Proof.
  induction cs as [|c cs IH]; simpl.
  { split; [done|]. by intros ([|??] & ? & ? & _). }
  case_bool_decide as Hc.
  - split; [intros [= ->]; by exists [], cs|].
    intros ([|c' pre] & post & [= -> Heq] & Hpre & Hdc); [done|].
    by apply Forall_cons in Hpre as [? _].
  - rewrite IH. split.
    + intros (pre & post & -> & Hpre & Hdc). exists (c :: pre), post. by split; [|split; [constructor|]].
    + intros ([|c' pre] & post & [= -> Heq] & Hpre & Hdc); [done|].
      apply Forall_cons in Hpre as [_ Hpre]. by exists pre, post.
Qed.

Lemma deployment_unavailable_None d : deployment_unavailable d = None ↔ healthy d.
Proof.
  unfold deployment_unavailable, healthy.
  destruct (decide (dst_ObservedGeneration (dep_Status d) = om_Generation (dep_ObjectMeta d)))
    as [Hg|Hg].
  2: { rewrite (bool_decide_eq_true_2 (_ ≠ _)) by done. split; [done|]. by intros [? _]. }
  rewrite (bool_decide_eq_false_2 (_ ≠ om_Generation _)) by (intros H; by apply H).
  destruct (FindDeploymentStatusCondition _ _) as [dc|] eqn:Hf.
  - pose proof (proj1 (FindDeploymentStatusCondition_Some _ _ _) Hf) as (pre & post & Hcs & Hpre & Hdc).
    repeat case_bool_decide; split; try done; intros Hh.
    + destruct Hh as (_ & (pre' & dc' & post' & Hcs' & Hpre' & Hdc' & Hst) & _).
      assert (Hf' : FindDeploymentStatusCondition (dst_Conditions (dep_Status d)) DeploymentAvailable
                    = Some dc') by (apply FindDeploymentStatusCondition_Some; eauto).
      congruence.
    + tauto.
    + tauto.
    + split; [done|]. split; [|done]. exists pre, dc, post.
      by split_and!.
  - split; [done|]. intros (_ & (pre & dc & post & Hcs & Hpre & Hdc & _) & _).
    assert (Hf' : FindDeploymentStatusCondition (dst_Conditions (dep_Status d)) DeploymentAvailable
                  = Some dc) by (apply FindDeploymentStatusCondition_Some; eauto).
    congruence.
Qed.

(** *** Conditions set twice *)

Lemma Forall_type_dec cs (ty : string) :
  Forall (λ o : Condition, cond_Type o ≠ ty) cs ∨
  ∃ pre old post, cs = pre ++ old :: post ∧ Forall (λ o, cond_Type o ≠ ty) pre ∧ cond_Type old = ty.
Proof.
  induction cs as [|c cs IH]; [by left|].
  destruct (decide (cond_Type c = ty)) as [Hc|Hc]; [right; by exists [], c, cs|].
  destruct IH as [H|(pre & old & post & -> & Hpre & Hold)]; [left; by constructor|right].
  exists (c :: pre), old, post. by split; [|split; [constructor|]].
Qed.

(** A condition that was set is not changed by setting it again. *)
Lemma SetStatusCondition_again {LA : StatusConditionLaws} now now' cs c :
  SetStatusCondition now' (SetStatusCondition now cs c) c = SetStatusCondition now cs c.
Proof.
  assert (Hset : ∀ pre time post, Forall (λ o, cond_Type o ≠ cond_Type c) pre →
    SetStatusCondition now' (pre ++ with_time time c :: post) c = pre ++ with_time time c :: post).
  { intros pre time post Hpre.
    destruct (set_present now' pre (with_time time c) post c Hpre eq_refl) as (time' & -> & Ht).
    by rewrite Ht. }
  destruct (Forall_type_dec cs (cond_Type c)) as [Hno|(pre & old & post & -> & Hpre & Hold)].
  - destruct (set_absent now cs c Hno) as [time ->]. by apply Hset.
  - destruct (set_present now pre old post c Hpre Hold) as (time & -> & _). by apply Hset.
Qed.

Lemma next_status_with_status l now ready st :
  next_status (with_status st l) now ready =
  new_status l (SetStatusCondition now (status_Conditions st) ready).
Proof. done. Qed.

(** The resource in an object. *)
Definition as_limitador (o : object) : option Limitador :=
  let '(Obj kd x) := o in
  match kd return struct_of kd → option Limitador with
  | KLimitador => Some
  | _ => λ _, None
  end x.

(** The read of the Deployment in a run of the status. *)
Definition deployment_read (e : event) : option (result ExtError Deployment) :=
  let '(Ev c x) := e in
  match c return reply c → option (result ExtError Deployment) with
  | Get KDeployment _ => Some
  | _ => λ _, None
  end x.

Lemma ready_run_agree l l' specErr w w' c c' :
  lim_ObjectMeta l' = lim_ObjectMeta l →
  ready_run l specErr w c → ready_run l' specErr w' c' →
  (∀ g g', Ev (Get KDeployment (deployment_key l)) g ∈ w →
           Ev (Get KDeployment (deployment_key l)) g' ∈ w' → g = g') →
  c = c'.
Proof.
  intros Hm H H' Hg. destruct specErr as [e|].
  - destruct H as [_ ->], H' as [_ ->]. done.
  - destruct H as (g & -> & ->), H' as (g' & -> & ->). f_equal. apply Hg; [left|].
    unfold deployment_key, DeploymentName, lim_Namespace, lim_Name. rewrite Hm. left.
Qed.

(** A status that equals what is computed: no write. *)
Lemma status_run_equal l specErr w err :
  status_run l specErr w err →
  (∀ w1 c, ready_run l specErr w1 c → w1 ⊆ w → ∃ ready, c = Ok ready ∧ ∀ now,
     LimitadorStatus_Equals (lim_Status l) (next_status l now ready) = true) →
  writes w = [] ∧ err = None.
Proof.
  intros (w1 & w2 & c & -> & H1 & H2) Heq.
  destruct (Heq w1 c H1) as (ready & -> & He); [intros e ?; apply elem_of_app; by left|].
  destruct H2 as (now & w3 & -> & H3). rewrite He in H3. destruct H3 as [-> ->].
  split; [|done]. rewrite writes_app. destruct specErr; [by destruct H1 as [-> _]|].
  by destruct H1 as (g & -> & _).
Qed.

Lemma Equals_refl s : LimitadorStatus_Equals s s = true.
Proof. by apply Equals_true. Qed.

(** *** Conditions shown alike *)

Section shown_alike.
Context {CL : ConditionCodecLaws}.

(** A condition with the key it is sorted by. *)
Definition keyed (c : Condition) := (cond_Type c, shown c).

Lemma keyed_marshal cs cs' :
  keyed <$> cs = keyed <$> cs' → ConditionMarshal cs = ConditionMarshal cs'.
Proof.
  intros Hk. apply marshal_alike. fold shown.
  assert (Hsort : ∀ xs, shown <$> sort_Slice condition_less xs =
    snd <$> sort_Slice (λ a b, String.ltb a.1 b.1) (keyed <$> xs)).
  { intros xs. rewrite <-(sort_Slice_fmap keyed condition_less) by done. by rewrite <-list_fmap_compose. }
  by rewrite !Hsort, Hk.
Qed.

(** Where types are ASCII, what is shown has the key. *)
Lemma shown_keyed cs cs' :
  Forall (λ c, ascii_text (cond_Type c) = true) cs' →
  shown <$> cs = shown <$> cs' → keyed <$> cs = keyed <$> cs'.
Proof.
  intros Ha. revert cs. induction Ha as [|c cs' Hc Ha IH]; intros [|d cs]; try done.
  intros [= Hty Hst Hg Ht Hr Hm H]. cbn. f_equal; [|by apply IH].
  unfold keyed, shown, shown_condition. apply json_text_ascii in Hty; [|done]. congruence.
Qed.

(** Statuses found equal show the same conditions. *)
Lemma Equals_shown s s' :
  LimitadorStatus_Equals s s' = true →
  shown <$> status_Conditions s ≡ₚ shown <$> status_Conditions s'.
Proof.
  rewrite Equals_true. unfold status_view, ConditionMarshal. intros [= _ Hc _].
  destruct (marshal_total (sort_Slice condition_less (status_Conditions s))) as [b Hb].
  destruct (marshal_total (sort_Slice condition_less (status_Conditions s'))) as [b' Hb'].
  rewrite Hb, Hb' in Hc. simpl in Hc. subst b'.
  rewrite <-Hb' in Hb. apply marshal_alike in Hb. fold shown in Hb.
  assert (Hp : ∀ cs, shown <$> sort_Slice condition_less cs ≡ₚ shown <$> cs).
  { intros cs. apply fmap_Permutation. exact (sort_Slice_perm cond_Type cs). }
  by rewrite <-Hp, Hb.
Qed.

(** A condition is set in a list when setting it again would not show. *)
Definition is_set (cs : list Condition) (c : Condition) : Prop :=
  ∃ pre old post, cs = pre ++ old :: post ∧ Forall (λ o, cond_Type o ≠ cond_Type c) pre ∧
    cond_Type old = cond_Type c ∧ shown old = shown (with_time (cond_LastTransitionTime old) c).

Lemma set_is_set {LA : StatusConditionLaws} now cs c : is_set (SetStatusCondition now cs c) c.
Proof.
  destruct (Forall_type_dec cs (cond_Type c)) as [Hno|(pre & old & post & -> & Hpre & Hold)].
  - destruct (set_absent now cs c Hno) as [time ->]. by exists cs, (with_time time c), [].
  - destruct (set_present now pre old post c Hpre Hold) as (time & -> & _).
    by exists pre, (with_time time c), post.
Qed.

(** Setting a condition did not show. *)
Lemma unseen_is_set {LA : StatusConditionLaws} now cs c :
  shown <$> cs ≡ₚ shown <$> SetStatusCondition now cs c → is_set cs c.
Proof.
  destruct (Forall_type_dec cs (cond_Type c)) as [Hno|(pre & old & post & -> & Hpre & Hold)].
  { destruct (set_absent now cs c Hno) as [time ->]. intros Hp%Permutation_length.
    rewrite !length_fmap, length_app in Hp. simpl in Hp. lia. }
  destruct (set_present now pre old post c Hpre Hold) as (time & -> & _).
  rewrite !fmap_app, !fmap_cons. intros Hp%Permutation_app_inv_l.
  assert (Hone : [shown old] ≡ₚ [shown (with_time time c)])
    by (by apply (Permutation_app_inv_r (shown <$> post))).
  apply Permutation_singleton_inj in Hone. exists pre, old, post. split_and!; [done..|].
  injection Hone as Hty Hst Hg Ht Hr Hm. unfold shown, shown_condition. simpl. congruence.
Qed.

(** A list shown alike has the condition set too. *)
Lemma shown_is_set cs cs' c :
  ascii_text (cond_Type c) = true → shown <$> cs' = shown <$> cs → is_set cs c → is_set cs' c.
Proof.
  intros Ha Hs (pre & old & post & -> & Hpre & Hold & Hshown).
  rewrite fmap_app, fmap_cons in Hs. apply fmap_app_inv in Hs as (pre' & ? & Hp & Hs & ->).
  symmetry in Hs. apply fmap_cons_inv in Hs as (old' & post' & Ho & _ & ->).
  exists pre', old', post'. split; [done|]. injection Ho as Hty Hst Hg Ht Hr Hm.
  assert (Hold' : cond_Type old' = cond_Type c) by (apply json_text_ascii; congruence).
  split_and!; [|done|].
  - apply Forall_lookup. intros i o' Hi Heq.
    assert (Hf : (shown <$> pre) !! i = Some (shown o')) by (by rewrite Hp, list_lookup_fmap, Hi).
    rewrite list_lookup_fmap in Hf. apply fmap_Some in Hf as (o & Hi' & Hso).
    rewrite Forall_lookup in Hpre. apply (Hpre _ _ Hi'). apply json_text_ascii; [done|].
    injection Hso as Hto _ _ _ _ _. congruence.
  - injection Hshown as _ Hst' Hg' Hr' Hm'. unfold shown, shown_condition. simpl. congruence.
Qed.

(** Setting it again does not show. *)
Lemma is_set_again {LA : StatusConditionLaws} now cs c :
  is_set cs c → keyed <$> SetStatusCondition now cs c = keyed <$> cs.
Proof.
  intros (pre & old & post & -> & Hpre & Hold & Hshown).
  destruct (set_present now pre old post c Hpre Hold) as (time & -> & Ht).
  assert (Hst : cond_Status old = cond_Status c) by (by injection Hshown).
  rewrite (Ht Hst), !fmap_app, !fmap_cons. do 2 f_equal. unfold keyed. by rewrite Hshown, Hold.
Qed.
End shown_alike.

(** The status a run has written. *)
Lemma status_run_patched l specErr w err ob opts r :
  status_run l specErr w err → Ev (Status_Patch_Apply ob opts) r ∈ w →
  ∃ w1 now ready, w1 ⊆ w ∧ ready_run l specErr w1 (Ok ready) ∧ Ev Now now ∈ w ∧
    ob = Obj KLimitador (status_patch l (next_status l now ready)) ∧ opts = apply_opts ∧
    LimitadorStatus_Equals (lim_Status l) (next_status l now ready) = false.
Proof.
  intros (w1 & w2 & c & -> & H1 & H2) He.
  assert (Hw1 : Forall (λ e, is_write (ev_call e) = false) w1).
  { destruct specErr; [by destruct H1 as [-> _]|]. destruct H1 as (g & -> & _).
    by apply Forall_singleton. }
  apply elem_of_app in He as [He|He]; [by apply (proj1 (Forall_forall _ _) Hw1) in He|].
  destruct c as [ready|e]; [|destruct H2 as [-> _]; by apply elem_of_nil in He].
  destruct H2 as (now & w3 & -> & H3). apply elem_of_cons in He as [He|He];
    [by apply (f_equal (λ e, is_write (ev_call e))) in He|].
  destruct (LimitadorStatus_Equals _ _) eqn:Heq; [destruct H3 as [-> _]; by apply elem_of_nil in He|].
  destruct H3 as (e & -> & _). apply list_elem_of_singleton in He.
  apply (f_equal ev_call) in He. injection He as -> ->.
  exists w1, now, ready. split_and!; try done.
  - intros x ?. apply elem_of_app. by left.
  - apply elem_of_app. right. left.
Qed.

(** ** Theorems *)

(** C11: Ready is true exactly when Limitador serves. The condition computed
    without an internal error is of type Ready and never Unknown; it is true
    if and only if the spec was reconciled without an error and the Deployment
    that was read reports, in a status about its current generation, that it
    is available, that no replica is unavailable and that all are ready. *)
Theorem readyCondition_true_iff l specErr t c :
  runs (readyCondition l specErr) t (Done (Ok c)) →
  cond_Type c = StatusConditionReady ∧ cond_Status c ≠ ConditionUnknown ∧
  (cond_Status c = ConditionTrue ↔
   specErr = None ∧ ∃ d, Ev (Get KDeployment (deployment_key l)) (Ok d) ∈ t ∧ healthy d).
Proof.
  intros Hr. destruct (does_runs _ _ _ _ (readyCondition_does l specErr) Hr)
    as (c' & [= <-] & H).
  destruct specErr as [e|].
  { destruct H as [_ [= ->]]. simpl. split_and!; [done..|]. split; [done|]. by intros [[=] _]. }
  destruct H as (g & Hw & Hc).
  assert (Hin : ∀ g', Ev (Get KDeployment (deployment_key l)) g' ∈ t ↔ g' = g).
  { intros g'. trans (Ev (Get KDeployment (deployment_key l)) g' ∈ traffic t).
    - rewrite elem_traffic. simpl. tauto.
    - rewrite Hw, list_elem_of_singleton. split; [|by intros ->].
      intros He. apply (f_equal deployment_read) in He. by injection He. }
  destruct g as [d|e]; simpl in Hc.
  - destruct (deployment_unavailable d) as [reason|] eqn:Hd; simplify_eq; simpl;
      split_and!; try done; (split; try done).
    + intros [_ (d' & [= ->]%Hin & Hh%deployment_unavailable_None)]. congruence.
    + intros _. split; [done|]. exists d. split; [by apply Hin|]. by apply deployment_unavailable_None.
  - destruct (Err_IsNotFound e); simplify_eq; simpl. split_and!; try done.
    split; [done|]. by intros [_ (d & Hd%Hin & _)].
Qed.

(** C27: a status patch says the truth about the resource. Whatever a run of
    the status writes goes to the resource itself and changes nothing but its
    status: the generation observed is the one of the resource that was read,
    the service host and ports are those of its Service, the conditions are
    the stored ones with the Ready condition set; and it is only written when
    it differs from the stored status. *)
Theorem status_patch_content ctx l specErr t out ob opts r :
  is_Some (ctx_baseLogger ctx) → runs (reconcileStatus ctx l specErr) t out →
  Ev (Status_Patch_Apply ob opts) r ∈ t →
  ∃ st now ready, ob = Obj KLimitador (status_patch l st) ∧
    lim_Spec (status_patch l st) = LimitadorSpec_zero ∧
    obj_ref ob = (KLimitador, {| nn_Namespace := lim_Namespace l; nn_Name := lim_Name l |}) ∧
    status_ObservedGeneration st = lim_Generation l ∧
    status_Service st = Some {| ls_Host := ServiceName l +:+ "." +:+ lim_Namespace l +:+ ".svc.cluster.local";
                                ls_Ports := {| ports_HTTP := HTTPPort l; ports_GRPC := GRPCPort l |} |} ∧
    cond_Type ready = StatusConditionReady ∧
    status_Conditions st = SetStatusCondition now (status_Conditions (lim_Status l)) ready ∧
    LimitadorStatus_Equals (lim_Status l) st = false.
Proof.
  intros Hb Hr He. destruct (does_runs _ _ _ _ (reconcileStatus_does ctx l specErr Hb) Hr)
    as (err & -> & H).
  destruct (status_run_patched _ _ _ _ ob opts r H) as (w1 & now & ready & _ & Hrd & _ & -> & _ & Heq);
    [by apply elem_traffic|].
  exists (next_status l now ready), now, ready. split_and!; try done.
  destruct specErr as [e|]; [by destruct Hrd as [_ [= ->]]|].
  destruct Hrd as (g & _ & Hg). destruct g as [d|e]; simpl in Hg.
  - by destruct (deployment_unavailable d); simplify_eq.
  - by destruct (Err_IsNotFound e); simplify_eq.
Qed.

(** The status settles. Once a run has stored a status, the next run on
    the resource with that status, with the same outcome of the spec and the
    same Deployment, finds it equal whatever the clock says, writes nothing
    and succeeds. *)
Theorem status_settles {LA : StatusConditionLaws} ctx1 ctx2 l specErr t1 t2 out1 out2 p opts r :
  is_Some (ctx_baseLogger ctx1) → is_Some (ctx_baseLogger ctx2) →
  runs (reconcileStatus ctx1 l specErr) t1 out1 →
  Ev (Status_Patch_Apply (Obj KLimitador p) opts) r ∈ t1 →
  runs (reconcileStatus ctx2 (with_status (lim_Status p) l) specErr) t2 out2 →
  (∀ g1 g2, Ev (Get KDeployment (deployment_key l)) g1 ∈ t1 →
            Ev (Get KDeployment (deployment_key l)) g2 ∈ t2 → g1 = g2) →
  writes t2 = [] ∧ out2 = Done (Result_zero, None).
Proof.
  intros Hb1 Hb2 Hr1 Hp Hr2 Hg.
  destruct (does_runs _ _ _ _ (reconcileStatus_does ctx1 l specErr Hb1) Hr1) as (err1 & _ & H1).
  destruct (does_runs _ _ _ _ (reconcileStatus_does ctx2 _ specErr Hb2) Hr2) as (err2 & -> & H2).
  destruct (status_run_patched _ _ _ _ (Obj KLimitador p) opts r H1)
    as (w1 & now & ready & Hw1 & Hrd & _ & Hob & _ & _); [by apply elem_traffic|].
  apply (f_equal as_limitador) in Hob. injection Hob as ->. simpl in H2.
  destruct (status_run_equal _ _ _ _ H2) as [Hw ->].
  - intros w2 c Hrd2 Hw2. exists ready. split.
    + symmetry. eapply (ready_run_agree l _ specErr w1 w2); [done|exact Hrd|exact Hrd2|].
      intros g g' Hin Hin'. apply Hg.
      * by apply Hw1, elem_traffic in Hin as [_ ?].
      * by apply Hw2, elem_traffic in Hin' as [_ ?].
    + intros now'. rewrite next_status_with_status. simpl.
      rewrite SetStatusCondition_again. apply Equals_refl.
  - by rewrite <-writes_traffic.
Qed.

(** C34: equality of statuses ignores the order of conditions and what JSON
    does not show of them. For conditions of distinct types, whose types are
    ASCII as the API requires, [Equals] answers true exactly when generation
    and service agree and the conditions are shown alike up to their order:
    the same types, statuses and generations, the same transition times to the
    second, the same reasons and messages after replacement of what is not
    UTF-8. *)
Theorem Equals_iff {CL : ConditionCodecLaws} s s' :
  NoDup (cond_Type <$> status_Conditions s) → NoDup (cond_Type <$> status_Conditions s') →
  Forall (λ c, ascii_text (cond_Type c) = true) (status_Conditions s') →
  LimitadorStatus_Equals s s' = true ↔
  status_ObservedGeneration s = status_ObservedGeneration s' ∧
  status_Service s = status_Service s' ∧
  shown <$> status_Conditions s ≡ₚ shown <$> status_Conditions s'.
Proof.
  intros Hnd Hnd' Ha. split.
  - intros He. split_and!; [| |by apply Equals_shown];
      apply Equals_true in He; unfold status_view in He; congruence.
  - intros (Hg & Hs & Hp). apply Permutation_map_inv in Hp as (cs & Hsh & Hp).
    apply Equals_true. unfold status_view. rewrite Hg, Hs.
    rewrite (keyed_marshal (status_Conditions s) cs).
    + by rewrite (ConditionMarshal_perm _ _ Hnd' Hp).
    + apply shown_keyed; [by rewrite <-Hp|done].
Qed.

End readiness.

(** ** Witnesses *)

#[local] Existing Instances Sample.platform Sample.condition_codec Sample.limits_codec
  Sample.limitador_codec Sample.controller_util Sample.status_conditions.

(** The sample's [SetStatusCondition] keeps its documented promises. *)
#[local] Instance sample_condition_laws : StatusConditionLaws.
Proof.
  split.
  - intros now cs c H. exists (cond_LastTransitionTime (stamp now c)).
    change SetStatusCondition with set_condition.
    induction H as [|o cs Ho H IH]; [done|]. simpl.
    rewrite bool_decide_eq_false_2 by done. by rewrite IH.
  - intros now pre old post c H Hold.
    exists (cond_LastTransitionTime (update_condition now old c)). split.
    + change SetStatusCondition with set_condition.
      induction H as [|o pre Ho H IH]; simpl.
      * rewrite bool_decide_eq_true_2 by done. unfold update_condition, with_time. by rewrite Hold.
      * rewrite bool_decide_eq_false_2 by done. by rewrite IH.
    + intros Hs. unfold update_condition. rewrite Hs. by destruct (cond_Status c).
Defined.

Lemma deployment_reads (t : list event) key (g : result ExtError Deployment) :
  Ev (Get KDeployment key) g ∈ t → g ∈ omap deployment_read t.
Proof. intros H. apply list_elem_of_omap. by exists (Ev (Get KDeployment key) g). Qed.

Definition status_run_of (l : Limitador) : prog (Result * option error) :=
  reconcileStatus sample_context l None.

(** The status stored by the first run. *)
Definition stored : LimitadorStatus :=
  next_status sample 100%Z (ready_cond ConditionTrue "Ready" "Limitador is ready").

(** The sample with the status of the first run. *)
Definition again : Limitador := with_status stored sample.

Definition is_ready : Condition := ready_cond ConditionTrue "Ready" "Limitador is ready".

Lemma readyCondition_true_iff_witness :
  cond_Status is_ready = ConditionTrue ↔
  (None : option error) = None ∧
  ∃ d, Ev (Get KDeployment (deployment_key sample)) (Ok d)
         ∈ log_of (readyCondition sample None) memory_world ∧ healthy d.
Proof.
  apply (readyCondition_true_iff sample None (log_of (readyCondition sample None) memory_world)
           is_ready).
  exact (sample_runs (readyCondition sample None) memory_world).
Defined.

Lemma status_patch_content_witness :
  ∃ st now ready,
    status_patch sample stored = status_patch sample st ∧
    status_ObservedGeneration st = 3%Z ∧
    status_Conditions st = SetStatusCondition now [] ready.
Proof.
  destruct (status_patch_content sample_context sample None (log_of (status_run_of sample) memory_world)
    (Done (Result_zero, None)) (Obj KLimitador (status_patch sample stored)) apply_opts None)
    as (st & now & ready & Ho & _ & _ & Hg & _ & _ & Hc & _).
  - by eexists.
  - exact (sample_runs (status_run_of sample) memory_world).
  - in_log 3.
  - exists st, now, ready. split; [|split; [exact Hg|exact Hc]].
    apply (f_equal as_limitador) in Ho. by injection Ho as ->.
Defined.

(** The second run, on the resource with the status of the first. *)
Lemma status_settles_witness :
  writes (log_of (status_run_of sample) memory_world) ≠ [] ∧
  writes (log_of (status_run_of again) memory_world) = [] ∧
  end_of (status_run_of again) memory_world = Done (Result_zero, None).
Proof.
  split; [vm_compute; discriminate|].
  apply (status_settles sample_context sample_context sample None
    (log_of (status_run_of sample) memory_world) (log_of (status_run_of again) memory_world)
    (Done (Result_zero, None)) (end_of (status_run_of again) memory_world)
    (status_patch sample stored) apply_opts None).
  - by eexists.
  - by eexists.
  - exact (sample_runs (status_run_of sample) memory_world).
  - in_log 3.
  - exact (sample_runs (status_run_of again) memory_world).
  - intros g1 g2 H1 H2.
    apply deployment_reads in H1. apply deployment_reads in H2.
    assert (E1 : omap deployment_read (log_of (status_run_of sample) memory_world) =
                 [Ok (sample_deployment available)]) by (by_running).
    assert (E2 : omap deployment_read (log_of (status_run_of again) memory_world) =
                 [Ok (sample_deployment available)]) by (by_running).
    rewrite E1 in H1. rewrite E2 in H2.
    apply list_elem_of_singleton in H1 as ->. by apply list_elem_of_singleton in H2 as ->.
Defined.

(** A marshalling that keeps its promises: times are in milliseconds and shown
    in seconds, U+FFFD takes the place of a byte that is not ASCII, and the
    conditions become their code number in binary. *)
Definition show_seconds (t : Z) : string := pretty (t / 1000)%Z.

Fixpoint replace_bytes (s : string) : string :=
  match s with
  | EmptyString => ""
  | String c s' =>
      if (Ascii.N_of_ascii c <? 128)%N then String c (replace_bytes s')
      else String (Ascii.ascii_of_N 239) (String (Ascii.ascii_of_N 191)
             (String (Ascii.ascii_of_N 189) (replace_bytes s')))
  end.

Lemma replace_bytes_ascii s s' :
  ascii_text s' = true → replace_bytes s = replace_bytes s' → s = s'.
Proof.
  revert s. induction s' as [|d s' IH]; intros s.
  { destruct s as [|c s]; [done|]. simpl. by destruct (_ <? _)%N. }
  cbn [ascii_text]. intros [Hd Ha]%andb_true_iff. cbn [replace_bytes]. rewrite Hd.
  destruct s as [|c s]; [done|]. cbn [replace_bytes]. destruct (Ascii.N_of_ascii c <? 128)%N.
  - intros [= -> H]. f_equal. by apply IH.
  - intros [= <- _]. discriminate Hd.
Qed.

Definition condition_code (v : string * ConditionStatus * Z * string * string * string)
    : string * Z * Z * string * string * string :=
  let '(ty, st, g, t, r, m) := v in
  (ty, match st with ConditionTrue => 0 | ConditionFalse => 1 | ConditionUnknown => 2 end,
   g, t, r, m)%Z.

#[local] Instance condition_code_inj : Inj (=) (=) condition_code.
Proof. intros [[[[[? []] ?] ?] ?] ?] [[[[[? []] ?] ?] ?] ?]; simpl; congruence. Qed.

(** Digits from the lowest. *)
Fixpoint binary (p : positive) : string :=
  match p with
  | xH => "1"
  | xO p' => String (Ascii.ascii_of_N 48) (binary p')
  | xI p' => String (Ascii.ascii_of_N 49) (binary p')
  end.

Lemma binary_not_empty p : binary p ≠ "".
Proof. by destruct p. Qed.

#[local] Instance binary_inj : Inj (=) (=) binary.
Proof.
  intros p. induction p as [p IH|p IH|]; intros [q|q|]; simpl; intros H; try done;
    try (injection H as H; by f_equal; apply IH).
  - injection H as H. by apply binary_not_empty in H.
  - injection H as H. symmetry in H. by apply binary_not_empty in H.
Qed.

Definition number_codec : ConditionCodec :=
  {| json_Marshal_Conditions cs :=
       Ok (binary (encode (condition_code <$> (shown_condition replace_bytes show_seconds <$> cs)))) |}.

#[local] Instance number_codec_laws : ConditionCodecLaws (CC := number_codec).
Proof.
  refine {| json_text := replace_bytes; json_time := show_seconds : @Time platform → string |}.
  - exact replace_bytes_ascii.
  - by eexists.
  - intros cs cs'. cbn [json_Marshal_Conditions number_codec]. split; [|by intros ->].
    intros [= H%(inj binary)%(inj encode)]. by apply (inj (fmap condition_code)) in H.
Defined.

Definition other_condition (t : Z) : Condition :=
  {| cond_Type := "Degraded"; cond_Status := ConditionFalse; cond_ObservedGeneration := 0;
     cond_LastTransitionTime := t; cond_Reason := "None"; cond_Message := "fine" |}.

(** A stored status, and the same computed less than a second apart with its
    conditions the other way round. *)
Definition two_conditions (cs : list Condition) : LimitadorStatus :=
  {| status_ObservedGeneration := 3; status_Conditions := cs; status_Service := None |}.

Lemma Equals_iff_witness :
  LimitadorStatus_Equals (CC := number_codec) (two_conditions [is_ready; other_condition 5000])
    (two_conditions [other_condition 5400; is_ready]) = true.
Proof.
  apply (Equals_iff (CC := number_codec)).
  - apply NoDup_cons. split; [by intros ?%list_elem_of_singleton|apply NoDup_singleton].
  - apply NoDup_cons. split; [by intros ?%list_elem_of_singleton|apply NoDup_singleton].
  - repeat apply Forall_cons; split; [done|]. by apply Forall_singleton.
  - split; [reflexivity|]. split; [reflexivity|]. apply perm_swap.
Defined.
