(* ===== verification/CommandLine.v ===== *)
(** * The command line determines the configuration

    A reader of the command line that [DeploymentArgs] writes, used only to
    state that nothing is lost or confused on the way: every setting can be
    read back, whatever the strings in it. *)

From S2P Require Import Prelude Kube Helpers Types Effects Names Options Sample.
From Stdlib Require Import Ascii.

Create Rewrite HintDb command_line.

(** ** Vocabulary *)

(** The flags of a limitador process, values as they appear on the line. *)
Record flags := {
  f_headers : option string;
  f_limit_names : bool;
  f_tracing : option string;
  f_verbosity : option nat;
  f_http : option string;
  f_rls : option string;
  f_metric_labels : option string
}.

Definition no_flags : flags :=
  {| f_headers := None; f_limit_names := false; f_tracing := None; f_verbosity := None;
     f_http := None; f_rls := None; f_metric_labels := None |}.

Definition set_headers (v : string) (f : flags) : flags :=
  {| f_headers := Some v; f_limit_names := f_limit_names f; f_tracing := f_tracing f;
     f_verbosity := f_verbosity f; f_http := f_http f; f_rls := f_rls f;
     f_metric_labels := f_metric_labels f |}.

Definition set_tracing (v : string) (f : flags) : flags :=
  {| f_headers := f_headers f; f_limit_names := f_limit_names f; f_tracing := Some v;
     f_verbosity := f_verbosity f; f_http := f_http f; f_rls := f_rls f;
     f_metric_labels := f_metric_labels f |}.

Definition set_verbosity (n : nat) (f : flags) : flags :=
  {| f_headers := f_headers f; f_limit_names := f_limit_names f; f_tracing := f_tracing f;
     f_verbosity := Some n; f_http := f_http f; f_rls := f_rls f;
     f_metric_labels := f_metric_labels f |}.

Definition set_http (v : string) (f : flags) : flags :=
  {| f_headers := f_headers f; f_limit_names := f_limit_names f; f_tracing := f_tracing f;
     f_verbosity := f_verbosity f; f_http := Some v; f_rls := f_rls f;
     f_metric_labels := f_metric_labels f |}.

Definition set_rls (v : string) (f : flags) : flags :=
  {| f_headers := f_headers f; f_limit_names := f_limit_names f; f_tracing := f_tracing f;
     f_verbosity := f_verbosity f; f_http := f_http f; f_rls := Some v;
     f_metric_labels := f_metric_labels f |}.

Definition set_metric_labels (v : string) (f : flags) : flags :=
  {| f_headers := f_headers f; f_limit_names := f_limit_names f; f_tracing := f_tracing f;
     f_verbosity := f_verbosity f; f_http := f_http f; f_rls := f_rls f; f_metric_labels := Some
     v |}.

Definition set_limit_names (f : flags) : flags :=
  {| f_headers := f_headers f; f_limit_names := true; f_tracing := f_tracing f; f_verbosity :=
     f_verbosity f; f_http := f_http f; f_rls := f_rls f; f_metric_labels := f_metric_labels f
     |}.

(** [vv...v] *)
Fixpoint count_v (s : string) : option nat :=
  match s with
  | EmptyString => Some 0
  | String c s' => if Ascii.eqb c "v"%char then S <$> count_v s' else None
  end.

Definition read_verbosity (s : string) : option nat :=
  match s with
  | String c s' => if Ascii.eqb c "-"%char then count_v s' else None
  | EmptyString => None
  end.

(** Read flags until the first argument that is not one. *)
Fixpoint read_flags (f : flags) (args : list string) : flags * list string :=
  match args with
  | [] => (f, [])
  | a :: rest =>
      match read_verbosity a with
      | Some n => read_flags (set_verbosity n f) rest
      | None =>
          if bool_decide (a = "--limit-name-in-labels") then read_flags (set_limit_names f) rest
          else
            match rest with
            | v :: rest' =>
                if bool_decide (a = "--rate-limit-headers") then read_flags (set_headers v f) rest'
                else if bool_decide (a = "--tracing-endpoint") then read_flags (set_tracing v f) rest'
                else if bool_decide (a = "--http-port") then read_flags (set_http v f) rest'
                else if bool_decide (a = "--rls-port") then read_flags (set_rls v f) rest'
                else if bool_decide (a = "--metric-labels-default")
                then read_flags (set_metric_labels v f) rest'
                else (f, args)
            | [] => (f, args)
            end
      end
  end.

(** The four settings of a cached Redis, read back from its arguments. *)
Fixpoint read_pairs (args : list string) : list (string * string) :=
  match args with
  | k :: v :: rest => (k, v) :: read_pairs rest
  | _ => []
  end.

Section command_line.
Context {PF : Platform}.

(** The flags a resource asks for. *)
Definition wanted_flags (l : Limitador) : flags :=
  {| f_headers := spec_RateLimitHeaders (lim_Spec l);
     f_limit_names := bool_decide (spec_Telemetry (lim_Spec l) = Some "exhaustive");
     f_tracing := tr_Endpoint <$> spec_Tracing (lim_Spec l);
     f_verbosity := Z.to_nat <$> spec_Verbosity (lim_Spec l);
     f_http := Some (Itoa (HTTPPort l));
     f_rls := Some (Itoa (GRPCPort l));
     f_metric_labels := spec_MetricLabelsDefault (lim_Spec l) |}.

(** The settings of a cached Redis, none set being the same as no options. *)
Definition cached_settings (o : option RedisCachedOptions) : list (option Z) :=
  match o with
  | Some o => [rco_FlushPeriod o; rco_MaxCached o; rco_ResponseTimeout o; rco_BatchSize o]
  | None => [None; None; None; None]
  end.

Definition cached_flags : list string :=
  ["--flush-period"; "--max-cached"; "--response-timeout"; "--batch-size"].

(** The value of a flag in a list of pairs. *)
Definition flag_value (ps : list (string * string)) (flag : string) : option string :=
  snd <$> List.find (λ p, bool_decide (p.1 = flag)) ps.

(** ** Lemmas *)

Lemma count_v_repeat n : count_v (string_repeat "v" n) = Some n.
Proof.
  induction n as [|n IH]; [done|].
  change (S <$> count_v (string_repeat "v" n) = Some (S n)). by rewrite IH.
Qed.

Lemma read_verbosity_repeat n : read_verbosity ("-" +:+ string_repeat "v" n) = Some n.
Proof. apply count_v_repeat. Qed.

(** The command line, group by group. *)
Lemma DeploymentArgs_groups l so :
  DeploymentArgs l so =
    vs ← match spec_Verbosity (lim_Spec l) with
         | Some v => vs ← Repeat "v" v; Done ["-" +:+ vs]
         | None => Done []
         end;
    Done (match spec_RateLimitHeaders (lim_Spec l) with
          | Some h => ["--rate-limit-headers"; h] | None => [] end ++
          (if bool_decide (spec_Telemetry (lim_Spec l) = Some "exhaustive")
           then ["--limit-name-in-labels"] else []) ++
          match spec_Tracing (lim_Spec l) with
          | Some t => ["--tracing-endpoint"; tr_Endpoint t] | None => [] end ++
          vs ++
          ["--http-port"; Itoa (HTTPPort l)] ++ ["--rls-port"; Itoa (GRPCPort l)] ++
          match spec_MetricLabelsDefault (lim_Spec l) with
          | Some m => ["--metric-labels-default"; m] | None => [] end ++
          limits_file :: dso_Args so).
Proof.
  unfold DeploymentArgs.
  assert (Htel : match spec_Telemetry (lim_Spec l) with
                 | Some t => if bool_decide (t = "exhaustive") then true else false
                 | None => false
                 end = bool_decide (spec_Telemetry (lim_Spec l) = Some "exhaustive")).
  { destruct (spec_Telemetry (lim_Spec l)) as [t|]; [|done].
    repeat case_bool_decide; congruence. }
  rewrite <-Htel.
  destruct (spec_Verbosity (lim_Spec l)) as [v|]; simpl; [destruct (Repeat "v" v); simpl; [|done]|];
    (destruct (spec_Telemetry (lim_Spec l)) as [t|]; [destruct (bool_decide (t = _))|]);
    destruct (spec_RateLimitHeaders (lim_Spec l)), (spec_Tracing (lim_Spec l)),
      (spec_MetricLabelsDefault (lim_Spec l)); simpl; by rewrite <-?app_assoc.
Qed.

(** One step of the reader over each kind of argument. *)
Lemma read_flags_verbosity f n rest :
  read_flags f (("-" +:+ string_repeat "v" n) :: rest) = read_flags (set_verbosity n f) rest.
Proof. cbn [read_flags]. by rewrite read_verbosity_repeat. Qed.

Lemma read_flags_headers f v rest :
  read_flags f ("--rate-limit-headers" :: v :: rest) = read_flags (set_headers v f) rest.
Proof. reflexivity. Qed.

Lemma read_flags_limit_names f rest :
  read_flags f ("--limit-name-in-labels" :: rest) = read_flags (set_limit_names f) rest.
Proof. reflexivity. Qed.

Lemma read_flags_tracing f v rest :
  read_flags f ("--tracing-endpoint" :: v :: rest) = read_flags (set_tracing v f) rest.
Proof. reflexivity. Qed.

Lemma read_flags_http f v rest :
  read_flags f ("--http-port" :: v :: rest) = read_flags (set_http v f) rest.
Proof. reflexivity. Qed.

Lemma read_flags_rls f v rest :
  read_flags f ("--rls-port" :: v :: rest) = read_flags (set_rls v f) rest.
Proof. reflexivity. Qed.

Lemma read_flags_metric_labels f v rest :
  read_flags f ("--metric-labels-default" :: v :: rest) = read_flags (set_metric_labels v f) rest.
Proof. reflexivity. Qed.

Lemma read_flags_file f rest : read_flags f (limits_file :: rest) = (f, limits_file :: rest).
Proof. by destruct rest. Qed.

Hint Rewrite read_flags_verbosity read_flags_headers read_flags_limit_names read_flags_tracing
  read_flags_http read_flags_rls read_flags_metric_labels read_flags_file : command_line.

Lemma read_flags_wanted l so args :
  DeploymentArgs l so = Done args →
  read_flags no_flags args = (wanted_flags l, limits_file :: dso_Args so).
Proof.
  rewrite DeploymentArgs_groups. unfold wanted_flags.
  destruct (spec_Verbosity (lim_Spec l)) as [v|].
  - unfold Repeat. destruct (Z.ltb_spec v 0); [done|]. intros [= <-].
    destruct (spec_RateLimitHeaders (lim_Spec l)), (bool_decide _),
      (spec_Tracing (lim_Spec l)), (spec_MetricLabelsDefault (lim_Spec l));
      cbn [app]; by autorewrite with command_line.
  - intros [= <-].
    destruct (spec_RateLimitHeaders (lim_Spec l)), (bool_decide _),
      (spec_Tracing (lim_Spec l)), (spec_MetricLabelsDefault (lim_Spec l));
      cbn [app]; by autorewrite with command_line.
Qed.

(** ** Theorems *)

(** C16: the command line can be read back. Whenever [DeploymentArgs] returns,
    reading its result flag by flag gives exactly the settings of the resource
    (rate-limit headers, limit names, tracing endpoint, verbosity, both ports,
    metric labels), then the limits file, then the arguments of the storage,
    whatever the strings in them; so two resources with one command line have
    the same settings. *)
Theorem DeploymentArgs_roundtrip l so args :
  DeploymentArgs l so = Done args →
  read_flags no_flags args = (wanted_flags l, limits_file :: dso_Args so) ∧
  ∀ l' so', DeploymentArgs l' so' = Done args →
    HTTPPort l = HTTPPort l' ∧ GRPCPort l = GRPCPort l' ∧ wanted_flags l = wanted_flags l' ∧
    dso_Args so = dso_Args so'.
Proof.
  intros Ha. pose proof (read_flags_wanted _ _ _ Ha) as Hr. split; [done|].
  intros l' so' Ha'. apply read_flags_wanted in Ha'. rewrite Hr in Ha'.
  injection Ha' as Hh Hl Ht Hv Hp Hg Hm Hd.
  split_and!; [by apply (inj Itoa)..| |done]. unfold wanted_flags. congruence.
Qed.

(** The options of a cached Redis can be read back. Each of the four
    settings appears on the command line as its flag and decimal value exactly
    when it is set, so the line determines them. *)
Theorem redis_cached_command_roundtrip o :
  flag_value (read_pairs (redis_cached_command o)) <$> cached_flags =
    fmap Itoa <$> cached_settings o.
Proof.
  unfold redis_cached_command, append_int_flag.
  destruct o as [[[f|] [m|] [r|] [b|]]|]; reflexivity.
Qed.

End command_line.

(** ** Witnesses *)

#[local] Existing Instances Sample.platform Sample.condition_codec Sample.limits_codec
  Sample.limitador_codec Sample.controller_util Sample.status_conditions.

Definition memory_args : list string :=
  [ "--rate-limit-headers"; "DRAFT_VERSION_03"; "--limit-name-in-labels";
    "--tracing-endpoint"; "rpc://jaeger:4317"; "-vvv"; "--http-port"; "9090"; "--rls-port"; "8081";
    "--metric-labels-default"; "descriptors[1]";
    "/home/limitador/etc/limitador-config.yaml"; "memory" ].

Definition memory_options : DeploymentStorageOptions := 
  {| dso_Args := ["memory"]; dso_VolumeMounts := []; dso_Volumes := [];
     dso_DeploymentStrategy := rolling_update |}.

Lemma DeploymentArgs_roundtrip_witness :
  DeploymentArgs sample memory_options = Done memory_args ∧
  read_flags no_flags memory_args = (wanted_flags sample, limits_file :: ["memory"]).
Proof.
  split; [vm_compute; reflexivity|].
  apply (DeploymentArgs_roundtrip sample memory_options memory_args). vm_compute. reflexivity.
Defined.
