(* ===== verification/Workload.v ===== *)
(** * The workload a reconciliation deploys

    Properties of the Deployment a run applies, together with the Service,
    ConfigMap, volume claim and pods around it: the parts that refer to each
    other by name or number agree. *)

From S2P Require Import Prelude Kube Helpers Types Effects Observability Names Options Objects.
From S2P Require Import BaseReconciler Status Controller Traffic Plan Follows Footprint Sample Loop Outcome CommandLine.

(** ** Vocabulary *)

Section workload_defs.
Context {PF : Platform}.

Definition pod_spec (d : Deployment) : PodSpec := pt_Spec (dsp_Template (dep_Spec d)).

(** The probes of a container agree on what they ask. *)
Definition probes_status (c : Container) (port : Z) : Prop :=
  ∀ p, c_LivenessProbe c = Some p ∨ c_ReadinessProbe c = Some p →
    pr_HTTPGet p = Some {| hg_Path := StatusEndpoint; hg_Port := FromInt port;
                           hg_Scheme := URISchemeHTTP |}.

(** The flags and the rest of a container's command line. *)
Definition container_flags (c : Container) : flags := (read_flags no_flags (c_Args c)).1.
Definition container_rest (c : Container) : list string := (read_flags no_flags (c_Args c)).2.

End workload_defs.

Section workload.
Context {PF : Platform} {CC : ConditionCodec} {LC : LimitsCodec} {JC : LimitadorCodec}
  {CU : ControllerUtil} {SC : StatusConditions}.

(** ** Lemmas *)

(** A desired Deployment is the literal with its owners. *)
Lemma desired_deployment_inv l d :
  desired_deployment l d →
  ∃ args, DeploymentArgs l (backend_options l) = Done args ∧
    dep_Spec d = dep_Spec (Deployment_of l (deployment_options l (backend_options l) args
                             (backend_env (backend_of l)))) ∧
    (uses_redis (backend_of l) = true → is_Some (backend_secret (backend_of l))).
Proof.
  intros (args & Ha & Hsec & Ho). exists args. split; [done|]. split; [|done].
  by destruct (SetOwnerReference_Ok l KDeployment _ _ Ho) as [refs ->].
Qed.

(** The one container of a desired Deployment. *)
Lemma desired_container l d :
  desired_deployment l d →
  ∃ c, ps_Containers (pod_spec d) = [c] ∧
    container_flags c = wanted_flags l ∧
    container_rest c = limits_file :: backend_args (backend_of l) ∧
    ∃ args, c = limitador_container l (deployment_options l (backend_options l) args
                                         (backend_env (backend_of l))).
Proof.
  intros (args & Ha & Hs & _)%desired_deployment_inv.
  exists (limitador_container l (deployment_options l (backend_options l) args
                                   (backend_env (backend_of l)))).
  split; [unfold pod_spec; by rewrite Hs|]. unfold container_flags, container_rest. simpl.
  rewrite (read_flags_wanted _ _ _ Ha). simpl. eauto.
Qed.

Lemma storage_options_secret l w so :
  storage_options l w (Ok so) → uses_redis (backend_of l) = true →
  ∃ ref s, backend_secret (backend_of l) = Some ref ∧
    Ev (Get KSecret {| nn_Namespace := lim_Namespace l; nn_Name := lor_Name ref |}) (Ok s) ∈ w ∧
    is_Some (sec_Data s !! "URL").
Proof.
  unfold storage_options, backend_of, redis_options.
  destruct (spec_Storage (lim_Spec l)) as [[[r'|] [c|] [d|]]|]; simpl; try done.
  all: match goal with |- context [match ?ref with _ => _ end] => destruct ref as [rf|] eqn:? end;
    [|by intros [_ [=]]].
  all: intros (got & -> & Hr) _; destruct got as [s|e]; [|done]; simpl in Hr;
    destruct (sec_Data s !! "URL") eqn:Hu; [|done];
    exists rf, s; rewrite Hu; (split; [done|]); (split; [left|by eexists]).
Qed.

Lemma deployment_step_secret l w err e :
  deployment_step l w err → e ∈ w → is_write (ev_call e) = true →
  uses_redis (backend_of l) = true →
  ∃ ref s, backend_secret (backend_of l) = Some ref ∧
    Ev (Get KSecret {| nn_Namespace := lim_Namespace l; nn_Name := lor_Name ref |}) (Ok s) ∈ w ∧
    is_Some (sec_Data s !! "URL").
Proof.
  intros (w1 & w2 & r & -> & (sr & Hs & Ho) & H) He Hw Hu.
  assert (Hno : e ∉ w1).
  { intros Hin. apply storage_options_reads in Hs. rewrite Forall_forall in Hs.
    by destruct (Hs _ Hin) as (ref & got & _ & ->). }
  destruct sr as [so|x].
  - destruct (storage_options_secret _ _ _ Hs Hu) as (ref & s & ? & ? & ?). exists ref, s.
    split_and!; [done| |done]. apply elem_of_app. by left.
  - injection Ho as ->. destruct H as [-> _]. by rewrite app_nil_r in He.
Qed.

(** A call of a plan is a call of one of its steps. *)
Lemma in_order_member (steps : list step) w err e :
  in_order steps w err → e ∈ w →
  ∃ s v err', s ∈ steps ∧ s v err' ∧ e ∈ v ∧ v ⊆ w.
Proof.
  revert w. induction steps as [|s steps IH]; intros w; simpl.
  { intros [-> _] He. by apply elem_of_nil in He. }
  intros [(x & Hx & _)|(w1 & w2 & -> & H1 & H2)] He.
  - exists s, w, (Some x). split_and!; [left|done..].
  - apply elem_of_app in He as [He|He].
    + exists s, w1, None. split_and!; [left|done..|].
      intros y ?. apply elem_of_app. by left.
    + destruct (IH _ H2 He) as (s' & v & err' & ? & ? & ? & Hv).
      exists s', v, err'. split_and!; [by right|done..|].
      intros y ?. apply elem_of_app. right. by apply Hv.
Qed.

(** Calls of rank 3 are those of the deployment step. *)
Lemma owned_plan_deployment l w err e :
  in_order (owned_plan l) w err → e ∈ w → rank e = 3 →
  ∃ v err', deployment_step l v err' ∧ e ∈ v ∧ v ⊆ w.
Proof.
  intros H He Hr. destruct (in_order_member _ _ _ _ H He) as (s & v & err' & Hs & Hv & Hev & Hsub).
  assert (Hrank : ∀ n, ordered l [] n n v → n = 3).
  { intros n [Hd _]. rewrite Forall_forall in Hd. destruct (Hd _ Hev) as [_ ?]. lia. }
  unfold owned_plan in Hs. rewrite !elem_of_cons in Hs.
  destruct Hs as [->|[->|[->|[->|[->|Hs]]]]].
  - by apply (service_step_ordered l []), Hrank in Hv.
  - by apply (pvc_step_ordered l []), Hrank in Hv.
  - eauto.
  - by apply (configmap_step_ordered l []), Hrank in Hv.
  - by apply (pdb_step_ordered l []), Hrank in Hv.
  - by apply elem_of_nil in Hs.
Qed.

Lemma spec_run_deployment l w r err e :
  spec_run l w r err → e ∈ w → rank e = 3 →
  ∃ v err', deployment_step l v err' ∧ e ∈ v ∧ v ⊆ w.
Proof.
  intros [(x & H & _)|(wc & wd & -> & H3 & H4)] He Hr; [by eapply owned_plan_deployment|].
  apply elem_of_app in He as [He|He].
  - destruct (owned_plan_deployment _ _ _ _ H3 He Hr) as (v & err' & ? & ? & Hv).
    exists v, err'. split_and!; [done..|]. intros y ?. apply elem_of_app. left. by apply Hv.
  - destruct (pods_run_ordered _ _ _ _ H4) as (ps & Hd & _). rewrite Forall_forall in Hd.
    destruct (Hd _ He) as [_ ?]. lia.
Qed.

(** The secret behind a Deployment that was applied. *)
Lemma applied_secret logger ctx req t out l d opts r :
  runs (Reconcile logger ctx req) t out → Ev (Get KLimitador req) (Ok l) ∈ t →
  Ev (Patch_Apply (Obj KDeployment d) opts) r ∈ t → uses_redis (backend_of l) = true →
  ∃ ref s, backend_secret (backend_of l) = Some ref ∧
    Ev (Get KSecret {| nn_Namespace := lim_Namespace l; nn_Name := lor_Name ref |}) (Ok s) ∈ t ∧
    is_Some (sec_Data s !! "URL").
Proof.
  intros Hr Hl He Hu. destruct (Reconcile_on _ _ _ _ _ _ Hr Hl) as (w & pods & Hw & _ & Hrun).
  rewrite Hw in Hrun. set (e := Ev (Patch_Apply (Obj KDeployment d) opts) r) in *.
  assert (Het : e ∈ w).
  { assert (Het : e ∈ traffic t) by by apply elem_traffic.
    rewrite Hw in Het. apply elem_of_cons in Het as [Het|?]; [|done].
    by apply (f_equal (λ e, is_write (ev_call e))) in Het. }
  assert (Hsub : w ⊆ t) by (intros x ?; apply (elem_traffic x t); rewrite Hw; by right).
  assert (Hstep : ∃ v err, deployment_step l v err ∧ e ∈ v ∧ v ⊆ w).
  { destruct (reconcile_run_on _ _ _ _ Hrun)
      as [(x & _ & -> & _)|[(_ & -> & _)|(_ & [(err & _ & H)|(msg & _ & H)])]].
    1,2: by apply elem_of_nil in Het.
    - destruct H as (wa & wb & r' & specErr & statusErr & -> & H1 & H2 & _).
      apply elem_of_app in Het as [Het|Het].
      + destruct (spec_run_deployment _ _ _ _ _ H1 Het eq_refl) as (v & err' & ? & ? & Hv).
        exists v, err'. split_and!; [done..|]. intros y ?. apply elem_of_app. left. by apply Hv.
      + apply (status_run_ordered _ _ []) in H2 as [H2 _]. rewrite Forall_forall in H2.
        destruct (H2 _ Het) as [_ Hk]. cbn in Hk. lia.
    - apply spec_panic_writes in H. rewrite Forall_forall in H.
      assert (Hin : e ∈ writes w) by by apply elem_writes.
      specialize (H _ Hin). cbn in H. lia. }
  destruct Hstep as (v & err & Hv & Hev & Hvw).
  destruct (deployment_step_secret _ _ _ _ Hv Hev eq_refl Hu) as (ref & s & ? & ? & ?).
  exists ref, s. split_and!; [done| |done]. by apply Hsub, Hvw.
Qed.

Lemma applied_deployment logger ctx req t out l d opts r :
  runs (Reconcile logger ctx req) t out → Ev (Get KLimitador req) (Ok l) ∈ t →
  Ev (Patch_Apply (Obj KDeployment d) opts) r ∈ t → desired_deployment l d.
Proof. intros Hr Hl He. by destruct (applied_on _ _ _ _ _ _ _ _ _ Hr Hl He) as (pods & _ & ?). Qed.

Lemma backend_disk_claim l d : backend_of l = BackendDisk d → wants_claim l = true.
Proof.
  unfold backend_of, wants_claim. intros H.
  destruct (spec_Storage (lim_Spec l)) as [[[r|] [c|] [d'|]]|]; done.
Qed.

Lemma backend_disk_replicas l :
  uses_disk (backend_of l) = true → admissible (lim_Spec l) = true → (GetReplicas l ≤ 1)%Z.
Proof.
  intros Hd [Hr _]%admissible_rules. revert Hd Hr. unfold backend_of, rule_disk_replicas.
  destruct (spec_Storage (lim_Spec l)) as [[[r|] [c|] [d'|]]|]; simpl; try done.
  destruct (spec_Replicas (lim_Spec l)) as [n|] eqn:Hn.
  - intros _ Hlt. apply Z.ltb_lt in Hlt.
    rewrite (GetReplicas_clamps l n Hn). unfold MinInt32, MaxInt32. lia.
  - intros _ _. unfold GetReplicas. by rewrite Hn.
Qed.

Lemma pods_patched_None rv ps w :
  in_order (pod_step rv <$> ps) w None →
  writes w = (λ p, Ev (Patch_Apply (Obj KPod (pod_annotation_patch (om_Name (pod_ObjectMeta p))
    (om_Namespace (pod_ObjectMeta p)) PodAnnotationConfigMapResourceVersion rv)) apply_opts) None) <$> ps.
Proof.
  revert w. induction ps as [|p ps IH]; intros w; simpl; [by intros [-> _]|].
  intros [(e & _ & [=])|(w1 & w2 & -> & (e & H1) & H2)].
  simpl in H1. unfold IsObjectTaggedToDelete in H1. simpl in H1.
  rewrite lookup_singleton_ne in H1 by done.
  destruct H1 as [-> He]. destruct e as [e|]; [done|]. simpl. f_equal. by apply IH.
Qed.

(** ** Theorems *)

(** C14: the ports agree everywhere. In the Deployment a run applies, the one
    container is told its two ports on the command line, declares them under
    distinct names, is probed on the HTTP one, and every port of the Service
    leads, by name, to a container port of the same number on pods its
    selector selects. *)
Theorem applied_ports_agree logger ctx req t out l d opts r :
  runs (Reconcile logger ctx req) t out → Ev (Get KLimitador req) (Ok l) ∈ t →
  Ev (Patch_Apply (Obj KDeployment d) opts) r ∈ t →
  ∃ c, ps_Containers (pod_spec d) = [c] ∧
    NoDup (cp_Name <$> c_Ports c) ∧
    f_http (container_flags c) = Some (Itoa (HTTPPort l)) ∧
    f_rls (container_flags c) = Some (Itoa (GRPCPort l)) ∧
    probes_status c (HTTPPort l) ∧
    selects (svc_Selector (Service_of l)) (pt_Labels (dsp_Template (dep_Spec d))) ∧
    ∀ sp, sp ∈ svc_Ports (Service_of l) →
      ∃ cp, cp ∈ c_Ports c ∧ sp_TargetPort sp = FromString (cp_Name cp) ∧
        cp_ContainerPort cp = sp_Port sp ∧ cp_Protocol cp = sp_Protocol sp.
Proof.
  intros Hr Hl He. pose proof (applied_deployment _ _ _ _ _ _ _ _ _ Hr Hl He) as Hd.
  destruct (desired_container _ _ Hd) as (c & Hc & Hf & _ & args & ->).
  destruct (desired_deployment_inv _ _ Hd) as (args' & _ & Hs & _).
  eexists. split; [exact Hc|]. rewrite Hf, Hs. split_and!; try done.
  - apply NoDup_cons. split; [by intros ?%list_elem_of_singleton|apply NoDup_singleton].
  - by intros p [[= <-]|[= <-]].
  - apply SelectorLabels_Labels.
  - intros sp Hsp. simpl in Hsp. rewrite !elem_of_cons in Hsp.
    destruct Hsp as [->|[->|Hsp]]; [| |by apply elem_of_nil in Hsp].
    + eexists. split; [left|done].
    + eexists. split; [right; left|done].
Qed.

(** C15: the volumes agree. In the Deployment a run applies, volume names are
    distinct and every mount has its volume; the limits file on the command
    line is the one file of the limits ConfigMap, at the place where that
    ConfigMap, by the name it is applied under, is mounted; a claim is mounted,
    writable and under the name of the claim the run creates, exactly when the
    storage is on disk, and then its mount path ends the command line. *)
Theorem applied_volumes_agree logger ctx req t out l d opts r :
  runs (Reconcile logger ctx req) t out → Ev (Get KLimitador req) (Ok l) ∈ t →
  Ev (Patch_Apply (Obj KDeployment d) opts) r ∈ t →
  ∃ c, ps_Containers (pod_spec d) = [c] ∧
    NoDup (vol_Name <$> ps_Volumes (pod_spec d)) ∧
    (vm_Name <$> c_VolumeMounts c) = (vol_Name <$> ps_Volumes (pod_spec d)) ∧
    (∀ cm, LimitsConfigMap l = Ok cm →
       ∃ m v f data, m ∈ c_VolumeMounts c ∧ v ∈ ps_Volumes (pod_spec d) ∧ vm_Name m = vol_Name v ∧
         vol_ConfigMap v = Some {| lor_Name := om_Name (cm_ObjectMeta cm) |} ∧
         cm_Data cm = {[ f := data ]} ∧
         head (container_rest c) = Some (vm_MountPath m +:+ "/" +:+ f)) ∧
    (∀ v src, v ∈ ps_Volumes (pod_spec d) → vol_PersistentVolumeClaim v = Some src →
       uses_disk (backend_of l) = true ∧ wants_claim l = true ∧
       src = {| pvs_ClaimName := om_Name (pvc_ObjectMeta (PVC l)); pvs_ReadOnly := false |}) ∧
    (uses_disk (backend_of l) = true →
       ∃ m v, m ∈ c_VolumeMounts c ∧ v ∈ ps_Volumes (pod_spec d) ∧ vm_Name m = vol_Name v ∧
         is_Some (vol_PersistentVolumeClaim v) ∧ vm_ReadOnly m = false ∧
         last (container_rest c) = Some (vm_MountPath m)).
Proof.
  intros Hr Hl He. pose proof (applied_deployment _ _ _ _ _ _ _ _ _ Hr Hl He) as Hd.
  destruct (desired_container _ _ Hd) as (c & Hc & _ & Hrest & args & ->).
  destruct (desired_deployment_inv _ _ Hd) as (args' & _ & Hs & _).
  eexists. split; [exact Hc|]. rewrite Hrest. unfold pod_spec. rewrite Hs. simpl.
  split_and!.
  - destruct (uses_disk _); [|apply NoDup_singleton].
    apply NoDup_cons. split; [by intros ?%list_elem_of_singleton|apply NoDup_singleton].
  - by destruct (uses_disk _).
  - intros cm Hcm. unfold LimitsConfigMap in Hcm.
    destruct (yaml_Marshal_Limits (Limits l)) as [data|]; [|done]. injection Hcm as <-.
    eexists _, _, _, data. do 2 (split; [left|]). by split_and!.
  - intros v src [->|Hv]%elem_of_cons; [done|]. intros Hsrc.
    unfold backend_options in Hv. simpl in Hv.
    destruct (backend_of l) as [| | |dk] eqn:Hb; simpl in Hv; try by apply elem_of_nil in Hv.
    apply list_elem_of_singleton in Hv as ->. injection Hsrc as <-.
    split_and!; [done|by eapply backend_disk_claim|]. f_equal.
    by pose proof (f_equal nn_Name (PVC_key l)).
  - intros Hu. unfold backend_options. simpl.
    destruct (backend_of l) as [| | |dk] eqn:Hb; try done. simpl.
    eexists _, _. split; [right; left|]. split; [right; left|]. split_and!; [done|by eexists|done|].
    destruct (disk_Optimize dk); done.
Qed.

(** C17: storage on disk is never shared. The Deployment a run applies is
    updated by recreating its pods exactly when the storage is on disk, and by
    a rolling update otherwise; with storage on disk an admitted resource gets
    at most one replica. The number of replicas is the one asked for, clamped
    to 32 bits. *)
Theorem applied_strategy logger ctx req t out l d opts r :
  runs (Reconcile logger ctx req) t out → Ev (Get KLimitador req) (Ok l) ∈ t →
  Ev (Patch_Apply (Obj KDeployment d) opts) r ∈ t →
  (ds_Type (dsp_Strategy (dep_Spec d)) = Some RecreateDeploymentStrategyType ↔
     uses_disk (backend_of l) = true) ∧
  (uses_disk (backend_of l) = false → dsp_Strategy (dep_Spec d) = rolling_update) ∧
  ∃ n, dsp_Replicas (dep_Spec d) = Some n ∧ is_int32 n ∧
    (∀ m, spec_Replicas (lim_Spec l) = Some m → n = Z.max MinInt32 (Z.min MaxInt32 m)) ∧
    (uses_disk (backend_of l) = true → admissible (lim_Spec l) = true → (n ≤ 1)%Z).
Proof.
  intros Hr Hl He. pose proof (applied_deployment _ _ _ _ _ _ _ _ _ Hr Hl He) as Hd.
  destruct (desired_deployment_inv _ _ Hd) as (args' & _ & -> & _). simpl.
  split_and!; [by destruct (uses_disk _)|by intros ->|].
  exists (GetReplicas l). split_and!; [done|apply GetReplicas_int32|apply GetReplicas_clamps|].
  apply backend_disk_replicas.
Qed.

(** C18: a Redis back end is deployed only with its URL. If the Deployment a
    run applies stores in Redis, plain or cached, that run has read the
    referenced secret in the resource's namespace and found its URL; the
    container takes LIMITADOR_OPERATOR_REDIS_URL from that secret's URL key
    and its storage arguments refer to that variable. Without Redis the
    container has no environment. *)
Theorem applied_redis_url logger ctx req t out l d opts r :
  runs (Reconcile logger ctx req) t out → Ev (Get KLimitador req) (Ok l) ∈ t →
  Ev (Patch_Apply (Obj KDeployment d) opts) r ∈ t →
  ∃ c, ps_Containers (pod_spec d) = [c] ∧
    if uses_redis (backend_of l)
    then ∃ ref s args,
      Ev (Get KSecret {| nn_Namespace := lim_Namespace l; nn_Name := lor_Name ref |}) (Ok s) ∈ t ∧
      is_Some (sec_Data s !! "URL") ∧
      c_Env c = [ {| ev_Name := "LIMITADOR_OPERATOR_REDIS_URL";
                     ev_SecretKeyRef := Some {| sks_Name := lor_Name ref; sks_Key := "URL" |} |} ] ∧
      tail (container_rest c) = args ∧ args !! 1 = Some "$(LIMITADOR_OPERATOR_REDIS_URL)"
    else c_Env c = [].
Proof.
  intros Hr Hl He. pose proof (applied_deployment _ _ _ _ _ _ _ _ _ Hr Hl He) as Hd.
  destruct (desired_container _ _ Hd) as (c & Hc & _ & Hrest & args & ->).
  eexists. split; [exact Hc|]. rewrite Hrest. simpl. unfold backend_env.
  destruct (uses_redis (backend_of l)) eqn:Hu.
  - destruct (applied_secret _ _ _ _ _ _ _ _ _ Hr Hl He Hu) as (ref & s & Hsec & ? & ?).
    rewrite Hsec. exists ref, s, (backend_args (backend_of l)). split_and!; [done..|].
    destruct (backend_of l) as [|rd|rc|]; try done. simpl.
    unfold redis_cached_command, append_int_flag.
    by destruct (rc_Options rc) as [[[f|] [m|] [p|] [b|]]|].
  - by destruct (backend_of l).
Qed.

(** C31: the Deployment selects its own pods and no other resource's. The
    selector of the Deployment a run applies selects the labels of its own
    pod template; it selects those of a Deployment applied for another
    resource only if that one has the same name. *)
Theorem applied_selector logger ctx req t out l d opts r logger' ctx' req' t' out' l' d' opts' r' :
  runs (Reconcile logger ctx req) t out → Ev (Get KLimitador req) (Ok l) ∈ t →
  Ev (Patch_Apply (Obj KDeployment d) opts) r ∈ t →
  runs (Reconcile logger' ctx' req') t' out' → Ev (Get KLimitador req') (Ok l') ∈ t' →
  Ev (Patch_Apply (Obj KDeployment d') opts') r' ∈ t' →
  ∃ sel, dsp_Selector (dep_Spec d) = Some sel ∧
    selects (MatchLabels sel) (pt_Labels (dsp_Template (dep_Spec d))) ∧
    (selects (MatchLabels sel) (pt_Labels (dsp_Template (dep_Spec d'))) → lim_Name l = lim_Name l').
Proof.
  intros Hr Hl He Hr' Hl' He'.
  pose proof (applied_deployment _ _ _ _ _ _ _ _ _ Hr Hl He) as Hd.
  pose proof (applied_deployment _ _ _ _ _ _ _ _ _ Hr' Hl' He') as Hd'.
  destruct (desired_deployment_inv _ _ Hd) as (args & _ & -> & _).
  destruct (desired_deployment_inv _ _ Hd') as (args' & _ & -> & _). simpl.
  eexists. split; [done|]. split; [apply SelectorLabels_Labels|].
  apply SelectorLabels_exclusive.
Qed.

(** The image, resources, affinity and pull secrets are the resource's.
    The container a run applies runs [spec.image] if it is set, else the
    operator's repository at [spec.version] if that is set, else the image of
    the environment; it gets the resource's requirements or the defaults,
    and the pods its affinity and pull secrets. *)
Theorem applied_container logger ctx req t out l d opts r :
  runs (Reconcile logger ctx req) t out → Ev (Get KLimitador req) (Ok l) ∈ t →
  Ev (Patch_Apply (Obj KDeployment d) opts) r ∈ t →
  ∃ c, ps_Containers (pod_spec d) = [c] ∧
    c_Image c = match spec_Image (lim_Spec l), spec_Version (lim_Spec l) with
                | Some image, _ => image
                | None, Some v => "quay.io/kuadrant/limitador:" +:+ v
                | None, None => env_GetString "RELATED_IMAGE_LIMITADOR" "quay.io/kuadrant/limitador:latest"
                end ∧
    c_Resources c = default defaultResourceRequirements (spec_ResourceRequirements (lim_Spec l)) ∧
    ps_Affinity (pod_spec d) = spec_Affinity (lim_Spec l) ∧
    ps_ImagePullSecrets (pod_spec d) = spec_ImagePullSecrets (lim_Spec l).
Proof.
  intros Hr Hl He. pose proof (applied_deployment _ _ _ _ _ _ _ _ _ Hr Hl He) as Hd.
  destruct (desired_container _ _ Hd) as (c & Hc & _ & Hrest & args & ->).
  destruct (desired_deployment_inv _ _ Hd) as (args' & _ & Hs & _).
  eexists. split; [exact Hc|]. unfold pod_spec. rewrite Hs. simpl.
  unfold deployment_image, GetLimitadorImage, GetResourceRequirements.
  by split_and!.
Qed.

(** C25: the pods follow the limits. A run of the step over the pods that
    ends without an error or another run asked for has read the limits
    ConfigMap, and patched, in the order listed and accepted by the server,
    exactly the listed pods whose annotation was not its resource version, with
    that resource version. *)
Theorem pods_follow_limits ctx l t :
  is_Some (ctx_baseLogger ctx) →
  runs (reconcilePodLimitsHashAnnotation ctx l) t (Done (Result_zero, None)) →
  ∃ pods cm, Ev (ListPods (SelectorLabels l) (lim_Namespace l)) (Ok pods) ∈ t ∧
    Ev (Get KConfigMap (limits_key l)) (Ok cm) ∈ t ∧
    let rv := om_ResourceVersion (cm_ObjectMeta cm) in
    let patch p := pod_annotation_patch (om_Name (pod_ObjectMeta p)) (om_Namespace (pod_ObjectMeta p))
                     PodAnnotationConfigMapResourceVersion rv in
    writes t = (λ p, Ev (Patch_Apply (Obj KPod (patch p)) apply_opts) None) <$>
                 filter (λ p, pod_annotation p PodAnnotationConfigMapResourceVersion ≠ rv) pods ∧
    ∀ p, pod_annotation (patch p) PodAnnotationConfigMapResourceVersion = rv.
Proof.
  intros Hc Hr. destruct (does_runs _ _ _ _ (reconcilePodLimitsHashAnnotation_does ctx l Hc) Hr)
    as (r2 & err2 & [= <- <-] & H).
  assert (Hsub : ∀ e, e ∈ traffic t → e ∈ t) by by intros e [_ ?]%elem_traffic.
  destruct H as (listed & w1 & Hw & H). destruct listed as [pods|e]; [|by destruct H as (_ & _ & [=])].
  destruct (_ || _); [by destruct H as (_ & [=] & _)|].
  destruct H as (got & w2 & -> & H). destruct got as [cm|e].
  2: { destruct H as [_ H]. by destruct (Err_IsNotFound e), H. }
  destruct H as [_ H]. exists pods, cm. cbv zeta. split_and!.
  - apply Hsub. rewrite Hw. left.
  - apply Hsub. rewrite Hw. right. left.
  - rewrite <-writes_traffic, Hw. change (writes (_ :: _ :: w2)) with (writes w2).
    apply pods_patched_None. exact H.
  - intros p. unfold pod_annotation, pod_annotation_patch. simpl. by rewrite lookup_singleton_eq.
Qed.

End workload.

(** ** Witnesses *)

#[local] Existing Instances Sample.platform Sample.condition_codec Sample.limits_codec
  Sample.limitador_codec Sample.controller_util Sample.status_conditions.

Lemma applied_ports_agree_witness :
  ∃ c, ps_Containers (pod_spec memory_deployment) = [c] ∧
    NoDup (cp_Name <$> c_Ports c) ∧
    f_http (container_flags c) = Some "9090" ∧
    f_rls (container_flags c) = Some "8081" ∧
    probes_status c 9090 ∧
    selects (svc_Selector (Service_of sample)) (pt_Labels (dsp_Template (dep_Spec memory_deployment))) ∧
    ∀ sp, sp ∈ svc_Ports (Service_of sample) →
      ∃ cp, cp ∈ c_Ports c ∧ sp_TargetPort sp = FromString (cp_Name cp) ∧
        cp_ContainerPort cp = sp_Port sp ∧ cp_Protocol cp = sp_Protocol sp.
Proof.
  apply (applied_ports_agree no_values Background sample_request (log_in memory_world)
    (end_of reconcile_sample memory_world) sample memory_deployment apply_opts None).
  - exact (runs_in memory_world).
  - in_log 1.
  - in_log 15.
Defined.

Lemma applied_volumes_agree_witness :
  ∃ c, ps_Containers (pod_spec disk_deployment) = [c] ∧
    NoDup (vol_Name <$> ps_Volumes (pod_spec disk_deployment)) ∧
    (vm_Name <$> c_VolumeMounts c) = (vol_Name <$> ps_Volumes (pod_spec disk_deployment)).
Proof.
  destruct (applied_volumes_agree no_values Background sample_request (log_in disk_world)
    (end_of reconcile_sample disk_world) sample_disk disk_deployment apply_opts None)
    as (c & H1 & H2 & H3 & _).
  - exact (runs_in disk_world).
  - in_log 1.
  - in_log 17.
  - exists c. split; [exact H1|]. split; [exact H2|exact H3].
Defined.

Lemma applied_strategy_witness :
  ds_Type (dsp_Strategy (dep_Spec disk_deployment)) = Some RecreateDeploymentStrategyType ∧
  ∃ n, dsp_Replicas (dep_Spec disk_deployment) = Some n ∧ (n ≤ 1)%Z.
Proof.
  destruct (applied_strategy no_values Background sample_request (log_in disk_world)
    (end_of reconcile_sample disk_world) sample_disk disk_deployment apply_opts None)
    as (H1 & _ & n & H2 & _ & _ & H3).
  - exact (runs_in disk_world).
  - in_log 1.
  - in_log 17.
  - split; [apply H1; reflexivity|]. exists n. split; [exact H2|]. apply H3; reflexivity.
Defined.

Lemma applied_redis_url_witness :
  ∃ c, ps_Containers (pod_spec redis_deployment) = [c] ∧
    ∃ ref s args,
      Ev (Get KSecret {| nn_Namespace := "default"; nn_Name := lor_Name ref |}) (Ok s)
        ∈ log_in redis_world ∧
      is_Some (sec_Data s !! "URL") ∧
      c_Env c = [ {| ev_Name := "LIMITADOR_OPERATOR_REDIS_URL";
                     ev_SecretKeyRef := Some {| sks_Name := lor_Name ref; sks_Key := "URL" |} |} ] ∧
      tail (container_rest c) = args ∧ args !! 1 = Some "$(LIMITADOR_OPERATOR_REDIS_URL)".
Proof.
  apply (applied_redis_url no_values Background sample_request (log_in redis_world)
    (end_of reconcile_sample redis_world) sample_redis redis_deployment apply_opts None).
  - exact (runs_in redis_world).
  - in_log 1.
  - in_log 16.
Defined.

Lemma applied_selector_witness :
  ∃ sel, dsp_Selector (dep_Spec memory_deployment) = Some sel ∧
    selects (MatchLabels sel) (pt_Labels (dsp_Template (dep_Spec memory_deployment))) ∧
    (selects (MatchLabels sel) (pt_Labels (dsp_Template (dep_Spec disk_deployment))) →
     lim_Name sample = lim_Name sample_disk).
Proof.
  apply (applied_selector no_values Background sample_request (log_in memory_world)
    (end_of reconcile_sample memory_world) sample memory_deployment apply_opts None
    no_values Background sample_request (log_in disk_world)
    (end_of reconcile_sample disk_world) sample_disk disk_deployment apply_opts None).
  - exact (runs_in memory_world).
  - in_log 1.
  - in_log 15.
  - exact (runs_in disk_world).
  - in_log 1.
  - in_log 17.
Defined.

Lemma applied_container_witness :
  ∃ c, ps_Containers (pod_spec memory_deployment) = [c] ∧
    c_Image c = "quay.io/kuadrant/limitador:1.6.0" ∧
    c_Resources c = defaultResourceRequirements ∧
    ps_Affinity (pod_spec memory_deployment) = None ∧
    ps_ImagePullSecrets (pod_spec memory_deployment) = [{| lor_Name := "pull" |}].
Proof.
  apply (applied_container no_values Background sample_request (log_in memory_world)
    (end_of reconcile_sample memory_world) sample memory_deployment apply_opts None).
  - exact (runs_in memory_world).
  - in_log 1.
  - in_log 15.
Defined.

(** The sample's one pod has no annotation: it is patched. *)
Definition pods_log : list event :=
  log_of (reconcilePodLimitsHashAnnotation sample_context sample) memory_world.

Lemma pods_follow_limits_witness :
  length (writes pods_log) = 1 ∧
  ∃ pods cm, Ev (ListPods (SelectorLabels sample) "default") (Ok pods) ∈ pods_log ∧
    Ev (Get KConfigMap (limits_key sample)) (Ok cm) ∈ pods_log.
Proof.
  split; [by_running|].
  destruct (pods_follow_limits sample_context sample pods_log) as (pods & cm & H1 & H2 & _).
  - by eexists.
  - exact (sample_runs (reconcilePodLimitsHashAnnotation sample_context sample) memory_world).
  - exists pods, cm. split; [exact H1|exact H2].
Defined.
