(* ===== verification/StorageTrace.v ===== *)
(** * The storage the trace reports

    [Reconcile] puts a storage type on its span. This file follows, through a
    whole run, the resource that is read and the storage types recorded on
    spans, and compares them with the storage the applied Deployment is started
    with. *)

From S2P Require Import Prelude Kube Helpers Types Effects Observability Names Options Objects.
From S2P Require Import BaseReconciler Status Controller Traffic Plan Follows Spans Footprint Sample Loop Outcome.
From S2P Require Import CommandLine Workload.

Create HintDb unreported discriminated.

Section storage_trace.
Context {PF : Platform}.

(** ** Vocabulary *)

(** The values a call records on a span as the storage type. *)
Definition storage_values (c : call) : list attr_value :=
  match c with
  | SpanDo _ (SpanSetAttributes kvs) =>
      omap (λ kv, if bool_decide (kv.1 = attrK8sLimitadorStorage) then Some kv.2 else None) kvs
  | _ => []
  end.

(** The storage type a run has reported. *)
Definition reports (t : list event) (v : attr_value) : Prop :=
  ∃ e, e ∈ t ∧ v ∈ storage_values (ev_call e).

(** The name a trace gives to the storage that a command of limitador-server
    selects. *)
Definition trace_name (command : string) : string :=
  if bool_decide (command = "redis_cached") then "redis-cached" else command.

(** ** Reads and reports of a run *)

Definition resource_read (e : event) : option Limitador :=
  let '(Ev c x) := e in
  match c return reply c → option Limitador with
  | Get KLimitador _ => λ got, match got with Ok l => Some l | Err _ => None end
  | _ => λ _, None
  end x.
(** What the calls so far have read and reported. *)
Definition reported_step (s : list Limitador * list attr_value) (e : event)
    : option (list Limitador * list attr_value) :=
  Some (s.1 ++ option_list (resource_read e), s.2 ++ storage_values (ev_call e)).

Lemma reported_run s t :
  monitor reported_step s t =
    Some (s.1 ++ omap resource_read t, s.2 ++ (t ≫= λ e, storage_values (ev_call e))).
Proof.
  revert s. induction t as [|e t IH]; intros [rs vs]; simpl; [by rewrite !app_nil_r|].
  rewrite IH. simpl. rewrite <-!(assoc_L (++)). by destruct (resource_read e).
Qed.

(** ** Programs that neither read the resource nor report *)

Definition unreported {A} (p : prog A) : Prop := ∀ s, wpm reported_step p s (λ _ s', s' = s).

Lemma unreported_Ret {A} (a : A) : unreported (Ret a).
Proof. done. Qed.

Lemma unreported_of_outcome {A} (o : outcome A) : unreported (of_outcome o).
Proof. by destruct o. Qed.

Lemma unreported_bind {A B} (p : prog A) (f : A → prog B) :
  unreported p → (∀ a, unreported (f a)) → unreported (p ≫= f).
Proof.
  intros Hp Hf s. apply wpm_bind. eapply wpm_mono; [apply Hp|].
  intros [a|msg] s' ->; [apply Hf|done].
Qed.

Lemma unreported_deferring {A} fin (p : prog A) :
  unreported fin → unreported p → unreported (deferring fin p).
Proof.
  intros Hfin Hp s. apply wpm_deferring. eapply wpm_mono; [apply Hp|].
  intros o s' ->. eapply wpm_mono; [apply Hfin|]. by intros [] s'' ->.
Qed.

Definition silent (c : call) : bool :=
  match c with
  | Get KLimitador _ => false
  | _ => match storage_values c with [] => true | _ => false end
  end.

Lemma unreported_call c : silent c = true → unreported (do_call c).
Proof.
  intros Hc [rs vs] x.
  assert (storage_values c = [] ∧ resource_read (Ev c x) = None) as [Hv Hr].
  { destruct c as [[] ?| | | | | | | | | | | |]; try done. simpl in *.
    destruct op; try done. by case_match. }
  cbn [wpm do_call]. unfold reported_step. cbn [fst snd ev_call]. by rewrite Hv, Hr, !app_nil_r.
Qed.

#[local] Hint Resolve unreported_Ret unreported_of_outcome : unreported.
#[local] Hint Extern 1 (unreported _) => (apply unreported_call; reflexivity) : unreported.

Ltac unreported_solve :=
  repeat
    match goal with
    | |- unreported (mbind _ _) => apply unreported_bind; [|intros ?]
    | |- unreported (deferring _ _) => apply unreported_deferring
    | |- unreported (match ?x with _ => _ end) => destruct x
    | |- unreported (let _ := _ in _) => cbv zeta
    end;
  eauto 3 with unreported.

(** ** The operator *)

Lemma unreported_ReconcileResource ctx o : unreported (ReconcileResource ctx o).
Proof. unfold ReconcileResource, DeleteResource, RecordError. unreported_solve. Qed.

Lemma unreported_ReconcilePersistentVolumeClaim ctx p :
  unreported (ReconcilePersistentVolumeClaim ctx p).
Proof.
  unfold ReconcilePersistentVolumeClaim, DeleteResource, CreateResource, RecordError.
  unreported_solve.
Qed.

#[local] Hint Resolve unreported_ReconcileResource unreported_ReconcilePersistentVolumeClaim
  : unreported.

Lemma unreported_reconcile_owned {CU : ControllerUtil} rl lg ctx span l kd (obj : struct_of kd) rec m d :
  (∀ o, unreported (rec ctx o)) → unreported (reconcile_owned rl lg ctx span l obj rec m d).
Proof. intros Hrec. unfold reconcile_owned, SetOwnerReference_logged, RecordError. unreported_solve. Qed.

Lemma unreported_getDeploymentOptions l : unreported (getDeploymentOptions l).
Proof.
  unfold getDeploymentOptions, getDeploymentStorageOptions, RedisDeploymentOptions,
    RedisCachedDeploymentOptions, validateRedisSecret.
  unreported_solve.
Qed.

Lemma unreported_annotate_pods ctx span rv pods : unreported (annotate_pods ctx span rv pods).
Proof.
  induction pods as [|p ps IH]; [done|]. cbn [annotate_pods].
  unfold ReconcilePodAnnotation, RecordError. unreported_solve.
Qed.

#[local] Hint Resolve unreported_reconcile_owned unreported_getDeploymentOptions
  unreported_annotate_pods : unreported.

Section operator.
Context {CC : ConditionCodec} {LC : LimitsCodec} {JC : LimitadorCodec} {CU : ControllerUtil}
  {SC : StatusConditions}.

Lemma unreported_reconcileSpec rl ctx l : unreported (reconcileSpec rl ctx l).
Proof.
  unfold reconcileSpec, StartReconcileSpecSpan, reconcileSpec_body, or_return, reconcileService,
    reconcilePVC, reconcileDeployment, reconcileLimitsConfigMap, reconcilePdb,
    reconcilePodLimitsHashAnnotation, reconcilePodLimitsHashAnnotation_body, StartResourceSpan,
    tracer_Start, ReconcileService, ReconcileDeployment, ReconcileConfigMap,
    ReconcilePodDisruptionBudget, RecordSpecCompleted, RecordError.
  unreported_solve.
Qed.

Lemma unreported_reconcileStatus ctx l specErr : unreported (reconcileStatus ctx l specErr).
Proof.
  unfold reconcileStatus, StartReconcileStatusSpan, tracer_Start, reconcileStatus_body,
    calculateStatus, readyCondition, checkLimitadorAvailable, Equals_logged, UpdateResourceStatus,
    RecordStatusCompleted, RecordError.
  unreported_solve.
Qed.

#[local] Hint Resolve unreported_reconcileSpec unreported_reconcileStatus : unreported.

Lemma unreported_Reconcile_object rl lg ctx span l : unreported (Reconcile_object rl lg ctx span l).
Proof. unfold Reconcile_object, RecordReconcileResult, RecordError. unreported_solve. Qed.

Lemma unreported_debug_marshal lg l : unreported (debug_marshal lg l).
Proof. unfold debug_marshal. unreported_solve. Qed.

(** What a run has read and reported. *)
Definition all_reported (s : list Limitador * list attr_value) : Prop :=
  s = ([], []) ∨ ∃ l, s = ([l], [VString (storageType l)]).
Lemma unreported_post {A} (p : prog A) s (Q : list Limitador * list attr_value → Prop) :
  unreported p → Q s → wpm reported_step p s (λ _, Q).
Proof. intros Hp HQ. eapply wpm_mono; [apply Hp|]. by intros o s' ->. Qed.

(** A silent program, and what follows it. *)
Lemma wpm_unreported_bind {A B} (p : prog A) (f : A → prog B) s Q :
  unreported p → (∀ o, bind_post reported_step f Q o s) → wpm reported_step (p ≫= f) s Q.
Proof. intros Hp HQ. apply wpm_bind. eapply wpm_mono; [apply Hp|]. by intros o s' ->. Qed.

(** Once the resource is read and reported, nothing else is. *)
Definition after_reading (rl lg : Logger) (ctx : Context) (span : Span) (l : Limitador)
    : prog (Result * option error) :=
  failed ← debug_marshal lg l;
  match failed with
  | Some err =>
      _ ← RecordError span err "failed to marshal Limitador object to JSON";
      Ret (Result_zero, Some err)
  | None => Reconcile_object rl lg ctx span l
  end.

Lemma after_report rl lg ctx span l : unreported (after_reading rl lg ctx span l).
Proof.
  unfold after_reading.
  pose proof (unreported_debug_marshal lg l). pose proof (unreported_Reconcile_object rl lg ctx span l).
  unfold RecordError. unreported_solve.
Qed.

(** The key of the namespace attribute, as the semantic conventions have it. *)
Hypothesis namespace_key : K8SNamespaceNameKey = "k8s.namespace.name".

Lemma reported_attributes span l :
  storage_values (SpanDo span (SpanSetAttributes
    [ (K8SNamespaceNameKey, VString (lim_Namespace l)); ("k8s.limitador.name", VString (lim_Name l));
      (attrK8sLimitadorReplicas, VInt (GetReplicas l));
      (attrK8sLimitadorStorage, VString (storageType l)) ])) = [VString (storageType l)].
Proof. by rewrite namespace_key. Qed.

Lemma Reconcile_body_reports rl lg ctx span req :
  wpm reported_step (Reconcile_body rl lg ctx span req) ([], []) (λ _, all_reported).
Proof.
  unfold Reconcile_body. cbv zeta.
  apply wpm_unreported_bind; [eauto with unreported|]. intros [[]|msg]; [|by left].
  apply wpm_bind. intros [l|e]; unfold reported_step at 1;
    cbn [fst snd ev_call resource_read option_list app storage_values wpm bind_post].
  - assert (Hrest : wpm reported_step
      (_ ← AddLimitadorAttributes span (lim_Namespace l) (lim_Name l) (GetReplicas l) (storageType l);
       after_reading rl (own_logger lg span) ctx span l) ([l], []) (λ _, all_reported)).
    { apply wpm_bind. intros x.
      unfold reported_step at 1. cbn [fst snd ev_call app]. rewrite reported_attributes.
      exact (unreported_post _ ([l], [VString (storageType l)]) all_reported
               (after_report rl _ ctx span l) (or_intror (ex_intro _ l eq_refl))). }
    apply wpm_bind. intros link. apply wpm_bind.
    destruct (SpanContext_IsValid link); [intros x|]; exact Hrest.
  - apply unreported_post; [|by left].
    unfold RecordReconcileResult, RecordError. unreported_solve.
Qed.

Lemma Reconcile_reports logger ctx req :
  wpm reported_step (Reconcile logger ctx req) ([], []) (λ _, all_reported).
Proof.
  unfold Reconcile, StartReconcileSpan, tracer_Start. intros span.
  apply wpm_deferring. eapply wpm_mono; [apply Reconcile_body_reports|].
  intros o s Hs. eapply wpm_mono; [apply unreported_call; reflexivity|].
  intros [[]|msg] s' ->; done.
Qed.

(** The storage type a run reports is that of the resource it reads. *)
Lemma run_reports logger ctx req t o l :
  runs (Reconcile logger ctx req) t o → Ev (Get KLimitador req) (Ok l) ∈ t →
  ∀ v, reports t v ↔ v = VString (storageType l).
Proof.
  intros Hr Hl v. destruct (wpm_runs _ _ _ _ _ _ (Reconcile_reports logger ctx req) Hr)
    as (s & Hm & Hs).
  rewrite reported_run in Hm. injection Hm as <-. cbn [fst snd app] in Hs.
  assert (Hread : l ∈ omap resource_read t)
    by (apply list_elem_of_omap; by exists (Ev (Get KLimitador req) (Ok l))).
  assert (Hrep : reports t v ↔ v ∈ t ≫= λ e, storage_values (ev_call e)).
  { unfold reports. rewrite list_elem_of_bind.
    split; intros (e & ? & ?); by exists e. }
  rewrite Hrep. destruct Hs as [[= Hrs _]|(l' & [= Hrs Hvs])]; rewrite Hrs in Hread.
  - by apply elem_of_nil in Hread.
  - apply list_elem_of_singleton in Hread as ->. by rewrite Hvs, list_elem_of_singleton.
Qed.

(** The command of cached Redis comes first. *)
Lemma redis_cached_command_head o :
  redis_cached_command o = "redis_cached" :: tail (redis_cached_command o).
Proof.
  unfold redis_cached_command, append_int_flag. by destruct o as [[[f|] [m|] [p|] [b|]]|].
Qed.

(** ** The property *)

(** C39: the storage the trace names is the one deployed, but for one case. A
    run that has read a resource reports one storage type on its spans; in the
    Deployment it applies, the command line goes on after the limits file with
    the command that selects the storage. The type reported names that storage
    exactly when plain Redis and cached Redis are not both set; when both are,
    plain Redis is deployed and [redis-cached] reported. (The key of the
    namespace attribute is the one of the semantic conventions.) *)
Theorem storageType_agrees logger ctx req t out l d opts r :
  runs (Reconcile logger ctx req) t out → Ev (Get KLimitador req) (Ok l) ∈ t →
  Ev (Patch_Apply (Obj KDeployment d) opts) r ∈ t →
  let both := is_Some (spec_Storage (lim_Spec l) ≫= st_Redis) ∧
              is_Some (spec_Storage (lim_Spec l) ≫= st_RedisCached) in
  ∃ c command args reported,
    ps_Containers (pod_spec d) = [c] ∧ container_rest c = limits_file :: command :: args ∧
    (∀ v, reports t v ↔ v = VString reported) ∧
    (reported = trace_name command ↔ ¬ both) ∧
    (both → command = "redis" ∧ reported = "redis-cached").
Proof.
  intros Hr Hl He both. pose proof (applied_deployment _ _ _ _ _ _ _ _ _ Hr Hl He) as Hd.
  destruct (desired_container _ _ Hd) as (c & Hc & _ & Hrest & _).
  assert (Hargs : ∃ command args, backend_args (backend_of l) = command :: args ∧
    (storageType l = trace_name command ↔ ¬ both) ∧
    (both → command = "redis" ∧ storageType l = "redis-cached")).
  { unfold both, storageType, backend_of.
    destruct (spec_Storage (lim_Spec l)) as [[[rd|] [rc|] [dk|]]|]; simpl;
      try rewrite redis_cached_command_head; do 2 eexists; (split; [reflexivity|]);
      (split; [|first [done|by intros [[? [=]] _]|by intros [_ [? [=]]]]]);
      (split; [intros H1; try discriminate; intros [[? ?] [? ?]]; discriminate|]);
      intros H; try done; destruct H; split; by eexists. }
  destruct Hargs as (command & args & Hargs & Hiff & Hboth). rewrite Hargs in Hrest.
  exists c, command, args, (storageType l). split_and!; [done..| |done|done].
  by eapply run_reports.
Qed.
End operator.
End storage_trace.

(** ** Witness *)

#[local] Existing Instances Sample.platform Sample.condition_codec Sample.limits_codec
  Sample.limitador_codec Sample.controller_util Sample.status_conditions.

(** Both kinds of Redis set. *)
Definition sample_both : Limitador := limitador_with (sample_spec (Some both_storage) None).
Definition both_world : world := cluster sample_both no_error.
Definition both_deployment : Deployment := Eval vm_compute in deployment_at both_world 16.

Lemma storageType_agrees_witness :
  container_rest <$> ps_Containers (pod_spec both_deployment) =
    [[limits_file; "redis"; "$(LIMITADOR_OPERATOR_REDIS_URL)"]] ∧
  reports (log_in both_world) (VString "redis-cached") ∧
  ¬ reports (log_in both_world) (VString (trace_name "redis")).
Proof.
  split; [by_running|].
  destruct (storageType_agrees (PF := platform) eq_refl no_values Background sample_request (log_in both_world)
    (end_of reconcile_sample both_world) sample_both both_deployment apply_opts None)
    as (c & command & args & reported & _ & _ & Hrep & _ & Hboth).
  - exact (runs_in both_world).
  - in_log 1.
  - in_log 16.
  - destruct Hboth as [_ ->]; [split; by eexists|]. split; [by apply Hrep|].
    intros [=]%Hrep.
Defined.
