(* ===== verification/Convergence.v ===== *)
(** * Reconciliation settles

    A controller is run again and again on the same resource. Once a run has
    ended without an error, and nothing but that run has touched the cluster,
    the next run repeats writes the API server has already accepted and makes
    no other: it creates nothing, annotates no pod and stores no status. *)

From S2P Require Import Prelude Kube Helpers Types Effects Observability Names Options Objects.
From S2P Require Import BaseReconciler Status Controller Traffic Plan Follows Footprint SameResource Sample Loop Outcome.
From S2P Require Import Readiness Workload.

(** ** Vocabulary *)

Section settled_defs.
Context {PF : Platform} {CC : ConditionCodec} {CL : ConditionCodecLaws}.

Definition with_resource_version (rv : string) (m : ObjectMeta) : ObjectMeta :=
  {| om_Name := om_Name m; om_Namespace := om_Namespace m; om_Labels := om_Labels m;
     om_Annotations := om_Annotations m; om_OwnerReferences := om_OwnerReferences m;
     om_Generation := om_Generation m; om_ResourceVersion := rv;
     om_DeletionTimestamp := om_DeletionTimestamp m |}.

(** What the documentation of [SetControllerReference] promises: the owner
    reference is made of the owner's kind and identity, whatever version of
    the owner was read. *)
Class ControllerUtilLaws {CU : ControllerUtil} : Prop := {
  owner_version rv owner m :
    SetControllerReference (with_resource_version rv owner) m = SetControllerReference owner m
}.

(** The status a call stores. *)
Definition stored_status (e : event) : option LimitadorStatus :=
  match ev_call e with
  | Status_Patch_Apply o _ => lim_Status <$> as_limitador o
  | _ => None
  end.

(** A status as it is read back once stored: its conditions have been through
    JSON. *)
Record read_back (st st' : LimitadorStatus) : Prop := {
  rb_generation : status_ObservedGeneration st' = status_ObservedGeneration st;
  rb_service : status_Service st' = status_Service st;
  rb_conditions : shown <$> status_Conditions st' = shown <$> status_Conditions st
}.

(** The resource as a run leaves it: the last status it stored, and whatever
    resource version the API server has given it since. *)
Record left_by (l : Limitador) (t : list event) (l' : Limitador) : Prop := {
  left_type : lim_TypeMeta l' = lim_TypeMeta l;
  left_meta : ∃ rv, lim_ObjectMeta l' = with_resource_version rv (lim_ObjectMeta l);
  left_spec : lim_Spec l' = lim_Spec l;
  left_status : read_back (default (lim_Status l) (last (omap stored_status t))) (lim_Status l')
}.

Definition as_pod (o : object) : option Pod :=
  let '(Obj kd x) := o in
  match kd return struct_of kd → option Pod with
  | KPod => Some
  | _ => λ _, None
  end x.

(** The resource version of the limits a call writes on the pod of a key. *)
Definition annotated (key : NamespacedName) (e : event) : option string :=
  match ev_call e with
  | Patch_Apply o _ =>
      p ← as_pod o;
      if bool_decide (key_of (pod_ObjectMeta p) = key)
      then Some (pod_annotation p PodAnnotationConfigMapResourceVersion) else None
  | _ => None
  end.

(** A pod as a run leaves it: annotated by the last of its patches, if any. *)
Definition pod_left_by (t : list event) (p q : Pod) : Prop :=
  key_of (pod_ObjectMeta q) = key_of (pod_ObjectMeta p) ∧
  pod_annotation q PodAnnotationConfigMapResourceVersion =
    default (pod_annotation p PodAnnotationConfigMapResourceVersion)
      (last (omap (annotated (key_of (pod_ObjectMeta p))) t)).

(** Both runs got the same answer to a read. *)
Definition same_read (kd : kind) (key : NamespacedName) (t1 t2 : list event) : Prop :=
  ∀ g1 g2, Ev (Get kd key) g1 ∈ t1 → Ev (Get kd key) g2 ∈ t2 → g1 = g2.

(** Nothing but the first run has changed the cluster before the second: the
    Deployment and the limits ConfigMap are read alike, the claim is there,
    and the pods are those of the first run as that run left them. *)
Record undisturbed (l : Limitador) (t1 t2 : list event) : Prop := {
  und_deployment : same_read KDeployment (deployment_key l) t1 t2;
  und_limits : same_read KConfigMap (limits_key l) t1 t2;
  und_claim : ∀ key g, Ev (Get KPersistentVolumeClaim key) g ∈ t2 → is_Ok g;
  und_pods : ∀ ps1 ps2,
    Ev (ListPods (SelectorLabels l) (lim_Namespace l)) (Ok ps1) ∈ t1 →
    Ev (ListPods (SelectorLabels l) (lim_Namespace l)) (Ok ps2) ∈ t2 →
    Forall2 (pod_left_by t1) ps1 ps2
}.

(** The applies and deletes of a resource's own objects. *)
Definition repeats (c : call) : Prop :=
  match c with
  | Patch_Apply o _ => obj_kind o ≠ KPod
  | Delete _ => True
  | _ => False
  end.

End settled_defs.

Section convergence.
Context {PF : Platform} {CC : ConditionCodec} {LC : LimitsCodec} {JC : LimitadorCodec}
  {CU : ControllerUtil} {SC : StatusConditions}.

(** ** Lemmas *)

(** *** Parts of a run *)

Lemma omap_quiet {B} (f : event → option B) (w : list event) :
  (∀ e, e ∈ w → f e = None) → omap f w = [].
Proof.
  intros H. apply elem_of_nil_inv. intros b (e & He & Hb)%list_elem_of_omap.
  by rewrite (H _ He) in Hb.
Qed.

Lemma omap_skip {B} (f : event → option B) e (w : list event) :
  f e = None → omap f (e :: w) = omap f w.
Proof. intros He. cbn. by rewrite He. Qed.

Lemma omap_traffic {B} (f : event → option B) (t : list event) :
  (∀ e, is_traffic (ev_call e) = false → f e = None) → omap f (traffic t) = omap f t.
Proof.
  intros Hf. induction t as [|e t IH]; [done|]. cbn. fold (traffic t).
  destruct (is_traffic (ev_call e)) eqn:He; cbn.
  - by destruct (f e); rewrite <-IH.
  - by rewrite (Hf _ He), <-IH.
Qed.

Lemma omap_part {B} (f : event → option B) (l : Limitador) pods a b w :
  ordered l pods a b w → (∀ e v, f e = Some v → rank e < a ∨ b < rank e) → omap f w = [].
Proof.
  intros [Hw _] Hf. apply omap_quiet. intros e He. rewrite Forall_forall in Hw.
  destruct (Hw _ He) as [_ Hr]. destruct (f e) eqn:Hfe; [|done]. apply Hf in Hfe. lia.
Qed.

(** The patches of pods in a run are those of the step over the pods, its
    status patches those of the step over the status. *)
Lemma run_parts l e0 w1 w2 w3 r t {B} (f : event → option B) :
  traffic t = Ev (Get KLimitador e0) (Ok l) :: w1 ++ w2 ++ w3 →
  in_order (owned_plan l) w1 None → pods_run l w2 r None → status_run l None w3 None →
  ((∀ e v, f e = Some v → rank e = 7) → omap f t = omap f w2) ∧
  ((∀ e v, f e = Some v → rank e = 9) → omap f t = omap f w3).
Proof.
  intros Ht H1%(owned_plan_ordered l []) H2%pods_run_ordered H3%(status_run_ordered _ _ []).
  destruct H2 as [pods H2].
  assert (Hgo : ∀ n, 7 ≤ n → (∀ e v, f e = Some v → rank e = n) → omap f t = omap f (w2 ++ w3)).
  { intros n Hn Hf.
    assert (Hz : ∀ e, rank e = 0 → f e = None).
    { intros e He. destruct (f e) eqn:Hfe; [|done]. apply Hf in Hfe. lia. }
    rewrite <-(omap_traffic f t), Ht; [|by intros [c x] ?; destruct c; try done; apply Hz].
    rewrite omap_skip by by apply Hz. rewrite omap_app.
    rewrite (omap_part f l [] 1 5 w1 H1) by (intros e v ?%Hf; lia). done. }
  split; intros Hf.
  - rewrite (Hgo 7), omap_app by (done || lia).
    rewrite (omap_part f _ _ _ _ w3 H3) by (intros e v ?%Hf; lia). by rewrite app_nil_r.
  - rewrite (Hgo 9), omap_app by (done || lia).
    by rewrite (omap_part f l pods 6 7 w2 H2) by (intros e v ?%Hf; lia).
Qed.

(** *** The objects *)

Section objects.
Context {OL : ControllerUtilLaws}.

(** Storing a status changes nothing the objects are made of. *)
Lemma left_by_same {CL : ConditionCodecLaws} l t l' : left_by l t l' → same_resource l' l.
Proof.
  intros [_ [rv Hm] Hs _]. split; [| |done|].
  - unfold lim_Name. by rewrite Hm.
  - unfold lim_Namespace. by rewrite Hm.
  - intros m. rewrite Hm. apply owner_version.
Qed.

(** What the resource asks for is what it asked for before. *)
Lemma write_duty_same l l' pods e :
  same_resource l' l → duty l' pods e → is_write (ev_call e) = true → rank e ≤ 5 →
  (∀ o, ev_call e ≠ Create o) → duty l pods e.
Proof.
  intros Hs. destruct e as [c x]. destruct c as [| |o opts|o opts|o|o|o| | | | | |]; try done; simpl.
  - intros [-> Ho] _ _ _. by rewrite Hs in Ho.
  - intros _ _ Hr. cbn in Hr. lia.
  - intros _ _ _ Hno. by destruct (Hno o).
  - intros Ho _ _ _. by rewrite Hs in Ho.
Qed.
End objects.

(** A write on its own objects that a resource asks for was accepted by any
    run that has reconciled them, if it is not the creation of the claim. *)
Lemma reconciled_write l t pods e :
  objects_reconciled l t → duty l pods e → is_write (ev_call e) = true → rank e ≤ 5 →
  (∀ o, ev_call e ≠ Create o) → repeats (ev_call e) ∧ accepted t (ev_call e).
Proof.
  intros ((s & Hs & As) & (p & Hp & Ap) & (d & Hd & Ad) & (cm & c & Hcm & Hc & Ac) &
          (b & Hb & Ab)) Hdu Hw Hr Hno.
  destruct e as [cl x]. destruct cl as [| |o opts|o opts|o|o|o| | | | | |]; try done.
  - destruct Hdu as [-> Ho]. destruct o as [[] o]; try done; try (cbn in Hr; lia).
    + assert (o = s) as -> by (cbn in Ho; congruence). done.
    + assert (o = d) as -> by (by eapply (applied_unique l pods pods KDeployment)). done.
    + assert (o = c) as ->; [|done].
      destruct Ho as (cm' & Hcm' & Ho). rewrite Hcm in Hcm'. injection Hcm' as <-. congruence.
    + destruct Ho as [Hwant Ho]. assert (o = b) as -> by congruence.
      by rewrite bool_decide_eq_true_2 in Ab.
  - cbn in Hr. lia.
  - by destruct (Hno o).
  - destruct o as [[] o]; try done; destruct Hdu as [Hwant Ho].
    + assert (o = p) as -> by congruence. by rewrite Hwant in Ap.
    + assert (o = b) as -> by congruence. rewrite Hwant in Ab.
      by rewrite bool_decide_eq_false_2 in Ab by by intros [? [=]].
Qed.

(** No claim is created by a run that finds it. *)
Lemma claim_found_no_creation logger ctx req t o :
  runs (Reconcile logger ctx req) t o →
  (∀ key g, Ev (Get KPersistentVolumeClaim key) g ∈ t → is_Ok g) →
  ∀ e ob, e ∈ traffic t → ev_call e ≠ Create ob.
Proof.
  intros Hr Hf [c x] ob He Hc. simpl in Hc. subst c.
  destruct (Reconcile_creation _ _ _ _ _ Hr) as (got & w & Hw & Hcm). rewrite Hw in He.
  apply elem_of_cons in He as [He|He]; [by apply (f_equal (λ e, is_write (ev_call e))) in He|].
  apply list_elem_of_split in He as (w1 & w2 & ->).
  destruct (created_after_miss_at _ _ _ _ _ Hcm) as (er & _ & Hl).
  destruct (last w1) as [e|] eqn:Hlast; simpl in Hl.
  - injection Hl as ->. apply last_Some_elem_of in Hlast.
    assert (Hin : Ev (Get KPersistentVolumeClaim (key_of (obj_meta ob))) (Err er) ∈ t).
    { apply (elem_traffic _ t). rewrite Hw. right. apply elem_of_app. by left. }
    by apply Hf in Hin.
  - by apply (f_equal (λ e, rank <$> e)) in Hl.
Qed.

(** *** The pods *)

(** Only the step over the pods patches pods. *)
Lemma annotated_rank key e v : annotated key e = Some v → rank e = 7.
Proof.
  destruct e as [c x]. destruct c as [| |[[] o] ?| | | | | | | | | |]; by try (intros [=]).
Qed.

(** The patches of a pod write one resource version. *)
Lemma pods_annotated rv ps w key v :
  in_order (pod_step rv <$> ps) w None → v ∈ omap (annotated key) w → v = rv.
Proof.
  intros H (e & He & Hv)%list_elem_of_omap.
  assert (Hwr : e ∈ writes w).
  { apply elem_writes. split; [|done]. destruct e as [c x]. by destruct c. }
  rewrite (pods_patched_None _ _ _ H) in Hwr. apply list_elem_of_fmap in Hwr as (p & -> & _).
  unfold annotated in Hv. simpl in Hv. case_bool_decide; [|done]. injection Hv as <-.
  unfold pod_annotation, pod_annotation_patch. simpl. by rewrite lookup_singleton_eq.
Qed.

(** A listed pod is left with the resource version the run has read. *)
Lemma pods_left rv pods t w p q :
  (∀ key, omap (annotated key) t = omap (annotated key) w) →
  in_order (pod_step rv <$> stale_pods rv pods) w None → p ∈ pods → pod_left_by t p q →
  pod_annotation q PodAnnotationConfigMapResourceVersion = rv.
Proof.
  intros Heq H Hp [_ ->]. rewrite Heq.
  destruct (last (omap (annotated (key_of (pod_ObjectMeta p))) w)) as [v|] eqn:Hl; simpl.
  { apply last_Some_elem_of in Hl. by eapply pods_annotated. }
  apply last_None in Hl.
  destruct (decide (pod_annotation p PodAnnotationConfigMapResourceVersion = rv)) as [|Hne]; [done|].
  exfalso. pose proof (pods_patched_None _ _ _ H) as Hw.
  assert (Hin : ∃ e, e ∈ w ∧ is_Some (annotated (key_of (pod_ObjectMeta p)) e)).
  { exists (Ev (Patch_Apply (Obj KPod (pod_annotation_patch (om_Name (pod_ObjectMeta p))
      (om_Namespace (pod_ObjectMeta p)) PodAnnotationConfigMapResourceVersion rv)) apply_opts) None).
    split.
    - eapply elem_writes. rewrite Hw. apply list_elem_of_fmap. exists p. split; [done|].
      by apply list_elem_of_filter.
    - unfold annotated. simpl. by rewrite bool_decide_eq_true_2. }
  destruct Hin as (e & He & v & Hv).
  assert (Hno : v ∈ omap (annotated (key_of (pod_ObjectMeta p))) w) by (apply list_elem_of_omap; eauto).
  rewrite Hl in Hno. by apply elem_of_nil in Hno.
Qed.

(** The pods listed again need no patch. *)
Lemma pods_settle l t1 w1 w2 r1 r2 :
  (∀ key, omap (annotated key) t1 = omap (annotated key) w1) →
  pods_run l w1 r1 None → pods_run l w2 r2 None → same_read KConfigMap (limits_key l) w1 w2 →
  (∀ ps1 ps2, Ev (ListPods (SelectorLabels l) (lim_Namespace l)) (Ok ps1) ∈ w1 →
     Ev (ListPods (SelectorLabels l) (lim_Namespace l)) (Ok ps2) ∈ w2 →
     Forall2 (pod_left_by t1) ps1 ps2) →
  writes w2 = [].
Proof.
  intros Heq (listed1 & v1 & -> & H1) (listed2 & v2 & -> & H2) Hcm Hps.
  destruct listed1 as [ps1|e]; [|by destruct H1 as (_ & _ & [=])].
  destruct listed2 as [ps2|e]; [|by destruct H2 as (_ & _ & [=])].
  specialize (Hps ps1 ps2 ltac:(left) ltac:(left)).
  assert (Hlen : length ps2 = length ps1) by (symmetry; by eapply Forall2_length).
  assert (Hpend : replicas_pending l ps2 = replicas_pending l ps1)
    by (unfold replicas_pending; by rewrite Hlen).
  rewrite Hlen, Hpend in H2. destruct (_ || _); [by destruct H2 as [-> _]|].
  destruct H1 as (g1 & x1 & -> & H1), H2 as (g2 & x2 & -> & H2).
  assert (g2 = g1) as ->. { symmetry. apply Hcm; right; left. }
  destruct g1 as [cm|e]; [|by destruct H2 as [-> _]].
  destruct H1 as [_ H1], H2 as [_ H2]. set (rvl := om_ResourceVersion (cm_ObjectMeta cm)) in *.
  assert (Hst : stale_pods rvl ps2 = []).
  { apply elem_of_nil_inv. intros q [Hne Hq]%list_elem_of_filter. apply Hne.
    apply list_elem_of_lookup in Hq as [i Hi].
    destruct (Forall2_lookup_r _ _ _ _ _ Hps Hi) as (p & Hp & Hleft).
    apply list_elem_of_lookup_2 in Hp.
    by eapply (pods_left rvl ps1 t1 x1). }
  rewrite Hst in H2. by destruct H2 as [-> _].
Qed.

(** *** The status *)

(** The condition a run computes from the Deployment is Ready, in ASCII. *)
Lemma ready_of_type got ready : ready_of got = Ok ready → ascii_text (cond_Type ready) = true.
Proof.
  destruct got as [d|e]; simpl.
  - by destruct (deployment_unavailable d); intros [= <-].
  - by destruct (Err_IsNotFound e); intros [= <-].
Qed.

(** The status a run leaves is the one it computed, or shows the same. *)
Lemma status_left {CL : ConditionCodecLaws} {LA : StatusConditionLaws} l w :
  status_run l None w None →
  ∃ got ready, Ev (Get KDeployment (deployment_key l)) got ∈ w ∧ ready_of got = Ok ready ∧
    let st := default (lim_Status l) (last (omap stored_status w)) in
    status_ObservedGeneration st = lim_Generation l ∧
    status_Service st = status_Service (new_status l []) ∧ is_set (status_Conditions st) ready.
Proof.
  intros (w1 & w2 & c & -> & (got & -> & ->) & H). destruct (ready_of got) as [ready|e] eqn:Hg.
  2: { by destruct H as [_ [=]]. }
  destruct H as (now & w3 & -> & H). exists got, ready. split; [left|]. split; [done|].
  destruct (LimitadorStatus_Equals _ _) eqn:Heq.
  - destruct H as [-> _]. simpl. apply Equals_true in Heq as Hv. unfold status_view in Hv.
    injection Hv as Hv1 _ Hv2. split_and!; [done..|].
    apply (unseen_is_set now). exact (Equals_shown _ _ Heq).
  - destruct H as (e & -> & _). simpl. split_and!; [done..|apply set_is_set].
Qed.

Lemma status_settle {CL : ConditionCodecLaws} {LA : StatusConditionLaws} l l' w1 w2 err2 :
  status_run l None w1 None → left_by l w1 l' → status_run l' None w2 err2 →
  same_read KDeployment (deployment_key l) w1 w2 → writes w2 = [].
Proof.
  intros H1 [_ [rv Hm] Hsp [Hgen Hsvc Hcs]] H2 Hg.
  destruct (status_left l w1 H1) as (got & ready & Hgot & Hready & Hgen' & Hsvc' & Hset).
  apply (shown_is_set _ (status_Conditions (lim_Status l'))) in Hset;
    [|by eapply ready_of_type|done].
  assert (Hk : deployment_key l' = deployment_key l).
  { unfold deployment_key, DeploymentName, lim_Namespace, lim_Name. by rewrite Hm. }
  assert (Hnew : ∀ cs, new_status l' cs = new_status l cs).
  { destruct l' as [ty m sp st]. simpl in Hm, Hsp. by subst. }
  eapply status_run_equal; [exact H2|]. intros w c (got2 & -> & ->) Hin.
  assert (got2 = got) as ->.
  { symmetry. apply Hg; [done|]. rewrite <-Hk. apply Hin. left. }
  exists ready. split; [done|]. intros now'. apply Equals_true. unfold status_view, next_status.
  rewrite Hnew. simpl. rewrite Hgen, Hgen', Hsvc, Hsvc'.
  by rewrite (keyed_marshal _ _ (is_set_again now' _ _ Hset)).
Qed.

(** *** The status patches of a run *)

Lemma stored_status_rank e st : stored_status e = Some st → rank e = 9.
Proof. destruct e as [c x]. by destruct c; try (intros [=]). Qed.

(** ** Theorems *)

(** C4: reconciliation settles. Take a run that ended without an error on a
    resource that is not being deleted, and the next run without an error on
    the resource as the first one left it, the stored status having been through
    JSON, in a cluster nobody else has touched in between. Every write of the
    second run is an apply or a delete of an object of the resource's own that
    the API server had accepted, with the same content, in the first: no claim
    is created, no pod annotated and no status stored, whatever the clock, the
    contexts and the loggers are. *)
Theorem Reconcile_settles {CL : ConditionCodecLaws} {LA : StatusConditionLaws}
    {OL : ControllerUtilLaws} logger1 logger2 ctx1 ctx2 req t1 t2 r1 r2 l l' :
  runs (Reconcile logger1 ctx1 req) t1 (Done (r1, None)) → Ev (Get KLimitador req) (Ok l) ∈ t1 →
  om_DeletionTimestamp (lim_ObjectMeta l) = None →
  runs (Reconcile logger2 ctx2 req) t2 (Done (r2, None)) →
  Ev (Get KLimitador req) (Ok l') ∈ t2 → left_by l t1 l' →
  undisturbed l t1 t2 →
  Forall (λ e, repeats (ev_call e) ∧ accepted t1 (ev_call e)) (writes t2).
Proof.
  intros Hr1 Hl1 Hd Hr2 Hl2 Hleft [Hud Huc Hucl Hup].
  assert (Hd' : om_DeletionTimestamp (lim_ObjectMeta l') = None).
  { destruct Hleft as [_ [rv ->] _ _]. done. }
  pose proof (left_by_same _ _ _ Hleft) as Hsame.
  destruct (Reconcile_success _ _ _ _ _ _ Hr1 Hl1 Hd) as [Hobj _].
  destruct (Reconcile_success_run _ _ _ _ _ _ Hr1 Hl1 Hd) as (a1 & a2 & a3 & ra & Ha & A1 & A2 & A3).
  destruct (Reconcile_success_run _ _ _ _ _ _ Hr2 Hl2 Hd') as (b1 & b2 & b3 & rb & Hb & B1 & B2 & B3).
  assert (Hsa : ∀ e, e ∈ a2 ∨ e ∈ a3 → e ∈ t1).
  { intros e He. apply (elem_traffic e t1). rewrite Ha. right. rewrite !elem_of_app. tauto. }
  assert (Hsb : ∀ e, e ∈ b2 ∨ e ∈ b3 → e ∈ t2).
  { intros e He. apply (elem_traffic e t2). rewrite Hb. right. rewrite !elem_of_app. tauto. }
  assert (H2 : writes b2 = []).
  { rewrite (pods_run_same _ _ Hsame) in B2. eapply (pods_settle l t1 a2 b2 ra rb); [|exact A2|exact B2| |].
    - intros key. apply (run_parts l _ _ _ _ _ _ (annotated key) Ha A1 A2 A3), annotated_rank.
    - intros g1 g2 H1 H2. apply Huc; auto.
    - intros ps1 ps2 H1 H2. apply Hup; auto. }
  assert (H3 : writes b3 = []).
  { assert (Hst : omap stored_status t1 = omap stored_status a3)
      by (apply (run_parts l _ _ _ _ _ _ stored_status Ha A1 A2 A3), stored_status_rank).
    eapply (status_settle l l' a3 b3 None); [exact A3| |exact B3|intros g1 g2 H1 H3; apply Hud; auto].
    destruct Hleft as [? ? ? Hback]. rewrite Hst in Hback. by split. }
  rewrite <-writes_traffic, Hb. change (writes (?e :: ?w)) with (writes w).
  rewrite !writes_app, H2, H3, app_nil_r. apply Forall_forall. intros e [Hw He]%elem_writes.
  apply (owned_plan_ordered _ []) in B1 as [B1 _]. rewrite Forall_forall in B1.
  destruct (B1 _ He) as [Hdu [_ Hr]].
  assert (Hno : ∀ o, ev_call e ≠ Create o).
  { intros o. eapply claim_found_no_creation; [exact Hr2|exact Hucl|].
    rewrite Hb. right. apply elem_of_app. by left. }
  eapply reconciled_write; [done|by eapply write_duty_same|done..].
Qed.

End convergence.

(** ** Witnesses *)

#[local] Existing Instances Sample.platform Sample.limits_codec Sample.limitador_codec
  Sample.controller_util Sample.status_conditions Readiness.sample_condition_laws
  Readiness.number_codec_laws.

#[local] Instance sample_owner_laws : ControllerUtilLaws.
Proof. by split. Defined.

(** The reads of the limits and of the claim in a run. *)
Definition limits_read (e : event) : option (result ExtError ConfigMap) :=
  let '(Ev c x) := e in
  match c return reply c → option (result ExtError ConfigMap) with
  | Get KConfigMap _ => Some
  | _ => λ _, None
  end x.

Definition claim_read (e : event) : option (result ExtError PersistentVolumeClaim) :=
  let '(Ev c x) := e in
  match c return reply c → option (result ExtError PersistentVolumeClaim) with
  | Get KPersistentVolumeClaim _ => Some
  | _ => λ _, None
  end x.

(** The reconciliation, with conditions marshalled to their number. *)
Definition reconcile_numbered : prog (Result * option error) :=
  Reconcile (CC := number_codec) no_values Background sample_request.

(** The first run, on the sample on disk, creates the claim, annotates the pod
    and stores a status. *)
Definition first_log : list event := log_of reconcile_numbered disk_world.

(** A status as the API server keeps it: times to the second. *)
Definition truncate_seconds (st : LimitadorStatus) : LimitadorStatus :=
  {| status_ObservedGeneration := status_ObservedGeneration st;
     status_Conditions :=
       (λ c, with_time (cond_LastTransitionTime c / 1000 * 1000)%Z c) <$> status_Conditions st;
     status_Service := status_Service st |}.

Definition first_status : LimitadorStatus :=
  Eval vm_compute in default LimitadorStatus_zero (last (omap stored_status first_log)).

(** The resource read next: what was stored at 100 milliseconds is read as 0. *)
Definition settled_resource : Limitador :=
  {| lim_TypeMeta := lim_TypeMeta sample_disk;
     lim_ObjectMeta := with_resource_version "9" (lim_ObjectMeta sample_disk);
     lim_Spec := lim_Spec sample_disk; lim_Status := truncate_seconds first_status |}.

Definition settled_pod : Pod :=
  {| pod_TypeMeta := pod_TypeMeta sample_pod;
     pod_ObjectMeta :=
       with_annotations (Some {[ PodAnnotationConfigMapResourceVersion := "7" ]})
         (pod_ObjectMeta sample_pod) |}.

(** The cluster the first run leaves. *)
Definition settled_world : world :=
  {| w_limitador := Ok settled_resource; w_deployment := w_deployment disk_world;
     w_claim := Ok disk_claim; w_configmap := w_configmap disk_world;
     w_secret := w_secret disk_world; w_pods := Ok [settled_pod];
     w_apply := no_error; w_spans := 0 |}.

Definition second_log : list event := log_of reconcile_numbered settled_world.

(** What the two runs read. *)
Lemma settled_reads :
  omap deployment_read first_log = [Ok (sample_deployment available)] ∧
  omap deployment_read second_log = [Ok (sample_deployment available)] ∧
  omap limits_read first_log = [Ok sample_configmap] ∧
  omap limits_read second_log = [Ok sample_configmap] ∧
  omap claim_read second_log = [Ok disk_claim] ∧
  omap listed_pods first_log = [[sample_pod]] ∧
  omap listed_pods second_log = [[settled_pod]].
Proof. do 6 (split; [by_running|]). vm_compute; reflexivity. Qed.

Lemma one_reply {B} (f : event → option B) e b (t : list event) x :
  omap f t = [x] → f e = Some b → e ∈ t → b = x.
Proof.
  intros Ht Hb He. apply list_elem_of_singleton. rewrite <-Ht. apply list_elem_of_omap. by exists e.
Qed.

Lemma settled_left : left_by (CC := number_codec) sample_disk first_log settled_resource.
Proof.
  assert (Hst : default (lim_Status sample_disk) (last (omap stored_status first_log)) = first_status)
    by by_running.
  split; [reflexivity|by exists "9"|reflexivity|]. rewrite Hst. split; reflexivity.
Qed.

Lemma settled_undisturbed : undisturbed sample_disk first_log second_log.
Proof.
  destruct settled_reads as (D1 & D2 & L1 & L2 & C & P1 & P2). split.
  - intros g1 g2 H1 H2. apply (one_reply deployment_read _ g1 _ _ D1) in H1; [|reflexivity].
    apply (one_reply deployment_read _ g2 _ _ D2) in H2; [|reflexivity]. rewrite H1, H2. reflexivity.
  - intros g1 g2 H1 H2. apply (one_reply limits_read _ g1 _ _ L1) in H1; [|reflexivity].
    apply (one_reply limits_read _ g2 _ _ L2) in H2; [|reflexivity]. rewrite H1, H2. reflexivity.
  - intros key g H. apply (one_reply claim_read _ g _ _ C) in H; [|reflexivity]. rewrite H. exact I.
  - intros ps1 ps2 H1 H2. apply (one_reply listed_pods _ ps1 _ _ P1) in H1; [|reflexivity].
    apply (one_reply listed_pods _ ps2 _ _ P2) in H2; [|reflexivity]. rewrite H1, H2.
    constructor; [|constructor]. split; by_running.
Qed.

(** The second run ends without an error too. *)
Lemma second_run : runs reconcile_numbered second_log (Done (Result_zero, None)).
Proof.
  assert (He : end_of reconcile_numbered settled_world = Done (Result_zero, None))
    by (by_running).
  rewrite <-He. apply sample_runs.
Qed.

(** Of the seven writes of the first run the second repeats four. *)
Lemma Reconcile_settles_witness :
  length (writes first_log) = 7 ∧ length (writes second_log) = 4 ∧
  Forall (λ e, repeats (ev_call e) ∧ accepted first_log (ev_call e)) (writes second_log).
Proof.
  split; [by_running|]. split; [vm_compute; reflexivity|].
  apply (Reconcile_settles (CC := number_codec) no_values no_values Background Background
    sample_request first_log second_log Result_zero Result_zero sample_disk settled_resource).
  - exact (sample_runs reconcile_numbered disk_world).
  - in_log 1.
  - reflexivity.
  - exact second_run.
  - in_log 1.
  - exact settled_left.
  - exact settled_undisturbed.
Defined.
