(* ===== verification/Cluster.v ===== *)
(** * The operator in its cluster

    The other theorems speak of the calls of one run. Here the cluster has a
    state: the API server changes it call by call, other actors change it in
    between, and runs of the operator on any resources are interleaved call by
    call. What the API server promises is an interface; the theorems hold for
    every implementation of it. *)

From stdpp Require Import relations.
From S2P Require Import Prelude Kube Helpers Types Effects Observability Names Options Objects.
From S2P Require Import BaseReconciler Status Controller Traffic Plan Follows Footprint SameResource Sample.
From S2P Require Import Loop Isolation Outcome.

(** ** The API server *)

(** The place of an object. *)
Definition place : Type := kind * NamespacedName.

(** A cluster has a state, the object found in a state at a place, the effect
    of a call that got a reply, and a relation that says when an object found
    has the fields of an object applied. *)
Class Cluster {PF : Platform} := {
  State : Type;
  found : State → place → option object;
  serve : State → event → State → Prop;
  carries : object → object → Prop
}.

Section states.
Context {PF : Platform} {CL : Cluster}.

(** The object is there, with the fields it was applied with. *)
Definition stored (s : State) (o : object) : Prop :=
  ∃ o', found s (obj_ref o) = Some o' ∧ carries o o'.

(** Nothing is there, or an object that is being deleted. *)
Definition absent (s : State) (p : place) : Prop :=
  ∀ o, found s p = Some o → is_Some (om_DeletionTimestamp (obj_meta o)).

(** What the Kubernetes API documents. A call affects nothing but the object
    it writes. A write that gets an error has no effect, or, when the reply
    was lost, that of the same write accepted. An object applied is there with
    its fields; an object is created only where there is none; an object
    deleted is gone or being deleted. Nothing is promised of reads: the
    operator reads from a cache, which may be behind. *)
Class ClusterLaws : Prop := {
  serve_elsewhere s e s' p :
    serve s e s' → write_target e ≠ Some p → found s' p = found s p;
  serve_refused s e s' :
    serve s e s' → is_Some (write_error e) →
    (∀ p, found s' p = found s p) ∨
    ∃ e', ev_call e' = ev_call e ∧ write_error e' = None ∧ serve s e' s';
  serve_apply s o opts r s' :
    serve s (Ev (Patch_Apply o opts) r) s' → r = None → stored s' o;
  serve_create s o r s' :
    serve s (Ev (Create o) r) s' → r = None → found s (obj_ref o) = None ∧ stored s' o;
  serve_delete s o r s' :
    serve s (Ev (Delete o) r) s' → write_error (Ev (Delete o) r) = None → absent s' (obj_ref o)
}.
End states.

(** ** Histories of a cluster *)

Section cluster.
Context {PF : Platform} {CC : ConditionCodec} {LC : LimitsCodec} {JC : LimitadorCodec}
  {CU : ControllerUtil} {SC : StatusConditions} {CL : Cluster}.

(** What everybody but the operator may do between two calls. *)
Variable others : State → State → Prop.

(** A read of the request returns the resource of that name, and, for the
    resource [l], one that has not been changed by its owner. *)
Definition reads (l : Limitador) (req : NamespacedName) (t : list event) : Prop :=
  ∀ l', Ev (Get KLimitador req) (Ok l') ∈ t →
    key_of (lim_ObjectMeta l') = req ∧
    (req = key_of (lim_ObjectMeta l) → same_resource l' l).

(** A step of the cluster: others act, or the API server serves a call of some
    run of [Reconcile], on [l] or on any other resource. *)
Inductive acts (l : Limitador) : State → State → Prop :=
  | others_act s s' : others s s' → acts l s s'
  | run_acts logger ctx req t o e s s' :
      runs (Reconcile logger ctx req) t o → reads l req t → e ∈ t →
      serve s e s' → acts l s s'.

(** The calls of a run served in order, with steps of the cluster in between. *)
Inductive history (l : Limitador) : list event → State → State → Prop :=
  | history_nil s : history l [] s s
  | history_step t s s1 s2 : acts l s s1 → history l t s1 s2 → history l t s s2
  | history_call e t s s1 s2 : serve s e s1 → history l t s1 s2 → history l (e :: t) s s2.

(** The others leave the objects of the resource alone: they remove no object
    and change no field the operator has applied, and put nothing where an
    object has been deleted. *)
Definition left_alone (l : Limitador) : Prop :=
  ∀ s s', others s s' →
    (∀ o, obj_ref o ∈ owned_refs l → stored s o → stored s' o) ∧
    (∀ p, p ∈ owned_refs l → absent s p → absent s' p).

(** The cluster is as the resource asks. *)
Definition converged (l : Limitador) (s : State) : Prop :=
  objects_hold l (stored s) (λ o, absent s (obj_ref o)) (λ p, stored s (Obj KPersistentVolumeClaim p)).

(** ** Lemmas *)

Context {LAWS : ClusterLaws}.

(** A property that every step preserves. *)
Definition stable (l : Limitador) (I : State → Prop) : Prop := ∀ s s', acts l s s' → I s → I s'.

Lemma stable_reached l I s s' : stable l I → rtc (acts l) s s' → I s → I s'.
Proof. intros HI. induction 1 as [|s s1 s2 H1 _ IH]; [done|]. intros HIs. by eapply IH, HI. Qed.

Lemma stable_history l I logger ctx req t o t' s s' :
  stable l I → runs (Reconcile logger ctx req) t o → reads l req t → t' ⊆ t →
  history l t' s s' → I s → I s'.
Proof.
  intros HI Hr Hl Hsub H. induction H as [s|t' s s1 s2 Ha _ IH|e t' s s1 s2 Hs _ IH]; [done|..].
  - intros HIs. by eapply IH, HI.
  - intros HIs. apply IH; [intros e' ?; apply Hsub; by right|].
    eapply HI; [|exact HIs]. eapply run_acts; [exact Hr|done| |exact Hs]. apply Hsub. left.
Qed.

(** What a call of the run establishes holds at its end. *)
Lemma established l I logger ctx req t o e s s' :
  stable l I → runs (Reconcile logger ctx req) t o → reads l req t →
  history l t s s' → e ∈ t → (∀ s1 s2, serve s1 e s2 → I s2) → I s'.
Proof.
  intros HI Hr Hl H He Hest.
  assert (Hgo : ∀ t' s, history l t' s s' → t' ⊆ t → e ∈ t' → I s').
  { clear s H He. intros t' s H. induction H as [s|t' s s1 s2 _ _ IH|e' t' s s1 s2 Hs Hrest IH].
    - intros _ He. by apply elem_of_nil in He.
    - apply IH.
    - intros Hsub [<-|He]%elem_of_cons.
      + eapply (stable_history l I _ _ _ t _ t'); [done..| |exact Hrest|by eapply Hest].
        intros x ?. apply Hsub. by right.
      + apply IH; [|done]. intros x ?. apply Hsub. by right. }
  by eapply Hgo.
Qed.

(** A call of some run that writes a place of [l] does what [l] asks for. *)
Lemma write_of_owned l logger ctx req t o e p :
  runs (Reconcile logger ctx req) t o → reads l req t → e ∈ t →
  p ∈ owned_refs l → write_target e = Some p → ∃ pods, duty l pods e.
Proof.
  intros Hr Hl He Hp Ht. pose proof (write_target_is_write _ _ Ht) as Hw.
  destruct (Reconcile_duty _ _ _ _ _ e Hr) as [[got ->]|(l' & pods & Hl' & _ & Hd & _)].
  { apply elem_traffic. split; [by apply is_write_traffic|done]. }
  { done. }
  destruct (Hl _ Hl') as [Hkey Hsame]. destruct p as [kd key].
  destruct (decide (req = key_of (lim_ObjectMeta l))) as [Heq|Hne].
  { exists pods. specialize (Hsame Heq). destruct e as [c x].
    destruct c as [| |ob opts|ob opts|ob|ob|ob| | | | | |]; try done; simpl in Hd, Ht |- *.
    - by rewrite Hsame in Hd.
    - destruct Hd as [_ (now & ready & -> & _)]. injection Ht as <- _.
      by apply owned_ref_name in Hp as (_ & ? & _).
    - by rewrite Hsame in Hd.
    - by rewrite Hsame in Hd. }
  exfalso. assert (Hdist : distinct_resources l l').
  { unfold distinct_resources. destruct (decide (lim_Name l = lim_Name l')); [|by left]. right.
    intros Hns. apply Hne. rewrite <-Hkey. unfold key_of. unfold lim_Name, lim_Namespace in *. congruence. }
  destruct (run_target _ _ _ _ _ _ _ _ _ Hr Hl' He Ht) as [[-> _]|[Ho|[-> _]]].
  - by apply owned_ref_name in Hp as (_ & ? & _).
  - by eapply owned_refs_disjoint.
  - by apply owned_ref_name in Hp as (? & _).
Qed.

(** *** What the calls on an object of the resource preserve *)

Lemma duty_call l pods e e' :
  ev_call e' = ev_call e → is_write (ev_call e) = true → duty l pods e → duty l pods e'.
Proof. destruct e as [c x], e' as [c' x']. simpl. intros ->. by destruct c. Qed.

(** The places of the objects a resource asks for, or asks to delete. *)
Lemma duty_owned l pods e p :
  duty l pods e → write_target e = Some p → rank e ≠ 7 → is_status_write (ev_call e) = false →
  p ∈ owned_refs l.
Proof.
  intros Hd Ht Hr Hs.
  destruct (in_scope_duty l pods [] e) as (p' & Ht' & H); [|by right|done| |].
  - by intros ps ?%elem_of_nil.
  - by eapply write_target_is_write.
  - rewrite Ht in Ht'. injection Ht' as <-. rewrite Hs in H. destruct H as [H|(? & ? & H & _)]; [done|].
    by apply elem_of_nil in H.
Qed.

(** A property of one place of [l] is stable when the others, and each accepted
    call that [l] asks for on this place, preserve it. *)
Lemma place_stable l p (I : State → Prop) :
  p ∈ owned_refs l →
  (∀ s s', found s' p = found s p → I s → I s') →
  (∀ s s', others s s' → I s → I s') →
  (∀ pods e s s', duty l pods e → write_target e = Some p → write_error e = None →
     serve s e s' → I s → I s') →
  stable l I.
Proof.
  intros Hp Hfound Hothers Hcall s s' [s1 s2 Ho|logger ctx req t o e s1 s2 Hr Hl He Hs]; [by eapply Hothers|].
  destruct (decide (write_target e = Some p)) as [Ht|Ht].
  2: { apply Hfound. by eapply serve_elsewhere. }
  destruct (write_of_owned _ _ _ _ _ _ _ _ Hr Hl He Hp Ht) as [pods Hd].
  destruct (write_error e) eqn:Herr; [|by eapply Hcall].
  destruct (serve_refused s1 e s2 Hs) as [Hsame|(e' & Hc & He' & Hs')]; [by rewrite Herr|by apply Hfound|].
  eapply (Hcall pods e'); try done.
  - eapply duty_call; [done| |done]. by eapply write_target_is_write.
  - unfold write_target in *. by rewrite Hc.
Qed.

Lemma stored_found s s' o : found s' (obj_ref o) = found s (obj_ref o) → stored s o → stored s' o.
Proof. intros Hf (o' & Ho & Hc). exists o'. by rewrite Hf. Qed.

Lemma absent_found s s' p : found s' p = found s p → absent s p → absent s' p.
Proof. intros Hf Ha o. rewrite Hf. apply Ha. Qed.

(** An object applied for [l] stays. *)
Lemma applied_stable l pods o :
  left_alone l → applied l pods o → obj_kind o ≠ KPod → stable l (λ s, stored s o).
Proof.
  intros Hlone Ha Hk.
  assert (Hown : obj_ref o ∈ owned_refs l).
  { eapply (duty_owned l pods (Ev (Patch_Apply o apply_opts) None)); try done.
    destruct o as [[] o]; by cbn. }
  apply (place_stable l (obj_ref o)); [done|by intros; eapply stored_found| |].
  { intros s s' Ho. by apply (Hlone s s' Ho). }
  intros pods' e s s' Hd Ht Herr Hs Hst. destruct e as [c x].
  destruct c as [| |ob opts|ob opts|ob|ob|ob| | | | | |]; try done; simpl in Hd, Ht.
  - destruct Hd as [-> Hob]. assert (ob = o) as ->; [|eapply serve_apply; [exact Hs|]].
    + destruct ob as [kd ob], o as [kd' o']. injection Ht as <- _. f_equal.
      by eapply (applied_unique l pods' pods).
    + simpl in Herr. by destruct x.
  - destruct Hd as [_ (now & ready & -> & _)]. injection Ht as Hkd _.
    by apply owned_ref_name in Hown as (_ & ? & _).
  - destruct ob as [[] ob], o as [[] o]; try done; by injection Ht.
  - destruct ob as [[] ob], o as [[] o]; try done; try (by injection Ht).
    destruct Hd as [Hno _], Ha as [[? Ha] _]. by rewrite Hno in Ha.
Qed.
(** So does a claim created for [l], which no call of [l] writes. *)
Lemma created_stable l o : left_alone l → created l o → stable l (λ s, stored s o).
Proof.
  intros Hlone Hc.
  assert (Hown : obj_ref o ∈ owned_refs l).
  { eapply (duty_owned l [] (Ev (Create o) None)); try done. }
  apply (place_stable l (obj_ref o)); [done|by intros; eapply stored_found| |].
  { intros s s' Ho. by apply (Hlone s s' Ho). }
  intros pods e s s' Hd Ht Herr Hs (o' & Ho' & _). destruct e as [c x].
  destruct c as [| |ob opts|ob opts|ob|ob|ob| | | | | |]; try done; simpl in Hd, Ht.
  - destruct Hd as [_ Hob]. destruct ob as [[] ob], o as [[] o]; try done; by injection Ht.
  - destruct Hd as [_ (now & ready & -> & _)]. injection Ht as Hkd _.
    by apply owned_ref_name in Hown as (_ & ? & _).
  - destruct (serve_create s ob x s' Hs) as [Hnone _]; [simpl in Herr; by destruct x|].
    assert (Heq : obj_ref ob = obj_ref o) by by apply (inj Some).
    rewrite Heq in Hnone. congruence.
  - destruct ob as [[] ob], o as [[] o]; try done; try (by injection Ht).
    destruct Hd as [Hno _], Hc as [Hc _]. congruence.
Qed.

(** The place of an object deleted for [l] stays empty. *)
Lemma deleted_stable l o :
  left_alone l → deleted l o → stable l (λ s, absent s (obj_ref o)).
Proof.
  intros Hlone Hdel.
  assert (Hown : obj_ref o ∈ owned_refs l).
  { eapply (duty_owned l [] (Ev (Delete o) None)); try done. by destruct o as [[] o]. }
  apply (place_stable l (obj_ref o)); [done|by intros; eapply absent_found| |].
  { intros s s' Ho. by apply (Hlone s s' Ho). }
  intros pods e s s' Hd Ht Herr Hs _. destruct e as [c x].
  destruct c as [| |ob opts|ob opts|ob|ob|ob| | | | | |]; try done; simpl in Hd, Ht.
  - destruct Hd as [_ Hob]. destruct ob as [[] ob], o as [[] o]; try done; try (by injection Ht).
    destruct Hdel as [Hno _], Hob as [[? Hob] _]. by rewrite Hno in Hob.
  - destruct Hd as [_ (now & ready & -> & _)]. injection Ht as Hkd _.
    by apply owned_ref_name in Hown as (_ & ? & _).
  - destruct ob as [[] ob], o as [[] o]; try done; try (by injection Ht).
    destruct Hd as [Hw _], Hdel as [Hno _]. congruence.
  - assert (obj_ref ob = obj_ref o) as <- by by apply (inj Some). by eapply serve_delete.
Qed.

(** Each of the five objects holds or stays as it is. *)
Lemma objects_hold_mono l there there' gone gone' kept kept' :
  (∀ o pods, applied l pods o → obj_kind o ≠ KPod → there o → there' o) →
  (∀ o, deleted l o → gone o → gone' o) →
  (∀ p, created l (Obj KPersistentVolumeClaim p) → kept p → kept' p) →
  objects_hold l there gone kept → objects_hold l there' gone' kept'.
Proof.
  intros Ht Hg Hk ((s & Hs & As) & (p & Hp & Ap) & (d & Hd & Ad) & (cm & c & Hcm & Hc & Ac) &
                   (b & Hb & Ab)). split_and!.
  - exists s. split; [done|]. by apply (Ht _ []).
  - exists p. split; [done|]. destruct (wants_claim l) eqn:Hw; [by apply Hk|by apply Hg].
  - exists d. split; [done|]. by apply (Ht _ []).
  - exists cm, c. split_and!; [done..|]. apply (Ht _ []); [by exists cm|done..].
  - exists b. split; [done|]. case_bool_decide as Hpdb.
    + by apply (Ht _ []).
    + apply Hg; [|done]. split; [|done]. by apply eq_None_not_Some.
Qed.

(** ** Theorems *)

(** C5: a successful run repairs the cluster. Whatever state the cluster is in
    when a run of [Reconcile] starts, and whatever runs on this and other
    resources are interleaved with its calls, once the run ends without an
    error the cluster is as the resource asks: Service, Deployment, ConfigMap
    and disruption budget there with every field applied, what is not asked
    for gone, and the claim there unless the run was told that it exists. It is
    assumed that the others leave the objects alone and that reads of the
    resource are not older than its specification. *)
Theorem Reconcile_repairs l logger ctx req t r s s' :
  left_alone l → runs (Reconcile logger ctx req) t (Done (r, None)) →
  Ev (Get KLimitador req) (Ok l) ∈ t → om_DeletionTimestamp (lim_ObjectMeta l) = None →
  reads l req t → history l t s s' →
  objects_hold l (stored s') (λ o, absent s' (obj_ref o))
    (λ p, (∃ q, Ev (Get KPersistentVolumeClaim (key_of (pvc_ObjectMeta p))) (Ok q) ∈ t) ∨
          stored s' (Obj KPersistentVolumeClaim p)).
Proof.
  intros Hlone Hr Hl Hd Hreads Hh.
  destruct (Reconcile_success_run _ _ _ _ _ _ Hr Hl Hd) as (w1 & w2 & w3 & r' & Hw & H1 & _).
  assert (Hobj : objects_reconciled l t).
  { eapply owned_plan_done; [exact H1|]. intros e He. apply (elem_traffic e t). rewrite Hw. right.
    apply elem_of_app. by left. }
  revert Hobj. apply objects_hold_mono.
  - intros o pods Ha Hk (x & He & Herr).
    eapply (established l (λ s, stored s o) logger ctx req t); [by eapply applied_stable|done..|exact He|].
    intros s1 s2 Hs. eapply serve_apply; [exact Hs|]. simpl in Herr. by destruct x.
  - intros o Hdel (x & He & Herr).
    eapply (established l (λ s, absent s (obj_ref o)) logger ctx req t);
      [by apply deleted_stable|done..|exact He|].
    intros s1 s2 Hs. by eapply serve_delete.
  - intros p Hc [Hf|(x & He & Herr)]; [by left|right].
    eapply (established l (λ s, stored s (Obj KPersistentVolumeClaim p)) logger ctx req t);
      [by eapply created_stable|done..|exact He|].
    intros s1 s2 Hs. eapply serve_create; [exact Hs|]. simpl in Herr. by destruct x.
Qed.

(** C6: a cluster that is as the resource asks stays so. No sequence of calls
    of runs of the operator, on the resource or on others, complete or not,
    failed or panicking, in any order, interleaved with actors that leave the
    objects alone, takes it out of this state; in particular the claim with
    the data is never deleted. *)
Theorem converged_stays l s s' :
  left_alone l → converged l s → rtc (acts l) s s' → converged l s'.
Proof.
  intros Hlone Hc Hacts. revert Hc. apply objects_hold_mono.
  - intros o pods Ha Hk. apply (stable_reached l (λ s, stored s o)); [|done].
    by eapply applied_stable.
  - intros o Hdel. apply (stable_reached l (λ s, absent s (obj_ref o))); [|done].
    by apply deleted_stable.
  - intros p Hcr. apply (stable_reached l (λ s, stored s (Obj KPersistentVolumeClaim p))); [|done].
    by apply created_stable.
Qed.

End cluster.

(** ** Witnesses *)

#[local] Existing Instances Sample.platform Sample.condition_codec Sample.limits_codec
  Sample.limitador_codec Sample.controller_util Sample.status_conditions.

(** A cluster that stores what it is sent. *)
Definition objects_at : Type := place → option object.

Definition put (p : place) (v : option object) (s : objects_at) : objects_at :=
  λ q, if decide (q = p) then v else s q.

Definition effect (s : objects_at) (e : event) : objects_at :=
  match write_error e, ev_call e with
  | None, (Patch_Apply o _ | Create o | Update o) => put (obj_ref o) (Some o) s
  | None, Delete o => put (obj_ref o) None s
  | _, _ => s
  end.

(** An accepted creation finds its place empty. *)
Definition creates_fresh (s : objects_at) (e : event) : bool :=
  match write_error e, ev_call e with
  | None, Create o => bool_decide (s (obj_ref o) = None)
  | _, _ => true
  end.

#[local] Instance sample_cluster : Cluster := {|
  State := objects_at;
  found s p := s p;
  serve s e s' := creates_fresh s e = true ∧ s' = effect s e;
  carries o o' := o' = o
|}.

Lemma put_eq p v s : put p v s p = v.
Proof. unfold put. by rewrite decide_True. Qed.

Lemma put_ne p q v s : q ≠ p → put p v s q = s q.
Proof. intros H. unfold put. by rewrite decide_False. Qed.

#[local] Instance sample_cluster_laws : ClusterLaws.
Proof.
  split.
  - intros s e s' p [_ ->] Ht. cbn. unfold effect. destruct e as [c x], (write_error _); [done|].
    destruct c; try done; apply put_ne; intros ->; by apply Ht.
  - intros s e s' [_ ->] [err He]. left. intros p. cbn. unfold effect. by rewrite He.
  - intros s o opts r s' [_ ->] ->. exists o. split; [|done]. cbn. apply put_eq.
  - intros s o r s' [Hf ->] ->. split; [by apply bool_decide_eq_true in Hf|].
    exists o. split; [|done]. cbn. apply put_eq.
  - intros s o r s' [_ ->] He o'. cbn. unfold effect. rewrite He. cbn. by rewrite put_eq.
Defined.

(** The others run pods. *)
Definition pods_run_by_others (s s' : objects_at) : Prop :=
  ∃ pod, s' = put (obj_ref (Obj KPod pod)) (Some (Obj KPod pod)) s.

Lemma pods_leave_alone l : left_alone pods_run_by_others l.
Proof.
  intros s s' [pod ->].
  assert (Hne : ∀ p, p ∈ owned_refs l → p ≠ obj_ref (Obj KPod pod)).
  { intros [kd key] Hp Heq. apply owned_ref_name in Hp as [Hk _]. by injection Heq. }
  split.
  - intros o Hp (o' & Ho & Hc). exists o'. split; [|done]. cbn. rewrite put_ne by by apply Hne. done.
  - intros p Hp Ha o. cbn. rewrite put_ne by by apply Hne. apply Ha.
Defined.

(** The calls of a log served one after the other. *)
Fixpoint serves (s : objects_at) (t : list event) : bool :=
  match t with
  | [] => true
  | e :: t' => creates_fresh s e && serves (effect s e) t'
  end.

Lemma serves_history others l t s :
  serves s t = true → history others l t s (foldl effect s t).
Proof.
  revert s. induction t as [|e t IH]; intros s; simpl; [constructor|].
  intros [H1 H2]%andb_true_iff. eapply history_call; [by split|]. by apply IH.
Defined.

(** A log with one read of a resource. *)
Lemma reads_log l l' req t :
  omap read_resource t = [Ok l'] → key_of (lim_ObjectMeta l') = req →
  (req = key_of (lim_ObjectMeta l) → same_resource l' l) → reads l req t.
Proof.
  intros Ht Hk Hs l2 Hl2.
  assert (Hin : Ok l2 ∈ omap read_resource t).
  { apply list_elem_of_omap. by exists (Ev (Get KLimitador req) (Ok l2)). }
  rewrite Ht in Hin. apply list_elem_of_singleton in Hin as [= ->]. done.
Defined.

(** From an empty cluster, with a pod that starts before the first call. *)
Definition nothing : objects_at := λ _, None.

Definition a_pod : objects_at :=
  put (obj_ref (Obj KPod sample_pod)) (Some (Obj KPod sample_pod)) nothing.

Definition repaired : objects_at := foldl effect a_pod (log_in disk_world).

Lemma disk_reads : reads sample_disk sample_request (log_in disk_world).
Proof. apply (reads_log _ sample_disk); [by_running|reflexivity|done]. Defined.

Lemma Reconcile_repairs_witness :
  objects_hold sample_disk (stored repaired) (λ o, absent repaired (obj_ref o))
    (λ p, (∃ q, Ev (Get KPersistentVolumeClaim (key_of (pvc_ObjectMeta p))) (Ok q) ∈ log_in disk_world) ∨
          stored repaired (Obj KPersistentVolumeClaim p)).
Proof.
  apply (Reconcile_repairs (CL := sample_cluster) pods_run_by_others sample_disk no_values Background sample_request
    (log_in disk_world) Result_zero nothing repaired).
  - apply pods_leave_alone.
  - exact (runs_in disk_world).
  - in_log 1.
  - reflexivity.
  - exact disk_reads.
  - eapply history_step; [apply others_act; by exists sample_pod|].
    apply serves_history. by_running.
Defined.

(** A cluster that holds the objects of the sample in memory, and no claim. *)
Definition owned_by_sample (kd : kind) (o : struct_of kd) : object :=
  Obj kd (map_meta kd (with_owners ["sample"]) o).

Definition sample_limits : ConfigMap :=
  match LimitsConfigMap sample with Ok cm => cm | Err _ => sample_configmap end.

Definition steady : objects_at :=
  foldr (λ o, put (obj_ref o) (Some o)) nothing
    [ owned_by_sample KService (Service_of sample); Obj KDeployment memory_deployment;
      owned_by_sample KConfigMap sample_limits;
      owned_by_sample KPodDisruptionBudget (PodDisruptionBudget_of sample) ].

Lemma steady_converged : converged sample steady.
Proof.
  unfold converged, objects_hold. split_and!.
  - eexists. split; [reflexivity|]. eexists. by split; [reflexivity|].
  - eexists. split; [reflexivity|]. intros o Ho. discriminate Ho.
  - exists memory_deployment. split; [|eexists; by split; [reflexivity|]].
    eexists. split; [vm_compute; reflexivity|]. split; [discriminate|]. by_running.
  - do 2 eexists. split_and!; [reflexivity..|]. eexists. by split; [reflexivity|].
  - eexists. split; [reflexivity|]. eexists. by split; [reflexivity|].
Qed.

(** A call of a log by its place. *)
Definition event_at (t : list event) (n : nat) : event := default (Ev Now 0%Z) (steps t !! n).

(** The Deployment of the other resource applied, that of the sample again. *)
Definition disturbed : objects_at :=
  effect (effect steady (event_at other_log 15)) (event_at (log_in memory_world) 15).

Lemma converged_stays_witness :
  write_target (event_at other_log 15) =
    Some (KDeployment, {| nn_Namespace := "default"; nn_Name := "limitador-other" |}) ∧
  converged sample disturbed.
Proof.
  split; [by_running|].
  apply (converged_stays (CL := sample_cluster) pods_run_by_others sample steady disturbed).
  - apply pods_leave_alone.
  - exact steady_converged.
  - eapply rtc_l; [|eapply rtc_l; [|apply rtc_refl]].
    + eapply (run_acts _ _ no_values Background {| nn_Namespace := "default"; nn_Name := "other" |}
        other_log (end_of reconcile_other other_world) (event_at other_log 15)).
      * exact (sample_runs reconcile_other other_world).
      * apply (reads_log _ other); [by_running|reflexivity|discriminate].
      * in_log 15.
      * split; [by_running|reflexivity].
    + eapply (run_acts _ _ no_values Background sample_request (log_in memory_world)
        (end_of reconcile_sample memory_world) (event_at (log_in memory_world) 15)).
      * exact (runs_in memory_world).
      * apply (reads_log _ sample); [by_running|reflexivity|done].
      * in_log 15.
      * split; [by_running|reflexivity].
Defined.
