(* ===== verification/WellFormed.v ===== *)
(** * The objects a reconciliation sends are well formed

    The rules of the Kubernetes API's validation that bear on the fields the
    operator fills in, as the API documents them: names, label and annotation
    keys, label values, ports, probes, volumes and mounts, references inside a
    pod, images, selectors, strategies, bounds of a disruption budget, the size
    of a ConfigMap, claims. Affinity, resource requirements and claim sizes,
    which the operator copies without reading them, have the API's rules as
    parameters ([ApiRules]). A run sends only objects that pass these rules, for
    a resource whose own fields leave room for it ([acceptable]). *)

From S2P Require Import Prelude Kube Helpers Types Effects Observability Names Options Objects.
From S2P Require Import BaseReconciler Status Controller Traffic Plan Follows Footprint Sample Loop Outcome.
From S2P Require Import CommandLine Workload.
From Stdlib Require Import Ascii.

(** ** Names *)

Definition in_range (a b : ascii) (c : ascii) : bool :=
  let n := Ascii.N_of_ascii c in ((Ascii.N_of_ascii a <=? n) && (n <=? Ascii.N_of_ascii b))%N.

Definition is_lower : ascii → bool := in_range "a" "z".
Definition is_upper : ascii → bool := in_range "A" "Z".
Definition is_digit : ascii → bool := in_range "0" "9".
Definition is_lower_alnum (c : ascii) : bool := is_lower c || is_digit c.
Definition is_alnum (c : ascii) : bool := is_lower_alnum c || is_upper c.
Definition is_label_char (c : ascii) : bool := is_lower_alnum c || Ascii.eqb c "-".
Definition is_value_char (c : ascii) : bool :=
  is_alnum c || Ascii.eqb c "-" || Ascii.eqb c "_" || Ascii.eqb c ".".

Fixpoint all_chars (p : ascii → bool) (s : string) : bool :=
  match s with
  | EmptyString => true
  | String c s' => p c && all_chars p s'
  end.

Definition first_char (p : ascii → bool) (s : string) : bool :=
  match s with
  | EmptyString => false
  | String c _ => p c
  end.

Fixpoint last_char (p : ascii → bool) (s : string) : bool :=
  match s with
  | EmptyString => false
  | String c s' => match s' with EmptyString => p c | _ => last_char p s' end
  end.

Definition at_most (n : nat) (s : string) : bool := String.length s <=? n.

(** RFC 1123 and RFC 1035 labels, and RFC 1123 subdomains. *)
Definition label_part (s : string) : bool :=
  all_chars is_label_char s && first_char is_lower_alnum s && last_char is_lower_alnum s.
Definition dns_label (s : string) : bool := at_most 63 s && label_part s.
Definition dns_1035_label (s : string) : bool := dns_label s && first_char is_lower s.
Definition dns_subdomain (s : string) : bool :=
  at_most 253 s && forallb label_part (Split s ".").

(** Qualified names and the values of labels. *)
Definition qualified_part (s : string) : bool :=
  at_most 63 s && all_chars is_value_char s && first_char is_alnum s && last_char is_alnum s.
Definition label_key (s : string) : bool :=
  match cut s "/" with
  | Some (prefix, name) => dns_subdomain prefix && qualified_part name
  | None => qualified_part s
  end.
Definition label_value (s : string) : bool := bool_decide (s = "") || qualified_part s.

Fixpoint no_double_dash (s : string) : bool :=
  match s with
  | EmptyString => true
  | String c s' => negb (String.prefix "--" s) && no_double_dash s'
  end.

(** Names of ports, environment variables and keys of a ConfigMap. *)
Definition port_name (s : string) : bool :=
  at_most 15 s && label_part s && no_double_dash s && negb (all_chars (λ c, negb (is_lower c)) s).
Definition env_name (s : string) : bool :=
  all_chars is_value_char s && first_char (λ c, negb (is_digit c)) s &&
  negb (bool_decide (s = ".") || String.prefix ".." s).
Definition config_key (s : string) : bool :=
  at_most 253 s && all_chars is_value_char s && negb (bool_decide (s = "")).

Definition port_number (z : Z) : bool := ((1 <=? z) && (z <=? 65535))%Z.

(** An image is named, with no white space around it. *)
Definition image_name (s : string) : bool := negb (bool_decide (s = "")) && bool_decide (TrimSpace s = s).

(** The number in digits followed by a percent sign. *)
Fixpoint read_percent (n : N) (s : string) : option N :=
  match s with
  | EmptyString => None
  | String c s' =>
      if is_digit c then read_percent (10 * n + (Ascii.N_of_ascii c - 48))%N s'
      else if bool_decide (s = "%") then Some n else None
  end.

(** A number of pods, or a percentage of them: not negative, not above 100%. *)
Definition budget_bound (v : IntOrString) : bool :=
  match v with
  | FromInt z => (0 <=? z)%Z
  | FromString s =>
      first_char is_digit s &&
      match read_percent 0 s with Some n => (n <=? 100)%N | None => false end
  end.

(** The bytes a ConfigMap may hold. *)
Definition max_data : N := 1048576.

(** ** Objects *)

(** The API's rules on what the operator copies from the resource, or from its
    defaults, without looking inside. *)
Class ApiRules {PF : Platform} := {
  valid_affinity : Affinity → Prop;
  valid_requirements : ResourceRequirements → Prop;
  valid_size : Quantity → Prop
}.

(** They accept the defaults: requests of 250m and 32Mi under limits of 500m and
    64Mi, and a claim of 1Gi. *)
Class AcceptedDefaults {PF : Platform} {AR : ApiRules} : Prop := {
  default_requirements : valid_requirements defaultResourceRequirements;
  default_size : valid_size (MustParse "1Gi")
}.

Section objects.
Context {PF : Platform} {AR : ApiRules}.

Definition labels_ok (m : gmap string string) : Prop :=
  map_Forall (λ k v, label_key k = true ∧ label_value v = true) m.

Record meta_ok (name_ok : string → bool) (m : ObjectMeta) : Prop := {
  mk_name : name_ok (om_Name m) = true;
  mk_namespace : dns_label (om_Namespace m) = true;
  mk_labels : labels_ok (om_Labels m);
  mk_annotations : ∀ a, om_Annotations m = Some a → map_Forall (λ k _, label_key k = true) a
}.

Definition typed (kd : kind) (tm : TypeMeta) : Prop :=
  match kd with
  | KLimitador => tm = {| tm_Kind := "Limitador"; tm_APIVersion := "limitador.kuadrant.io/v1alpha1" |}
  | KService => tm = {| tm_Kind := "Service"; tm_APIVersion := "v1" |}
  | KPersistentVolumeClaim => tm = {| tm_Kind := "PersistentVolumeClaim"; tm_APIVersion := "v1" |}
  | KDeployment => tm = {| tm_Kind := "Deployment"; tm_APIVersion := "apps/v1" |}
  | KConfigMap => tm = {| tm_Kind := "ConfigMap"; tm_APIVersion := "v1" |}
  | KPodDisruptionBudget => tm = {| tm_Kind := "PodDisruptionBudget"; tm_APIVersion := "policy/v1" |}
  | KPod => tm = {| tm_Kind := "Pod"; tm_APIVersion := "v1" |}
  | KSecret => tm = {| tm_Kind := "Secret"; tm_APIVersion := "v1" |}
  end.

(** A Service: several ports are named and distinct, and so are their numbers
    within a protocol; a headless service is of type ClusterIP. *)
Record service_ok (s : Service) : Prop := {
  so_type : typed KService (svc_TypeMeta s);
  so_meta : meta_ok dns_1035_label (svc_ObjectMeta s);
  so_names : NoDup (sp_Name <$> svc_Ports s);
  so_numbers : NoDup ((λ p, (sp_Port p, sp_Protocol p)) <$> svc_Ports s);
  so_ports : Forall (λ p, dns_label (sp_Name p) = true ∧ port_number (sp_Port p) = true ∧
                          match sp_TargetPort p with
                          | FromInt z => port_number z = true
                          | FromString n => port_name n = true
                          end) (svc_Ports s);
  so_selector : labels_ok (svc_Selector s);
  so_headless : svc_ClusterIP s = ClusterIPNone → svc_Type s = ServiceTypeClusterIP
}.

Definition probe_ok (liveness : bool) (p : Probe) : Prop :=
  (∃ g, pr_HTTPGet p = Some g ∧ hg_Path g ≠ "" ∧
        match hg_Port g with
        | FromInt z => port_number z = true
        | FromString n => port_name n = true
        end) ∧
  (0 ≤ pr_InitialDelaySeconds p ∧ 1 ≤ pr_TimeoutSeconds p ∧ 1 ≤ pr_PeriodSeconds p ∧
   1 ≤ pr_FailureThreshold p ∧ 1 ≤ pr_SuccessThreshold p)%Z ∧
  (liveness = true → pr_SuccessThreshold p = 1%Z).

(** A container, in a pod with the given volumes. *)
Record container_ok (volumes : list Volume) (c : Container) : Prop := {
  co_name : dns_label (c_Name c) = true;
  co_image : image_name (c_Image c) = true;
  co_port_names : NoDup (cp_Name <$> c_Ports c);
  co_ports : Forall (λ p, port_name (cp_Name p) = true ∧ port_number (cp_ContainerPort p) = true) (c_Ports c);
  co_env : Forall (λ e, env_name (ev_Name e) = true ∧
                        ∀ k, ev_SecretKeyRef e = Some k →
                             dns_subdomain (sks_Name k) = true ∧ config_key (sks_Key k) = true)
             (c_Env c);
  co_paths : NoDup (vm_MountPath <$> c_VolumeMounts c);
  co_mounts : Forall (λ m, vm_MountPath m ≠ "" ∧ free_of ":"%char (vm_MountPath m) = true ∧
                           vm_Name m ∈ vol_Name <$> volumes) (c_VolumeMounts c);
  co_liveness : ∀ p, c_LivenessProbe c = Some p → probe_ok true p;
  co_readiness : ∀ p, c_ReadinessProbe c = Some p → probe_ok false p;
  co_resources : valid_requirements (c_Resources c)
}.

(** A volume has a valid name and exactly one source, which is named. *)
Definition volume_ok (v : Volume) : Prop :=
  dns_label (vol_Name v) = true ∧
  match vol_ConfigMap v, vol_PersistentVolumeClaim v with
  | Some cm, None => dns_subdomain (lor_Name cm) = true
  | None, Some pvc => dns_subdomain (pvs_ClaimName pvc) = true
  | _, _ => False
  end.

Record pod_spec_ok (p : PodSpec) : Prop := {
  po_containers : ps_Containers p ≠ [];
  po_container_names : NoDup (c_Name <$> ps_Containers p);
  po_container : Forall (container_ok (ps_Volumes p)) (ps_Containers p);
  po_volume_names : NoDup (vol_Name <$> ps_Volumes p);
  po_volumes : Forall volume_ok (ps_Volumes p);
  po_affinity : ∀ a, ps_Affinity p = Some a → valid_affinity a;
  po_pull_secrets : Forall (λ r, dns_subdomain (lor_Name r) = true) (ps_ImagePullSecrets p)
}.

(** A Deployment: not a negative number of replicas, a selector that is not
    empty and selects the pods of the template, rolling update settings only
    with the rolling update strategy. *)
Record deployment_ok (d : Deployment) : Prop := {
  do_type : typed KDeployment (dep_TypeMeta d);
  do_meta : meta_ok dns_subdomain (dep_ObjectMeta d);
  do_replicas : ∀ n, dsp_Replicas (dep_Spec d) = Some n → (0 ≤ n)%Z;
  do_selector : ∃ sel, dsp_Selector (dep_Spec d) = Some sel ∧ MatchLabels sel ≠ ∅ ∧
                  labels_ok (MatchLabels sel) ∧
                  selects (MatchLabels sel) (pt_Labels (dsp_Template (dep_Spec d)));
  do_strategy : ds_Type (dsp_Strategy (dep_Spec d)) = Some RecreateDeploymentStrategyType →
                ds_RollingUpdate (dsp_Strategy (dep_Spec d)) = None;
  do_labels : labels_ok (pt_Labels (dsp_Template (dep_Spec d)));
  do_pod : pod_spec_ok (pod_spec d)
}.

Record configmap_ok (c : ConfigMap) : Prop := {
  cmo_type : typed KConfigMap (cm_TypeMeta c);
  cmo_meta : meta_ok dns_subdomain (cm_ObjectMeta c);
  cmo_keys : map_Forall (λ k _, config_key k = true) (cm_Data c);
  cmo_size : (map_fold (λ _ v n, N.of_nat (String.length v) + n) 0 (cm_Data c) ≤ max_data)%N
}.

(** A disruption budget bounds one side only, by a number or a percentage. *)
Record budget_ok (p : PodDisruptionBudget) : Prop := {
  bo_type : typed KPodDisruptionBudget (pdb_TypeMeta p);
  bo_meta : meta_ok dns_subdomain (pdb_ObjectMeta p);
  bo_one_side : pdb_MaxUnavailable p = None ∨ pdb_MinAvailable p = None;
  bo_bounds : ∀ v, pdb_MaxUnavailable p = Some v ∨ pdb_MinAvailable p = Some v →
                   budget_bound v = true;
  bo_selector : ∃ sel, pdb_Selector p = Some sel ∧ labels_ok (MatchLabels sel)
}.

(** A claim names an access mode, asks for some storage, and leaves the storage
    class out or names one that can exist. *)
Record claim_ok (p : PersistentVolumeClaim) : Prop := {
  clo_type : typed KPersistentVolumeClaim (pvc_TypeMeta p);
  clo_meta : meta_ok dns_subdomain (pvc_ObjectMeta p);
  clo_modes : pvc_AccessModes p ≠ [];
  clo_storage : ∃ q, pvc_Requests p !! ResourceStorage = Some q ∧ valid_size q;
  clo_class : ∀ n, pvc_StorageClassName p = Some n → n = "" ∨ dns_subdomain n = true
}.

(** An object is well formed: in every field above for the kinds the operator
    owns; in its type and the annotation's key for a pod of which one annotation
    is set; in its type and empty specification for the resource of which only
    the status is. *)
Definition well_formed (o : object) : Prop :=
  match o with
  | Obj KService s => service_ok s
  | Obj KDeployment d => deployment_ok d
  | Obj KConfigMap c => configmap_ok c
  | Obj KPodDisruptionBudget p => budget_ok p
  | Obj KPersistentVolumeClaim p => claim_ok p
  | Obj KPod p =>
      typed KPod (pod_TypeMeta p) ∧
      ∃ a, om_Annotations (pod_ObjectMeta p) = Some a ∧ map_Forall (λ k _, label_key k = true) a
  | Obj KLimitador l => typed KLimitador (lim_TypeMeta l) ∧ lim_Spec l = LimitadorSpec_zero
  | Obj KSecret _ => False
  end.

End objects.

(** ** Lemmas on names *)

Lemma all_chars_app p a b : all_chars p (a +:+ b) = all_chars p a && all_chars p b.
Proof. induction a as [|c a IH]; [done|]. rewrite app_cons. cbn. by rewrite IH, andb_assoc. Qed.

Lemma all_chars_impl (p q : ascii → bool) s :
  (∀ c, p c = true → q c = true) → all_chars p s = true → all_chars q s = true.
Proof.
  intros Hpq. induction s as [|c s IH]; [done|]. cbn. rewrite !andb_true_iff. intros [? ?]. auto.
Qed.

Lemma first_char_impl (p q : ascii → bool) s :
  (∀ c, p c = true → q c = true) → first_char p s = true → first_char q s = true.
Proof. intros Hpq. destruct s; [done|]. apply Hpq. Qed.

Lemma last_char_impl (p q : ascii → bool) s :
  (∀ c, p c = true → q c = true) → last_char p s = true → last_char q s = true.
Proof.
  intros Hpq. induction s as [|c s IH]; [done|]. cbn. destruct s; [apply Hpq|exact IH].
Qed.

Lemma last_char_app p a b : b ≠ "" → last_char p (a +:+ b) = last_char p b.
Proof.
  intros Hb. induction a as [|c a IH]; [done|]. rewrite app_cons. cbn.
  destruct (a +:+ b) eqn:He; [|exact IH]. by destruct a, b.
Qed.

Lemma label_char_value c : is_label_char c = true → is_value_char c = true.
Proof.
  unfold is_label_char, is_value_char, is_alnum. rewrite !orb_true_iff. tauto.
Qed.

Lemma lower_alnum_alnum c : is_lower_alnum c = true → is_alnum c = true.
Proof. unfold is_alnum. rewrite orb_true_iff. tauto. Qed.

Lemma label_char_no_dot c : is_label_char c = true → Ascii.eqb c "." = false.
Proof. destruct (Ascii.eqb_spec c "."); [|done]. by subst c. Qed.

(** The names derived from a resource's: its own behind a prefix. *)
Definition name_fits (n : string) : bool := at_most 53 n && label_part n.

Lemma label_part_spec s :
  label_part s = true ↔
  all_chars is_label_char s = true ∧ first_char is_lower_alnum s = true ∧
  last_char is_lower_alnum s = true.
Proof. unfold label_part. rewrite !andb_true_iff. tauto. Qed.

Lemma name_fits_spec n : name_fits n = true ↔ String.length n ≤ 53 ∧ label_part n = true.
Proof. unfold name_fits, at_most. by rewrite andb_true_iff, Nat.leb_le. Qed.

Lemma label_part_prefix p n :
  all_chars is_label_char p = true → first_char is_lower_alnum p = true → label_part n = true →
  label_part (p +:+ n) = true.
Proof.
  intros Hp Hf (Hn & _ & Hl)%label_part_spec. apply label_part_spec. split_and!.
  - by rewrite all_chars_app, Hp, Hn.
  - by destruct p.
  - rewrite last_char_app; [done|]. by destruct n.
Qed.

Lemma label_part_subdomain s : String.length s ≤ 253 → label_part s = true → dns_subdomain s = true.
Proof.
  intros Hlen Hs. unfold dns_subdomain, at_most. rewrite (proj2 (Nat.leb_le _ _) Hlen).
  assert (Hf : free_of "." s = true).
  { apply label_part_spec in Hs as [Hs _]. induction s as [|c s IH]; [done|].
    apply andb_true_iff in Hs as [Hc Hs]. cbn. rewrite label_char_no_dot by done.
    apply IH; [|done]. simpl in Hlen. lia. }
  unfold Split. rewrite split_go_free by done.
  change (true && (label_part s && true) = true). by rewrite Hs.
Qed.

Lemma name_fits_value n : name_fits n = true → label_value n = true.
Proof.
  intros [Hlen (Hc & Hf & Hl)%label_part_spec]%name_fits_spec. unfold label_value, qualified_part.
  rewrite orb_true_iff, !andb_true_iff. right. split_and!.
  - unfold at_most. apply Nat.leb_le. lia.
  - by eapply all_chars_impl; [apply label_char_value|].
  - by eapply first_char_impl; [apply lower_alnum_alnum|].
  - by eapply last_char_impl; [apply lower_alnum_alnum|].
Qed.

(** A prefix of the operator: its names are subdomains for every name that fits. *)
Lemma name_fits_subdomain p n :
  all_chars is_label_char p = true → first_char is_lower_alnum p = true → String.length p ≤ 200 →
  name_fits n = true → dns_subdomain (p +:+ n) = true.
Proof.
  intros Hp Hf Hlen [Hn Hl]%name_fits_spec. apply label_part_subdomain.
  - rewrite string_length_app. lia.
  - by apply label_part_prefix.
Qed.

(** The name of the Service is a label exactly when the resource's name has
    label characters, ends in a letter or digit, and leaves room for the prefix. *)
Lemma service_name_label n :
  dns_1035_label ("limitador-" +:+ n) = true ↔
  String.length n ≤ 53 ∧ all_chars is_label_char n = true ∧ last_char is_lower_alnum n = true.
Proof.
  unfold dns_1035_label, dns_label, at_most.
  rewrite !andb_true_iff, Nat.leb_le, label_part_spec, string_length_app, all_chars_app, andb_true_iff.
  change (String.length "limitador-") with 10. destruct (decide (n = "")) as [->|Hn].
  { change (last_char is_lower_alnum ("limitador-" +:+ "")) with false. cbn. intuition congruence. }
  rewrite last_char_app by done. split.
  - intros [[Hlen ((_ & Hn') & _ & Hl)] _]. split_and!; [lia|done..].
  - intros (Hlen & Hc & Hl). split_and!; [lia|done..].
Qed.

(** ** Lemmas on objects *)

Section well_formed.
Context {PF : Platform} {AR : ApiRules} {CC : ConditionCodec} {LC : LimitsCodec} {JC : LimitadorCodec}
  {CU : ControllerUtil} {SC : StatusConditions}.

(** The ports of a resource can share a Service. *)
Definition ports_fit (l : Limitador) : Prop :=
  port_number (HTTPPort l) = true ∧ port_number (GRPCPort l) = true ∧ HTTPPort l ≠ GRPCPort l.

(** What a resource must be for its objects to be accepted. Only [ac_rules] is
    checked by the CRD, and [ac_namespace] holds of any namespace. *)
Record acceptable (l : Limitador) : Prop := {
  ac_name : name_fits (lim_Name l) = true;
  ac_ports : ports_fit l;
  ac_namespace : dns_label (lim_Namespace l) = true;
  ac_rules : admissible (lim_Spec l) = true;
  ac_replicas : (0 ≤ GetReplicas l)%Z;
  ac_image : image_name (deployment_image l) = true;
  ac_secret : ∀ ref, backend_secret (backend_of l) = Some ref → dns_subdomain (lor_Name ref) = true;
  ac_pull_secrets :
    Forall (λ r, dns_subdomain (lor_Name r) = true) (spec_ImagePullSecrets (lim_Spec l));
  ac_affinity : ∀ a, spec_Affinity (lim_Spec l) = Some a → valid_affinity a;
  ac_requirements : ∀ r, spec_ResourceRequirements (lim_Spec l) = Some r → valid_requirements r;
  ac_budget : ∀ b v, spec_PodDisruptionBudget (lim_Spec l) = Some b →
    pbt_MaxUnavailable b = Some v ∨ pbt_MinAvailable b = Some v → budget_bound v = true;
  ac_claim : ∀ d g, spec_Storage (lim_Spec l) ≫= st_Disk = Some d → disk_PVC d = Some g →
    (∀ r, pg_Resources g = Some r → valid_size (pcr_Requests r)) ∧
    (∀ n, pg_StorageClassName g = Some n → n = "" ∨ dns_subdomain n = true);
  ac_limits : ∀ text, yaml_Marshal_Limits (Limits l) = Ok text →
    (N.of_nat (String.length text) ≤ max_data)%N
}.

Lemma labels_ok_insert k v m :
  label_key k = true → label_value v = true → labels_ok m → labels_ok (<[k:=v]> m).
Proof. intros Hk Hv Hm. by apply map_Forall_insert_2. Qed.

Lemma labels_ok_empty : labels_ok ∅.
Proof. apply map_Forall_empty. Qed.

Ltac labels_ok :=
  repeat (apply labels_ok_insert; [reflexivity|first [reflexivity|assumption]|]); apply labels_ok_empty.

Lemma Labels_ok l : label_value (lim_Name l) = true → labels_ok (Labels l).
Proof. intros Hv. unfold Labels. cbn [list_to_map foldr fst snd]. labels_ok. Qed.

Lemma SelectorLabels_ok l : label_value (lim_Name l) = true → labels_ok (SelectorLabels l).
Proof. intros Hv. unfold SelectorLabels. cbn [list_to_map foldr fst snd]. labels_ok. Qed.

Lemma SelectorLabels_nonempty l : SelectorLabels l ≠ ∅.
Proof.
  intros H. pose proof (SelectorLabels_app l) as Ha. by rewrite H, lookup_empty in Ha.
Qed.

(** The names of the objects. *)
Lemma limitador_name_ok l :
  acceptable l → dns_subdomain ("limitador-" +:+ lim_Name l) = true.
Proof. intros Ha. apply name_fits_subdomain; [done|done|by apply Nat.leb_le|apply Ha]. Qed.

Lemma limits_name_ok l :
  acceptable l → dns_subdomain ("limitador-limits-config-" +:+ lim_Name l) = true.
Proof. intros Ha. apply name_fits_subdomain; [done|done|by apply Nat.leb_le|apply Ha]. Qed.

(** The metadata the operator builds, with or without owners. *)
Lemma built_meta_ok name_ok m l :
  name_ok (om_Name m) = true → om_Namespace m = lim_Namespace l → om_Labels m = Labels l →
  om_Annotations m = None ∨ om_Annotations m = Some {[ DeleteTagAnnotation := "true" ]} →
  acceptable l → meta_ok name_ok m.
Proof.
  intros Hn Hns Hl Hann Ha. constructor; [done|rewrite Hns; apply Ha|rewrite Hl|].
  2: { intros a Hsome. destruct Hann as [Hann|Hann]; rewrite Hann in Hsome; [done|].
       injection Hsome as <-. by apply map_Forall_singleton. }
  apply Labels_ok, name_fits_value, Ha.
Qed.

Lemma Service_ok l :
  name_fits (lim_Name l) = true → dns_label (lim_Namespace l) = true → ports_fit l →
  service_ok (Service_of l).
Proof.
  intros Hname Hns (Hh & Hg & Hne). pose proof (name_fits_value _ Hname) as Hv.
  pose proof Hname as [Hlen (Hc & _ & Hl)%label_part_spec]%name_fits_spec. constructor.
  - done.
  - constructor; [|done|by apply Labels_ok|done]. by apply service_name_label.
  - by apply (bool_decide_unpack _).
  - cbn. apply NoDup_cons. split; [|apply NoDup_singleton].
    rewrite list_elem_of_singleton. intros [= He]. done.
  - repeat apply Forall_cons; split; [by split_and!|].
    apply Forall_singleton. by split_and!.
  - by apply SelectorLabels_ok.
  - done.
Qed.

(** The two HTTP probes of the container. *)
Lemma status_probe_ok l liveness timeout :
  port_number (HTTPPort l) = true → (1 ≤ timeout)%Z → probe_ok liveness (status_probe l timeout).
Proof.
  intros Hp Ht. split; [|split; [|done]].
  - eexists. split; [reflexivity|]. by split.
  - cbn. lia.
Qed.

Lemma requirements_ok {AD : AcceptedDefaults} l :
  acceptable l → valid_requirements (GetResourceRequirements l).
Proof.
  intros Ha. unfold GetResourceRequirements.
  destruct (spec_ResourceRequirements (lim_Spec l)) eqn:Hr; [by apply (ac_requirements l Ha)|].
  apply default_requirements.
Qed.

Lemma deployment_container_ok {AD : AcceptedDefaults} l args :
  acceptable l →
  container_ok (DeploymentVolumes l (backend_options l))
    (limitador_container l (deployment_options l (backend_options l) args (backend_env (backend_of l)))).
Proof.
  intros Ha. destruct (ac_ports l Ha) as (Hh & Hg & Hne). constructor.
  - done.
  - apply Ha.
  - by apply (bool_decide_unpack _).
  - repeat apply Forall_cons; split; [by split|]. apply Forall_singleton. by split.
  - cbn. unfold backend_env. destruct (backend_secret (backend_of l)) as [ref|] eqn:Hr; [|apply Forall_nil; exact I].
    apply Forall_singleton. split; [done|]. intros k [= <-]. split; [by apply (ac_secret l Ha)|done].
  - cbn. destruct (uses_disk (backend_of l)); by apply (bool_decide_unpack _).
  - cbn. destruct (uses_disk (backend_of l)); cbn.
    + repeat apply Forall_cons; split; [split_and!; [done..|left]|].
      apply Forall_singleton. split_and!; [done..|right; left].
    + apply Forall_singleton. split_and!; [done..|left].
  - intros p [= <-]. by apply status_probe_ok.
  - intros p [= <-]. by apply status_probe_ok.
  - by apply requirements_ok.
Qed.

Lemma desired_pod_ok {AD : AcceptedDefaults} l args :
  acceptable l →
  pod_spec_ok (pod_spec (Deployment_of l (deployment_options l (backend_options l) args
                                            (backend_env (backend_of l))))).
Proof.
  intros Ha. constructor.
  - done.
  - apply NoDup_singleton.
  - apply Forall_singleton. by apply deployment_container_ok.
  - cbn. destruct (uses_disk (backend_of l)); by apply (bool_decide_unpack _).
  - assert (Hcm : volume_ok {| vol_Name := LimitsCMVolumeName;
                               vol_ConfigMap := Some {| lor_Name := LimitsConfigMapName l |};
                               vol_PersistentVolumeClaim := None |})
      by (split; [done|by apply limits_name_ok]).
    cbn. destruct (uses_disk (backend_of l)); cbn; [|by apply Forall_singleton].
    apply Forall_cons. split; [done|]. apply Forall_singleton. split; [done|].
    by apply limitador_name_ok.
  - apply (ac_affinity l Ha).
  - apply (ac_pull_secrets l Ha).
Qed.

Lemma backend_strategy l :
  ds_Type (dso_DeploymentStrategy (backend_options l)) = Some RecreateDeploymentStrategyType →
  ds_RollingUpdate (dso_DeploymentStrategy (backend_options l)) = None.
Proof. unfold backend_options. simpl. by destruct (uses_disk (backend_of l)). Qed.

Lemma desired_deployment_ok {AD : AcceptedDefaults} l d : acceptable l → desired_deployment l d → deployment_ok d.
Proof.
  intros Ha (args & _ & _ & Ho).
  destruct (SetOwnerReference_Ok l KDeployment _ _ Ho) as [refs ->]. constructor.
  - done.
  - by apply (built_meta_ok _ _ l); [apply limitador_name_ok| | |left|].
  - intros n [= <-]. apply Ha.
  - eexists. split; [reflexivity|]. split_and!;
      [apply SelectorLabels_nonempty|by apply SelectorLabels_ok, name_fits_value, Ha|].
    apply SelectorLabels_Labels.
  - apply backend_strategy.
  - apply Labels_ok, name_fits_value, Ha.
  - by apply desired_pod_ok.
Qed.

Lemma budget_is_ok l : acceptable l → budget_ok (PodDisruptionBudget_of l).
Proof.
  intros Ha. pose proof (admissible_rules _ (ac_rules l Ha)) as (_ & Hr & _).
  pose proof (name_fits_value _ (ac_name l Ha)) as Hv.
  pose proof (limitador_name_ok l Ha) as Hn. pose proof (ac_budget l Ha) as Hb.
  unfold PodDisruptionBudget_of, rule_pdb_exclusive in *.
  destruct (spec_PodDisruptionBudget (lim_Spec l)) as [b|]; constructor; try done.
  - apply (built_meta_ok _ _ l); [done..|by left|done].
  - destruct b as [[mx|] [mn|]]; by auto.
  - intros v. by apply Hb.
  - eexists. split; [reflexivity|by apply SelectorLabels_ok].
  - apply (built_meta_ok _ _ l); [done..|by right|done].
  - by left.
  - by intros v [[=]|[=]].
  - eexists. split; [reflexivity|by apply SelectorLabels_ok].
Qed.

Lemma claim_is_ok {AD : AcceptedDefaults} l : acceptable l → claim_ok (PVC l).
Proof.
  intros Ha. pose proof (limitador_name_ok l Ha) as Hn. pose proof (ac_claim l Ha) as Hc.
  pose proof default_size as Hdef. unfold PVC.
  destruct (spec_Storage (lim_Spec l) ≫= st_Disk) as [disk|]; [destruct (disk_PVC disk) as [g|] eqn:Hg|].
  - destruct (Hc disk g eq_refl Hg) as [Hsize Hclass].
    constructor; [done|by apply (built_meta_ok _ _ l); [| | |left|]|done| |exact Hclass].
    simpl. destruct (pg_Resources g) as [r|]; eexists; (split; [reflexivity|]); [by apply Hsize|done].
  - constructor; [done|by apply (built_meta_ok _ _ l); [| | |left|]|done| |done]. by eexists.
  - constructor; [done|by apply (built_meta_ok _ _ l); [| | |right|]|done| |done]. by eexists.
Qed.

Lemma limits_configmap_ok l cm : acceptable l → LimitsConfigMap l = Ok cm → configmap_ok cm.
Proof.
  intros Ha. unfold LimitsConfigMap.
  destruct (yaml_Marshal_Limits (Limits l)) as [text|] eqn:Htext; [|done].
  intros [= <-]. constructor; [done| | |].
  - by apply (built_meta_ok _ _ l); [apply limits_name_ok| | |left|].
  - by apply map_Forall_singleton.
  - simpl. rewrite map_fold_singleton, N.add_0_r. by apply (ac_limits l Ha).
Qed.

(** The owners an object is given do not matter. *)
Lemma with_owner_ok l kd (o o' : struct_of kd) :
  SetOwnerReference l o = Ok o' → well_formed (Obj kd o) → well_formed (Obj kd o').
Proof.
  intros [refs ->]%SetOwnerReference_Ok.
  destruct kd; simpl; intros H; try done; (destruct H; constructor; try done);
    match goal with H : meta_ok _ _ |- _ => destruct H; by constructor end.
Qed.

Lemma applied_well_formed {AD : AcceptedDefaults} l pods o : acceptable l → applied l pods o → well_formed o.
Proof.
  intros Ha. destruct o as [[] o]; simpl; try done.
  - intros Ho. apply (with_owner_ok l KService _ _ Ho). apply Service_ok; apply Ha.
  - by apply desired_deployment_ok.
  - intros (cm & Hcm & Ho). apply (with_owner_ok l KConfigMap _ _ Ho). by eapply limits_configmap_ok.
  - intros (_ & Ho). apply (with_owner_ok l KPodDisruptionBudget _ _ Ho). by apply budget_is_ok.
  - intros (pod & rv & _ & ->). split; [done|]. eexists. split; [reflexivity|].
    by apply map_Forall_singleton.
Qed.

Lemma created_well_formed {AD : AcceptedDefaults} l o : acceptable l → created l o → well_formed o.
Proof.
  intros Ha. destruct o as [[] o]; simpl; try done.
  intros (_ & Ho). apply (with_owner_ok l KPersistentVolumeClaim _ _ Ho). by apply claim_is_ok.
Qed.

(** The objects a call carries to the server. *)
Definition sends (e : event) (o : object) : Prop :=
  match ev_call e with
  | Patch_Apply o' _ | Status_Patch_Apply o' _ | Create o' | Update o' => o = o'
  | _ => False
  end.

Lemma duty_well_formed {AD : AcceptedDefaults} l pods e o : acceptable l → duty l pods e → sends e o → well_formed o.
Proof.
  intros Ha. destruct e as [c x]. unfold sends. destruct c; simpl; try done.
  - intros [_ Hd] ->. by eapply applied_well_formed.
  - intros [_ (now & ready & -> & _)] ->. done.
  - intros Hd ->. by eapply created_well_formed.
Qed.

(** ** Theorems *)

(** C10: every object sent passes the rules of this file. For a resource that
    the CRD admits and whose own fields leave room for it ([acceptable]: at most
    53 label characters in the name, two distinct port numbers, replicas that
    are not negative, an image, names of secrets and of a storage class that can
    exist, budget bounds that are not negative nor above 100%, affinity,
    requirements and claim size the API accepts, limits that fit a ConfigMap),
    each object a run applies, creates or patches passes the rules of the API
    stated above: names, labels, annotation keys, ports, probes, environment,
    volumes and mounts, selectors, strategies, bounds and sizes. *)
Theorem Reconcile_sends_well_formed {AD : AcceptedDefaults} logger ctx req t out l e o :
  runs (Reconcile logger ctx req) t out → Ev (Get KLimitador req) (Ok l) ∈ t →
  acceptable l → e ∈ t → sends e o → well_formed o.
Proof.
  intros Hr Hl Ha He Hs. destruct (Reconcile_on _ _ _ _ _ _ Hr Hl) as (w & pods & Hw & [Hd _] & _).
  assert (Het : e ∈ traffic t).
  { apply elem_traffic. split; [|done]. destruct e as [c x]. unfold sends in Hs. by destruct c. }
  rewrite Hw in Het. apply elem_of_cons in Het as [->|Het]; [done|].
  rewrite Forall_forall in Hd. destruct (Hd _ Het) as [Hdu _]. by eapply duty_well_formed.
Qed.

(** C23: which resources can have a Service. The Service of a resource in a
    valid namespace is accepted exactly when the resource's name has at most
    53 characters, all of them of a label (no dot), and its ports are distinct
    port numbers. The CRD asks for neither. *)
Theorem Service_well_formed_iff l :
  dns_label (lim_Namespace l) = true →
  well_formed (Obj KService (Service_of l)) ↔ name_fits (lim_Name l) = true ∧ ports_fit l.
Proof.
  intros Hns. split.
  - intros Hs. destruct (so_meta _ Hs) as [Hn _ Hl].
    apply service_name_label in Hn as (Hlen & Hc & Hlast). split.
    + apply name_fits_spec. split; [done|]. apply label_part_spec. split_and!; [done| |done].
      assert (Hv : label_value (lim_Name l) = true).
      { by apply (Hl LabelKeyLimitadorResource). }
      apply orb_true_iff in Hv as [Hv%bool_decide_eq_true|Hv]; [by rewrite Hv in Hlast|].
      unfold qualified_part in Hv. rewrite !andb_true_iff in Hv. destruct Hv as [[_ Hf] _].
      destruct (lim_Name l) as [|c n]; [done|]. apply andb_true_iff in Hc as [Hc _]. cbn in *.
      unfold is_label_char in Hc. apply orb_true_iff in Hc as [Hc|Hc%Ascii.eqb_eq]; [done|].
      by subst c.
    + pose proof (so_ports _ Hs) as Hp. apply Forall_cons in Hp as [(_ & Hh & _) Hp].
      apply Forall_cons in Hp as [(_ & Hg & _) _]. split_and!; [done..|].
      pose proof (so_numbers _ Hs) as Hd. cbn in Hd. apply NoDup_cons in Hd as [Hd _].
      intros He. apply Hd. rewrite He. left.
  - intros [Hn Hp]. by apply Service_ok.
Qed.

End well_formed.

(** ** Witnesses *)

#[local] Existing Instances Sample.platform Sample.condition_codec Sample.limits_codec
  Sample.limitador_codec Sample.controller_util Sample.status_conditions.

(** Rules for the quantities of the sample, which are texts: none is empty, no
    size is zero, and what is requested is limited. *)
#[local] Instance sample_rules : @ApiRules platform := {|
  valid_affinity _ := True;
  valid_requirements r :=
    map_Forall (λ _ q, q ≠ "") (rr_Requests r) ∧ dom (rr_Requests r) ⊆ dom (rr_Limits r);
  valid_size q := q ≠ "" ∧ q ≠ "0"
|}.

#[local] Instance sample_defaults : @AcceptedDefaults platform sample_rules.
Proof.
  split; [|done]. split; [|apply (bool_decide_unpack _); vm_compute; exact I].
  by repeat apply map_Forall_insert_2.
Defined.

Lemma sample_disk_acceptable : acceptable sample_disk.
Proof.
  constructor; try reflexivity; try discriminate.
  - by split_and!.
  - by repeat constructor.
  - intros b v [= <-] [[= <-]|[=]]. reflexivity.
  - intros d g [= <-] [= <-]. split; [by intros r [= <-]|]. intros n [= <-]. by right.
  - intros text [= <-]. vm_compute. discriminate.
Defined.

Lemma Reconcile_sends_well_formed_witness : well_formed (Obj KDeployment disk_deployment).
Proof.
  apply (Reconcile_sends_well_formed no_values Background sample_request (log_in disk_world)
    (end_of reconcile_sample disk_world) sample_disk
    (Ev (Patch_Apply (Obj KDeployment disk_deployment) apply_opts) None)).
  - exact (runs_in disk_world).
  - in_log 1.
  - exact sample_disk_acceptable.
  - in_log 17.
  - reflexivity.
Defined.

(** A resource named with a dot, which Kubernetes allows, has no Service. *)
Definition dotted : Limitador :=
  {| lim_TypeMeta := lim_TypeMeta sample;
     lim_ObjectMeta := new_meta "rate.limits" "default" ∅;
     lim_Spec := lim_Spec sample; lim_Status := LimitadorStatus_zero |}.

Lemma Service_well_formed_iff_witness :
  dns_subdomain (lim_Name dotted) = true ∧ ¬ well_formed (Obj KService (Service_of dotted)).
Proof.
  split; [reflexivity|]. intros H.
  destruct (proj1 (Service_well_formed_iff dotted eq_refl) H) as [Hn _]. discriminate Hn.
Defined.
