(* ===== verification/Otel.v ===== *)
(** * [pkg/observability/otel.go]: the tracing provider

    The configuration read from the environment, the exporter chosen from
    the endpoint, and the provider put together from them. *)

From S2P Require Import Prelude Kube Helpers Types Effects Sample.
From Stdlib Require Import Ascii.

(** The part of [url.URL] the operator reads. *)
Record URL := { u_Scheme : string; u_Host : string; u_Path : string }.

(** The OTLP clients, by the options they are made with: the endpoint,
    [WithURLPath] when given, and [WithInsecure]. *)
Inductive otlp_client :=
  | GRPCClient (endpoint : string) (insecure : bool)
  | HTTPClient (endpoint : string) (path : option string) (insecure : bool).

#[export] Instance otlp_client_eq_dec : EqDecision otlp_client.
Proof. solve_decision. Defined.

(** [net/url] and the OpenTelemetry SDK, with the order, which the Go runtime
    picks, of the entries in a loop over a map. *)
Class OtelSDK {PF : Platform} := {
  map_range : gmap string string → list (string * string);
  map_range_entries m : map_range m ≡ₚ map_to_list m;
  url_Parse : string → result ExtError URL;
  Resource : Type;
  resource_New : list (string * string) → result ExtError Resource;
  resource_Merge_Default : Resource → result ExtError Resource;
  ServiceNameKey : string;
  ServiceVersionKey : string;
  SpanExporter : Type;
  otlptrace_New : otlp_client → result ExtError SpanExporter
}.

Definition defaultServiceName : string := "limitador-operator".
Definition defaultEndpoint : string := "".
Definition envServiceName : string := "OTEL_SERVICE_NAME".
Definition envOTLPEndpoint : string := "OTEL_EXPORTER_OTLP_ENDPOINT".
Definition envOTLPInsecure : string := "OTEL_EXPORTER_OTLP_INSECURE".
Definition envResourceAttributes : string := "OTEL_RESOURCE_ATTRIBUTES".

Record Config := {
  cfg_ServiceName : string;
  cfg_ServiceVersion : string;
  cfg_Endpoint : string;
  cfg_Insecure : bool;
  cfg_ResourceAttributes : gmap string string
}.

(** One step of the loop over [key=value] pairs. *)
Definition add_attribute (resourceAttrs : gmap string string) (pair : string)
    : gmap string string :=
  match SplitN2 pair "="%char with
  | [k; v] => <[TrimSpace k := TrimSpace v]> resourceAttrs
  | _ => resourceAttrs
  end.

Definition parse_attributes (attrStr : string) : gmap string string :=
  if bool_decide (attrStr ≠ "") then foldl add_attribute ∅ (Split attrStr ","%char) else ∅.

Section otel.
Context {PF : Platform}.

Definition NewConfig (version : string) : Config :=
  let serviceName := env_GetString envServiceName defaultServiceName in
  let endpoint := env_GetString envOTLPEndpoint defaultEndpoint in
  let insecure := default false (ParseBool (env_GetString envOTLPInsecure "false")) in
  {| cfg_ServiceName := serviceName;
     cfg_ServiceVersion := version;
     cfg_Endpoint := endpoint;
     cfg_Insecure := insecure;
     cfg_ResourceAttributes := parse_attributes (env_GetString envResourceAttributes "") |}.

Context {SDK : OtelSDK}.

(** The attributes handed to [resource.New]; those of the map come in the
    order the Go runtime happens to pick. *)
Definition service_attributes (cfg : Config) : list (string * string) :=
  [(ServiceNameKey, cfg_ServiceName cfg); (ServiceVersionKey, cfg_ServiceVersion cfg)] ++
  map_range (cfg_ResourceAttributes cfg).

Definition newResource (cfg : Config) : result error Resource :=
  match resource_New (service_attributes cfg) with
  | Err err => Err (ErrExt err)
  | Ok res => match resource_Merge_Default res with
              | Err err => Err (ErrExt err)
              | Ok res => Ok res
              end
  end.

(** The client for an endpoint. *)
Definition exporter_client (cfg : Config) (u : URL) : result error otlp_client :=
  if bool_decide (u_Scheme u = "rpc") then Ok (GRPCClient (u_Host u) (cfg_Insecure cfg))
  else if bool_decide (u_Scheme u = "http" ∨ u_Scheme u = "https") then
    Ok (HTTPClient (u_Host u)
          (if bool_decide (u_Path u ≠ "") then Some (u_Path u) else None)
          (cfg_Insecure cfg || bool_decide (u_Scheme u = "http")))
  else Err (ErrNew ("unsupported endpoint scheme: " +:+ u_Scheme u +:+
                    " (use 'rpc', 'http', or 'https')")).

Definition newExporter (cfg : Config) : result error SpanExporter :=
  match url_Parse (cfg_Endpoint cfg) with
  | Err err => Err (ErrWrap "invalid endpoint URL" (ErrExt err))
  | Ok u =>
      match exporter_client cfg u with
      | Err err => Err err
      | Ok client => match otlptrace_New client with
                     | Err err => Err (ErrExt err)
                     | Ok exporter => Ok exporter
                     end
      end
  end.

(** A tracer provider, by its resource and the exporter its batcher feeds;
    without an exporter its shutdown does nothing. *)
Record TracerProvider := { tp_Resource : Resource; tp_Exporter : option SpanExporter }.

(** The function that shuts a provider down: the closure that does nothing,
    or the one over a tracer provider. *)
Inductive shutdown_func := ShutdownNothing | ShutdownTracerProvider (tp : TracerProvider).

Record Provider := { TracerProvider_of : TracerProvider; Shutdown : shutdown_func }.

Definition initTracerProvider (cfg : Config) (res : Resource)
    : result error (TracerProvider * shutdown_func) :=
  if bool_decide (cfg_Endpoint cfg = "") then
    let tp := {| tp_Resource := res; tp_Exporter := None |} in
    Ok (tp, ShutdownNothing)
  else
    match newExporter cfg with
    | Err err => Err (ErrWrap "failed to create trace exporter" err)
    | Ok exporter =>
        let tp := {| tp_Resource := res; tp_Exporter := Some exporter |} in
        Ok (tp, ShutdownTracerProvider tp)
    end.

(** The process-wide variables of [go.opentelemetry.io/otel]: the tracer
    provider, none before one is set, and the propagators. *)
Inductive propagator := TraceContext | Baggage.

Record otel_globals := {
  og_TracerProvider : option TracerProvider;
  og_TextMapPropagator : list propagator
}.

Definition SetTracerProvider (tp : TracerProvider) (g : otel_globals) : otel_globals :=
  {| og_TracerProvider := Some tp; og_TextMapPropagator := og_TextMapPropagator g |}.

Definition SetTextMapPropagator (ps : list propagator) (g : otel_globals) : otel_globals :=
  {| og_TracerProvider := og_TracerProvider g; og_TextMapPropagator := ps |}.

(** The provider or an error, and the globals afterwards. *)
Definition InitProvider (cfg : Config) (g : otel_globals) : result error Provider * otel_globals :=
  match newResource cfg with
  | Err err => (Err (ErrWrap "failed to create resource" err), g)
  | Ok res =>
      match initTracerProvider cfg res with
      | Err err => (Err (ErrWrap "failed to initialize tracer provider" err), g)
      | Ok (tracerProvider, traceShutdown) =>
          let g := SetTracerProvider tracerProvider g in
          let g := SetTextMapPropagator [TraceContext; Baggage] g in
          (Ok {| TracerProvider_of := tracerProvider; Shutdown := traceShutdown |}, g)
      end
  end.

End otel.

(** ** Vocabulary *)

(** A key and value that survive the format: no separator in either but the
    equals signs of the value, and no white space around them. *)
Definition plain_pair (kv : string * string) : Prop :=
  free_of ","%char kv.1 = true ∧ free_of "="%char kv.1 = true ∧ TrimSpace kv.1 = kv.1 ∧
  free_of ","%char kv.2 = true ∧ TrimSpace kv.2 = kv.2.

(** The environment variable that sets the given attributes. *)
Definition show_pair (kv : string * string) : string := kv.1 +:+ "=" +:+ kv.2.
Definition show_attributes (kvs : list (string * string)) : string :=
  String.concat "," (show_pair <$> kvs).

(** ** Lemmas *)

Lemma SplitN2_show_pair kv :
  free_of "="%char kv.1 = true → SplitN2 (show_pair kv) "="%char = [kv.1; kv.2].
Proof.
  intros H. unfold SplitN2, show_pair. change ("=" +:+ kv.2) with (String "="%char kv.2).
  by rewrite (cut_free kv.1 kv.2).
Qed.

Lemma show_pair_free kv : plain_pair kv → free_of ","%char (show_pair kv) = true.
Proof.
  intros (Hk & _ & _ & Hv & _). unfold show_pair. by rewrite !free_of_app, Hk, Hv.
Qed.

Lemma add_attribute_pair m kv : plain_pair kv → add_attribute m (show_pair kv) = <[kv.1 := kv.2]> m.
Proof.
  intros (_ & He & Hk & _ & Hv). unfold add_attribute.
  by rewrite SplitN2_show_pair, Hk, Hv.
Qed.

Lemma fold_attributes kvs m :
  Forall plain_pair kvs → NoDup kvs.*1 →
  foldl add_attribute m (show_pair <$> kvs) = list_to_map kvs ∪ m.
Proof.
  intros H. revert m. induction H as [|kv kvs Hkv H IH]; intros m Hnd; simpl.
  { by rewrite map_empty_union. }
  apply NoDup_cons in Hnd as [Hk Hnd]. rewrite IH, add_attribute_pair by done.
  destruct kv as [k v]. simpl.
  rewrite <-insert_union_r, insert_union_l; [done|].
  by apply not_elem_of_list_to_map_1.
Qed.

Lemma show_attributes_nonempty kvs : kvs ≠ [] → show_attributes kvs ≠ "".
Proof.
  unfold show_attributes. destruct kvs as [|[k v] [|kv kvs]]; [done|..]; intros _; cbn.
  - unfold show_pair. simpl. destruct k; discriminate.
  - unfold show_pair. simpl. destruct k; discriminate.
Qed.

(** ** Theorems *)

(** C40: resource attributes are read back. The environment variable written
    as comma-separated [key=value] pairs, with distinct keys and no separator
    or surrounding white space in them, is read as exactly those pairs; a value
    may contain equals signs. *)
Theorem parse_attributes_roundtrip kvs :
  Forall plain_pair kvs → NoDup kvs.*1 →
  parse_attributes (show_attributes kvs) = list_to_map kvs.
Proof.
  intros H Hnd. destruct (decide (kvs = [])) as [->|Hne]; [done|].
  unfold parse_attributes. rewrite bool_decide_eq_true_2 by by apply show_attributes_nonempty.
  unfold show_attributes. rewrite Split_concat.
  - by rewrite fold_attributes, map_union_empty.
  - by destruct kvs.
  - apply Forall_fmap. eapply Forall_impl; [exact H|]. apply show_pair_free.
Qed.

Section otel_theorems.
Context {PF : Platform} {SDK : OtelSDK}.

(** What an endpoint's exporter is made of. *)
Definition exporter_for (cfg : Config) (exporter : SpanExporter) : Prop :=
  ∃ u client, url_Parse (cfg_Endpoint cfg) = Ok u ∧ otlptrace_New client = Ok exporter ∧
    match client with
    | GRPCClient endpoint insecure =>
        u_Scheme u = "rpc" ∧ endpoint = u_Host u ∧ insecure = cfg_Insecure cfg
    | HTTPClient endpoint path insecure =>
        (u_Scheme u = "http" ∨ u_Scheme u = "https") ∧ endpoint = u_Host u ∧
        default "" path = u_Path u ∧
        (insecure = true ↔ cfg_Insecure cfg = true ∨ u_Scheme u = "http")
    end.

Lemma newExporter_for cfg exporter : newExporter cfg = Ok exporter → exporter_for cfg exporter.
Proof.
  unfold newExporter. destruct (url_Parse (cfg_Endpoint cfg)) as [u|e] eqn:Hu; [|done].
  destruct (exporter_client cfg u) as [client|e] eqn:Hc; [|done].
  destruct (otlptrace_New client) as [x|e] eqn:Hx; [|done]. intros [= <-].
  exists u, client. do 2 (split; [done|]). unfold exporter_client in Hc.
  destruct (decide (u_Scheme u = "rpc")) as [Hs|Hs].
  { rewrite bool_decide_eq_true_2 in Hc by done. by injection Hc as <-. }
  rewrite bool_decide_eq_false_2 in Hc by done.
  destruct (decide (u_Scheme u = "http" ∨ u_Scheme u = "https")) as [Hh|Hh].
  - rewrite bool_decide_eq_true_2 in Hc by done. injection Hc as <-.
    split_and!; [done..| |].
    + case_bool_decide as Hp; [done|]. simpl. by rewrite Hp.
    + by rewrite orb_true_iff, bool_decide_eq_true.
  - by rewrite bool_decide_eq_false_2 in Hc.
Qed.

(** The shutdown of a provider that was set up. *)
Lemma InitProvider_shape cfg g p g' :
  InitProvider cfg g = (Ok p, g') →
  Shutdown p = if bool_decide (cfg_Endpoint cfg = "") then ShutdownNothing
               else ShutdownTracerProvider (TracerProvider_of p).
Proof.
  unfold InitProvider, initTracerProvider. destruct (newResource cfg); [|done].
  destruct (bool_decide _); [by intros [= <- _]|].
  destruct (newExporter cfg); [|done]. by intros [= <- _].
Qed.

(** Tracing follows the endpoint. A provider that is set up is also the
    global one, with the trace context and baggage propagators, and exports
    nothing exactly when the endpoint is empty. Otherwise the endpoint parses,
    its scheme is [rpc], [http] or [https], and the exporter is made by the
    gRPC client for [rpc] and by the HTTP client for the others, at the URL's
    host, in the clear exactly when the configuration or the scheme [http]
    says so; and the provider's shutdown is that of the exporting provider. A
    set-up that fails leaves the globals alone. *)
Theorem InitProvider_exporter cfg g r g' :
  InitProvider cfg g = (r, g') →
  match r with
  | Err _ => g' = g
  | Ok p =>
      let tp := TracerProvider_of p in
      og_TracerProvider g' = Some tp ∧ og_TextMapPropagator g' = [TraceContext; Baggage] ∧
      match tp_Exporter tp with
      | None => cfg_Endpoint cfg = "" ∧ Shutdown p = ShutdownNothing
      | Some exporter =>
          cfg_Endpoint cfg ≠ "" ∧ exporter_for cfg exporter ∧
          Shutdown p = ShutdownTracerProvider tp
      end
  end.
Proof.
  unfold InitProvider, initTracerProvider.
  destruct (newResource cfg) as [res|e]; [|by intros [= <- <-]].
  case_bool_decide as He; [by intros [= <- <-]|].
  destruct (newExporter cfg) as [exporter|e] eqn:Hx; [|by intros [= <- <-]].
  intros [= <- <-]. simpl. split_and!; [done..| |done]. by apply newExporter_for.
Qed.

End otel_theorems.

(** ** Witnesses *)

Definition sample_attributes : list (string * string) :=
  [("deployment.environment", "staging"); ("query", "a=b")].

Lemma parse_attributes_roundtrip_witness :
  show_attributes sample_attributes = "deployment.environment=staging,query=a=b" ∧
  parse_attributes (show_attributes sample_attributes) = list_to_map sample_attributes.
Proof.
  split; [reflexivity|]. apply (parse_attributes_roundtrip sample_attributes).
  - apply Forall_cons. split; [repeat split; reflexivity|].
    apply Forall_singleton. repeat split; reflexivity.
  - apply NoDup_cons. split; [by intros ?%list_elem_of_singleton|apply NoDup_singleton].
Defined.

(** A URL parser for the one endpoint of the sample, and an SDK that keeps
    the client it is given. *)
#[local] Instance sample_sdk : @OtelSDK platform := {|
  map_range m := map_to_list m;
  map_range_entries m := reflexivity (map_to_list m);
  url_Parse s := Ok {| u_Scheme := "rpc"; u_Host := "jaeger:4317"; u_Path := "" |};
  Resource := list (string * string);
  resource_New := Ok;
  resource_Merge_Default := Ok;
  ServiceNameKey := "service.name";
  ServiceVersionKey := "service.version";
  SpanExporter := otlp_client;
  otlptrace_New := Ok
|}.

Definition sample_config : Config :=
  {| cfg_ServiceName := "limitador-operator"; cfg_ServiceVersion := "0.1";
     cfg_Endpoint := "rpc://jaeger:4317"; cfg_Insecure := true; cfg_ResourceAttributes := ∅ |}.

Definition sample_exporter : @SpanExporter platform sample_sdk := GRPCClient "jaeger:4317" true.

Definition sample_resource : @Resource platform sample_sdk :=
  [("service.name", "limitador-operator"); ("service.version", "0.1")].

Definition no_globals : @otel_globals platform sample_sdk :=
  {| og_TracerProvider := None; og_TextMapPropagator := [] |}.

Lemma InitProvider_exporter_witness :
  fst (InitProvider sample_config no_globals) =
    Ok {| TracerProvider_of := {| tp_Resource := sample_resource; tp_Exporter := Some sample_exporter |};
          Shutdown := ShutdownTracerProvider
            {| tp_Resource := sample_resource; tp_Exporter := Some sample_exporter |} |} ∧
  exporter_for (PF := platform) (SDK := sample_sdk) sample_config sample_exporter.
Proof.
  split; [reflexivity|].
  exact (proj1 (proj2 (proj2 (proj2 (InitProvider_exporter (PF := platform) (SDK := sample_sdk)
    sample_config no_globals _ _ eq_refl))))).
Defined.
