(* ===== verification/Logging.v ===== *)
(** * [pkg/log/log.go]: the base logger

    The level and mode parsed from their names, the functional options of
    [NewLogger], and the process-wide loggers [SetLogger] sets. *)

From S2P Require Import Prelude Kube Sample.
From Stdlib Require Import Ascii.

(** [zapcore.Level], an [int8] whose zero value is the info level. *)
Definition Level : Type := Z.
Definition DebugLevel : Level := (-1)%Z.
Definition InfoLevel : Level := (0)%Z.
Definition WarnLevel : Level := (1)%Z.
Definition ErrorLevel : Level := (2)%Z.
Definition DPanicLevel : Level := (3)%Z.
Definition PanicLevel : Level := (4)%Z.
Definition FatalLevel : Level := (5)%Z.

Inductive Mode := ModeProd | ModeDev.

#[export] Instance Mode_eq_dec : EqDecision Mode.
Proof. solve_decision. Defined.

(** The options of the zap logger: [zap.Level], [zap.UseDevMode], [zap.WriteTo]. *)
Record zap_logger {W : Type} := { zap_Level : Level; zap_UseDevMode : bool; zap_WriteTo : W }.
Arguments zap_logger W : clear implicits.

(** [zapcore.Level.UnmarshalText], the writers a logger may have, [zap.New]
    and the logger on a [NullLogSink]. *)
Class LogSinks {PF : Platform} := {
  UnmarshalText : string → result ExtError Level;
  Writer : Type;
  Stderr : Writer;
  Stdout : Writer;
  zap_New : zap_logger Writer → Logger;
  NullLogger : Logger
}.

Definition ToMode (mode : string) : outcome Mode :=
  let m := ToLower mode in
  if bool_decide (m = "production") then Done ModeProd
  else if bool_decide (m = "development") then Done ModeDev
  else Panicked ("unknown log mode: " +:+ mode).

Section logging.
Context {PF : Platform} {LS : LogSinks}.

Definition ToLevel (level : string) : outcome Level :=
  match UnmarshalText level with
  | Err err => Panicked (Err_Error err)
  | Ok l => Done l
  end.

Record Options := { LogLevel : Level; LogMode : Mode; DestWriter : option Writer }.

(** [Options{}] *)
Definition Options_zero : Options := {| LogLevel := InfoLevel; LogMode := ModeProd; DestWriter := None |}.

Definition Opts : Type := Options → Options.

Definition WriteTo (out : option Writer) : Opts := λ o,
  {| LogLevel := LogLevel o; LogMode := LogMode o; DestWriter := out |}.

Definition SetLevel (level : Level) : Opts := λ o,
  {| LogLevel := level; LogMode := LogMode o; DestWriter := DestWriter o |}.

Definition SetMode (mode : Mode) : Opts := λ o,
  {| LogLevel := LogLevel o; LogMode := mode; DestWriter := DestWriter o |}.

Definition NewLogger (opts : list Opts) : Logger :=
  let o := foldl (λ o opt, opt o) Options_zero opts in
  let dest := default Stderr (DestWriter o) in
  zap_New {| zap_Level := LogLevel o;
             zap_UseDevMode := bool_decide (LogMode o = ModeDev);
             zap_WriteTo := dest |}.

(** The process-wide loggers: [Log] of this package, and those of
    controller-runtime and klog, none before one is set. *)
Record log_globals := {
  Log : Logger;
  ctrl_Log : option Logger;
  klog_Log : option Logger
}.

(** Before [SetLogger], [Log] discards what it is given. *)
Definition log_globals_zero : log_globals :=
  {| Log := NullLogger; ctrl_Log := None; klog_Log := None |}.

Definition SetLogger (logger : Logger) (g : log_globals) : log_globals :=
  {| Log := logger; ctrl_Log := Some logger; klog_Log := Some logger |}.

(** ** Theorems *)

(** Options of a logger are independent and the last of a kind wins. A
    logger made with any options followed by a level, a mode and a writer, in
    any order of the three, has exactly these; and the logger made without
    options is at info level, in production mode, to standard error. *)
Theorem NewLogger_options level mode (w : Writer) (opts three : list Opts) :
  three ≡ₚ [SetLevel level; SetMode mode; WriteTo (Some w)] →
  NewLogger (opts ++ three) =
    zap_New {| zap_Level := level; zap_UseDevMode := bool_decide (mode = ModeDev); zap_WriteTo := w |} ∧
  NewLogger [] =
    zap_New {| zap_Level := InfoLevel; zap_UseDevMode := false; zap_WriteTo := Stderr |}.
Proof.
  intros Hp. split; [|done]. unfold NewLogger. rewrite foldl_app.
  generalize (foldl (λ o (opt : Opts), opt o) Options_zero opts). intros o.
  symmetry in Hp. apply permutations_Permutation in Hp. cbn in Hp.
  repeat (apply elem_of_cons in Hp as [->|Hp]; [done|]). by apply elem_of_nil in Hp.
Qed.

End logging.

(** ** Witnesses *)

#[local] Existing Instance Sample.platform.

(** Two streams, and loggers that name their level and stream. *)
#[local] Instance sample_sinks : @LogSinks Sample.platform := {|
  UnmarshalText s := if bool_decide (s = "info") then Ok 0%Z else Err ConflictError;
  Writer := nat;
  Stderr := 2;
  Stdout := 1;
  zap_New z := [("level", LogString (pretty (zap_Level z))); ("to", LogString (pretty (zap_WriteTo z)))];
  NullLogger := []
|}.

Lemma NewLogger_options_witness :
  NewLogger ([SetLevel PanicLevel; WriteTo None] ++
             [WriteTo (Some (Stdout : Writer)); SetLevel DebugLevel; SetMode ModeDev]) =
    zap_New {| zap_Level := DebugLevel; zap_UseDevMode := true; zap_WriteTo := (Stdout : Writer) |}.
Proof.
  apply (NewLogger_options DebugLevel ModeDev Stdout).
  apply permutations_Permutation. cbn. by repeat (done || constructor).
Defined.
