(* ===== verification/Setup.v ===== *)
(** * [main.go] and [SetupWithManager]: the manager

    What the manager's cache keeps of each kind, which kinds are read past the
    cache, and which kinds trigger a reconciliation. The theorems are against
    the reconcile loop: what it writes and lists is what the cache lets it see. *)

From S2P Require Import Prelude Kube Helpers Types Effects Observability Names Options Objects.
From S2P Require Import BaseReconciler Status Controller Traffic Plan Follows Footprint Sample Loop Outcome.

(** [cacheOptions.ByObject]: the label selector of each kind listed there. *)
Definition app_selector : gmap string string := {[ LabelKeyApp := LimitadorAppName ]}.

Definition ByObject (kd : kind) : option (gmap string string) :=
  match kd with
  | KConfigMap | KDeployment | KPodDisruptionBudget | KPod | KPersistentVolumeClaim =>
      Some app_selector
  | _ => None
  end.

(** [client.CacheOptions.DisableFor] *)
Definition DisableFor : list kind := [KSecret].

(** [For] and [Owns] of the controller. *)
Definition For : kind := KLimitador.
Definition Owns : list kind := [KDeployment; KConfigMap; KPodDisruptionBudget].

(** An object of a kind and labels is visible to the operator's reads: the
    kind is not cached, or its cache selects those labels. *)
Definition visible (kd : kind) (labels : gmap string string) : Prop :=
  kd ∈ DisableFor ∨ match ByObject kd with
                    | Some sel => selects sel labels
                    | None => True
                    end.

(** A change of an object of this kind leads to a reconciliation. *)
Definition watched (kd : kind) : bool := bool_decide (kd = For) || bool_decide (kd ∈ Owns).

(** ** Lemmas *)

Lemma app_selector_Labels {PF : Platform} l : selects app_selector (Labels l).
Proof. unfold selects, app_selector. by apply map_singleton_subseteq_l. Qed.

Lemma visible_labels {PF : Platform} kd l : visible kd (Labels l).
Proof. right. destruct kd; try done; apply app_selector_Labels. Qed.

Section setup.
Context {PF : Platform} {CC : ConditionCodec} {LC : LimitsCodec} {JC : LimitadorCodec}
  {CU : ControllerUtil} {SC : StatusConditions}.

Lemma created_meta l o :
  created l o → om_Labels (obj_meta o) = Labels l.
Proof.
  destruct o as [[] o]; try done. intros [_ Ho].
  destruct (SetOwnerReference_meta l KPersistentVolumeClaim _ _ Ho) as (_ & Hl & _).
  simpl in *. rewrite Hl. unfold PVC.
  destruct (spec_Storage (lim_Spec l) ≫= st_Disk) as [d|]; [|done]. by destruct (disk_PVC d).
Qed.

(** ** Theorems *)

(** C35: the operator sees what it makes. Every object a run applies or
    creates, pods apart, carries labels its own cache selects, so a later read
    is not told that it does not exist because of the cache; secrets, which
    carry no label of the operator, are read past the cache; and every pod the
    run's selector selects is in the cache. *)
Theorem cache_covers_objects logger ctx req t out l :
  runs (Reconcile logger ctx req) t out → Ev (Get KLimitador req) (Ok l) ∈ t →
  (∀ ob opts r, Ev (Patch_Apply ob opts) r ∈ t → obj_kind ob ≠ KPod →
     visible (obj_kind ob) (om_Labels (obj_meta ob))) ∧
  (∀ ob r, Ev (Create ob) r ∈ t → visible (obj_kind ob) (om_Labels (obj_meta ob))) ∧
  (∀ key got labels, Ev (Get KSecret key) got ∈ t → visible KSecret labels) ∧
  (∀ sel ns got labels, Ev (ListPods sel ns) got ∈ t → selects sel labels → visible KPod labels).
Proof.
  intros Hr Hl. split_and!.
  - intros ob opts r He Hk. destruct (applied_on _ _ _ _ _ _ _ _ _ Hr Hl He) as (pods & _ & Ha).
    destruct (applied_meta _ _ _ Ha Hk) as (m & _ & -> & _). apply visible_labels.
  - intros ob r He. destruct (Reconcile_on _ _ _ _ _ _ Hr Hl) as (w & pods & Hw & [Hd _] & _).
    assert (Het : Ev (Create ob) r ∈ traffic t) by by apply elem_traffic.
    rewrite Hw in Het. apply elem_of_cons in Het as [Het|Het].
    { by apply (f_equal (λ e, is_write (ev_call e))) in Het. }
    rewrite Forall_forall in Hd. destruct (Hd _ Het) as [Hdu _].
    rewrite (created_meta l ob Hdu). apply visible_labels.
  - intros key got labels _. left. left.
  - intros sel ns got labels He Hs.
    assert (Het : Ev (ListPods sel ns) got ∈ traffic t) by by apply elem_traffic.
    destruct (Reconcile_duty _ _ _ _ _ _ Hr Het) as [[g Hg]|(l' & pods & _ & _ & Hd & _)].
    { by apply (f_equal (λ e, rank e)) in Hg. }
    destruct Hd as (-> & _ & _). right. simpl. unfold selects in *.
    etrans; [|exact Hs]. by apply map_singleton_subseteq_l.
Qed.

End setup.

(** ** Witnesses *)

#[local] Existing Instances Sample.platform Sample.condition_codec Sample.limits_codec
  Sample.limitador_codec Sample.controller_util Sample.status_conditions.

Lemma cache_covers_objects_witness :
  visible KPersistentVolumeClaim (om_Labels (pvc_ObjectMeta disk_claim)).
Proof.
  refine (proj1 (proj2 (cache_covers_objects no_values Background sample_request (log_in disk_world)
    (end_of reconcile_sample disk_world) sample_disk (runs_in disk_world) _))
    (Obj KPersistentVolumeClaim disk_claim) None _).
  - in_log 1.
  - in_log 12.
Defined.
