(* ===== verification/Startup.v ===== *)
(** * [main.go]: the process

    Package initialisation, the flags, and [main], which sets up tracing, the
    manager, the controller and the health checks, and then runs the manager
    until it is told to stop. A process is a program of its own kind: besides
    returning it may exit, and [os.Exit] does not run deferred functions. *)

From S2P Require Import Prelude Kube Helpers Types Effects Observability Names Options Objects.
From S2P Require Import BaseReconciler Status Controller Otel Logging Setup Sample.

(** ** What the manager set-up calls

    The types of controller-runtime the operator only hands on. *)
Class ControllerRuntime {PF : Platform} := {
  RuntimeScheme : Type;
  NewScheme : RuntimeScheme;
  clientgo_AddToScheme : RuntimeScheme → result ExtError RuntimeScheme;
  Builder_AddToScheme : SchemeBuilderT → RuntimeScheme → result ExtError RuntimeScheme;
  RestConfig : Type;
  Manager : Type;
  RuntimeClient : Type;
  RuntimeReader : Type;
  RuntimeEventRecorder : Type;
  GetClient : Manager → RuntimeClient;
  GetScheme : Manager → RuntimeScheme;
  GetAPIReader : Manager → RuntimeReader;
  GetEventRecorderFor : Manager → string → RuntimeEventRecorder
}.

(** What the linker and the Go runtime put into the binary. *)
Record build_info := {
  gitSHA : string;
  dirty : string;
  version : string;
  runtime_Version : string;
  runtime_GOOS : string;
  runtime_GOARCH : string
}.

(** A flag's definition and the flags of [main] after parsing. *)
Inductive flag_def :=
  | StringVar (name value usage : string)
  | BoolVar (name : string) (value : bool) (usage : string).

Record flags := {
  metricsAddr : string;
  probeAddr : string;
  enableLeaderElection : bool
}.

Definition flag_defs : list flag_def :=
  [ StringVar "metrics-bind-address" ":8080" "The address the metric endpoint binds to.";
    StringVar "health-probe-bind-address" ":8081" "The address the probe endpoint binds to.";
    BoolVar "leader-elect" false
      ("Enable leader election for controller manager. " +:+
       "Enabling this will ensure there is only one active controller manager.") ].

Section startup.
Context {PF : Platform} {CC : ConditionCodec} {LC : LimitsCodec} {JC : LimitadorCodec}
  {CU : ControllerUtil} {SC : StatusConditions} {SDK : OtelSDK} {LS : LogSinks}
  {CR : ControllerRuntime}.

(** ** The base reconciler as a value *)

(** [otel.Tracer(name)]: a tracer of the global provider. *)
Record Tracer := { tracer_provider : option TracerProvider; tracer_name : string }.

Definition NewTracer (g : otel_globals) : Tracer :=
  {| tracer_provider := og_TracerProvider g; tracer_name := tracerName |}.

Record BaseReconciler := {
  br_client : RuntimeClient;
  br_scheme : RuntimeScheme;
  br_apiClientReader : RuntimeReader;
  br_logger : Logger;
  br_recorder : RuntimeEventRecorder;
  br_tracer : Tracer
}.

Definition NewBaseReconciler (g : otel_globals) (client : RuntimeClient) (scheme : RuntimeScheme)
    (apiClientReader : RuntimeReader) (logger : Logger) (recorder : RuntimeEventRecorder)
    : BaseReconciler :=
  {| br_client := client; br_scheme := scheme; br_apiClientReader := apiClientReader;
     br_logger := logger; br_recorder := recorder; br_tracer := NewTracer g |}.

(** The getters. *)
Definition BaseReconciler_Client (b : BaseReconciler) : RuntimeClient := br_client b.
Definition BaseReconciler_APIClientReader (b : BaseReconciler) : RuntimeReader := br_apiClientReader b.
Definition BaseReconciler_Scheme (b : BaseReconciler) : RuntimeScheme := br_scheme b.
Definition BaseReconciler_Logger (b : BaseReconciler) : Logger := br_logger b.
Definition BaseReconciler_EventRecorder (b : BaseReconciler) : RuntimeEventRecorder := br_recorder b.
Definition BaseReconciler_Tracer (b : BaseReconciler) : Tracer := br_tracer b.

(** The reconciler of the base, which does nothing, and that of the
    controller, which embeds the base and logs to its logger. *)
Definition BaseReconciler_Reconcile (b : BaseReconciler) (ctx : Context) (req : NamespacedName)
    : prog (Result * option error) := Ret (Result_zero, None).

Record LimitadorReconciler := { lr_BaseReconciler : BaseReconciler }.

Definition LimitadorReconciler_Reconcile (r : LimitadorReconciler) (ctx : Context)
    (req : NamespacedName) : prog (Result * option error) :=
  Reconcile (BaseReconciler_Logger (lr_BaseReconciler r)) ctx req.

(** ** Processes *)

(** The options of [ctrl.NewManager]. *)
Record manager_options := {
  mo_Scheme : RuntimeScheme;
  mo_DisableFor : list kind;
  mo_ByObject : kind → option (gmap string string);
  mo_MetricsBindAddress : string;
  mo_WebhookPort : Z;
  mo_HealthProbeBindAddress : string;
  mo_LeaderElection : bool;
  mo_LeaderElectionID : string
}.

Inductive pcall :=
  | LogInfo (logger : Logger) (msg : string) (kvs : list (string * string))
  | LogError (logger : Logger) (err : error) (msg : string)
  | FlagParse (defs : list flag_def)
  | GetConfigOrDie
  | NewManager (config : RestConfig) (opts : manager_options)
  | CompleteController (mgr : Manager) (for_ : kind) (owns : list kind) (r : LimitadorReconciler)
  | AddHealthzCheck (mgr : Manager) (name : string)
  | AddReadyzCheck (mgr : Manager) (name : string)
  | StartManager (mgr : Manager)
  | TracerProvider_Shutdown (tp : TracerProvider) (timeout : Z).

(** [flag.Parse] and [ctrl.GetConfigOrDie] may end the process themselves:
    the first with a status, the second with 1. *)
Definition preply (c : pcall) : Type :=
  match c with
  | LogInfo _ _ _ | LogError _ _ _ => unit
  | FlagParse _ => result Z flags
  | GetConfigOrDie => option RestConfig
  | NewManager _ _ => result ExtError Manager
  | CompleteController _ _ _ _ | AddHealthzCheck _ _ | AddReadyzCheck _ _ | StartManager _
  | TracerProvider_Shutdown _ _ => option ExtError
  end.

Inductive proc (A : Type) : Type :=
  | PRet (a : A)
  | PExit (code : Z)
  | PCall (c : pcall) (k : preply c → proc A).
Arguments PRet {A} a.
Arguments PExit {A} code.
Arguments PCall {A} c k.

Fixpoint proc_bind {A B} (f : A → proc B) (p : proc A) : proc B :=
  match p with
  | PRet a => f a
  | PExit code => PExit code
  | PCall c k => PCall c (λ x, proc_bind f (k x))
  end.

#[global] Instance proc_ret : MRet proc := λ A a, PRet a.
#[global] Instance proc_mbind : MBind proc := λ A B f p, proc_bind f p.

Definition pdo (c : pcall) : proc (preply c) := PCall c PRet.

(** [defer fin] around the rest of a function, which an exit skips. *)
Fixpoint pdefer {A} (fin : proc unit) (p : proc A) : proc A :=
  match p with
  | PRet a => _ ← fin; PRet a
  | PExit code => PExit code
  | PCall c k => PCall c (λ x, pdefer fin (k x))
  end.

(** How a process ends, and its runs. *)
Inductive ending (A : Type) := Returned (a : A) | Exited (code : Z).
Arguments Returned {A} a.
Arguments Exited {A} code.

Inductive pevent := PEv (c : pcall) (x : preply c).

Definition pev_call (e : pevent) : pcall := let '(PEv c _) := e in c.

Fixpoint pruns {A} (p : proc A) (t : list pevent) (o : ending A) : Prop :=
  match p with
  | PRet a => t = [] ∧ o = Returned a
  | PExit code => t = [] ∧ o = Exited code
  | PCall c k => ∃ x t', t = PEv c x :: t' ∧ pruns (k x) t' o
  end.

(** The run in which every call gets the reply [answer] gives it. *)
Fixpoint pexec {A} (answer : ∀ c : pcall, preply c) (p : proc A) : list pevent * ending A :=
  match p with
  | PRet a => ([], Returned a)
  | PExit code => ([], Exited code)
  | PCall c k => let '(t, o) := pexec answer (k (answer c)) in (PEv c (answer c) :: t, o)
  end.

(** ** Initialisation *)

(** The scheme and the loggers after [init]. *)
Record init_state := { is_scheme : RuntimeScheme; is_loggers : log_globals }.

Definition Must {A} (r : result ExtError A) : outcome A :=
  match r with
  | Ok a => Done a
  | Err err => Panicked (Err_Error err)
  end.

(** The package variables [logLevel] and [logMode]. *)
Definition logLevel : string := env_GetString "LOG_LEVEL" "info".
Definition logMode : string := env_GetString "LOG_MODE" "production".

Definition init : outcome init_state :=
  scheme ← Must (clientgo_AddToScheme NewScheme);
  scheme ← Must (Builder_AddToScheme SchemeBuilder scheme);
  level ← ToLevel logLevel;
  mode ← ToMode logMode;
  let logger := NewLogger [SetLevel level; SetMode mode; WriteTo (Some Stdout)] in
  Done {| is_scheme := scheme; is_loggers := SetLogger logger log_globals_zero |}.

(** ** [main] *)

Definition printControllerMetaInfo (b : build_info) (lg : log_globals) : proc unit :=
  let setupLog := Log lg in
  _ ← pdo (LogInfo setupLog ("go version: " +:+ runtime_Version b) []);
  _ ← pdo (LogInfo setupLog ("go os/arch: " +:+ runtime_GOOS b +:+ "/" +:+ runtime_GOARCH b) []);
  _ ← pdo (LogInfo setupLog "base logger" [("log level", logLevel); ("log mode", logMode)]);
  pdo (LogInfo setupLog "build information"
         [("version", version b); ("commit", gitSHA b); ("dirty", dirty b)]).

(** [setupLog.Error(err, msg); os.Exit(1)] *)
Definition exit_with {A} (setupLog : Logger) (err : error) (msg : string) : proc A :=
  _ ← pdo (LogError setupLog err msg);
  PExit 1.

(** Calling a provider's [Shutdown]. *)
Definition call_Shutdown (f : shutdown_func) (timeout : Z) : proc (option error) :=
  match f with
  | ShutdownNothing => PRet None
  | ShutdownTracerProvider tp =>
      err ← pdo (TracerProvider_Shutdown tp timeout);
      PRet match err with
           | Some err => Some (ErrWrap "failed to shutdown tracer provider" (ErrExt err))
           | None => None
           end
  end.

(** The function [main] defers, with its five seconds in nanoseconds. *)
Definition deferred_shutdown (setupLog : Logger) (otelProvider : Provider) : proc unit :=
  err ← call_Shutdown (Shutdown otelProvider) 5000000000;
  match err with
  | Some err => pdo (LogError setupLog err "error shutting down OpenTelemetry")
  | None => PRet tt
  end.

(** [SetupWithManager] *)
Definition SetupWithManager (r : LimitadorReconciler) (mgr : Manager) : proc (option error) :=
  err ← pdo (CompleteController mgr For Owns r);
  PRet (ext_error err).

(** [if err != nil { setupLog.Error(err, msg); os.Exit(1) }] *)
Definition or_exit (setupLog : Logger) (err : option error) (msg : string) (rest : proc unit)
    : proc unit :=
  match err with
  | Some err => exit_with setupLog err msg
  | None => rest
  end.

(** [main] from the manager's options on. *)
Definition main_manager (st : init_state) (og : otel_globals) (fl : flags) : proc unit :=
  let setupLog := Log (is_loggers st) in
  config ← pdo GetConfigOrDie;
  match config with
  | None => PExit 1
  | Some config =>
      mgr ← pdo (NewManager config
        {| mo_Scheme := is_scheme st;
           mo_DisableFor := DisableFor;
           mo_ByObject := ByObject;
           mo_MetricsBindAddress := metricsAddr fl;
           mo_WebhookPort := 9443;
           mo_HealthProbeBindAddress := probeAddr fl;
           mo_LeaderElection := enableLeaderElection fl;
           mo_LeaderElectionID := "3745a16e.kuadrant.io" |});
      match mgr with
      | Err err => exit_with setupLog (ErrExt err) "unable to start manager"
      | Ok mgr =>
          let limitadorBaseReconciler :=
            NewBaseReconciler og (GetClient mgr) (GetScheme mgr) (GetAPIReader mgr)
              (WithName (Log (is_loggers st)) "limitador") (GetEventRecorderFor mgr "Limitador") in
          err ← SetupWithManager {| lr_BaseReconciler := limitadorBaseReconciler |} mgr;
          or_exit setupLog err "unable to create Limitador controller" (
          err ← pdo (AddHealthzCheck mgr "healthz");
          or_exit setupLog (ext_error err) "unable to set up health check" (
          err ← pdo (AddReadyzCheck mgr "readyz");
          or_exit setupLog (ext_error err) "unable to set up ready check" (
          _ ← pdo (LogInfo setupLog "starting manager" []);
          err ← pdo (StartManager mgr);
          or_exit setupLog (ext_error err) "problem running manager" (PRet tt))))
      end
  end.

Definition main (b : build_info) (st : init_state) (og : otel_globals) : proc unit :=
  _ ← printControllerMetaInfo b (is_loggers st);
  let setupLog := Log (is_loggers st) in
  parsed ← pdo (FlagParse flag_defs);
  match parsed with
  | Err code => PExit code
  | Ok fl =>
      let otelConfig := NewConfig (version b) in
      let '(got, og) := InitProvider otelConfig og in
      match got with
      | Err err => exit_with setupLog err "unable to initialize OpenTelemetry"
      | Ok otelProvider =>
          pdefer (deferred_shutdown setupLog otelProvider)
            (_ ← (if bool_decide (cfg_Endpoint otelConfig = "") then
                    pdo (LogInfo setupLog "OpenTelemetry tracing disabled" [])
                  else
                    pdo (LogInfo setupLog "OpenTelemetry tracing initialized"
                           [("endpoint", cfg_Endpoint otelConfig)]));
             main_manager st og fl)
      end
  end.

(** ** Vocabulary

    The stages of a start, in their order; logging is not one. *)
Definition stage (c : pcall) : option nat :=
  match c with
  | LogInfo _ _ _ | LogError _ _ _ => None
  | FlagParse _ => Some 0
  | GetConfigOrDie => Some 1
  | NewManager _ _ => Some 2
  | CompleteController _ _ _ _ => Some 3
  | AddHealthzCheck _ _ => Some 4
  | AddReadyzCheck _ _ => Some 5
  | StartManager _ => Some 6
  | TracerProvider_Shutdown _ _ => Some 7
  end.

Definition stages (t : list pevent) : list nat := omap (λ e, stage (pev_call e)) t.

(** The other side refused the call. *)
Definition refused (e : pevent) : bool :=
  let '(PEv c x) := e in
  match c return preply c → bool with
  | LogInfo _ _ _ | LogError _ _ _ => λ _, false
  | FlagParse _ | NewManager _ _ => λ x, match x with Ok _ => false | Err _ => true end
  | GetConfigOrDie => λ x, match x with Some _ => false | None => true end
  | CompleteController _ _ _ _ | AddHealthzCheck _ _ | AddReadyzCheck _ _ | StartManager _
  | TracerProvider_Shutdown _ _ => λ x, match x with Some _ => true | None => false end
  end x.

Definition refusals (t : list pevent) : list nat :=
  omap (λ e, if refused e then stage (pev_call e) else None) t.

(** ** The logic of processes *)

(** [p], after the calls [s], ends with calls and an ending that [Q] accepts. *)
Fixpoint pwp {A} (p : proc A) (s : list pevent) (Q : list pevent → ending A → Prop) : Prop :=
  match p with
  | PRet a => Q s (Returned a)
  | PExit code => Q s (Exited code)
  | PCall c k => ∀ x, pwp (k x) (s ++ [PEv c x]) Q
  end.

Lemma pwp_runs {A} (p : proc A) s Q t o : pwp p s Q → pruns p t o → Q (s ++ t) o.
Proof.
  revert s t. induction p as [a|code|c k IH]; intros s t; simpl.
  - intros HQ [-> ->]. by rewrite app_nil_r.
  - intros HQ [-> ->]. by rewrite app_nil_r.
  - intros HQ (x & t' & -> & Hr). rewrite cons_middle, (assoc_L (++)). by eapply IH.
Qed.

Lemma pwp_mono {A} (p : proc A) s (Q Q' : list pevent → ending A → Prop) :
  pwp p s Q → (∀ t o, Q t o → Q' t o) → pwp p s Q'.
Proof. intros Hp HQ. revert s Hp. induction p; simpl; auto. Qed.

Lemma pexec_runs {A} answer (p : proc A) : pruns p (fst (pexec answer p)) (snd (pexec answer p)).
Proof.
  induction p as [a|code|c k IH]; simpl; [done..|]. specialize (IH (answer c)).
  destruct (pexec answer (k (answer c))) as [t o]. eauto.
Qed.

(** ** Theorems *)

(** An error was logged last. *)
Definition logged (t : list pevent) : Prop :=
  ∃ lg err msg, last t = Some (PEv (LogError lg err msg) tt).

(** The ways a start can end, for a configuration of the tracing. *)
Definition start_ends (b : build_info) (og : otel_globals) (t : list pevent) (o : ending unit)
    : Prop :=
  match o with
  | Returned _ =>
      stages t = seq 0 (if bool_decide (cfg_Endpoint (NewConfig (version b)) = "") then 7 else 8) ∧
      (refusals t = [] ∨ refusals t = [7] ∧ logged t)
  | Exited code =>
      (∃ n, n ≤ 6 ∧ stages t = seq 0 (S n) ∧ refusals t = [n] ∧
         (1 ≤ n → code = 1%Z) ∧ (2 ≤ n → logged t)) ∨
      (stages t = [0] ∧ refusals t = [] ∧ code = 1%Z ∧ logged t ∧
       ∃ err, fst (InitProvider (NewConfig (version b)) og) = Err err)
  end.

(** One reply after the other, each branch of a start to its end. *)
Ltac step_start :=
  repeat (cbn; match goal with
               | |- ∀ _ : unit, _ => intros []
               | |- ∀ _ : result _ _, _ => intros [?|?]
               | |- ∀ _ : option _, _ => intros [?|]
               end).

Ltac exited n :=
  left; exists n; split_and!; [lia|reflexivity..|intros; done || lia|intros; (by repeat eexists) || lia].

Lemma main_starts (b : build_info) st og :
  pwp (main b st og) [] (start_ends b og).
Proof.
  unfold main, start_ends. generalize (NewConfig (version b)). intros cfg.
  cbn. intros [] [] [] [] [fl|code]; cbn; [|by exited 0].
  destruct (InitProvider cfg og) as [[p|err] og'] eqn:Hi; cbn.
  2: { intros []. right. split_and!; [reflexivity..|by repeat eexists|by exists err]. }
  unfold deferred_shutdown. rewrite (InitProvider_shape cfg og p og' Hi).
  destruct (bool_decide (cfg_Endpoint cfg = "")).
  all: step_start; try (first [exited 1|exited 2|exited 3|exited 4|exited 5|exited 6]).
  all: split; [reflexivity|].
  all: first [by left|right; split; [reflexivity|by repeat eexists]].
Qed.

Lemma elem_stages t n : n ∈ stages t ↔ ∃ c x, PEv c x ∈ t ∧ stage c = Some n.
Proof.
  unfold stages. rewrite list_elem_of_omap. split.
  - intros ([c x] & He & Hs). eauto.
  - intros (c & x & He & Hs). by exists (PEv c x).
Qed.

(** C22: the process starts in order, and every failure ends it. Flags, the
    cluster's configuration, the manager, the controller, the health check,
    the ready check and the manager's run follow each other in this order; the
    first that is refused is the last, and the process exits with 1 after
    logging an error, but for the two library functions that end the process
    themselves. A process that returns has gone through all of them without a
    refusal but perhaps of the shutdown of the tracing, which it logs. *)
Theorem main_starts_in_order b st og t o :
  pruns (main b st og) t o → start_ends b og t o.
Proof. intros Hr. exact (pwp_runs _ [] _ t o (main_starts b st og) Hr). Qed.

(** C29: traces are flushed only by a manager that stops in peace. When an
    endpoint is configured the tracer provider is shut down exactly when
    [main] returns, which is when the manager's run ended without an error;
    whatever else fails after the provider is set up, the deferred shutdown
    is skipped by [os.Exit]. *)
Theorem exit_skips_shutdown b st og t o :
  pruns (main b st og) t o → cfg_Endpoint (NewConfig (version b)) ≠ "" →
  ((∃ tp timeout r, PEv (TracerProvider_Shutdown tp timeout) r ∈ t) ↔ o = Returned tt) ∧
  (∀ mgr err, PEv (StartManager mgr) (Some err) ∈ t → o = Exited 1%Z).
Proof.
  intros Hr He. pose proof (pwp_runs _ [] _ t o (main_starts b st og) Hr) as H.
  cbv beta in H. unfold start_ends in H. change ([] ++ t) with t in H.
  assert (Hsh : (∃ tp timeout r, PEv (TracerProvider_Shutdown tp timeout) r ∈ t) ↔ 7 ∈ stages t).
  { rewrite elem_stages. split; [by intros (tp & d & r & Ht); eauto|].
    intros (c & x & Ht & Hs). destruct c; try done. eauto. }
  assert (Hst : ∀ mgr err, PEv (StartManager mgr) (Some err) ∈ t → 6 ∈ refusals t).
  { intros mgr err Ht. unfold refusals. apply list_elem_of_omap.
    by exists (PEv (StartManager mgr) (Some err)). }
  rewrite Hsh. destruct o as [[]|code].
  - rewrite bool_decide_eq_false_2 in H by done. destruct H as [-> H]. split.
    { split; [done|]. intros _. apply elem_of_seq. lia. }
    intros mgr err Ht%Hst. destruct H as [H|[H _]]; rewrite H in Ht.
    + by apply elem_of_nil in Ht.
    + by apply list_elem_of_singleton in Ht.
  - split; [split; [|done]|].
    + intros H7. destruct H as [(n & Hn & H & _)|(H & _)]; rewrite H in H7.
      * apply elem_of_seq in H7. lia.
      * by apply list_elem_of_singleton in H7.
    + intros mgr err Ht%Hst. destruct H as [(n & _ & _ & H & Hc & _)|(_ & H & _)]; rewrite H in Ht.
      * apply list_elem_of_singleton in Ht as <-. by rewrite Hc by lia.
      * by apply elem_of_nil in Ht.
Qed.

(** What a registered controller is made of. *)
Definition wired (b : build_info) (st : init_state) (og : otel_globals) (t : list pevent)
    (mgr : Manager) (for_ : kind) (owns : list kind) (r : LimitadorReconciler) : Prop :=
  let base := lr_BaseReconciler r in
  for_ = For ∧ owns = Owns ∧
  BaseReconciler_Logger base = WithName (Log (is_loggers st)) "limitador" ∧
  BaseReconciler_Client base = GetClient mgr ∧ BaseReconciler_Scheme base = GetScheme mgr ∧
  BaseReconciler_APIClientReader base = GetAPIReader mgr ∧
  (∃ config opts, PEv (NewManager config opts) (Ok mgr) ∈ t ∧ mo_Scheme opts = is_scheme st ∧
     mo_ByObject opts = ByObject ∧ mo_DisableFor opts = DisableFor) ∧
  ∃ p, fst (InitProvider (NewConfig (version b)) og) = Ok p ∧
       tracer_provider (BaseReconciler_Tracer base) = Some (TracerProvider_of p).

(** The controllers registered in a log. *)
Definition registered (t : list pevent) : list (Manager * kind * list kind * LimitadorReconciler) :=
  omap (λ e, match pev_call e with
             | CompleteController mgr for_ owns r => Some (mgr, for_, owns, r)
             | _ => None
             end) t.

Lemma elem_registered t mgr for_ owns r x :
  PEv (CompleteController mgr for_ owns r) x ∈ t → (mgr, for_, owns, r) ∈ registered t.
Proof.
  intros Ht. unfold registered. apply list_elem_of_omap.
  by exists (PEv (CompleteController mgr for_ owns r) x).
Qed.

Ltac elem_log := repeat first [left | right].

Lemma main_wires (b : build_info) st og :
  pwp (main b st og) [] (λ t o,
    Forall (λ c, let '(mgr, for_, owns, r) := c in wired b st og t mgr for_ owns r) (registered t)).
Proof.
  unfold main, wired. generalize (NewConfig (version b)). intros cfg.
  cbn. intros [] [] [] [] [fl|code]; cbn; [|constructor].
  destruct (InitProvider cfg og) as [[p|err] og'] eqn:Hi; cbn; [|constructor].
  pose proof (InitProvider_exporter cfg og _ _ Hi) as (Hg & _).
  unfold deferred_shutdown. rewrite (InitProvider_shape cfg og p og' Hi).
  destruct (bool_decide (cfg_Endpoint cfg = "")); step_start; try apply Forall_nil; try done.
  all: apply Forall_singleton; split_and!; [reflexivity..| |by exists p].
  all: eexists _, _; split; [by apply (list_elem_of_lookup_2 _ 7)|done].
Qed.

(** The controller is wired to what was set up. The controller that is
    registered is for the resource and owns the watched kinds; its client and
    scheme are those of a manager made with the scheme of the initialisation
    and the cache options; its logger is the base logger named [limitador];
    and its tracer is one of the provider that was set up. *)
Theorem main_wires_controller b st og t o mgr for_ owns r x :
  pruns (main b st og) t o → PEv (CompleteController mgr for_ owns r) x ∈ t →
  wired b st og t mgr for_ owns r.
Proof.
  intros Hr Ht%elem_registered. pose proof (pwp_runs _ [] _ t o (main_wires b st og) Hr) as H.
  cbv beta in H. rewrite Forall_forall in H. exact (H _ Ht).
Qed.

(** Initialisation either panics or leaves one logger everywhere. It
    panics exactly when the scheme refuses a type, the level is not one of
    zap's, or the mode is neither [production] nor [development]; otherwise
    the loggers of the operator, controller-runtime and klog are the same one,
    at that level and in that mode, to standard output. *)
Theorem init_loggers :
  match init with
  | Panicked _ =>
      (∀ s, clientgo_AddToScheme NewScheme = Ok s → ∃ err, Builder_AddToScheme SchemeBuilder s = Err err) ∨
      (∃ err, UnmarshalText logLevel = Err err) ∨
      ToLower logMode ∉ ["production"; "development"]
  | Done st =>
      ∃ level, UnmarshalText logLevel = Ok level ∧
        ToLower logMode ∈ ["production"; "development"] ∧
        let logger := zap_New {| zap_Level := level;
                                 zap_UseDevMode := bool_decide (ToLower logMode = "development");
                                 zap_WriteTo := Stdout |} in
        is_loggers st = {| Log := logger; ctrl_Log := Some logger; klog_Log := Some logger |}
  end.
Proof.
  unfold init, ToLevel, ToMode.
  destruct (clientgo_AddToScheme NewScheme) as [s|e] eqn:Hs; simpl; [|by left].
  destruct (Builder_AddToScheme SchemeBuilder s) as [s'|e] eqn:Hb; simpl.
  2: { left. intros s0 [= <-]. eauto. }
  destruct (UnmarshalText logLevel) as [level|e]; simpl; [|right; left; eauto].
  case_bool_decide as Hp; simpl.
  { exists level. split_and!; [done|rewrite Hp; left|].
    rewrite Hp. done. }
  case_bool_decide as Hd; simpl.
  { exists level. split_and!; [done|rewrite Hd; right; left|done]. }
  right; right. rewrite !not_elem_of_cons. split_and!; [done..|apply not_elem_of_nil].
Qed.

End startup.

Arguments Returned {A} a.
Arguments Exited {A} code.

(** ** Witnesses *)

#[local] Existing Instances Sample.platform Otel.sample_sdk Logging.sample_sinks
  Sample.condition_codec Sample.limits_codec Sample.limitador_codec Sample.controller_util
  Sample.status_conditions.

(** A runtime whose scheme is the list of its types. *)
#[local] Instance sample_runtime : @ControllerRuntime Sample.platform := {|
  RuntimeScheme := list string;
  NewScheme := [];
  clientgo_AddToScheme s := Ok (s ++ ["Deployment"; "Service"]);
  Builder_AddToScheme b s := Ok (s ++ sb_Registered b);
  RestConfig := unit;
  Manager := unit;
  RuntimeClient := unit;
  RuntimeReader := unit;
  RuntimeEventRecorder := string;
  GetClient _ := tt;
  GetScheme _ := ["Deployment"; "Service"; "Limitador"; "LimitadorList"];
  GetAPIReader _ := tt;
  GetEventRecorderFor _ name := name
|}.

Definition sample_build : build_info :=
  {| gitSHA := "abc"; dirty := "0"; version := "0.1"; runtime_Version := "go1.24";
     runtime_GOOS := "linux"; runtime_GOARCH := "amd64" |}.

(** Everything is granted but what the given stage asks for. *)
Definition granting (bad : nat) (c : @pcall Sample.platform sample_sdk sample_runtime) : preply c :=
  match c return preply c with
  | LogInfo _ _ _ | LogError _ _ _ => tt
  | FlagParse _ => Ok {| metricsAddr := ":8080"; probeAddr := ":8081"; enableLeaderElection := true |}
  | GetConfigOrDie => Some tt
  | NewManager _ _ => if bool_decide (bad = 2) then Err ConflictError else Ok tt
  | CompleteController _ _ _ _ => if bool_decide (bad = 3) then Some ConflictError else None
  | AddHealthzCheck _ _ => if bool_decide (bad = 4) then Some ConflictError else None
  | AddReadyzCheck _ _ => if bool_decide (bad = 5) then Some ConflictError else None
  | StartManager _ => if bool_decide (bad = 6) then Some ConflictError else None
  | TracerProvider_Shutdown _ _ => None
  end.

Definition sample_init : @init_state Sample.platform sample_runtime :=
  {| is_scheme := ["Deployment"]; is_loggers := SetLogger [] log_globals_zero |}.

Definition sample_main := main sample_build sample_init no_globals.

Definition main_log (bad : nat) := fst (pexec (granting bad) sample_main).
Definition main_end (bad : nat) := snd (pexec (granting bad) sample_main).

Lemma main_runs (bad : nat) : pruns sample_main (main_log bad) (main_end bad).
Proof. apply pexec_runs. Defined.

(** A ready check that is refused, and a run that ends in peace. *)
Lemma main_starts_in_order_witness :
  start_ends sample_build no_globals (main_log 5) (Exited 1%Z) ∧
  start_ends sample_build no_globals (main_log 8) (Returned tt).
Proof.
  split.
  - exact (main_starts_in_order sample_build sample_init no_globals (main_log 5) _ (main_runs 5)).
  - exact (main_starts_in_order sample_build sample_init no_globals (main_log 8) _ (main_runs 8)).
Defined.

(** A manager that stops with an error: the traces are not flushed. *)
Lemma exit_skips_shutdown_witness :
  main_end 6 = Exited 1%Z ∧
  ((∃ tp timeout r, PEv (TracerProvider_Shutdown tp timeout) r ∈ main_log 6) ↔
   main_end 6 = Returned tt).
Proof.
  split; [reflexivity|].
  refine (proj1 (exit_skips_shutdown sample_build sample_init no_globals (main_log 6) _ (main_runs 6) _)).
  discriminate.
Defined.

Lemma main_wires_controller_witness :
  ∃ r, wired sample_build sample_init no_globals (main_log 8) tt For Owns r.
Proof.
  eexists. apply (main_wires_controller sample_build sample_init no_globals (main_log 8)
    (main_end 8) tt For Owns _ None (main_runs 8)).
  apply (list_elem_of_lookup_2 _ 8). reflexivity.
Defined.
