(* ===== verification/Catalog.v ===== *)
(** * The objects of a resource and the helpers behind them

    Names and bounds of the objects, the content of the volume claim, the
    merge of maps, and the branches of the base reconciler one by one. *)

From S2P Require Import Prelude Kube Helpers Types Effects Observability Names Options Objects.
From S2P Require Import BaseReconciler Status Controller Traffic Plan Footprint Sample Loop.

Section catalog.
Context {PF : Platform} {CC : ConditionCodec} {LC : LimitsCodec} {JC : LimitadorCodec}
  {CU : ControllerUtil} {SC : StatusConditions}.

(** ** Vocabulary *)

(** Entering a span: the context every [Start...Span] function returns. *)
Definition enter (ctx : Context) (span : Span) : Context :=
  RefreshLoggerWithCurrentSpan (ContextWithSpan ctx span).

(** ** Lemmas *)

Lemma enter_base spans ctx base :
  ctx_baseLogger ctx = Some base → ctx_baseLogger (foldl enter ctx spans) = Some base.
Proof.
  revert ctx. induction spans as [|span spans IH]; intros ctx Hb; simpl; [done|].
  apply IH. unfold enter. by rewrite (Refresh_logger _ base).
Qed.

Lemma not_subseteq_changes (desired m : gmap string string) :
  merge_changes (map_to_list desired) m ↔ ¬ desired ⊆ m.
Proof.
  unfold merge_changes. rewrite Exists_exists. split.
  - intros ([k v] & Hin & Hne) Hsub. apply elem_of_map_to_list in Hin. apply Hne. simpl.
    by eapply lookup_weaken.
  - intros Hn. destruct (decide (Exists (λ e, m !! e.1 ≠ Some e.2) (map_to_list desired))) as [H|H].
    { by apply Exists_exists. }
    destruct Hn. apply map_subseteq_spec. intros k v Hkv. apply not_Exists_Forall in H; [|apply _].
    rewrite Forall_forall in H. apply elem_of_map_to_list in Hkv. specialize (H _ Hkv). simpl in H.
    by apply dec_stable.
Qed.

(** ** Theorems *)

(** The volume claim is what the resource asks for. With storage on disk
    the claim is not marked for deletion, is mounted by one node at a time,
    asks for the size, class and volume of the spec, and for 1Gi of the default
    class when the spec leaves them out (the size also when a volume is named);
    without it the claim is marked for deletion. *)
Theorem PVC_content l :
  match spec_Storage (lim_Spec l) ≫= st_Disk with
  | None => IsObjectTaggedToDelete (pvc_ObjectMeta (PVC l)) = true
  | Some disk =>
      IsObjectTaggedToDelete (pvc_ObjectMeta (PVC l)) = false ∧
      pvc_AccessModes (PVC l) = [ReadWriteOnce] ∧
      pvc_Requests (PVC l) =
        {[ ResourceStorage := default (MustParse "1Gi") (pcr_Requests <$> (disk_PVC disk ≫= pg_Resources)) ]} ∧
      pvc_StorageClassName (PVC l) = disk_PVC disk ≫= pg_StorageClassName ∧
      pvc_VolumeName (PVC l) = default "" (disk_PVC disk ≫= pg_VolumeName)
  end ∧
  om_Name (pvc_ObjectMeta (PVC l)) = PVCName l ∧ om_Labels (pvc_ObjectMeta (PVC l)) = Labels l.
Proof.
  unfold PVC. destruct (spec_Storage (lim_Spec l) ≫= st_Disk) as [disk|].
  - destruct (disk_PVC disk) as [g|]; [|done]. split_and!; try done. simpl.
    by destruct (pg_Resources g).
  - split_and!; [apply TagObjectToDelete_tags|done..].
Qed.

(** The merge of maps. Merging into a nil pointer does nothing and
    reports no change; otherwise the map, nil or not, becomes the desired map
    over the existing one, a change is reported exactly when a desired entry
    was missing or different, and neither depends on the order in which the
    runtime iterates over the desired map. *)
Theorem MergeMapStringString_spec m desired entries :
  entries ≡ₚ map_to_list desired →
  MergeMapStringString None desired = (None, false) ∧
  MergeMapStringString (Some m) desired =
    (Some (Some (desired ∪ default ∅ m)), negb (bool_decide (desired ⊆ default ∅ m))) ∧
  merge_entries entries (default ∅ m) false =
    (desired ∪ default ∅ m, negb (bool_decide (desired ⊆ default ∅ m))).
Proof.
  intros Hp. split; [done|].
  assert (Hspec : ∀ es, es ≡ₚ map_to_list desired →
    merge_entries es (default ∅ m) false =
      (desired ∪ default ∅ m, negb (bool_decide (desired ⊆ default ∅ m)))).
  { intros es Hes.
    assert (Hnd : NoDup es.*1) by (rewrite Hes; apply NoDup_fst_map_to_list).
    rewrite merge_entries_spec by done. f_equal.
    - by rewrite (list_to_map_proper es (map_to_list desired)), list_to_map_to_list.
    - simpl. rewrite <-bool_decide_not. apply bool_decide_ext.
      rewrite <-not_subseteq_changes. unfold merge_changes. by rewrite Hes. }
  split; [|by apply Hspec]. unfold MergeMapStringString. by rewrite Hspec.
Qed.

(** Integers stay in range. The number of replicas is always a 32-bit
    integer, the nearest one to what the spec says, 1 if it says nothing; the
    ports of a decoded resource are 32-bit integers, those of the spec or the
    defaults. *)
Theorem resource_bounds l :
  decoded (lim_Spec l) →
  is_int32 (GetReplicas l) ∧ is_int32 (HTTPPort l) ∧ is_int32 (GRPCPort l) ∧
  match spec_Replicas (lim_Spec l) with
  | None => GetReplicas l = 1%Z
  | Some n => GetReplicas l = Z.max MinInt32 (Z.min MaxInt32 n) ∧
              ∀ m, is_int32 m → (Z.abs (GetReplicas l - n) ≤ Z.abs (m - n))%Z
  end.
Proof.
  intros Hd. split_and!; [apply GetReplicas_int32|by apply HTTPPort_int32|by apply GRPCPort_int32|].
  destruct (spec_Replicas (lim_Spec l)) as [n|] eqn:Hn.
  - pose proof (GetReplicas_clamps l n Hn) as ->. split; [done|].
    unfold is_int32, MinInt32, MaxInt32. lia.
  - unfold GetReplicas. by rewrite Hn.
Qed.

(** An object is applied or deleted, never both. Reconciling an object
    makes exactly one call: a delete if it carries the delete tag, whose
    not-found reply counts as success, else a forced server-side apply under
    the operator's field manager; any other error reply is the error
    returned. The object is what the caller passed. *)
Theorem ReconcileResource_one_call ctx o t out :
  logger_ready ctx → runs (ReconcileResource ctx o) t out →
  ∃ e : option ExtError,
    if IsObjectTaggedToDelete (obj_meta o)
    then traffic t = [Ev (Delete o) e] ∧
         out = Done match e with
                    | None => None
                    | Some e => if Err_IsNotFound e then None else Some (ErrExt e)
                    end
    else traffic t = [Ev (Patch_Apply o {| ao_ForceOwnership := true; ao_FieldOwner := FieldManagerName |}) e] ∧
         out = Done (ErrExt <$> e).
Proof.
  intros Hc Hr. pose proof (does_runs _ _ _ _ (ReconcileResource_does ctx o Hc) Hr) as H.
  destruct out as [err|]; [|done]. destruct H as (e & H). exists e.
  destruct (IsObjectTaggedToDelete (obj_meta o)); destruct H as [-> ->].
  - by destruct e.
  - done.
Qed.

(** Log lines carry the trace of the innermost span and of no other.
    However many spans a reconciliation has entered, the logger of its
    context is the base logger with the identifiers of the last span, or the
    base logger itself when that span is not valid. *)
Theorem logger_of_nested_spans ctx base spans span :
  FromContext (foldl enter (StoreBaseLogger ctx base) (spans ++ [span])) =
    Ok (if SpanContext_IsValid span
        then WithValues base [("trace_id", LogString (TraceID_String span));
                              ("span_id", LogString (SpanID_String span))]
        else base).
Proof.
  rewrite foldl_app. simpl. unfold enter at 1. rewrite (Refresh_logger _ base).
  - unfold FromContext, refreshed_logger, SpanFromContext. simpl.
    by destruct (SpanContext_IsValid span).
  - simpl. by apply enter_base.
Qed.

End catalog.

(** ** Witnesses *)

#[local] Existing Instances Sample.platform Sample.condition_codec Sample.limits_codec
  Sample.limitador_codec Sample.controller_util Sample.status_conditions.

(** The desired entries in the two orders. *)
Definition wanted_labels : gmap string string := {[ "app" := "limitador"; "team" := "a" ]}.

Lemma MergeMapStringString_spec_witness :
  merge_entries (reverse (map_to_list wanted_labels)) {[ "team" := "b" ]} false =
    (wanted_labels ∪ {[ "team" := "b" ]}, true).
Proof.
  exact (proj2 (proj2 (MergeMapStringString_spec (Some {[ "team" := "b" ]}) wanted_labels
           (reverse (map_to_list wanted_labels)) (reverse_Permutation _)))).
Defined.

Lemma resource_bounds_witness :
  is_int32 (GetReplicas sample) ∧ is_int32 (HTTPPort sample) ∧ is_int32 (GRPCPort sample).
Proof.
  destruct (resource_bounds sample) as (H1 & H2 & H3 & _).
  - split_and!.
    + by intros n [= <-].
    + by intros n [= <-].
    + intros ln tp n [= <-] [[= <-]|[=]] [= <-]. done.
  - split; [exact H1|]. split; [exact H2|exact H3].
Defined.

Definition service_object : object := Obj KService (Service_of sample).

Lemma ReconcileResource_one_call_witness :
  ∃ e, traffic (log_of (ReconcileResource sample_context service_object) memory_world) =
         [Ev (Patch_Apply service_object apply_opts) e].
Proof.
  destruct (ReconcileResource_one_call sample_context service_object
    (log_of (ReconcileResource sample_context service_object) memory_world)
    (end_of (ReconcileResource sample_context service_object) memory_world)) as (e & H & _).
  - split; by eexists.
  - exact (sample_runs (ReconcileResource sample_context service_object) memory_world).
  - exists e. exact H.
Defined.
