(* ===== verification/DeepCopy.v ===== *)
(** * [api/v1alpha1/zz_generated.deepcopy.go]: the generated deep copies

    Everywhere else in this development a resource is an immutable value. Here
    it is what it is in memory: structs that point to each other in a heap.
    Objects read from the manager's cache are shared, so a copy must not share
    memory with its original; the theorems show that the generated functions
    give such copies. *)

From S2P Require Import Prelude.

(** ** Memory *)

Abbreviation loc := positive.

(** A Go value: a scalar (strings, numbers, anything without pointers), a nil
    pointer or slice, a pointer to a cell, a slice with the cell of its
    array, a struct by its fields; and the content of an array. *)
Inductive scalar := SString (s : string) | SInt (z : Z).

Inductive val :=
  | VScalar (s : scalar)
  | VNil
  | VPtr (l : loc)
  | VSlice (l : loc)
  | VStruct (fs : list (string * val))
  | VArray (vs : list val).

Definition heap : Type := gmap loc val.

(** Code over the heap; [None] is a fault, such as following a pointer that is
    not one. *)
Definition mem (A : Type) : Type := heap → option (A * heap).

#[export] Instance mem_ret : MRet mem := λ A a h, Some (a, h).
#[export] Instance mem_bind : MBind mem := λ A B f m h,
  match m h with
  | Some (a, h') => f a h'
  | None => None
  end.

Definition fault {A} : mem A := λ h, None.

(** [*p] and [new(T)] with its content. *)
Definition load (l : loc) : mem val := λ h, (λ v, (v, h)) <$> h !! l.
Definition alloc (v : val) : mem loc := λ h,
  let l := fresh (dom h) in Some (l, <[l := v]> h).

(** ** The pieces the generator puts together

    A [copier] takes the content of [*in] and returns the content it leaves in
    [*out]. *)
Definition copier : Type := val → mem val.

(** [*out = *in], which copies a struct with the pointers in it; also
    [**out = **in] and [copy(out, in)] on one element. *)
Definition assign : copier := λ v, mret v.

(** [if in.X != nil { *out = new(T); in.DeepCopyInto(out) }] *)
Definition copy_pointer (c : copier) : copier := λ v,
  match v with
  | VNil => mret VNil
  | VPtr l => x ← load l; y ← c x; l' ← alloc y; mret (VPtr l')
  | _ => fault
  end.

(** The elements of an array, one after the other. *)
Fixpoint copy_each (c : copier) (vs : list val) : mem (list val) :=
  match vs with
  | [] => mret []
  | v :: vs' => w ← c v; ws ← copy_each c vs'; mret (w :: ws)
  end.

(** [if in.X != nil { *out = make([]T, len(in)); for i := range *in { ... } }] *)
Definition copy_slice (c : copier) : copier := λ v,
  match v with
  | VNil => mret VNil
  | VSlice l =>
      arr ← load l;
      match arr with
      | VArray vs => ws ← copy_each c vs; l' ← alloc (VArray ws); mret (VSlice l')
      | _ => fault
      end
  | _ => fault
  end.

(** The copier of a field; a field that is not listed keeps what [*out = *in]
    gave it. *)
Fixpoint copier_of (cs : list (string * copier)) (f : string) : copier :=
  match cs with
  | [] => assign
  | (g, c) :: cs' => if String.eqb f g then c else copier_of cs' f
  end.

Fixpoint copy_fields (cs : list (string * copier)) (fs : list (string * val))
    : mem (list (string * val)) :=
  match fs with
  | [] => mret []
  | (f, v) :: fs' => w ← copier_of cs f v; ws ← copy_fields cs fs'; mret ((f, w) :: ws)
  end.

(** A [DeepCopyInto]: [*out = *in], then the listed fields in their order. *)
Definition copy_struct (cs : list (string * copier)) : copier := λ v,
  match v with
  | VStruct fs => ws ← copy_fields cs fs; mret (VStruct ws)
  | _ => fault
  end.

(** ** The generated functions *)

(** The deep copies of [k8s.io/api] and [k8s.io/apimachinery]. *)
Class ExternalCopies := {
  Affinity_DeepCopyInto : copier;
  ResourceRequirements_DeepCopyInto : copier;
  ObjectMeta_DeepCopyInto : copier;
  ListMeta_DeepCopyInto : copier;
  Condition_DeepCopyInto : copier;
  Quantity_DeepCopy : copier
}.

Definition Ports_DeepCopyInto : copier := assign.
Definition Tracing_DeepCopyInto : copier := assign.

Definition TransportProtocol_DeepCopyInto : copier :=
  copy_struct [("Port", copy_pointer assign)].

Definition Listener_DeepCopyInto : copier :=
  copy_struct [("HTTP", copy_pointer TransportProtocol_DeepCopyInto);
               ("GRPC", copy_pointer TransportProtocol_DeepCopyInto)].

Definition RateLimit_DeepCopyInto : copier :=
  copy_struct [("Conditions", copy_slice assign); ("Variables", copy_slice assign)].

Definition Redis_DeepCopyInto : copier :=
  copy_struct [("ConfigSecretRef", copy_pointer assign)].

Definition RedisCachedOptions_DeepCopyInto : copier :=
  copy_struct [("FlushPeriod", copy_pointer assign); ("MaxCached", copy_pointer assign);
               ("ResponseTimeout", copy_pointer assign); ("BatchSize", copy_pointer assign)].

Definition RedisCached_DeepCopyInto : copier :=
  copy_struct [("ConfigSecretRef", copy_pointer assign);
               ("Options", copy_pointer RedisCachedOptions_DeepCopyInto)].

Definition PodDisruptionBudgetType_DeepCopyInto : copier :=
  copy_struct [("MaxUnavailable", copy_pointer assign); ("MinAvailable", copy_pointer assign)].

Definition LimitadorService_DeepCopyInto : copier :=
  copy_struct [("Ports", assign)].

Section generated.
Context {EC : ExternalCopies}.

Definition PersistentVolumeClaimResources_DeepCopyInto : copier :=
  copy_struct [("Requests", Quantity_DeepCopy)].

Definition PVCGenericSpec_DeepCopyInto : copier :=
  copy_struct [("StorageClassName", copy_pointer assign);
               ("Resources", copy_pointer PersistentVolumeClaimResources_DeepCopyInto);
               ("VolumeName", copy_pointer assign)].

Definition DiskSpec_DeepCopyInto : copier :=
  copy_struct [("PVC", copy_pointer PVCGenericSpec_DeepCopyInto); ("Optimize", copy_pointer assign)].

Definition Storage_DeepCopyInto : copier :=
  copy_struct [("Redis", copy_pointer Redis_DeepCopyInto);
               ("RedisCached", copy_pointer RedisCached_DeepCopyInto);
               ("Disk", copy_pointer DiskSpec_DeepCopyInto)].

Definition LimitadorSpec_DeepCopyInto : copier :=
  copy_struct [("Affinity", copy_pointer Affinity_DeepCopyInto);
               ("Replicas", copy_pointer assign);
               ("Version", copy_pointer assign);
               ("Listener", copy_pointer Listener_DeepCopyInto);
               ("Storage", copy_pointer Storage_DeepCopyInto);
               ("RateLimitHeaders", copy_pointer assign);
               ("Telemetry", copy_pointer assign);
               ("Tracing", copy_pointer assign);
               ("Limits", copy_slice RateLimit_DeepCopyInto);
               ("PodDisruptionBudget", copy_pointer PodDisruptionBudgetType_DeepCopyInto);
               ("ResourceRequirements", copy_pointer ResourceRequirements_DeepCopyInto);
               ("Verbosity", copy_pointer assign);
               ("Image", copy_pointer assign);
               ("ImagePullSecrets", copy_slice assign);
               ("MetricLabelsDefault", copy_pointer assign)].

Definition LimitadorStatus_DeepCopyInto : copier :=
  copy_struct [("Conditions", copy_slice Condition_DeepCopyInto); ("Service", copy_pointer assign)].

Definition Limitador_DeepCopyInto : copier :=
  copy_struct [("TypeMeta", assign); ("ObjectMeta", ObjectMeta_DeepCopyInto);
               ("Spec", LimitadorSpec_DeepCopyInto); ("Status", LimitadorStatus_DeepCopyInto)].

Definition LimitadorList_DeepCopyInto : copier :=
  copy_struct [("TypeMeta", assign); ("ListMeta", ListMeta_DeepCopyInto);
               ("Items", copy_slice Limitador_DeepCopyInto)].

(** [in.DeepCopy()] on a pointer: nil for nil, else a new struct filled by
    [DeepCopyInto]. *)
Definition DiskSpec_DeepCopy : copier := copy_pointer DiskSpec_DeepCopyInto.
Definition Limitador_DeepCopy : copier := copy_pointer Limitador_DeepCopyInto.
Definition LimitadorList_DeepCopy : copier := copy_pointer LimitadorList_DeepCopyInto.
Definition LimitadorService_DeepCopy : copier := copy_pointer LimitadorService_DeepCopyInto.
Definition LimitadorSpec_DeepCopy : copier := copy_pointer LimitadorSpec_DeepCopyInto.
Definition LimitadorStatus_DeepCopy : copier := copy_pointer LimitadorStatus_DeepCopyInto.
Definition Listener_DeepCopy : copier := copy_pointer Listener_DeepCopyInto.
Definition PVCGenericSpec_DeepCopy : copier := copy_pointer PVCGenericSpec_DeepCopyInto.
Definition PersistentVolumeClaimResources_DeepCopy : copier := copy_pointer PersistentVolumeClaimResources_DeepCopyInto.
Definition PodDisruptionBudgetType_DeepCopy : copier := copy_pointer PodDisruptionBudgetType_DeepCopyInto.
Definition Ports_DeepCopy : copier := copy_pointer Ports_DeepCopyInto.
Definition RateLimit_DeepCopy : copier := copy_pointer RateLimit_DeepCopyInto.
Definition Redis_DeepCopy : copier := copy_pointer Redis_DeepCopyInto.
Definition RedisCached_DeepCopy : copier := copy_pointer RedisCached_DeepCopyInto.
Definition RedisCachedOptions_DeepCopy : copier := copy_pointer RedisCachedOptions_DeepCopyInto.
Definition Storage_DeepCopy : copier := copy_pointer Storage_DeepCopyInto.
Definition Tracing_DeepCopy : copier := copy_pointer Tracing_DeepCopyInto.
Definition TransportProtocol_DeepCopy : copier := copy_pointer TransportProtocol_DeepCopyInto.

(** [in.DeepCopyObject()]: a nil interface for a nil copy, else the copy. *)
Definition copy_object (copy : copier) : copier := λ v,
  c ← copy v;
  match c with
  | VNil => mret VNil
  | c => mret c
  end.

Definition Limitador_DeepCopyObject : copier := copy_object Limitador_DeepCopy.
Definition LimitadorList_DeepCopyObject : copier := copy_object LimitadorList_DeepCopy.

End generated.

(** ** The Go types, and what a value in memory stands for *)

(** The content of a value, without addresses. *)
Inductive tree :=
  | TScalar (s : scalar)
  | TNil
  | TPtr (t : tree)
  | TSlice (ts : list tree)
  | TStruct (fs : list (string * tree)).

(** [repr h d t v]: in [h] the value [v] stands for [t], and every cell it
    reaches is outside [d]. *)
Fixpoint repr (h : heap) (d : gset loc) (t : tree) (v : val) : Prop :=
  match t with
  | TScalar s => v = VScalar s
  | TNil => v = VNil
  | TPtr u => ∃ l x, v = VPtr l ∧ (l ∉ d) ∧ h !! l = Some x ∧ repr h d u x
  | TSlice us =>
      ∃ l vs, v = VSlice l ∧ (l ∉ d) ∧ h !! l = Some (VArray vs) ∧
        (fix each us vs := match us, vs with
                           | [], [] => True
                           | u :: us', v :: vs' => repr h d u v ∧ each us' vs'
                           | _, _ => False
                           end) us vs
  | TStruct fs =>
      ∃ gs, v = VStruct gs ∧
        (fix fields fs gs := match fs, gs with
                             | [], [] => True
                             | (f, u) :: fs', (g, v) :: gs' => f = g ∧ repr h d u v ∧ fields fs' gs'
                             | _, _ => False
                             end) fs gs
  end.

(** The Go types of the API, down to the external ones, each given by the
    values its external copier is for. *)
Inductive gotype :=
  | GScalar
  | GPtr (g : gotype)
  | GSlice (g : gotype)
  | GStruct (fs : list (string * gotype))
  | GExt (P : tree → Prop).

Fixpoint has_type (g : gotype) (t : tree) : Prop :=
  match g, t with
  | GScalar, TScalar _ => True
  | GPtr _, TNil | GSlice _, TNil => True
  | GPtr g, TPtr u => has_type g u
  | GSlice g, TSlice us => Forall (has_type g) us
  | GStruct fs, TStruct us =>
      (fix fields fs us := match fs, us with
                           | [], [] => True
                           | (f, g) :: fs', (f', u) :: us' => f = f' ∧ has_type g u ∧ fields fs' us'
                           | _, _ => False
                           end) fs us
  | GExt P, t => P t
  | _, _ => False
  end.

(** ** The types of limitador_types.go in memory *)

(** The contents the external copiers are for. *)
Class ExternalContents := {
  Affinity_content : tree → Prop;
  ResourceRequirements_content : tree → Prop;
  ObjectMeta_content : tree → Prop;
  ListMeta_content : tree → Prop;
  Condition_content : tree → Prop;
  Quantity_content : tree → Prop
}.

Section types.
Context {EX : ExternalContents}.

Definition TypeMeta_type : gotype := GStruct [("Kind", GScalar); ("APIVersion", GScalar)].
Definition LocalObjectReference_type : gotype := GStruct [("Name", GScalar)].
Definition IntOrString_type : gotype :=
  GStruct [("Type", GScalar); ("IntVal", GScalar); ("StrVal", GScalar)].

Definition TransportProtocol_type : gotype := GStruct [("Port", GPtr GScalar)].
Definition Listener_type : gotype :=
  GStruct [("HTTP", GPtr TransportProtocol_type); ("GRPC", GPtr TransportProtocol_type)].
Definition Redis_type : gotype := GStruct [("ConfigSecretRef", GPtr LocalObjectReference_type)].
Definition RedisCachedOptions_type : gotype :=
  GStruct [("FlushPeriod", GPtr GScalar); ("MaxCached", GPtr GScalar);
           ("ResponseTimeout", GPtr GScalar); ("BatchSize", GPtr GScalar)].
Definition RedisCached_type : gotype :=
  GStruct [("ConfigSecretRef", GPtr LocalObjectReference_type);
           ("Options", GPtr RedisCachedOptions_type)].
Definition PersistentVolumeClaimResources_type : gotype :=
  GStruct [("Requests", GExt Quantity_content)].
Definition PVCGenericSpec_type : gotype :=
  GStruct [("StorageClassName", GPtr GScalar);
           ("Resources", GPtr PersistentVolumeClaimResources_type); ("VolumeName", GPtr GScalar)].
Definition DiskSpec_type : gotype :=
  GStruct [("PVC", GPtr PVCGenericSpec_type); ("Optimize", GPtr GScalar)].
Definition Storage_type : gotype :=
  GStruct [("Redis", GPtr Redis_type); ("RedisCached", GPtr RedisCached_type);
           ("Disk", GPtr DiskSpec_type)].
Definition RateLimit_type : gotype :=
  GStruct [("Conditions", GSlice GScalar); ("MaxValue", GScalar); ("Namespace", GScalar);
           ("Seconds", GScalar); ("Variables", GSlice GScalar); ("Name", GScalar)].
Definition Tracing_type : gotype := GStruct [("Endpoint", GScalar)].
Definition PodDisruptionBudgetType_type : gotype :=
  GStruct [("MaxUnavailable", GPtr IntOrString_type); ("MinAvailable", GPtr IntOrString_type)].
Definition LimitadorSpec_type : gotype :=
  GStruct [("Affinity", GPtr (GExt Affinity_content)); ("Replicas", GPtr GScalar);
           ("Version", GPtr GScalar); ("Listener", GPtr Listener_type);
           ("Storage", GPtr Storage_type); ("RateLimitHeaders", GPtr GScalar);
           ("Telemetry", GPtr GScalar); ("Tracing", GPtr Tracing_type);
           ("Limits", GSlice RateLimit_type);
           ("PodDisruptionBudget", GPtr PodDisruptionBudgetType_type);
           ("ResourceRequirements", GPtr (GExt ResourceRequirements_content));
           ("Verbosity", GPtr GScalar); ("Image", GPtr GScalar);
           ("ImagePullSecrets", GSlice LocalObjectReference_type);
           ("MetricLabelsDefault", GPtr GScalar)].
Definition Ports_type : gotype := GStruct [("HTTP", GScalar); ("GRPC", GScalar)].
Definition LimitadorService_type : gotype := GStruct [("Host", GScalar); ("Ports", Ports_type)].
Definition LimitadorStatus_type : gotype :=
  GStruct [("ObservedGeneration", GScalar); ("Conditions", GSlice (GExt Condition_content));
           ("Service", GPtr LimitadorService_type)].
Definition Limitador_type : gotype :=
  GStruct [("TypeMeta", TypeMeta_type); ("ObjectMeta", GExt ObjectMeta_content);
           ("Spec", LimitadorSpec_type); ("Status", LimitadorStatus_type)].
Definition LimitadorList_type : gotype :=
  GStruct [("TypeMeta", TypeMeta_type); ("ListMeta", GExt ListMeta_content);
           ("Items", GSlice Limitador_type)].

End types.

(** What a deep copy is: it succeeds, changes no cell there was, and the copy
    has the same content in new cells only. *)
Definition deep_copies (T : tree → Prop) (c : copier) : Prop :=
  ∀ h t v, T t → repr h ∅ t v →
    ∃ v' h', c v h = Some (v', h') ∧ h ⊆ h' ∧ repr h' (dom h) t v'.

(** ** Lemmas *)

Create HintDb deepcopy discriminated.

Lemma tree_induction (P : tree → Prop) :
  (∀ s, P (TScalar s)) → P TNil → (∀ t, P t → P (TPtr t)) →
  (∀ ts, Forall P ts → P (TSlice ts)) →
  (∀ fs, Forall (λ f, P (snd f)) fs → P (TStruct fs)) → ∀ t, P t.
Proof.
  intros Hs Hn Hp Hl Hf. fix IH 1. intros [s| |t|ts|fs].
  - apply Hs.
  - apply Hn.
  - apply Hp, IH.
  - apply Hl. induction ts as [|t ts IHts]; constructor; [apply IH|exact IHts].
  - apply Hf. induction fs as [|[f t] fs IHfs]; constructor; [apply IH|exact IHfs].
Qed.

Lemma gotype_induction (P : gotype → Prop) :
  P GScalar → (∀ g, P g → P (GPtr g)) → (∀ g, P g → P (GSlice g)) →
  (∀ fs, Forall (λ f, P (snd f)) fs → P (GStruct fs)) → (∀ T, P (GExt T)) → ∀ g, P g.
Proof.
  intros Hs Hp Hl Hf He. fix IH 1. intros [|g|g|fs|T].
  - apply Hs.
  - apply Hp, IH.
  - apply Hl, IH.
  - apply Hf. induction fs as [|[f g] fs IHfs]; constructor; [apply IH|exact IHfs].
  - apply He.
Qed.

(** The nested recursions, as relations on lists. *)
Definition field_repr (h : heap) (d : gset loc) (p : string * tree) (q : string * val) : Prop :=
  fst p = fst q ∧ repr h d (snd p) (snd q).

Definition field_type (p : string * gotype) (q : string * tree) : Prop :=
  fst p = fst q ∧ has_type (snd p) (snd q).

Lemma repr_slice h d us v :
  repr h d (TSlice us) v ↔
  ∃ l vs, v = VSlice l ∧ (l ∉ d) ∧ h !! l = Some (VArray vs) ∧ Forall2 (repr h d) us vs.
Proof.
  simpl. split; intros (l & vs & -> & Hl & Hh & H); exists l, vs; do 3 (split; [done|]); clear Hl Hh.
  - revert vs H. induction us as [|u us IH]; intros [|v vs] H; try done.
    destruct H. constructor; eauto.
  - induction H; eauto.
Qed.

Lemma repr_struct h d fs v :
  repr h d (TStruct fs) v ↔ ∃ gs, v = VStruct gs ∧ Forall2 (field_repr h d) fs gs.
Proof.
  simpl. split; intros (gs & -> & H); exists gs; (split; [done|]).
  - revert gs H. induction fs as [|[f u] fs IH]; intros [|[g v] gs] H; try done.
    destruct H as (? & ? & ?). constructor; [by split|eauto].
  - induction H as [|[f u] [g v] fs gs [? ?] H IH]; [done|]. eauto.
Qed.

Lemma has_type_struct fs t :
  has_type (GStruct fs) t ↔ ∃ us, t = TStruct us ∧ Forall2 field_type fs us.
Proof.
  split.
  - destruct t as [s| |t|ts|us]; try done. intros H. exists us. split; [done|]. revert us H.
    induction fs as [|[f g] fs IH]; intros [|[f' u] us] H; try done.
    destruct H as (? & ? & ?). constructor; [by split|eauto].
  - intros (us & -> & H). simpl. induction H as [|[f g] [f' u] fs us [? ?] H IH]; [done|]. eauto.
Qed.

(** Only the cells outside [d] matter. *)
Lemma repr_weaken h d h' d' t v :
  (∀ l x, l ∉ d → h !! l = Some x → h' !! l = Some x) → d' ⊆ d → repr h d t v → repr h' d' t v.
Proof.
  intros Hh Hd. revert v. induction t as [s| |t IH|ts IH|fs IH] using tree_induction; intros v.
  - done.
  - done.
  - simpl. intros (l & x & -> & Hl & Hx & Hr). exists l, x. split_and!; [done|set_solver|by apply Hh|by apply IH].
  - rewrite !repr_slice. intros (l & vs & -> & Hl & Hx & Hr). exists l, vs.
    split_and!; [done|set_solver|by apply Hh|]. clear Hx.
    induction Hr as [|u v us vs Hu Hr IHr]; [constructor|].
    apply Forall_cons in IH as [IHu IH]. constructor; auto.
  - rewrite !repr_struct. intros (gs & -> & Hr). exists gs. split; [done|].
    induction Hr as [|p q us vs [Hn Hu] Hr IHr]; [constructor|].
    apply Forall_cons in IH as [IHu IH]. constructor; [split; auto|auto].
Qed.

Lemma repr_grow h h' d t v : h ⊆ h' → repr h d t v → repr h' d t v.
Proof. intros Hh. apply repr_weaken; [|done]. intros l x _ Hx. by eapply lookup_weaken. Qed.

Lemma repr_avoid h d d' t v : d' ⊆ d → repr h d t v → repr h d' t v.
Proof. intros Hd. by apply repr_weaken. Qed.

(** Types without pointers. *)
Fixpoint flat_type (g : gotype) : bool :=
  match g with
  | GScalar => true
  | GStruct fs => (fix all fs := match fs with [] => true | (_, g) :: fs' => flat_type g && all fs' end) fs
  | _ => false
  end.

Lemma flat_repr g t h d h' d' v :
  flat_type g = true → has_type g t → repr h d t v → repr h' d' t v.
Proof.
  revert t v. induction g as [|g IH|g IH|fs IH|T] using gotype_induction; intros t v Hg; try done.
  - by destruct t.
  - rewrite has_type_struct. intros (us & -> & Hus). rewrite !repr_struct.
    intros (gs & -> & Hr). exists gs. split; [done|]. simpl in Hg. revert gs Hr.
    induction Hus as [|[f g] [f' u] fs us [Hf Ht] Hus IHus]; intros gs Hr.
    { apply Forall2_nil_inv_l in Hr as ->. constructor. }
    apply Forall2_cons_inv_l in Hr as ([f2 v] & gs' & [Hn Hu] & Hr & ->).
    apply andb_true_iff in Hg as [Hg1 Hg]. apply Forall_cons in IH as [IH1 IH].
    constructor; [|by apply IHus]. split; [done|]. by eapply IH1.
Qed.

Lemma subseteq_dom_grow (h h' : heap) : h ⊆ h' → dom h ⊆ dom h'.
Proof. apply subseteq_dom. Qed.

(** What was copied stays copied as the heap grows, seen from an earlier heap. *)
Lemma repr_later h0 h1 h2 t v :
  h0 ⊆ h1 → repr h1 (dom h0) t v → h1 ⊆ h2 → repr h2 (dom h0) t v.
Proof. intros _ H Hh. by eapply repr_grow. Qed.

Lemma deep_assign g : flat_type g = true → deep_copies (has_type g) assign.
Proof.
  intros Hg h t v Ht Hr. exists v, h. split_and!; [done..|]. by eapply flat_repr.
Qed.

Lemma deep_ext T c : deep_copies T c → deep_copies (has_type (GExt T)) c.
Proof. done. Qed.

(** One step of code over the heap. *)
Lemma bind_run {A B} (m : mem A) (f : A → mem B) h a h1 r :
  m h = Some (a, h1) → f a h1 = r → (m ≫= f) h = r.
Proof. unfold mbind, mem_bind. by intros ->. Qed.

Lemma load_run l (h : heap) x : h !! l = Some x → load l h = Some (x, h).
Proof. unfold load. by intros ->. Qed.

(** A new cell. *)
Lemma alloc_fresh v (h : heap) :
  ∃ l, alloc v h = Some (l, <[l:=v]> h) ∧ l ∉ dom h ∧ h ⊆ <[l:=v]> h.
Proof.
  exists (fresh (dom h)). split; [done|]. pose proof (is_fresh (dom h)) as Hf. split; [done|].
  apply insert_subseteq. by apply not_elem_of_dom.
Qed.

Lemma deep_pointer g c : deep_copies (has_type g) c → deep_copies (has_type (GPtr g)) (copy_pointer c).
Proof.
  intros Hc h [s| |u|us|fs] v Ht Hr; try done; simpl in Hr.
  { subst v. by exists VNil, h. }
  destruct Hr as (l & x & -> & _ & Hx & Hu).
  destruct (Hc h u x Ht Hu) as (y & h1 & Hy & Hh & Hry).
  destruct (alloc_fresh y h1) as (l' & Hl & Hf & Hh').
  exists (VPtr l'), (<[l':=y]> h1). split_and!.
  - eapply bind_run; [by apply load_run|]. eapply bind_run; [exact Hy|]. by eapply bind_run.
  - by trans h1.
  - exists l', y. split_and!; [done| |apply lookup_insert_eq|by eapply repr_grow].
    intros Hd. apply Hf. by apply (subseteq_dom_grow h h1).
Qed.

Lemma deep_each g c h us vs :
  deep_copies (has_type g) c → Forall (has_type g) us → Forall2 (repr h ∅) us vs →
  ∃ ws h', copy_each c vs h = Some (ws, h') ∧ h ⊆ h' ∧ Forall2 (repr h' (dom h)) us ws.
Proof.
  intros Hc Ht Hr. revert h Hr. revert vs. induction Ht as [|u us Hu Ht IH]; intros vs h Hr.
  { apply Forall2_nil_inv_l in Hr as ->. by exists [], h. }
  apply Forall2_cons_inv_l in Hr as (v & vs' & Hv & Hr & ->).
  destruct (Hc h u v Hu Hv) as (w & h1 & Hw & Hh1 & Hrw).
  destruct (IH vs' h1) as (ws & h2 & Hws & Hh2 & Hrs).
  { eapply Forall2_impl; [exact Hr|]. intros ? ?. by apply repr_grow. }
  exists (w :: ws), h2. split_and!.
  - eapply bind_run; [exact Hw|]. by eapply bind_run.
  - by trans h1.
  - constructor; [by eapply repr_grow|]. eapply Forall2_impl; [exact Hrs|].
    intros ? ?. by apply repr_avoid, subseteq_dom_grow.
Qed.

Lemma deep_slice g c : deep_copies (has_type g) c → deep_copies (has_type (GSlice g)) (copy_slice c).
Proof.
  intros Hc h [s| |u|us|fs] v Ht Hr; try done.
  { simpl in Hr. subst v. by exists VNil, h. }
  apply repr_slice in Hr as (l & vs & -> & _ & Hx & Hu).
  destruct (deep_each g c h us vs Hc Ht Hu) as (ws & h1 & Hw & Hh & Hrw).
  destruct (alloc_fresh (VArray ws) h1) as (l' & Hl & Hf & Hh').
  exists (VSlice l'), (<[l':=VArray ws]> h1). split_and!.
  - eapply bind_run; [by apply load_run|]. cbn beta iota. eapply bind_run; [exact Hw|].
    by eapply bind_run.
  - by trans h1.
  - apply repr_slice. exists l', ws. split_and!; [done| |apply lookup_insert_eq|].
    + intros Hd. apply Hf. by apply (subseteq_dom_grow h h1).
    + eapply Forall2_impl; [exact Hrw|]. intros ? ?. by apply repr_grow.
Qed.

(** A struct is copied deeply when each field is copied by a copier for its type. *)
Lemma deep_struct fs cs :
  Forall (λ f, deep_copies (has_type (snd f)) (copier_of cs (fst f))) fs →
  deep_copies (has_type (GStruct fs)) (copy_struct cs).
Proof.
  intros Hcs h t v (us & -> & Ht)%has_type_struct (gs & -> & Hr)%repr_struct.
  assert (∃ ws h', copy_fields cs gs h = Some (ws, h') ∧ h ⊆ h' ∧ Forall2 (field_repr h' (dom h)) us ws)
    as (ws & h' & Hw & Hh & Hrw).
  { revert h gs Hr. induction Ht as [|[f g] [f' u] fs us [Hf Hu] Ht IH]; intros h gs Hr.
    { apply Forall2_nil_inv_l in Hr as ->. by exists [], h. }
    apply Forall2_cons_inv_l in Hr as ([f2 v] & gs' & [Hn Hv] & Hr & ->). simpl in *. subst f' f2.
    apply Forall_cons in Hcs as [Hc Hcs].
    destruct (Hc h u v Hu Hv) as (w & h1 & Hw & Hh1 & Hrw).
    destruct (IH Hcs h1 gs') as (ws & h2 & Hws & Hh2 & Hrs).
    { eapply Forall2_impl; [exact Hr|]. intros ? ? [? ?]. split; [done|]. by eapply repr_grow. }
    exists ((f, w) :: ws), h2. split_and!.
    - eapply bind_run; [exact Hw|]. by eapply bind_run.
    - by trans h1.
    - constructor; [split; [done|by eapply repr_grow]|]. eapply Forall2_impl; [exact Hrs|].
      intros ? ? [? ?]. split; [done|].
      eapply repr_avoid; [by apply subseteq_dom_grow|done]. }
  exists (VStruct ws), h'. split_and!; [|done|].
  - by eapply bind_run.
  - apply repr_struct. by exists ws.
Qed.

#[export] Hint Resolve deep_assign deep_ext deep_pointer deep_slice : deepcopy.
#[export] Hint Extern 1 (flat_type _ = true) => reflexivity : deepcopy.

(** Field by field. *)
Ltac deep_copy :=
  apply deep_struct; repeat (apply Forall_cons; split; [cbn [fst snd copier_of String.eqb Ascii.eqb Bool.eqb]|]);
  [..|apply Forall_nil; exact I].

(** ** Theorems *)

(** The external copiers make deep copies of their contents. *)
Class ExternalLaws `{ExternalCopies, ExternalContents} := {
  Affinity_deep : deep_copies Affinity_content Affinity_DeepCopyInto;
  ResourceRequirements_deep :
    deep_copies ResourceRequirements_content ResourceRequirements_DeepCopyInto;
  ObjectMeta_deep : deep_copies ObjectMeta_content ObjectMeta_DeepCopyInto;
  ListMeta_deep : deep_copies ListMeta_content ListMeta_DeepCopyInto;
  Condition_deep : deep_copies Condition_content Condition_DeepCopyInto;
  Quantity_deep : deep_copies Quantity_content Quantity_DeepCopy
}.

#[export] Hint Resolve Affinity_deep ResourceRequirements_deep ObjectMeta_deep ListMeta_deep
  Condition_deep Quantity_deep : deepcopy.

Section copies.
Context `{EL : ExternalLaws}.

Ltac deep := deep_copy; eauto 6 with deepcopy.

Lemma TransportProtocol_deep : deep_copies (has_type TransportProtocol_type) TransportProtocol_DeepCopyInto.
Proof. deep. Qed.
#[local] Hint Resolve TransportProtocol_deep : deepcopy.

Lemma Listener_deep : deep_copies (has_type Listener_type) Listener_DeepCopyInto.
Proof. deep. Qed.

Lemma RateLimit_deep : deep_copies (has_type RateLimit_type) RateLimit_DeepCopyInto.
Proof. deep. Qed.

Lemma Redis_deep : deep_copies (has_type Redis_type) Redis_DeepCopyInto.
Proof. deep. Qed.

Lemma RedisCachedOptions_deep :
  deep_copies (has_type RedisCachedOptions_type) RedisCachedOptions_DeepCopyInto.
Proof. deep. Qed.
#[local] Hint Resolve Listener_deep RateLimit_deep Redis_deep RedisCachedOptions_deep : deepcopy.

Lemma RedisCached_deep : deep_copies (has_type RedisCached_type) RedisCached_DeepCopyInto.
Proof. deep. Qed.

Lemma PersistentVolumeClaimResources_deep :
  deep_copies (has_type PersistentVolumeClaimResources_type) PersistentVolumeClaimResources_DeepCopyInto.
Proof. deep. Qed.
#[local] Hint Resolve RedisCached_deep PersistentVolumeClaimResources_deep : deepcopy.

Lemma PVCGenericSpec_deep : deep_copies (has_type PVCGenericSpec_type) PVCGenericSpec_DeepCopyInto.
Proof. deep. Qed.
#[local] Hint Resolve PVCGenericSpec_deep : deepcopy.

Lemma DiskSpec_deep : deep_copies (has_type DiskSpec_type) DiskSpec_DeepCopyInto.
Proof. deep. Qed.
#[local] Hint Resolve DiskSpec_deep : deepcopy.

Lemma Storage_deep : deep_copies (has_type Storage_type) Storage_DeepCopyInto.
Proof. deep. Qed.

Lemma PodDisruptionBudgetType_deep :
  deep_copies (has_type PodDisruptionBudgetType_type) PodDisruptionBudgetType_DeepCopyInto.
Proof. deep. Qed.

Lemma LimitadorService_deep : deep_copies (has_type LimitadorService_type) LimitadorService_DeepCopyInto.
Proof. deep. Qed.
#[local] Hint Resolve Storage_deep PodDisruptionBudgetType_deep LimitadorService_deep : deepcopy.

Lemma LimitadorSpec_deep : deep_copies (has_type LimitadorSpec_type) LimitadorSpec_DeepCopyInto.
Proof. deep. Qed.

Lemma LimitadorStatus_deep : deep_copies (has_type LimitadorStatus_type) LimitadorStatus_DeepCopyInto.
Proof. deep. Qed.
#[local] Hint Resolve LimitadorSpec_deep LimitadorStatus_deep : deepcopy.

Lemma Limitador_deep : deep_copies (has_type Limitador_type) Limitador_DeepCopyInto.
Proof. deep. Qed.
#[local] Hint Resolve Limitador_deep : deepcopy.

Lemma LimitadorList_deep : deep_copies (has_type LimitadorList_type) LimitadorList_DeepCopyInto.
Proof. deep. Qed.

(** Every generated [DeepCopy] with the type it is for. *)
Definition generated : list (gotype * copier) :=
  [ (DiskSpec_type, DiskSpec_DeepCopy);
    (Limitador_type, Limitador_DeepCopy);
    (LimitadorList_type, LimitadorList_DeepCopy);
    (LimitadorService_type, LimitadorService_DeepCopy);
    (LimitadorSpec_type, LimitadorSpec_DeepCopy);
    (LimitadorStatus_type, LimitadorStatus_DeepCopy);
    (Listener_type, Listener_DeepCopy);
    (PVCGenericSpec_type, PVCGenericSpec_DeepCopy);
    (PersistentVolumeClaimResources_type, PersistentVolumeClaimResources_DeepCopy);
    (PodDisruptionBudgetType_type, PodDisruptionBudgetType_DeepCopy);
    (Ports_type, Ports_DeepCopy);
    (RateLimit_type, RateLimit_DeepCopy);
    (Redis_type, Redis_DeepCopy);
    (RedisCached_type, RedisCached_DeepCopy);
    (RedisCachedOptions_type, RedisCachedOptions_DeepCopy);
    (Storage_type, Storage_DeepCopy);
    (Tracing_type, Tracing_DeepCopy);
    (TransportProtocol_type, TransportProtocol_DeepCopy) ].

(** A copy does not change what [DeepCopyObject] makes of it. *)
Lemma copy_object_same c : ∀ v h, copy_object c v h = c v h.
Proof.
  intros v h. unfold copy_object, mbind, mem_bind.
  destruct (c v h) as [[w h']|]; [by destruct w|done].
Qed.

(** C30: the generated copies are deep. For each of the eighteen types,
    [DeepCopy] on a pointer, nil or not, to a value of the type returns without
    a fault a pointer to the same content, changes no cell that existed, and
    reaches new cells only: no pointer, slice or nested struct is shared. *)
Theorem generated_deep :
  Forall (λ p, deep_copies (has_type (GPtr (fst p))) (snd p)) generated.
Proof.
  unfold generated. repeat (apply Forall_cons; split; [apply deep_pointer; cbn [fst]|]);
    [..|apply Forall_nil; exact I].
  all: eauto using Redis_deep, LimitadorService_deep, LimitadorSpec_deep, LimitadorStatus_deep,
    LimitadorList_deep, RateLimit_deep, Storage_deep with deepcopy.
Qed.

(** C21: a copied resource is independent. The object [DeepCopyObject] makes
    of a resource stands for the same resource; whatever is then written to
    cells that did not exist before, the original still stands for it, and
    whatever is written to cells that did, the copy does. *)
Theorem copied_resource_independent h t v :
  has_type (GPtr Limitador_type) t → repr h ∅ t v →
  ∃ v' h', Limitador_DeepCopyObject v h = Some (v', h') ∧ repr h' ∅ t v' ∧
    (∀ h'', (∀ l, l ∈ dom h → h'' !! l = h' !! l) → repr h'' ∅ t v) ∧
    (∀ h'', (∀ l, l ∉ dom h → h'' !! l = h' !! l) → repr h'' ∅ t v').
Proof.
  intros Ht Hr. destruct (deep_pointer _ _ Limitador_deep h t v Ht Hr) as (v' & h' & Hc & Hh & Hr').
  exists v', h'. split_and!.
  - unfold Limitador_DeepCopyObject. by rewrite copy_object_same.
  - eapply repr_avoid; [apply empty_subseteq|exact Hr'].
  - intros h'' Hsame. eapply repr_weaken; [|reflexivity|exact Hr]. intros l x _ Hx.
    rewrite Hsame by (by apply elem_of_dom_2 in Hx). by eapply lookup_weaken.
  - intros h'' Hsame. eapply repr_weaken; [|apply empty_subseteq|exact Hr']. intros l x Hl Hx.
    by rewrite Hsame.
Qed.

End copies.

(** ** Witnesses *)

(** External values without pointers, copied by assignment. *)
#[local] Instance flat_copies : ExternalCopies := {|
  Affinity_DeepCopyInto := assign;
  ResourceRequirements_DeepCopyInto := assign;
  ObjectMeta_DeepCopyInto := assign;
  ListMeta_DeepCopyInto := assign;
  Condition_DeepCopyInto := assign;
  Quantity_DeepCopy := assign
|}.

#[local] Instance flat_contents : ExternalContents := {|
  Affinity_content := has_type GScalar;
  ResourceRequirements_content := has_type GScalar;
  ObjectMeta_content := has_type GScalar;
  ListMeta_content := has_type GScalar;
  Condition_content := has_type GScalar;
  Quantity_content := has_type GScalar
|}.

#[local] Instance flat_laws : ExternalLaws.
Proof. constructor; by apply deep_assign. Defined.

(** A resource with two limits, on disk, of which only the version is set
    besides. *)
Definition text (s : string) : val := VScalar (SString s).

Definition memory_spec : val :=
  VStruct [("Affinity", VNil); ("Replicas", VNil); ("Version", VPtr 4); ("Listener", VNil);
           ("Storage", VPtr 2); ("RateLimitHeaders", VNil); ("Telemetry", VNil); ("Tracing", VNil);
           ("Limits", VSlice 5); ("PodDisruptionBudget", VNil); ("ResourceRequirements", VNil);
           ("Verbosity", VNil); ("Image", VNil); ("ImagePullSecrets", VNil);
           ("MetricLabelsDefault", VNil)].

Definition memory_limit (variables : val) : val :=
  VStruct [("Conditions", VNil); ("MaxValue", VScalar (SInt 10)); ("Namespace", text "toystore");
           ("Seconds", VScalar (SInt 60)); ("Variables", variables); ("Name", text "")].

Definition memory_limitador : val :=
  VStruct [("TypeMeta", VStruct [("Kind", text "Limitador"); ("APIVersion", text "v1alpha1")]);
           ("ObjectMeta", text "default/sample"); ("Spec", memory_spec);
           ("Status", VStruct [("ObservedGeneration", VScalar (SInt 0)); ("Conditions", VNil);
                               ("Service", VNil)])].

Definition memory_heap : heap :=
  {[ 1%positive := memory_limitador;
     2%positive := VStruct [("Redis", VNil); ("RedisCached", VNil); ("Disk", VPtr 3)];
     3%positive := VStruct [("PVC", VNil); ("Optimize", VNil)];
     4%positive := text "1.6.0";
     5%positive := VArray [memory_limit (VSlice 6); memory_limit VNil];
     6%positive := VArray [text "user_id"] ]}.

(** What it stands for. *)
Definition tree_text (s : string) : tree := TScalar (SString s).

Definition limit_tree (variables : tree) : tree :=
  TStruct [("Conditions", TNil); ("MaxValue", TScalar (SInt 10)); ("Namespace", tree_text "toystore");
           ("Seconds", TScalar (SInt 60)); ("Variables", variables); ("Name", tree_text "")].

Definition limitador_tree : tree :=
  TStruct [("TypeMeta", TStruct [("Kind", tree_text "Limitador"); ("APIVersion", tree_text "v1alpha1")]);
           ("ObjectMeta", tree_text "default/sample");
           ("Spec", TStruct
             [("Affinity", TNil); ("Replicas", TNil); ("Version", TPtr (tree_text "1.6.0"));
              ("Listener", TNil);
              ("Storage", TPtr (TStruct [("Redis", TNil); ("RedisCached", TNil);
                 ("Disk", TPtr (TStruct [("PVC", TNil); ("Optimize", TNil)]))]));
              ("RateLimitHeaders", TNil); ("Telemetry", TNil); ("Tracing", TNil);
              ("Limits", TSlice [limit_tree (TSlice [tree_text "user_id"]); limit_tree TNil]);
              ("PodDisruptionBudget", TNil); ("ResourceRequirements", TNil);
              ("Verbosity", TNil); ("Image", TNil); ("ImagePullSecrets", TNil);
              ("MetricLabelsDefault", TNil)]);
           ("Status", TStruct [("ObservedGeneration", TScalar (SInt 0)); ("Conditions", TNil);
                               ("Service", TNil)])].

Lemma copied_resource_independent_witness :
  ∃ v' h', Limitador_DeepCopyObject (VPtr 1) memory_heap = Some (v', h') ∧
    repr h' ∅ (TPtr limitador_tree) v'.
Proof.
  destruct (copied_resource_independent memory_heap (TPtr limitador_tree) (VPtr 1)) as (v' & h' & H1 & H2 & _).
  - cbn. repeat (first [split|constructor]).
  - cbn. repeat first [reflexivity|apply not_elem_of_empty|exact I|split|eexists].
  - exists v', h'. split; [exact H1|exact H2].
Defined.

Lemma generated_deep_witness : Forall (λ p, deep_copies (has_type (GPtr (fst p))) (snd p)) generated.
Proof. exact generated_deep. Defined.
